(* ===== verification/_CoqProject ===== *)
-Q . S2P
Prelude.v
GoStrings.v
GoEncoding.v
GoRunes.v
GoJSON.v
GoNet.v
GoConv.v
GoTime.v
GoURL.v
GoURLSpec.v
Config.v
Bootstrap.v
StateFile.v
Db.v
DbTest.v
DbTestSpec.v
Session.v
Http.v
HttpSpec.v
Routes.v
ServerSpec.v
Crypto.v
Cache.v
CacheSpec.v
Metrics.v
Migrate.v
MigrateSpec.v
Web.v
Components.v
ComponentsSpec.v
Uuids.v
RateLimit.v
RateLimitSpec.v
Exif.v
Jpeg.v
MediaDomain.v
MediaWorld.v
Photos.v
PhotosSpec.v
Reaper.v
Library.v
MediaPorts.v
IdentityDB.v
IdentityRun.v
Members.v
Discipline.v
MembersSpec.v
Mfa.v
MfaSpec.v
MfaRuns.v
MfaConfirm.v
CryptoSpec.v
WebAuthn.v
WebAuthnSpec.v
Ports.v
Wiring.v
SchemaKeys.v
SchemaSpec.v
