(* ===== verification/Prelude.v ===== *)
(** * nestcore: a verification development

    nestcore (src/) is the Go library two household applications share: identity and
    login, photo storage, rate limiting, the HTTP layer, configuration and
    cryptography. This library models those parts in Rocq, definition by definition,
    and proves what makes them correct. Definitions keep the source's names; a Go
    function returning [(value, error)] is a [result], integers that can wrap are [Z]
    with the wrap written out, byte strings are lists of bytes or [string]s.

    ** Foundations

    - [Prelude] (this file): results, the [nest_scope] notations, tactics
      ([to_prop], [split_cases], [zdiv]), machine integers, list lemmas.
    - [GoStrings], [GoEncoding], [GoRunes], [GoJSON], [GoNet], [GoConv], [GoTime],
      [GoURL]: what the program uses of Go's strings, strconv, fmt, encoding/base64, hex and json,
      unicode/utf8, net/netip, net, time and net/url, byte for byte, malformed input
      included. [GoURLSpec] has the round trips of net/url the clients need: escapes,
      [Parse] of [String], queries; [GoJSON] the one of an object of strings.
    - [Uuids]: the interface of the UUID library ([UuidLib]) with two instances, and the
      five identifier types of src/identity/domain/ids.go and src/media/domain/ids.go.

    ** Rate limiting (src/ratelimit/attempt_limiter.go)

    [RateLimit] is the whole limiter: entries, recency lists, epochs, and every
    operation under its one mutex. [RateLimitSpec] shows the representation
    invariant, the refinement of an abstract per-key attempt machine by [Reserve] and
    [Cancel], that a lockout stands for its window and lifts after it, what a full
    table forgets, and the exact budget of a burst.

    ** Photos (src/media)

    [MediaDomain] has the domain types, storage keys and the path guard; [Exif] and [Jpeg]
    the EXIF reader and scrubber; [MediaWorld] the photo table, the object stores and the staging
    files under an environment that fails calls, removals of a staging file among them, or
    lets other processes act before any of them; [Photos] the upload pipeline, both stores, the resolver and
    [PhotoService]; [Reaper] the orphan sweep. [PhotosSpec] and [Reaper] show: the
    table's invariant, what an upload leaves on every path (of its staging files nothing,
    unless removing one failed), tenant isolation, reads
    that follow the row's backend, scrubbed output without EXIF, storage keys that
    round-trip and stay under the root, and a sweep that never deletes a referenced
    or young object and deletes what its dry run lists. [Library] composes the service and
    the sweep: through any sequence of uploads, deletions, sweeps and waits, whichever calls
    fail, every row keeps its object, and a late sweep leaves the referenced ones only.
    [MediaPorts] is the repository port, and the walk over its keyset pages: it ends, and
    returns once each row that stays, whatever is inserted and deleted meanwhile.

    ** Identity (src/identity, src/totp)

    [IdentityDB] is the schema as a table state, with one definition per SQL
    statement of src/identity/adapter. [IdentityRun] runs any number of programs
    against it: READ COMMITTED transactions, row and advisory locks, calls that fail
    before or after their effect, crashes. [Members], [Mfa] and [WebAuthn] are the
    repositories and services as such programs. [Discipline] is the locking discipline
    they keep and the induction principle for runs of disciplined programs.
    [MembersSpec], [MfaSpec], [MfaRuns] and [WebAuthnSpec] show, over every
    interleaving: an owned household stays owned, no TOTP step or recovery code is
    accepted twice, a passkey's counter never goes back; and, for programs run alone,
    the outcome of each operation on every branch, with which parts of a new passkey the
    table keeps and which it has no column for. [MfaConfirm] is the protocol of
    confirming an enrolment, as stages of each process: of two racing confirmations one
    answers with codes, and those are the ones on file. [Ports] has the two repository ports
    ([MFARepository], [WebAuthnCredentialRepository]) with their contracts as classes
    ([MFAContract], [CredentialContract]): each operation is one function of the tables,
    atomic whatever call fails; the Postgres adapters are instances, and a client's theorem
    is proved against the class. [Wiring] is what the constructors require, and that it is
    what the operations need. [SchemaKeys] and
    [SchemaSpec] show that every committed state is well typed and its names and emails
    unique, so that what is read back decodes and an email is one member's.

    ** Cryptography (src/crypto)

    [Crypto] is the PHC string of argon2id and the nonce framing of AES-GCM over the
    class [CryptoLib] of the two primitives. [CryptoSpec] shows which passwords and
    which ciphertexts are accepted, builds the identity services' hasher and cipher
    interfaces from the package, and proves the composition: a password set through
    the credential repository logs its member in.

    ** Configuration and HTTP (src/config, src/bootstrap, src/httpserver)

    [Config] has every loader and validator over an environment map, [Bootstrap] the
    first-run state and its export to the environment. [StateFile] is the state's file:
    [LoadState] and [SaveState] over a file system with permission bits whose calls may
    fail or stop half-way; a save is read back field by field, and never shows the secrets
    to others unless a looser file was there before. [Http] is the middleware and
    the server: a handler is a function to the writer calls it makes and how it ends.
    [HttpSpec] shows that a client cannot choose its address, that every request is
    answered and logged once with a 500 exactly for a panic before anything was sent
    (for handlers that send no informational status), and which headers every response
    carries unless the application sets them itself. [Routes] has the server's routes on
    net/http's [ServeMux]: the probes stand apart from whatever an application registers.
    [ServerSpec] follows a request through all of it: what a client gets is what net/http
    alone would make of the handler's calls behind the server's headers, logged and counted
    once, and the probes answer by the readiness check.
    [Web] is what is served besides: rendering (src/render), the static file handlers
    (src/ui/static, [StaticFileServer]) and QR codes (src/qrcode); a page goes out whole or
    not at all, and only a file that exists is cached for long. [Components] is the shell
    templ generates (src/ui/components), write by write; [ComponentsSpec] reads its pages
    with an HTML tokenizer: no text or link changes their markup, and what they load and
    link, in which order, is what was configured.

    ** Cache, migrations, metrics, pool (src/cache, src/db, src/metrics)

    [Cache] has the [Cache] port as a class with its laws ([CachePort]), over a heap of
    byte arrays, and both implementations; [CacheSpec] proves each an instance, and that
    clients of [MemoryCache] or of [BadgerCache] writing to the slices they hold never see
    an answer outside the contract. [Migrate] is the migration runner and the identity boot guard;
    [MigrateSpec] shows that no path leaks a database handle and what the guard lets
    start. [Metrics] is the registries, their constructors and the two tick recorders behind
    their port, with the bounded labels. [Db] is the Postgres
    pool's configuration and the session manager's, with both forms of
    [ApplySSLRootCert]: whatever the CA path holds, exactly two settings change. [Session] is
    the types a session may hold, and when one application reads what the other wrote.
    [DbTest] is the harness of database-gated tests (src/db/dbtest), with [*testing.T] as
    a state monad; [DbTestSpec] shows, over a grammar of keyword strings and over URLs,
    that the derived connection string differs in its database only (a dbname among a URL's
    options apart, which stays), that the safety rail holds, and in which order a test resets, migrates, and closes its pool.

    ** Bounds and fuel

    Recursion that is not structural takes fuel that is proved or plainly enough:
    the JPEG walk the length of its input ([Jpeg.strip_total] shows it never runs
    out), trimming and duration parsing the length of the string, a scan of a keyword
    connection string its length (each round takes a byte), JSON values and strings the
    length of the text, decimal numerals twenty digits (enough for 64 bits), an IPv6 address its eight groups, a value log
    collection one pass per reclaimable file ([CacheSpec.RunValueLogGCOnce_ends]). Programs
    of [IdentityRun] are finite trees, so a schedule of moves always ends.

    ** Not modelled

    - Style sheets and other assets, the text of log lines and errors.
    - Third-party code: the S3 SDK, goose, pgx, badger, scs, go-webauthn, godotenv,
      templ's run time, Prometheus, and the TOTP, argon2, EXIF, image and QR libraries. Where the
      program relies on one it is a class with its documented laws.
    - [http.FileServerFS]: any handler stands for it. Escaped slashes in a request's path.
    - The sessions table, which scs owns, and member_pin, which no statement touches.
    - What is left of the Go code: compile-time interface assertions, SQL column lists, the
      texts of errors, and adapters of one expression ([memberArg], [transportsToStrings],
      [Role.String]), which are part of the definitions that call them.
    - Of the standard library: the case mappings between letters outside ASCII, which
      [GoStrings] leaves as they are, and net/url's cap on the number of query parameters. *)

From stdpp Require Export base tactics option list strings gmap sets numbers.
From stdpp Require Export fin_maps sorting.

(** ** Results of fallible code *)

(** A Go function returning [(value, error)] is modelled by [result E A]: the
    value on the nil-error path, the error otherwise. *)
Inductive result (E A : Type) : Type :=
| Ok (a : A)
| Err (e : E).
Arguments Ok {E A} a.
Arguments Err {E A} e.

Definition res_bind {E A B} (r : result E A) (f : A -> result E B) : result E B :=
  match r with
  | Ok a => f a
  | Err e => Err e
  end.

Definition res_map_err {E E' A} (f : E -> E') (r : result E A) : result E' A :=
  match r with
  | Ok a => Ok a
  | Err e => Err (f e)
  end.

Definition is_ok {E A} (r : result E A) : bool :=
  match r with Ok _ => true | Err _ => false end.

Declare Scope nest_scope.
Delimit Scope nest_scope with nest.
Notation "'let!' x ':=' r 'in' k" := (res_bind r (fun x => k))
  (at level 10, x pattern, r at level 100, k at level 200) : nest_scope.
#[export] Instance result_eq_dec {E A} `{EqDecision E, EqDecision A} :
  EqDecision (result E A).
Proof. solve_decision. Defined.

(** ** Shared tactics *)

(** Reflect every boolean comparison on [Z], [nat] and [bool] in the context
    and the goal into its proposition. *)
Ltac to_prop :=
  repeat match goal with
  | H : (_ <? _)%Z = true |- _ => apply Z.ltb_lt in H
  | H : (_ <? _)%Z = false |- _ => apply Z.ltb_ge in H
  | H : (_ <=? _)%Z = true |- _ => apply Z.leb_le in H
  | H : (_ <=? _)%Z = false |- _ => apply Z.leb_gt in H
  | H : (_ =? _)%Z = true |- _ => apply Z.eqb_eq in H
  | H : (_ =? _)%Z = false |- _ => apply Z.eqb_neq in H
  | H : negb _ = true |- _ => apply negb_true_iff in H
  | H : negb _ = false |- _ => apply negb_false_iff in H
  | H : (_ && _)%bool = true |- _ => apply andb_true_iff in H as [? ?]
  | H : (_ || _)%bool = false |- _ => apply orb_false_iff in H as [? ?]
  end.

(** Case analysis on every [match]/[if] scrutinee of the goal, remembering the
    equation, then reflection of the comparisons. *)
Ltac split_cases := repeat (case_match; simplify_eq/=); to_prop.

(** [lia] with the equations of [/] and [mod] by constants. *)
Ltac zdiv := Z.to_euclidean_division_equations; lia.

(** ** Machine integers *)

Definition two64 : Z := 2 ^ 64.

(** [uint64] wrap-around. *)
Definition u64 (z : Z) : Z := z mod two64.

Lemma u64_small z : (0 <= z < two64)%Z -> u64 z = z.
Proof. apply Z.mod_small. Qed.

(** [int64] wrap-around. *)
Definition i64 (z : Z) : Z := (z + 2 ^ 63) mod two64 - 2 ^ 63.

Lemma i64_small z : (- 2 ^ 63 <= z < 2 ^ 63)%Z -> i64 z = z.
Proof. intros. unfold i64. rewrite Z.mod_small; unfold two64; lia. Qed.

(** ** Lists used as the code's doubly-linked lists and slices *)

(** [container/list.Remove] of the element holding [x]. *)
Definition list_remove_all {A} `{EqDecision A} (x : A) (l : list A) : list A :=
  filter (fun y => y <> x) l.

Section list_facts.
Context {A : Type} `{EqDecision A}.
Implicit Types (l : list A) (x y : A).

Lemma elem_of_list_remove_all x y l :
  y ∈ list_remove_all x l <-> y <> x /\ y ∈ l.
Proof. unfold list_remove_all. by rewrite list_elem_of_filter. Qed.

Lemma list_remove_all_absent x l : x ∉ l -> list_remove_all x l = l.
Proof.
  unfold list_remove_all. induction l as [|y l IH]; intros Hx; [done|].
  rewrite filter_cons_True by set_solver. f_equal. apply IH. set_solver.
Qed.

Lemma list_remove_all_snoc x l :
  NoDup (l ++ [x]) -> list_remove_all x (l ++ [x]) = l.
Proof.
  intros (_ & Hl & _)%NoDup_app.
  assert (x ∉ l) as Hx by (intros Hx; apply (Hl _ Hx); set_solver).
  unfold list_remove_all. rewrite filter_app, filter_cons_False by auto.
  rewrite filter_nil, app_nil_r. by apply list_remove_all_absent.
Qed.

Lemma NoDup_list_remove_all x l : NoDup l -> NoDup (list_remove_all x l).
Proof. apply NoDup_filter. Qed.

Lemma StronglySorted_filter (R : A -> A -> Prop) (P : A -> Prop)
    `{forall x, Decision (P x)} l :
  StronglySorted R l -> StronglySorted R (filter P l).
Proof.
  induction 1 as [|x l Hs IH Hf]; [constructor|].
  rewrite filter_cons. case_decide; [|done].
  constructor; [done|]. rewrite Forall_forall in Hf |- *.
  intros y [_ Hy]%list_elem_of_filter. auto.
Qed.

Lemma StronglySorted_ext (R R' : A -> A -> Prop) l :
  (forall x y, x ∈ l -> y ∈ l -> R x y -> R' x y) ->
  StronglySorted R l -> StronglySorted R' l.
Proof.
  intros HR. induction 1 as [|x l Hs IH Hf]; constructor.
  - apply IH. intros; apply HR; [set_solver..|done].
  - rewrite Forall_forall in Hf |- *. intros y Hy.
    apply HR; [set_solver..|auto].
Qed.
End list_facts.

(** ** Hints *)
Create HintDb nest.
#[export] Hint Resolve NoDup_list_remove_all StronglySorted_filter : nest.
