(* ===== verification/GoStrings.v ===== *)
(** The parts of Go's [strings], [unicode], [path] and [path/filepath] packages
    the program uses, on byte strings: trimming and case folding with their
    exact effect on UTF-8 encoded white space and on the runes that fold to
    ASCII, splitting, lexical path cleaning, and file extensions. *)

From Stdlib Require Export Ascii.
From S2P Require Import Prelude.
Local Open Scope Z_scope.

Definition bytes := list Ascii.ascii.

Definition bytes_of (s : string) : bytes := String.list_ascii_of_string s.
Definition string_of (b : bytes) : string := String.string_of_list_ascii b.

Definition byte_val (c : Ascii.ascii) : Z := Z.of_N (Ascii.N_of_ascii c).

Lemma string_of_bytes_of s : string_of (bytes_of s) = s.
Proof. apply String.string_of_list_ascii_of_string. Qed.

Lemma bytes_of_string_of b : bytes_of (string_of b) = b.
Proof. apply String.list_ascii_of_string_of_list_ascii. Qed.

Lemma bytes_of_inj s t : bytes_of s = bytes_of t -> s = t.
Proof. intros H. by rewrite <- (string_of_bytes_of s), H, string_of_bytes_of. Qed.

Lemma bytes_of_app s t : bytes_of (s +:+ t) = bytes_of s ++ bytes_of t.
Proof. unfold bytes_of. induction s as [|c s IH]; simpl; [done|]. by rewrite IH. Qed.

(** ** White space and case *)

(** The length of the white-space rune [b] starts with, if any: the runes of
    [unicode.IsSpace], in UTF-8. *)
Definition space_prefix (b : list Z) : option nat :=
  match b with
  | c0 :: b1 =>
    if (c0 =? 0x20) || ((0x09 <=? c0) && (c0 <=? 0x0D)) then Some 1%nat
    else match b1 with
    | c1 :: b2 =>
      if (c0 =? 0xC2) && ((c1 =? 0x85) || (c1 =? 0xA0)) then Some 2%nat
      else match b2 with
      | c2 :: _ =>
        if ((c0 =? 0xE1) && (c1 =? 0x9A) && (c2 =? 0x80))
           || ((c0 =? 0xE2) && (c1 =? 0x80)
               && (((0x80 <=? c2) && (c2 <=? 0x8A)) || (c2 =? 0xA8) || (c2 =? 0xA9) || (c2 =? 0xAF)))
           || ((c0 =? 0xE2) && (c1 =? 0x81) && (c2 =? 0x9F))
           || ((c0 =? 0xE3) && (c1 =? 0x80) && (c2 =? 0x80))
        then Some 3%nat else None
      | [] => None
      end
    | [] => None
    end
  | [] => None
  end.

(** The same, for the last rune; the argument is the string reversed. *)
Definition space_suffix (rb : list Z) : option nat :=
  let spans (n : nat) := bool_decide (space_prefix (rev (take n rb)) = Some n) in
  if spans 1%nat then Some 1%nat
  else if spans 2%nat then Some 2%nat
  else if spans 3%nat then Some 3%nat
  else None.

Fixpoint trim_with (space : list Z -> option nat) (fuel : nat) (b : bytes) : bytes :=
  match fuel with
  | O => b
  | S fuel =>
    match space (map byte_val b) with
    | Some n => trim_with space fuel (drop n b)
    | None => b
    end
  end.

(** [strings.TrimSpace] *)
Definition TrimSpace (s : string) : string :=
  let b := trim_with space_prefix (length (bytes_of s)) (bytes_of s) in
  let r := trim_with space_suffix (length b) (rev b) in
  string_of (rev r).

(** One ASCII byte, lower- or upper-cased. *)
Definition lower_byte (c : Ascii.ascii) : Ascii.ascii :=
  let n := byte_val c in
  if (65 <=? n) && (n <=? 90) then Ascii.ascii_of_N (Z.to_N (n + 32)) else c.
Definition upper_byte (c : Ascii.ascii) : Ascii.ascii :=
  let n := byte_val c in
  if (97 <=? n) && (n <=? 122) then Ascii.ascii_of_N (Z.to_N (n - 32)) else c.

(** [strings.ToLower] and [strings.ToUpper], as far as a comparison with an ASCII
    constant can tell: ASCII letters fold, and so do the four other runes whose
    case mapping is ASCII (U+0130 and U+212A down, U+0131 and U+017F up); every
    other rune stays outside ASCII and is left as it is. *)
Fixpoint lower_bytes (b : bytes) : bytes :=
  match b with
  | c0 :: ((c1 :: b2) as b1) =>
    if (byte_val c0 =? 0xC4) && (byte_val c1 =? 0xB0) then "i"%char :: lower_bytes b2
    else match b2 with
         | c2 :: b3 =>
           if (byte_val c0 =? 0xE2) && (byte_val c1 =? 0x84) && (byte_val c2 =? 0xAA)
           then "k"%char :: lower_bytes b3
           else lower_byte c0 :: lower_bytes b1
         | [] => lower_byte c0 :: lower_bytes b1
         end
  | c0 :: [] => [lower_byte c0]
  | [] => []
  end.

Fixpoint upper_bytes (b : bytes) : bytes :=
  match b with
  | c0 :: ((c1 :: b2) as b1) =>
    if (byte_val c0 =? 0xC4) && (byte_val c1 =? 0xB1) then "I"%char :: upper_bytes b2
    else if (byte_val c0 =? 0xC5) && (byte_val c1 =? 0xBF) then "S"%char :: upper_bytes b2
    else upper_byte c0 :: upper_bytes b1
  | c0 :: [] => [upper_byte c0]
  | [] => []
  end.

Definition ToLower (s : string) : string := string_of (lower_bytes (bytes_of s)).
Definition ToUpper (s : string) : string := string_of (upper_bytes (bytes_of s)).

(** ** Splitting and joining *)

(** [strings.Split(s, c)] for a one-byte separator: never the empty list. *)
Fixpoint split_bytes (c : Ascii.ascii) (b : bytes) : list bytes :=
  match b with
  | [] => [[]]
  | x :: b =>
    match split_bytes c b with
    | [] => [[x]]
    | p :: ps => if Ascii.eqb x c then [] :: p :: ps else (x :: p) :: ps
    end
  end.

Fixpoint join_bytes (c : Ascii.ascii) (ps : list bytes) : bytes :=
  match ps with
  | [] => []
  | [p] => p
  | p :: ps => p ++ c :: join_bytes c ps
  end.

Lemma split_bytes_cons c b : exists p ps, split_bytes c b = p :: ps.
Proof.
  induction b as [|x b (p & ps & IH)]; simpl; [by eexists _, _|].
  rewrite IH. destruct (Ascii.eqb x c); by eexists _, _.
Qed.

Lemma split_bytes_app c p b :
  c ∉ p -> split_bytes c (p ++ c :: b) = p :: split_bytes c b.
Proof.
  intros Hp. induction p as [|x p IH]; simpl.
  - destruct (split_bytes_cons c b) as (q & qs & ->). by rewrite Ascii.eqb_refl.
  - rewrite IH by set_solver. destruct (Ascii.eqb_spec x c); [set_solver|done].
Qed.

Lemma split_bytes_one c p : c ∉ p -> split_bytes c p = [p].
Proof.
  induction p as [|x p IH]; simpl; intros Hp; [done|]. rewrite IH by set_solver.
  destruct (Ascii.eqb_spec x c); [set_solver|done].
Qed.

Lemma split_join c p ps :
  Forall (fun q => c ∉ q) (p :: ps) -> split_bytes c (join_bytes c (p :: ps)) = p :: ps.
Proof.
  revert p. induction ps as [|q ps IH]; intros p [Hp Hps]%Forall_cons.
  - by apply split_bytes_one.
  - change (join_bytes c (p :: q :: ps)) with (p ++ c :: join_bytes c (q :: ps)).
    by rewrite split_bytes_app, IH.
Qed.

Lemma join_split c b : join_bytes c (split_bytes c b) = b.
Proof.
  induction b as [|x b IH]; [done|]. simpl. destruct (split_bytes_cons c b) as (p & ps & Hs).
  rewrite Hs in *. destruct (Ascii.eqb_spec x c) as [->|].
  - change (join_bytes c ([] :: p :: ps)) with (c :: join_bytes c (p :: ps)). by rewrite IH.
  - destruct ps; simpl in *; by rewrite IH.
Qed.

(** ** Lexical paths *)

Definition slash : Ascii.ascii := "/"%char.
Definition dot : Ascii.ascii := "."%char.

(** The components [path.Clean] keeps, with [..] resolved; [out] is reversed. *)
Fixpoint clean_parts (rooted : bool) (parts out : list bytes) : list bytes :=
  match parts with
  | [] => rev out
  | p :: parts =>
    if bool_decide (p = []) || bool_decide (p = [dot]) then clean_parts rooted parts out
    else if bool_decide (p = [dot; dot]) then
      match out with
      | q :: out' =>
        if bool_decide (q = [dot; dot]) then clean_parts rooted parts (p :: out)
        else clean_parts rooted parts out'
      | [] => if rooted then clean_parts rooted parts [] else clean_parts rooted parts [p]
      end
    else clean_parts rooted parts (p :: out)
  end.

Definition is_rooted (b : bytes) : bool :=
  match b with c :: _ => Ascii.eqb c slash | [] => false end.

(** [path.Clean] *)
Definition clean_bytes (b : bytes) : bytes :=
  let rooted := is_rooted b in
  let parts := clean_parts rooted (split_bytes slash b) [] in
  if rooted then slash :: join_bytes slash parts
  else match parts with [] => [dot] | _ => join_bytes slash parts end.

(** [path.Join]: empty elements are ignored; all-empty gives the empty string. *)
Definition path_join (elems : list string) : string :=
  let bs := filter (fun b => b <> []) (bytes_of <$> elems) in
  match bs with
  | [] => ""
  | _ => string_of (clean_bytes (join_bytes slash bs))
  end.

(** A path component that cleaning leaves alone. *)
Definition plain_part (p : bytes) : Prop :=
  p <> [] /\ p <> [dot] /\ p <> [dot; dot] /\ slash ∉ p.

Lemma clean_parts_plain rooted ps out :
  Forall plain_part ps -> clean_parts rooted ps out = rev out ++ ps.
Proof.
  intros H. revert out. induction H as [|p ps (? & ? & ? & ?) Hps IH]; intros out; simpl;
    [by rewrite app_nil_r|].
  rewrite !bool_decide_false by done. simpl. rewrite IH. simpl. by rewrite <- app_assoc.
Qed.

Lemma path_join_plain elems :
  elems <> [] -> Forall plain_part (bytes_of <$> elems) ->
  bytes_of (path_join elems) = join_bytes slash (bytes_of <$> elems).
Proof.
  intros Hne Hp. unfold path_join.
  assert (filter (fun b => b <> []) (bytes_of <$> elems) = bytes_of <$> elems) as ->.
  { clear Hne. induction Hp as [|p ps (? & _) _ IH]; [done|]. rewrite filter_cons, decide_True by done. f_equal. exact IH. }
  destruct (bytes_of <$> elems) as [|p ps] eqn:He; [by destruct elems|].
  rewrite bytes_of_string_of. unfold clean_bytes. rewrite split_join.
  2: { eapply Forall_impl; [exact Hp|]. by intros ? (? & ? & ? & ?). }
  assert (is_rooted (join_bytes slash (p :: ps)) = false) as ->.
  { apply Forall_cons in Hp as [(Hpe & _ & _ & Hs) _]. destruct p as [|x p]; [done|].
    assert (x <> slash) as Hx by set_solver.
    destruct ps; simpl; by destruct (Ascii.eqb_spec x slash). }
  by rewrite clean_parts_plain.
Qed.

(** [filepath.Ext], on the reversed path: the suffix from the last dot of the
    last element, or empty. *)
Fixpoint ext_rev (rb acc : bytes) : bytes :=
  match rb with
  | [] => []
  | c :: rb =>
    if Ascii.eqb c slash then []
    else if Ascii.eqb c dot then c :: acc
    else ext_rev rb (c :: acc)
  end.

Definition Ext (s : string) : string := string_of (ext_rev (rev (bytes_of s)) []).

Lemma ext_rev_app p e acc :
  dot ∉ e -> slash ∉ e -> ext_rev (rev e ++ dot :: p) acc = dot :: e ++ acc.
Proof.
  revert acc. induction e as [|x e IH] using rev_ind; intros acc Hd Hs; [done|].
  rewrite rev_app_distr. simpl.
  destruct (Ascii.eqb_spec x slash) as [->|]; [set_solver|].
  destruct (Ascii.eqb_spec x dot) as [->|]; [set_solver|].
  rewrite IH by set_solver. by rewrite <- app_assoc.
Qed.

Lemma Ext_app p s e :
  dot ∉ e -> slash ∉ e -> bytes_of s = p ++ dot :: e -> Ext s = string_of (dot :: e).
Proof.
  intros Hd Hs He. unfold Ext. rewrite He, rev_app_distr. simpl. rewrite <- app_assoc. simpl.
  rewrite ext_rev_app by done. by rewrite app_nil_r.
Qed.
