(* ===== verification/GoEncoding.v ===== *)
(** The parts of Go's [strconv], [fmt] and [encoding/base64] packages the program
    uses, on byte strings: unsigned decimal numerals, [Sscanf] over literals and
    [%d] verbs, and unpadded standard base64. *)

From S2P Require Import Prelude GoStrings.
Local Open Scope Z_scope.

Definition chr (z : Z) : Ascii.ascii := Ascii.ascii_of_N (Z.to_N z).

Lemma byte_val_chr z : 0 <= z < 256 -> byte_val (chr z) = z.
Proof. intros. unfold byte_val, chr. rewrite Ascii.N_ascii_embedding; lia. Qed.

Lemma chr_byte_val c : chr (byte_val c) = c.
Proof. unfold byte_val, chr. by rewrite N2Z.id, Ascii.ascii_N_embedding. Qed.

Lemma byte_val_range c : 0 <= byte_val c < 256.
Proof. unfold byte_val. pose proof (Ascii.N_ascii_bounded c). lia. Qed.

(** ** Decimal numerals *)

Definition is_digit (c : Ascii.ascii) : bool := (48 <=? byte_val c) && (byte_val c <=? 57).

Fixpoint numeral (fuel : nat) (n : Z) (acc : bytes) : bytes :=
  match fuel with
  | O => acc
  | S fuel =>
    let acc := chr (48 + n mod 10) :: acc in
    if n <? 10 then acc else numeral fuel (n / 10) acc
  end.

(** [%d] of an unsigned number of at most 64 bits, which has at most 20 digits. *)
Definition FormatUint (n : Z) : bytes := numeral 20 n [].

Definition numeral_value (ds : bytes) : Z := foldl (fun n c => n * 10 + (byte_val c - 48)) 0 ds.

Lemma is_digit_chr d : 0 <= d < 10 -> is_digit (chr (48 + d)) = true.
Proof. intros. unfold is_digit. rewrite byte_val_chr by lia. lia. Qed.

Lemma numeral_digits fuel n acc :
  0 <= n -> forallb is_digit acc = true -> forallb is_digit (numeral fuel n acc) = true.
Proof.
  revert n acc. induction fuel as [|fuel IH]; intros n acc Hn Ha; [done|]. cbn [numeral].
  assert (forallb is_digit (chr (48 + n mod 10) :: acc) = true) as Hc.
  { cbn [forallb]. rewrite is_digit_chr, Ha by (apply Z.mod_pos_bound; lia). done. }
  destruct (n <? 10); [done|]. apply IH; [|done]. by apply Z.div_pos.
Qed.

Lemma numeral_value_app ds acc :
  numeral_value (ds ++ acc) = numeral_value ds * 10 ^ Z.of_nat (length acc) + numeral_value acc.
Proof.
  unfold numeral_value. rewrite foldl_app. generalize (foldl (fun n c => n * 10 + (byte_val c - 48)) 0 ds).
  induction acc as [|c acc IH]; intros n; cbn [foldl length]; [lia|].
  rewrite IH, (IH (0 * 10 + _)), Nat2Z.inj_succ, Z.pow_succ_r by lia. lia.
Qed.

Lemma numeral_spec fuel n acc : 0 <= n < 10 ^ Z.of_nat fuel -> (0 < fuel)%nat ->
  exists ds, numeral fuel n acc = ds ++ acc /\ ds <> [] /\ numeral_value ds = n.
Proof.
  revert n acc. induction fuel as [|fuel IH]; intros n acc Hn Hf; [lia|]. cbn [numeral].
  pose proof (Z.mod_pos_bound n 10 ltac:(lia)) as Hm.
  destruct (Z.ltb_spec n 10) as [Hlt|Hge].
  - exists [chr (48 + n mod 10)]. split_and!; [done|done|]. unfold numeral_value. cbn [foldl].
    rewrite byte_val_chr, Z.mod_small by lia. lia.
  - destruct fuel as [|fuel]; [change (10 ^ Z.of_nat 1) with 10 in Hn; lia|].
    rewrite Nat2Z.inj_succ, Z.pow_succ_r in Hn by lia.
    destruct (IH (n / 10) (chr (48 + n mod 10) :: acc)) as (ds & -> & Hne & Hv); [|lia|].
    { split; [apply Z.div_pos; lia|]. apply Z.div_lt_upper_bound; lia. }
    exists (ds ++ [chr (48 + n mod 10)]). split_and!; [by rewrite <- app_assoc|by destruct ds|].
    rewrite numeral_value_app, Hv. unfold numeral_value. cbn [foldl length].
    rewrite byte_val_chr by lia. change (10 ^ Z.of_nat 1) with 10. pose proof (Z.div_mod n 10). lia.
Qed.

Lemma FormatUint_digits n : 0 <= n -> forallb is_digit (FormatUint n) = true.
Proof. intros. by apply numeral_digits. Qed.

Lemma FormatUint_value n : 0 <= n < two64 -> FormatUint n <> [] /\ numeral_value (FormatUint n) = n.
Proof.
  intros Hn. destruct (numeral_spec 20 n []) as (ds & Hd & Hne & Hv); [unfold two64 in Hn; simpl; lia|lia|].
  unfold FormatUint. by rewrite Hd, app_nil_r.
Qed.

(** ** Hexadecimal digits *)

Definition hex_digit (c : Ascii.ascii) : option Z :=
  let n := byte_val c in
  if (48 <=? n) && (n <=? 57) then Some (n - 48)
  else if (97 <=? n) && (n <=? 102) then Some (n - 87)
  else if (65 <=? n) && (n <=? 70) then Some (n - 55)
  else None.

Definition hex_char (d : Z) : Ascii.ascii := if d <? 10 then chr (48 + d) else chr (87 + d).

(** ** [fmt.Sscanf] *)

(** The target of a [%d]: an [int], or an unsigned integer of some width. *)
Inductive target := ToInt | ToUint (bits : Z).
Inductive directive := Lit (c : Ascii.ascii) | Verb (t : target).

Definition in_range (t : target) (n : Z) : bool :=
  match t with
  | ToInt => (- 2 ^ 63 <=? n) && (n <? 2 ^ 63)
  | ToUint bits => (0 <=? n) && (n <? 2 ^ bits)
  end.

(** [SkipSpace]; a newline is an error. *)
Fixpoint skip_space (fuel : nat) (b : bytes) : option bytes :=
  match fuel with
  | O => Some b
  | S fuel =>
    if bool_decide (head b = Some (chr 10)) then None
    else match space_prefix (map byte_val b) with
         | Some n => skip_space fuel (drop n b)
         | None => Some b
         end
  end.

Fixpoint span_digits (b : bytes) : bytes * bytes :=
  match b with
  | c :: b' => if is_digit c then let '(ds, r) := span_digits b' in (c :: ds, r) else ([], b)
  | [] => ([], [])
  end.

(** An optional sign, for a signed target only. *)
Definition take_sign (t : target) (b : bytes) : Z * bytes :=
  match t, b with
  | ToInt, c :: b' =>
    if Ascii.eqb c "-" then (-1, b') else if Ascii.eqb c "+" then (1, b') else (1, b)
  | _, _ => (1, b)
  end.

Definition scan_verb (t : target) (b : bytes) : option (Z * bytes) :=
  match skip_space (length b) b with
  | None => None
  | Some b =>
    let '(sign, b) := take_sign t b in
    let '(ds, rest) := span_digits b in
    let n := sign * numeral_value ds in
    if bool_decide (ds = []) || negb (in_range t n) then None else Some (n, rest)
  end.

(** The scanned values, when all succeed. What follows the last one is ignored. *)
Fixpoint sscanf (format : list directive) (b : bytes) : option (list Z) :=
  match format with
  | [] => Some []
  | Lit c :: format =>
    match b with
    | x :: b => if Ascii.eqb x c then sscanf format b else None
    | [] => None
    end
  | Verb t :: format =>
    match scan_verb t b with
    | Some (n, b) => cons n <$> sscanf format b
    | None => None
    end
  end.

Definition literal (s : string) : list directive := Lit <$> bytes_of s.

Lemma sscanf_literal l format b :
  sscanf ((Lit <$> l) ++ format) (l ++ b) = sscanf format b.
Proof. induction l as [|c l IH]; cbn; [done|]. by rewrite Ascii.eqb_refl. Qed.

Lemma span_digits_app ds b : forallb is_digit ds = true ->
  match b with [] => True | c :: _ => is_digit c = false end -> span_digits (ds ++ b) = (ds, b).
Proof.
  intros Hd Hb. induction ds as [|c ds IH]; cbn.
  - destruct b as [|c b]; [done|]. cbn. by rewrite Hb.
  - cbn in Hd. apply andb_true_iff in Hd as [-> Hd]. by rewrite IH.
Qed.

Lemma space_prefix_digit v b : 48 <= v <= 57 -> space_prefix (v :: b) = None.
Proof.
  intros Hv. cbn [space_prefix].
  repeat match goal with |- context [v =? ?n] => rewrite (proj2 (Z.eqb_neq v n)) by lia end.
  rewrite (proj2 (Z.leb_gt v 13)) by lia. rewrite andb_false_r. cbn [orb andb]. by destruct b as [|? []].
Qed.

Lemma skip_space_digit fuel c b : is_digit c = true -> skip_space fuel (c :: b) = Some (c :: b).
Proof.
  intros Hc. destruct fuel as [|fuel]; [done|]. cbn [skip_space]. unfold is_digit in Hc. rewrite bool_decide_false.
  - cbn [map]. rewrite space_prefix_digit; [done|]. apply andb_true_iff in Hc. lia.
  - intros [= ->]. rewrite byte_val_chr in Hc by lia. lia.
Qed.

(** A numeral of [FormatUint] scans back to its value. *)
Lemma scan_FormatUint t n b : 0 <= n < two64 -> in_range t n = true ->
  match b with [] => True | c :: _ => is_digit c = false end ->
  scan_verb t (FormatUint n ++ b) = Some (n, b).
Proof.
  intros Hn Hr Hb. destruct (FormatUint_value n Hn) as [Hne Hv].
  pose proof (FormatUint_digits n ltac:(lia)) as Hd. unfold scan_verb.
  destruct (FormatUint n) as [|c ds]; [done|]. pose proof Hd as Hc. cbn in Hc.
  apply andb_true_iff in Hc as [Hc _]. cbn [app]. rewrite skip_space_digit by done.
  assert (take_sign t (c :: ds ++ b) = (1, c :: ds ++ b)) as ->.
  { destruct t; [|done]. cbn. destruct (Ascii.eqb_spec c "-") as [->|_]; [done|].
    by destruct (Ascii.eqb_spec c "+") as [->|_]. }
  rewrite app_comm_cons, span_digits_app by done. rewrite Hv.
  replace (1 * n) with n by lia. by rewrite Hr.
Qed.

(** ** [base64.RawStdEncoding] *)

Definition base64_alphabet : string := "ABCDEFGHIJKLMNOPQRSTUVWXYZabcdefghijklmnopqrstuvwxyz0123456789+/".

Definition base64_char (v : Z) : Ascii.ascii := nth (Z.to_nat v) (bytes_of base64_alphabet) Ascii.zero.
Definition base64_value (c : Ascii.ascii) : option Z :=
  (fun p => Z.of_nat p.1) <$> list_find (fun x => x = c) (bytes_of base64_alphabet).

(** Three bytes to four symbols; one or two last bytes to two or three symbols. *)
Fixpoint base64_encode (b : list Z) : bytes :=
  match b with
  | [] => []
  | [x] => [base64_char (x / 4); base64_char (x mod 4 * 16)]
  | [x; y] => [base64_char (x / 4); base64_char (x mod 4 * 16 + y / 16); base64_char (y mod 16 * 4)]
  | x :: y :: z :: b =>
    base64_char (x / 4) :: base64_char (x mod 4 * 16 + y / 16)
    :: base64_char (y mod 16 * 4 + z / 64) :: base64_char (z mod 64) :: base64_encode b
  end.

(** Not strict: the unused low bits of a last short group are dropped. *)
Fixpoint base64_bytes (vs : list Z) : option (list Z) :=
  match vs with
  | [] => Some []
  | [_] => None
  | [a; b] => Some [a * 4 + b / 16]
  | [a; b; c] => Some [a * 4 + b / 16; b mod 16 * 16 + c / 4]
  | a :: b :: c :: d :: vs =>
    (fun r => a * 4 + b / 16 :: b mod 16 * 16 + c / 4 :: c mod 4 * 64 + d :: r) <$> base64_bytes vs
  end.

(** Carriage returns and newlines are skipped. *)
Definition base64_decode (b : bytes) : option (list Z) :=
  vs ← mapM base64_value (filter (fun c => c <> chr 10 /\ c <> chr 13) b);
  base64_bytes vs.

Definition base64_checked (v : Z) : bool :=
  let c := base64_char v in
  bool_decide (base64_value c = Some v) && bool_decide (c <> chr 10 /\ c <> chr 13) && negb (Ascii.eqb c "$").

Lemma base64_char_spec v : 0 <= v < 64 ->
  base64_value (base64_char v) = Some v /\ (base64_char v <> chr 10 /\ base64_char v <> chr 13) /\
  base64_char v <> "$"%char.
Proof.
  intros Hv. assert (forallb base64_checked (seqZ 0 64) = true) as H by (vm_compute; reflexivity).
  rewrite forallb_forall in H. specialize (H v).
  rewrite <- list_elem_of_In, elem_of_seqZ in H. specialize (H ltac:(lia)).
  unfold base64_checked in H. apply andb_true_iff in H as [[H1 H2]%andb_true_iff H3].
  apply bool_decide_eq_true in H1, H2. split_and!; [done|apply H2..|]. intros He. by rewrite He in H3.
Qed.

Definition is_byte (z : Z) : Prop := 0 <= z < 256.

Lemma base64_step a l vs : 0 <= a < 64 ->
  mapM base64_value (filter (fun c => c <> chr 10 /\ c <> chr 13) l) = Some vs ->
  mapM base64_value (filter (fun c => c <> chr 10 /\ c <> chr 13) (base64_char a :: l)) = Some (a :: vs).
Proof.
  intros Ha Hl. destruct (base64_char_spec a Ha) as (Hv & Hc & _).
  rewrite filter_cons_True by done. cbn [mapM]. by rewrite Hv, Hl.
Qed.

Lemma base64_encode_values : forall b, Forall is_byte b ->
  exists vs, mapM base64_value (filter (fun c => c <> chr 10 /\ c <> chr 13) (base64_encode b)) = Some vs /\
    base64_bytes vs = Some b.
Proof.
  fix IH 1. intros [|x [|y [|z b]]] Hb; cbn [base64_encode]; rewrite ?Forall_cons in Hb; unfold is_byte in Hb.
  - by exists [].
  - eexists. split.
    + repeat (apply base64_step; [zdiv|]). reflexivity.
    + cbn. do 2 f_equal. zdiv.
  - eexists. split.
    + repeat (apply base64_step; [zdiv|]). reflexivity.
    + cbn. repeat f_equal; zdiv.
  - destruct Hb as (? & ? & ? & Hb). destruct (IH b Hb) as (vs & Hm & Hd). eexists. split.
    + repeat (apply base64_step; [zdiv|]). apply Hm.
    + cbn. rewrite Hd. cbn. repeat f_equal; zdiv.
Qed.

Lemma base64_roundtrip b : Forall is_byte b -> base64_decode (base64_encode b) = Some b.
Proof.
  intros Hb. destruct (base64_encode_values b Hb) as (vs & Hm & Hd). unfold base64_decode. by rewrite Hm.
Qed.

Lemma base64_no_dollar : forall b, Forall is_byte b -> "$"%char ∉ base64_encode b.
Proof.
  fix IH 1. intros [|x [|y [|z b]]] Hb; cbn [base64_encode]; rewrite ?Forall_cons in Hb; unfold is_byte in Hb;
    rewrite ?not_elem_of_cons; split_and?;
    try (apply not_eq_sym, base64_char_spec; zdiv); try apply not_elem_of_nil.
  apply IH, Hb.
Qed.
