(* ===== verification/GoRunes.v ===== *)
(** Go strings as sequences of runes: UTF-8 decoding of valid and invalid input. *)

From S2P Require Import Prelude GoStrings.
Local Open Scope Z_scope.

(** ** Runes

    [[]rune(s)] as the list of the encodings it stands for: a valid encoding is
    kept, a byte that starts none becomes U+FFFD. *)

Definition between (lo hi : Z) (c : Ascii.ascii) : bool := (lo <=? byte_val c) && (byte_val c <=? hi).
Definition cont : Ascii.ascii -> bool := between 0x80 0xBF.

(** The length of the valid encoding [b] starts with, if any. *)
Definition rune_length (b : bytes) : option nat :=
  match b with
  | [] => None
  | c0 :: b1 =>
    if between 0 0x7F c0 then Some 1%nat
    else match b1 with
    | [] => None
    | c1 :: b2 =>
      if between 0xC2 0xDF c0 then if cont c1 then Some 2%nat else None
      else match b2 with
      | [] => None
      | c2 :: b3 =>
        if (between 0xE0 0xE0 c0 && between 0xA0 0xBF c1)
           || (between 0xE1 0xEC c0 && cont c1)
           || (between 0xED 0xED c0 && between 0x80 0x9F c1)
           || (between 0xEE 0xEF c0 && cont c1)
        then if cont c2 then Some 3%nat else None
        else match b3 with
        | [] => None
        | c3 :: _ =>
          if ((between 0xF0 0xF0 c0 && between 0x90 0xBF c1)
              || (between 0xF1 0xF3 c0 && cont c1)
              || (between 0xF4 0xF4 c0 && between 0x80 0x8F c1)) && cont c2 && cont c3
          then Some 4%nat else None
        end
      end
    end
  end.

Definition byte (z : Z) : Ascii.ascii := Ascii.ascii_of_N (Z.to_N z).
Definition runeError : bytes := [byte 0xEF; byte 0xBF; byte 0xBD].

Fixpoint runes_with (fuel : nat) (b : bytes) : list bytes :=
  match fuel, b with
  | S fuel, _ :: rest =>
    match rune_length b with
    | Some n => take n b :: runes_with fuel (drop n b)
    | None => runeError :: runes_with fuel rest
    end
  | _, _ => []
  end.

(** A string has at most one rune per byte. *)
Definition runes (s : string) : list bytes := runes_with (length (bytes_of s)) (bytes_of s).
Definition of_runes (rs : list bytes) : string := string_of (concat rs).

(** ** Decoding what was decoded *)

(** [p] is read as one rune whatever follows it. *)
Definition one_rune (p : bytes) : Prop := p <> [] /\ forall rest, rune_length (p ++ rest) = Some (length p).

Lemma rune_length_one b n : rune_length b = Some n -> one_rune (take n b) /\ length (take n b) = n /\ (0 < n)%nat.
Proof.
  unfold one_rune. destruct b as [|c0 b1]; [done|]. cbn [rune_length].
  destruct (between 0 0x7F c0) eqn:E0.
  { intros [= <-]. split; [|split; [done|lia]]. split; [done|]. intros rest. simpl. by rewrite E0. }
  destruct b1 as [|c1 b2]; [done|]. destruct (between 0xC2 0xDF c0) eqn:E1.
  { destruct (cont c1) eqn:E2; [|done]. intros [= <-]. split; [|split; [done|lia]]. split; [done|]. intros rest.
    simpl. by rewrite E0, E1, E2. }
  destruct b2 as [|c2 b3]; [done|].
  destruct (_ || _ || _ || _) eqn:E2.
  { destruct (cont c2) eqn:E3; [|done]. intros [= <-]. split; [|split; [done|lia]]. split; [done|]. intros rest.
    simpl. by rewrite E0, E1, E2, E3. }
  destruct b3 as [|c3 b4]; [done|]. destruct (_ && cont c3) eqn:E3; [|done].
  intros [= <-]. split; [|split; [done|lia]]. split; [done|]. intros rest. cbn [take app rune_length].
  by rewrite E0, E1, E2, E3.
Qed.

Lemma runeError_one : one_rune runeError.
Proof. split; [done|]. intros rest. vm_compute. reflexivity. Qed.

Lemma runes_with_one fuel b : Forall one_rune (runes_with fuel b).
Proof.
  revert b. induction fuel as [|fuel IH]; intros [|c b]; cbn [runes_with]; try constructor.
  destruct (rune_length (c :: b)) as [n|] eqn:E; constructor; auto using runeError_one.
  by apply rune_length_one.
Qed.

Lemma runes_with_concat ps fuel :
  Forall one_rune ps -> (length (concat ps) <= fuel)%nat -> runes_with fuel (concat ps) = ps.
Proof.
  intros Hps. revert fuel. induction Hps as [|p ps [Hne Hp] _ IH]; intros fuel Hf; cbn [concat] in *;
    [by destruct fuel|].
  destruct p as [|c p]; [done|]. rewrite length_app in Hf. destruct fuel as [|fuel]; [simpl in Hf; lia|].
  pose proof (Hp (concat ps)) as E. cbn [app runes_with] in *. rewrite E.
  change (c :: p ++ concat ps) with ((c :: p) ++ concat ps). rewrite drop_app_length, take_app_length.
  f_equal. apply IH. simpl in Hf. lia.
Qed.

Lemma runes_of_runes ps : Forall one_rune ps -> runes (of_runes ps) = ps.
Proof.
  intros Hps. unfold runes, of_runes. rewrite bytes_of_string_of. by apply runes_with_concat.
Qed.
