(* ===== verification/GoJSON.v ===== *)
(** Go's [encoding/json] as the program uses it: the whole syntax is read into a value,
    with strings decoded; strings are written with HTML-safe escapes. *)

From S2P Require Import Prelude GoStrings GoEncoding GoRunes.
Local Open Scope Z_scope.

Definition quotation : Ascii.ascii := chr 34.
Definition reverse_solidus : Ascii.ascii := chr 92.

(** ** Writing strings ([appendString], escapeHTML on) *)

Definition html_safe (c : Ascii.ascii) : bool :=
  (0x20 <=? byte_val c) && (byte_val c <? 0x80)
  && negb (Ascii.eqb c quotation || Ascii.eqb c reverse_solidus
           || Ascii.eqb c "&" || Ascii.eqb c "<" || Ascii.eqb c ">").

Definition escape_ascii (c : Ascii.ascii) : bytes :=
  if html_safe c then [c]
  else
    reverse_solidus ::
    let n := byte_val c in
    if Ascii.eqb c quotation || Ascii.eqb c reverse_solidus then [c]
    else if n =? 8 then ["b"%char]
    else if n =? 12 then ["f"%char]
    else if n =? 10 then ["n"%char]
    else if n =? 13 then ["r"%char]
    else if n =? 9 then ["t"%char]
    else ["u"; "0"; "0"; hex_char (n / 16); hex_char (n mod 16)]%char.

Definition line_separator : bytes := [byte 0xE2; byte 0x80; byte 0xA8].
Definition paragraph_separator : bytes := [byte 0xE2; byte 0x80; byte 0xA9].

(** One valid rune. *)
Definition escape_rune (p : bytes) : bytes :=
  match p with
  | [c] => escape_ascii c
  | _ =>
    if bool_decide (p = line_separator) then reverse_solidus :: bytes_of "u2028"
    else if bool_decide (p = paragraph_separator) then reverse_solidus :: bytes_of "u2029"
    else p
  end.

Fixpoint append_runes (fuel : nat) (b : bytes) : bytes :=
  match fuel, b with
  | S fuel, _ :: rest =>
    match rune_length b with
    | Some n => escape_rune (take n b) ++ append_runes fuel (drop n b)
    | None => reverse_solidus :: bytes_of "ufffd" ++ append_runes fuel rest
    end
  | _, _ => []
  end.

Definition appendString (b : bytes) : bytes := quotation :: append_runes (length b) b ++ [quotation].

(** ** Reading strings *)

Definition hex4 (s : bytes) : option (Z * bytes) :=
  match s with
  | a :: b :: c :: d :: s =>
    a ← hex_digit a; b ← hex_digit b; c ← hex_digit c; d ← hex_digit d;
    Some (((a * 16 + b) * 16 + c) * 16 + d, s)
  | _ => None
  end.

(** [utf8.AppendRune] *)
Definition append_rune (r : Z) : bytes :=
  if r <? 0x80 then [chr r]
  else if r <? 0x800 then [chr (0xC0 + r / 64); chr (0x80 + r mod 64)]
  else if (0xD800 <=? r) && (r <? 0xE000) then runeError
  else if r <? 0x10000 then [chr (0xE0 + r / 4096); chr (0x80 + r / 64 mod 64); chr (0x80 + r mod 64)]
  else [chr (0xF0 + r / 262144); chr (0x80 + r / 4096 mod 64); chr (0x80 + r / 64 mod 64); chr (0x80 + r mod 64)].

(** After backslash-u: a surrogate pair is one rune, a lone surrogate U+FFFD. *)
Definition unicode_escape (s : bytes) : option (bytes * bytes) :=
  '(r, s) ← hex4 s;
  if negb ((0xD800 <=? r) && (r <? 0xE000)) then Some (append_rune r, s)
  else
    match s with
    | c :: u :: t =>
      if Ascii.eqb c reverse_solidus && Ascii.eqb u "u" then
        match hex4 t with
        | Some (r2, t') =>
          if (r <? 0xDC00) && (0xDC00 <=? r2) && (r2 <? 0xE000)
          then Some (append_rune ((r - 0xD800) * 1024 + (r2 - 0xDC00) + 0x10000), t')
          else Some (runeError, s)
        | None => Some (runeError, s)
        end
      else Some (runeError, s)
    | _ => Some (runeError, s)
    end.

Definition simple_escape (c : Ascii.ascii) : option Ascii.ascii :=
  if Ascii.eqb c quotation || Ascii.eqb c reverse_solidus || Ascii.eqb c "/" then Some c
  else if Ascii.eqb c "b" then Some (chr 8)
  else if Ascii.eqb c "f" then Some (chr 12)
  else if Ascii.eqb c "n" then Some (chr 10)
  else if Ascii.eqb c "r" then Some (chr 13)
  else if Ascii.eqb c "t" then Some (chr 9)
  else None.

(** The string whose opening quote has been read, and what follows its closing one. *)
Fixpoint unquote (fuel : nat) (s : bytes) : option (bytes * bytes) :=
  match fuel, s with
  | S fuel, c :: t =>
    if Ascii.eqb c quotation then Some ([], t)
    else if Ascii.eqb c reverse_solidus then
      match t with
      | e :: t' =>
        '(r, t'') ← (if Ascii.eqb e "u" then unicode_escape t'
                     else (fun d => ([d], t')) <$> simple_escape e);
        '(v, rest) ← unquote fuel t''; Some (r ++ v, rest)
      | [] => None
      end
    else if byte_val c <? 0x20 then None
    else
      let '(r, t') := match rune_length s with Some n => (take n s, drop n s) | None => (runeError, t) end in
      '(v, rest) ← unquote fuel t'; Some (r ++ v, rest)
  | _, _ => None
  end.

(** ** Values *)

#[warnings="-register-all"]
Inductive json :=
| JNull | JBool (b : bool) | JNumber (text : bytes) | JString (s : bytes)
| JArray (l : list json) | JObject (l : list (bytes * json)).

Definition is_json_space (c : Ascii.ascii) : bool :=
  Ascii.eqb c " " || Ascii.eqb c (chr 9) || Ascii.eqb c (chr 10) || Ascii.eqb c (chr 13).

Fixpoint skip_ws (s : bytes) : bytes :=
  match s with c :: t => if is_json_space c then skip_ws t else s | [] => [] end.

Definition strip_prefix (p s : bytes) : option bytes :=
  if bool_decide (take (length p) s = p) then Some (drop (length p) s) else None.

Definition take_digits (s : bytes) : bytes * bytes := span_digits s.

(** The number at the start, and the rest. *)
Definition number (s : bytes) : option (bytes * bytes) :=
  let '(sign, s1) := match s with c :: t => if Ascii.eqb c "-" then ([c], t) else ([], s) | [] => ([], s) end in
  '(int, s2) ← match s1 with
               | c :: t => if Ascii.eqb c "0" then Some ([c], t)
                           else if is_digit c then Some (take_digits s1) else None
               | [] => None
               end;
  '(frac, s3) ← match s2 with
                | c :: t => if Ascii.eqb c "." then
                              let '(ds, r) := take_digits t in if bool_decide (ds = []) then None else Some (c :: ds, r)
                            else Some ([], s2)
                | [] => Some ([], s2)
                end;
  '(exp, s4) ← match s3 with
               | c :: t => if Ascii.eqb c "e" || Ascii.eqb c "E" then
                             let '(sg, t) := match t with
                               | d :: t' => if Ascii.eqb d "+" || Ascii.eqb d "-" then ([d], t') else ([], t)
                               | [] => ([], t)
                               end in
                             let '(ds, r) := take_digits t in
                             if bool_decide (ds = []) then None else Some (c :: sg ++ ds, r)
                           else Some ([], s3)
               | [] => Some ([], s3)
               end;
  Some (sign ++ int ++ frac ++ exp, s4).

Definition maxNestingDepth : Z := 10000.

(** A value, the elements of an array after its bracket, and the members of an object
    after its brace; [depth] counts the open ones. Every call has read a byte since the
    one that made it, so the length of the text is fuel enough. *)
Fixpoint value (fuel : nat) (depth : Z) (s : bytes) : option (json * bytes) :=
  match fuel with
  | O => None
  | S fuel =>
    match skip_ws s with
    | [] => None
    | c :: t =>
      if Ascii.eqb c quotation then '(v, r) ← unquote (length t) t; Some (JString v, r)
      else if Ascii.eqb c "{" then
        if maxNestingDepth <=? depth then None
        else match skip_ws t with
             | d :: r => if Ascii.eqb d "}" then Some (JObject [], r)
                         else '(l, r) ← members fuel (depth + 1) t; Some (JObject l, r)
             | [] => None
             end
      else if Ascii.eqb c "[" then
        if maxNestingDepth <=? depth then None
        else match skip_ws t with
             | d :: r => if Ascii.eqb d "]" then Some (JArray [], r)
                         else '(l, r) ← elements fuel (depth + 1) t; Some (JArray l, r)
             | [] => None
             end
      else
        match strip_prefix (bytes_of "null") (c :: t), strip_prefix (bytes_of "true") (c :: t),
              strip_prefix (bytes_of "false") (c :: t) with
        | Some r, _, _ => Some (JNull, r)
        | _, Some r, _ => Some (JBool true, r)
        | _, _, Some r => Some (JBool false, r)
        | None, None, None => '(n, r) ← number (c :: t); Some (JNumber n, r)
        end
    end
  end
with elements (fuel : nat) (depth : Z) (s : bytes) : option (list json * bytes) :=
  match fuel with
  | O => None
  | S fuel =>
    '(v, r) ← value fuel depth s;
    match skip_ws r with
    | c :: r => if Ascii.eqb c "," then '(l, r) ← elements fuel depth r; Some (v :: l, r)
                else if Ascii.eqb c "]" then Some ([v], r) else None
    | [] => None
    end
  end
with members (fuel : nat) (depth : Z) (s : bytes) : option (list (bytes * json) * bytes) :=
  match fuel with
  | O => None
  | S fuel =>
    match skip_ws s with
    | c :: t =>
      if negb (Ascii.eqb c quotation) then None
      else
        '(k, r) ← unquote (length t) t;
        match skip_ws r with
        | c :: r =>
          if negb (Ascii.eqb c ":") then None
          else
            '(v, r) ← value fuel depth r;
            match skip_ws r with
            | c :: r => if Ascii.eqb c "," then '(l, r) ← members fuel depth r; Some ((k, v) :: l, r)
                        else if Ascii.eqb c "}" then Some ([(k, v)], r) else None
            | [] => None
            end
        | [] => None
        end
    | [] => None
    end
  end.

(** A whole text: one value and white space. *)
Definition parse_json (s : bytes) : option json :=
  '(v, r) ← value (S (length s)) 0 s;
  if bool_decide (skip_ws r = []) then Some v else None.

(** [foldName]: names equal under [bytes.EqualFold] with one in ASCII. *)
Fixpoint fold_name (b : bytes) : bytes :=
  match b with
  | [] => []
  | c0 :: b1 =>
    match b1 with
    | c1 :: b2 =>
      if (byte_val c0 =? 0xC5) && (byte_val c1 =? 0xBF) then "s"%char :: fold_name b2
      else match b2 with
           | c2 :: b3 =>
             if (byte_val c0 =? 0xE2) && (byte_val c1 =? 0x84) && (byte_val c2 =? 0xAA)
             then "k"%char :: fold_name b3
             else lower_byte c0 :: fold_name b1
           | [] => lower_byte c0 :: fold_name b1
           end
    | [] => [lower_byte c0]
    end
  end.

(** ** Reading what was written *)

(** What a string becomes: every byte outside a valid rune is U+FFFD. *)
Definition valid_text (b : bytes) : bytes := concat (runes_with (length b) b).

Lemma one_rune_byte c : one_rune [c] -> byte_val c < 128.
Proof.
  intros [_ H]. specialize (H [chr 0x80; chr 0x80; chr 0x80]). revert H. simpl.
  unfold between. destruct (Z.leb_spec (byte_val c) 0x7F); [lia|]. rewrite andb_false_r.
  repeat case_match; simplify_eq; try done; lia.
Qed.

Lemma one_rune_head c d p : one_rune (c :: d :: p) -> 128 <= byte_val c.
Proof.
  intros [_ H]. specialize (H []). rewrite app_nil_r in H. cbn [rune_length] in H.
  destruct (between 0 0x7F c) eqn:E; [by injection H|]. unfold between in E. pose proof (byte_val_range c). lia.
Qed.

(** An ASCII byte is written in a form that reads as itself. *)
Definition ascii_readable (c : Ascii.ascii) : bool :=
  match escape_ascii c with
  | [d] => Ascii.eqb c d && negb (Ascii.eqb c quotation) && negb (Ascii.eqb c reverse_solidus) && (0x20 <=? byte_val c)
  | [b; e] => Ascii.eqb b reverse_solidus && negb (Ascii.eqb e "u") && bool_decide (simple_escape e = Some c)
  | [b; u; h1; h2; h3; h4] =>
    Ascii.eqb b reverse_solidus && Ascii.eqb u "u"
    && bool_decide (unicode_escape [h1; h2; h3; h4] = Some ([c], []))
    && match hex4 [h1; h2; h3; h4] with Some (r, _) => r <? 0xD800 | None => false end
  | _ => false
  end.

Lemma ascii_readable_all c : byte_val c < 128 -> ascii_readable c = true.
Proof.
  intros Hc. rewrite <- (chr_byte_val c). pose proof (byte_val_range c) as Hr.
  assert (forallb (fun z => ascii_readable (chr z)) (seqZ 0 128) = true) as H by (vm_compute; reflexivity).
  rewrite forallb_forall in H. apply H, list_elem_of_In, elem_of_seqZ. lia.
Qed.

Definition prepend (p : bytes) (x : option (bytes * bytes)) : option (bytes * bytes) :=
  '(v, rest) ← x; Some (p ++ v, rest).

Lemma unicode_escape_plain a b c d s r : hex4 [a; b; c; d] = Some (r, []) -> r < 0xD800 ->
  unicode_escape (a :: b :: c :: d :: s) = Some (append_rune r, s).
Proof.
  intros H Hr. unfold unicode_escape. cbn [hex4] in *.
  destruct (hex_digit a) as [x|]; [|done]. destruct (hex_digit b) as [y|]; [|done].
  destruct (hex_digit c) as [z|]; [|done]. destruct (hex_digit d) as [w|]; [|done].
  cbn [mbind option_bind] in *. injection H as <-.
  destruct (Z.leb_spec 0xD800 (((x * 16 + y) * 16 + z) * 16 + w)); [lia|]. done.
Qed.

Lemma unquote_ascii fuel c s : byte_val c < 128 ->
  unquote (S fuel) (escape_ascii c ++ s) = prepend [c] (unquote fuel s).
Proof.
  intros Hc. pose proof (ascii_readable_all c Hc) as H. unfold ascii_readable in H.
  destruct (escape_ascii c) as [|d [|e [|h1 [|h2 [|h3 [|h4 [|]]]]]]]; try done; rewrite !andb_true_iff in H.
  - destruct H as [[[Hd Hq] Hb] Hl]. apply Ascii.eqb_eq in Hd as <-. apply negb_true_iff in Hq, Hb. apply Z.leb_le in Hl.
    cbn [app unquote]. rewrite Hq, Hb. destruct (Z.ltb_spec (byte_val c) 0x20); [lia|].
    cbn [rune_length]. unfold between. destruct (Z.leb_spec 0 (byte_val c)); [|lia].
    destruct (Z.leb_spec (byte_val c) 0x7F); [|lia]. cbn [andb take drop]. done.
  - destruct H as [[Hb Hu] He]. apply Ascii.eqb_eq in Hb as ->. apply negb_true_iff in Hu. apply bool_decide_eq_true in He.
    cbn [app unquote]. rewrite Hu, He. done.
  - destruct H as [[[Hb Hu] He] Hr]. apply Ascii.eqb_eq in Hb as ->. apply Ascii.eqb_eq in Hu as ->.
    apply bool_decide_eq_true in He. destruct (hex4 _) as [[r t]|] eqn:Hx; [|done]. apply Z.ltb_lt in Hr.
    assert (t = []) as ->.
    { cbn [hex4] in Hx. destruct (hex_digit h1); [|done]. destruct (hex_digit h2); [|done].
      destruct (hex_digit h3); [|done]. destruct (hex_digit h4); [|done]. by injection Hx. }
    pose proof (unicode_escape_plain h1 h2 h3 h4 s r Hx Hr) as Hs.
    pose proof (unicode_escape_plain h1 h2 h3 h4 [] r Hx Hr) as Hn. rewrite He in Hn. injection Hn as Hn.
    cbn [app unquote]. rewrite Hs, <- Hn. done.
Qed.

Lemma unquote_rune fuel p s : one_rune p -> unquote (S fuel) (escape_rune p ++ s) = prepend p (unquote fuel s).
Proof.
  intros Hp. destruct p as [|c [|d p]]; [by destruct Hp|by apply unquote_ascii, one_rune_byte|].
  pose proof (one_rune_head _ _ _ Hp) as Hc. cbn [escape_rune].
  case_bool_decide as E1; [rewrite E1; done|]. case_bool_decide as E2; [rewrite E2; done|].
  destruct Hp as [_ Hp]. specialize (Hp s). cbn [app] in Hp |- *. cbn [unquote]. rewrite Hp.
  assert (Ascii.eqb c quotation = false /\ Ascii.eqb c reverse_solidus = false) as [-> ->].
  { split; apply Ascii.eqb_neq; intros ->; vm_compute in Hc; by apply Hc. }
  destruct (Z.ltb_spec (byte_val c) 0x20); [lia|].
  change (c :: d :: p ++ s) with ((c :: d :: p) ++ s). by rewrite take_app_length, drop_app_length.
Qed.

Lemma unquote_mono fuel fuel' s x : (fuel <= fuel')%nat -> unquote fuel s = Some x -> unquote fuel' s = Some x.
Proof.
  revert fuel' s x. induction fuel as [|fuel IH]; intros fuel' s x Hf; [done|]. destruct fuel' as [|fuel']; [lia|].
  destruct s as [|c t]; [done|]. cbn [unquote]. destruct (Ascii.eqb c quotation); [done|].
  assert (forall (o : option (bytes * bytes)) , ('(r, t'') ← o; '(v, rest) ← unquote fuel t''; Some (r ++ v, rest)) = Some x ->
    ('(r, t'') ← o; '(v, rest) ← unquote fuel' t''; Some (r ++ v, rest)) = Some x) as Hstep.
  { intros [[r t'']|]; [|done]. cbn [mbind option_bind]. destruct (unquote fuel t'') as [[v rest]|] eqn:Hu; [|done].
    rewrite (IH fuel' _ _ ltac:(lia) Hu). done. }
  destruct (Ascii.eqb c reverse_solidus); [destruct t as [|e t]; [done|]; apply Hstep|].
  destruct (byte_val c <? 0x20); [done|]. destruct (rune_length (c :: t)) as [n|].
  - apply (Hstep (Some (take n (c :: t), drop n (c :: t)))).
  - apply (Hstep (Some (runeError, t))).
Qed.

(** A string is read back as its text, each byte outside a valid rune as U+FFFD. *)
Lemma unquote_append_runes n b s : (length b <= n)%nat ->
  exists fuel, unquote fuel (append_runes n b ++ quotation :: s) = Some (concat (runes_with n b), s) /\
    (fuel <= length (append_runes n b ++ quotation :: s))%nat.
Proof.
  revert b. induction n as [|n IH]; intros b Hn.
  { destruct b; [|simpl in Hn; lia]. exists 1%nat. split; [done|simpl; lia]. }
  destruct b as [|c b]; [exists 1%nat; split; [done|simpl; lia]|]. cbn [append_runes runes_with].
  destruct (rune_length (c :: b)) as [k|] eqn:Hk.
  - destruct (rune_length_one _ _ Hk) as (Hone & Hlen & Hpos).
    destruct (IH (drop k (c :: b))) as (fuel & Hu & Hf); [rewrite length_drop; simpl in *; lia|].
    exists (S fuel). rewrite <- app_assoc, unquote_rune, Hu by done. cbn [prepend mbind option_bind concat]. split; [done|].
    rewrite length_app. assert (0 < length (escape_rune (take k (c :: b))))%nat; [|lia].
    destruct (take k (c :: b)) as [|x [|y p]]; [by destruct Hone| |].
    + cbn [escape_rune]. unfold escape_ascii. destruct (html_safe x); simpl; lia.
    + cbn [escape_rune]. repeat case_bool_decide; simpl; lia.
  - destruct (IH b) as (fuel & Hu & Hf); [simpl in *; lia|].
    exists (S fuel). cbn [app concat]. split; [|simpl in *; lia].
    change (unquote (S fuel) (reverse_solidus :: bytes_of "ufffd" ++ append_runes n b ++ quotation :: s)
            = Some (runeError ++ concat (runes_with n b), s)).
    replace (unquote (S fuel) _) with (prepend runeError (unquote fuel (append_runes n b ++ quotation :: s))) by reflexivity.
    by rewrite Hu.
Qed.

Lemma unquote_appendString b s : let t := append_runes (length b) b ++ quotation :: s in
  unquote (length t) t = Some (valid_text b, s).
Proof.
  intros t. destruct (unquote_append_runes (length b) b s) as (fuel & Hu & Hf); [done|].
  eapply unquote_mono; [exact Hf|exact Hu].
Qed.

Lemma skip_ws_quotation s : skip_ws (quotation :: s) = quotation :: s.
Proof. done. Qed.

Lemma appendString_app b s : appendString b ++ s = quotation :: append_runes (length b) b ++ quotation :: s.
Proof. unfold appendString. cbn [app]. by rewrite <- app_assoc. Qed.

Lemma value_string fuel depth b s : value (S fuel) depth (" "%char :: appendString b ++ s) = Some (JString (valid_text b), s).
Proof.
  rewrite appendString_app. cbn [value]. change (skip_ws (" "%char :: ?x)) with (skip_ws x). rewrite skip_ws_quotation.
  rewrite Ascii.eqb_refl, unquote_appendString. done.
Qed.

(** ** Objects of strings, indented *)

Definition newline : Ascii.ascii := chr 10.

(** One member on a line of its own, as [MarshalIndent] with two spaces writes it. *)
Definition member_text (kv : bytes * bytes) : bytes :=
  newline :: " "%char :: " "%char :: appendString kv.1 ++ ":"%char :: " "%char :: appendString kv.2.

Definition object_text (l : list (bytes * bytes)) : bytes :=
  match l with
  | [] => bytes_of "{}"
  | _ => "{"%char :: join_bytes "," (member_text <$> l) ++ [newline; "}"%char]
  end.

Definition string_members (l : list (bytes * bytes)) : list (bytes * json) :=
  (fun kv => (valid_text kv.1, JString (valid_text kv.2))) <$> l.

Lemma member_step fuel depth kv s : members (S (S fuel)) depth (member_text kv ++ s) =
  match skip_ws s with
  | c :: r => if Ascii.eqb c "," then '(l, r) ← members (S fuel) depth r; Some ((valid_text kv.1, JString (valid_text kv.2)) :: l, r)
              else if Ascii.eqb c "}" then Some ([(valid_text kv.1, JString (valid_text kv.2))], r) else None
  | [] => None
  end.
Proof.
  unfold member_text. cbn [app]. rewrite <- app_assoc, appendString_app. cbn [app].
  set (f := S fuel). cbn [members]. subst f.
  change (skip_ws (newline :: " "%char :: " "%char :: ?x)) with (skip_ws x). rewrite skip_ws_quotation, Ascii.eqb_refl.
  cbn [negb]. rewrite unquote_appendString. cbn [mbind option_bind].
  change (skip_ws (":"%char :: ?x)) with (":"%char :: x). cbn beta iota. rewrite Ascii.eqb_refl. cbn [negb].
  rewrite value_string. done.
Qed.

Lemma members_text kv l fuel depth s : (S (length l) < fuel)%nat ->
  members fuel depth (join_bytes "," (member_text <$> kv :: l) ++ newline :: "}"%char :: s) =
    Some (string_members (kv :: l), s).
Proof.
  revert kv fuel. induction l as [|kv' l IH]; intros kv fuel Hf; (destruct fuel as [|[|fuel]]; [simpl in Hf; lia|simpl in Hf; lia|]).
  - change (join_bytes "," (member_text <$> [kv])) with (member_text kv). by rewrite member_step.
  - change (join_bytes "," (member_text <$> kv :: kv' :: l)) with (member_text kv ++ ","%char :: join_bytes "," (member_text <$> kv' :: l)).
    rewrite <- app_assoc, member_step. cbn [app]. change (skip_ws (","%char :: ?x)) with (","%char :: x). cbn beta iota.
    rewrite Ascii.eqb_refl, IH by (simpl in *; lia). done.
Qed.

Lemma length_members (l : list (bytes * bytes)) : (4 * length l <= S (length (join_bytes "," (member_text <$> l))))%nat.
Proof.
  induction l as [|kv l IH]; [simpl; lia|]. destruct l as [|kv' l].
  - change (join_bytes "," (member_text <$> [kv])) with (member_text kv). unfold member_text. simpl. rewrite length_app. simpl. lia.
  - change (join_bytes "," (member_text <$> kv :: kv' :: l)) with (member_text kv ++ ","%char :: join_bytes "," (member_text <$> kv' :: l)).
    rewrite length_app. cbn [length] in *. unfold member_text at 1. cbn [length]. rewrite length_app. simpl in *. lia.
Qed.

(** What is written as an object of strings is read as that object. *)
Lemma parse_object_text kv l : parse_json (object_text (kv :: l)) = Some (JObject (string_members (kv :: l))).
Proof.
  unfold parse_json. cbn [object_text]. set (body := join_bytes "," (member_text <$> kv :: l)).
  assert (S (length l) < length ("{"%char :: body ++ [newline; "}"%char]))%nat as Hf.
  { pose proof (length_members (kv :: l)) as Hl. fold body in Hl. cbn [length] in *. rewrite length_app. simpl. lia. }
  remember (length ("{"%char :: body ++ [newline; "}"%char])) as n. clear Heqn.
  cbn [value]. change (skip_ws ("{"%char :: ?x)) with ("{"%char :: x). cbn beta iota.
  change (Ascii.eqb "{" quotation) with false. rewrite Ascii.eqb_refl. change (maxNestingDepth <=? 0) with false. cbn iota.
  assert (exists r, skip_ws (body ++ [newline; "}"%char]) = quotation :: r) as [r ->].
  { subst body. destruct l as [|kv' l].
    - change (join_bytes "," (member_text <$> [kv])) with (member_text kv). unfold member_text. cbn [app].
      change (skip_ws (newline :: " "%char :: " "%char :: ?x)) with (skip_ws x). rewrite <- app_assoc, appendString_app, skip_ws_quotation. eauto.
    - change (join_bytes "," (member_text <$> kv :: kv' :: l)) with (member_text kv ++ ","%char :: join_bytes "," (member_text <$> kv' :: l)).
      unfold member_text at 1. cbn [app].
      change (skip_ws (newline :: " "%char :: " "%char :: ?x)) with (skip_ws x). rewrite <- !app_assoc, appendString_app, skip_ws_quotation. eauto. }
  cbn beta iota. change (Ascii.eqb quotation "}") with false. cbn iota. subst body. rewrite members_text by done. done.
Qed.

Lemma valid_text_runes ps : Forall one_rune ps -> valid_text (concat ps) = concat ps.
Proof. intros Hps. unfold valid_text. by rewrite runes_with_concat. Qed.

Lemma valid_text_idem b : valid_text (valid_text b) = valid_text b.
Proof. apply valid_text_runes, runes_with_one. Qed.
