(* ===== verification/GoNet.v ===== *)
(** The parts of Go's [net/netip] and [net] packages the program uses: parsing and
    printing IP addresses, CIDR prefixes, and splitting host and port.

    An address is a 32- or 128-bit number; an IPv6 address carries its zone. The
    zero [netip.Addr], which is not valid, is [None] where a function returns it. *)

From S2P Require Import Prelude GoStrings GoEncoding.
Local Open Scope Z_scope.

Inductive Addr := V4 (a : Z) | V6 (a : Z) (zone : string).
#[export] Instance Addr_eq_dec : EqDecision Addr.
Proof. solve_decision. Defined.

(** ** Parsing *)

(** The loop of [parseIPv4Fields]: the previous byte, the value and the number of
    digits of the current field, and the fields before it. *)
Fixpoint parseIPv4Fields (s : bytes) (prev : option Ascii.ascii) (val : Z) (digLen : nat) (fields : list Z)
    : option (list Z) :=
  match s with
  | [] => if (length fields <? 3)%nat then None else Some (fields ++ [val])
  | c :: s =>
    if is_digit c then
      if (digLen =? 1)%nat && (val =? 0) then None
      else
        let val := val * 10 + (byte_val c - 48) in
        if 255 <? val then None else parseIPv4Fields s (Some c) val (S digLen) fields
    else if Ascii.eqb c dot then
      if bool_decide (prev = None) || bool_decide (s = []) || bool_decide (prev = Some dot) then None
      else if (length fields =? 3)%nat then None
      else parseIPv4Fields s (Some c) 0 0 (fields ++ [val])
    else None
  end.

(** Big-endian digits to a number. *)
Definition from_digits (base : Z) (ds : list Z) : Z := foldl (fun n d => n * base + d) 0 ds.

Definition parseIPv4 (s : bytes) : option Addr :=
  fields ← parseIPv4Fields s None 0 0 []; Some (V4 (from_digits 256 fields)).

Fixpoint span_hex (s : bytes) : list Z * bytes :=
  match s with
  | c :: s' => match hex_digit c with
               | Some d => let '(ds, r) := span_hex s' in (d :: ds, r)
               | None => ([], s)
               end
  | [] => ([], [])
  end.

Definition colon : Ascii.ascii := ":"%char.

(** The loop of [parseIPv6], [fuel] 16-bit groups from the end of the address: the
    groups so far, the group the ellipsis stands before, and what is left. *)
Fixpoint parse_groups (fuel : nat) (s : bytes) (groups : list Z) (ellipsis : option nat)
    : option (list Z * option nat * bytes) :=
  match fuel with
  | O => Some (groups, ellipsis, s)
  | S fuel =>
    let '(ds, rest) := span_hex s in
    if (length ds =? 0)%nat || (4 <? length ds)%nat then None
    else if bool_decide (head rest = Some dot) then
      if bool_decide (ellipsis = None) && negb (length groups =? 6)%nat then None
      else if (8 <? length groups + 2)%nat then None
      else match parseIPv4Fields s None 0 0 [] with
           | Some [a; b; c; d] => Some (groups ++ [a * 256 + b; c * 256 + d], ellipsis, [])
           | _ => None
           end
    else
      let groups := groups ++ [from_digits 16 ds] in
      match rest with
      | [] => Some (groups, ellipsis, [])
      | c :: s =>
        if negb (Ascii.eqb c colon) then None
        else match s with
             | [] => None
             | c :: s' =>
               if Ascii.eqb c colon then
                 if bool_decide (is_Some ellipsis) then None
                 else match s' with
                      | [] => Some (groups, Some (length groups), [])
                      | _ => parse_groups fuel s' groups (Some (length groups))
                      end
               else parse_groups fuel s groups ellipsis
             end
      end
  end.

Definition expand (groups : list Z) (ellipsis : option nat) : option (list Z) :=
  match ellipsis with
  | None => if (length groups <? 8)%nat then None else Some groups
  | Some e =>
    if (length groups <? 8)%nat
    then Some (take e groups ++ replicate (8 - length groups) 0 ++ drop e groups)
    else None
  end.

(** What is before and after the first [c]. *)
Fixpoint cut (c : Ascii.ascii) (s : bytes) : option (bytes * bytes) :=
  match s with
  | [] => None
  | x :: s => if Ascii.eqb x c then Some ([], s) else p ← cut c s; Some (x :: p.1, p.2)
  end.

Definition parseIPv6 (input : bytes) : option Addr :=
  let '(s, zone) := match cut "%" input with Some p => p | None => (input, []) end in
  if bool_decide (is_Some (cut "%" input)) && bool_decide (zone = []) then None
  else
    let '(s, ellipsis) := match s with
      | c1 :: c2 :: s' => if Ascii.eqb c1 colon && Ascii.eqb c2 colon then (s', Some 0%nat) else (s, None)
      | _ => (s, None)
      end in
    if bool_decide (ellipsis = Some 0%nat) && bool_decide (s = []) then Some (V6 0 (string_of zone))
    else
      p ← parse_groups 8 s [] ellipsis;
      let '(groups, ellipsis, rest) := p in
      if negb (bool_decide (rest = [])) then None
      else
        groups ← expand groups ellipsis;
        Some (V6 (from_digits 65536 groups) (string_of zone)).

(** The first dot, colon or percent sign says which form the address has. *)
Fixpoint address_form (s : bytes) : option Ascii.ascii :=
  match s with
  | [] => None
  | c :: s => if Ascii.eqb c dot || Ascii.eqb c colon || Ascii.eqb c "%" then Some c else address_form s
  end.

Definition ParseAddr (s : string) : option Addr :=
  match address_form (bytes_of s) with
  | Some c =>
    if Ascii.eqb c dot then parseIPv4 (bytes_of s)
    else if Ascii.eqb c colon then parseIPv6 (bytes_of s)
    else None
  | None => None
  end.

(** An IPv4-mapped IPv6 address, without its zone, as IPv4. *)
Definition Unmap (a : Addr) : Addr :=
  match a with
  | V6 n _ => if n / 2 ^ 32 =? 0xffff then V4 (n mod 2 ^ 32) else a
  | V4 _ => a
  end.

(** ** Printing *)

(** [k] digits of [n] in [base], the most significant first. *)
Fixpoint to_digits (base : Z) (k : nat) (n : Z) : list Z :=
  match k with
  | O => []
  | S k => to_digits base k (n / base) ++ [n mod base]
  end.

(** A 16-bit number in hexadecimal, without leading zeros. *)
Definition hex16 (n : Z) : bytes :=
  map hex_char (if n <? 16 then [n] else if n <? 256 then to_digits 16 2 n
                else if n <? 4096 then to_digits 16 3 n else to_digits 16 4 n).

Definition string4 (a : Z) : bytes := join_bytes dot (map FormatUint (to_digits 256 4 a)).

Fixpoint zero_run (gs : list Z) : nat :=
  match gs with
  | g :: gs => if g =? 0 then S (zero_run gs) else O
  | [] => O
  end.

(** The start and length of the first longest run of two or more zero groups. *)
Definition longest_run (gs : list Z) : nat * nat :=
  foldl (fun best i => let l := zero_run (drop i gs) in
    if (2 <=? l)%nat && (snd best <? l)%nat then (i, l) else best) (0%nat, 0%nat) (seq 0 8).

Definition string6 (n : Z) (zone : string) : bytes :=
  let gs := to_digits 65536 8 n in
  let '(start, len) := longest_run gs in
  let part gs := join_bytes colon (map hex16 gs) in
  (if (len =? 0)%nat then part gs
   else part (take start gs) ++ [colon; colon] ++ part (drop (start + len) gs))
  ++ (if bool_decide (zone = "") then [] else "%"%char :: bytes_of zone).

(** [Addr.String], for an address that is not IPv4-mapped. *)
Definition Addr_String (a : Addr) : string :=
  string_of match a with V4 n => string4 n | V6 n zone => string6 n zone end.

(** ** Prefixes *)

Record Prefix := mkPrefix { p_addr : Addr; p_bits : Z }.
#[export] Instance Prefix_eq_dec : EqDecision Prefix.
Proof. solve_decision. Defined.

Definition width (a : Addr) : Z := match a with V4 _ => 32 | V6 _ _ => 128 end.
Definition has_zone (a : Addr) : bool := match a with V6 _ z => negb (bool_decide (z = "")) | V4 _ => false end.

(** What is before and after the last [c]. *)
Definition cut_last (c : Ascii.ascii) (s : bytes) : option (bytes * bytes) :=
  match cut c (rev s) with
  | Some (after, before) => Some (rev before, rev after)
  | None => None
  end.

Definition ParsePrefix (s : string) : option Prefix :=
  match cut_last slash (bytes_of s) with
  | None => None
  | Some (a, bits) =>
    match ParseAddr (string_of a) with
    | None => None
    | Some ip =>
      if has_zone ip then None
      else if bool_decide (bits = []) || negb (forallb is_digit bits)
              || ((1 <? length bits)%nat && bool_decide (head bits = Some (chr 48))) then None
      else
        let n := numeral_value bits in
        if width ip <? n then None else Some (mkPrefix ip n)
    end
  end.

Definition mask (n w bits : Z) : Z := n / 2 ^ (w - bits) * 2 ^ (w - bits).

Definition Masked (p : Prefix) : Prefix :=
  mkPrefix (match p_addr p with V4 n => V4 (mask n 32 (p_bits p)) | V6 n z => V6 (mask n 128 (p_bits p)) z end)
    (p_bits p).

(** Same family, no zone, same leading bits. *)
Definition Contains (p : Prefix) (ip : Addr) : bool :=
  match p_addr p, ip with
  | V4 n, V4 m => Z.shiftr (Z.lxor m n) (32 - p_bits p) =? 0
  | V6 n _, V6 m zone => bool_decide (zone = "") && (Z.shiftr (Z.lxor m n) (128 - p_bits p) =? 0)
  | _, _ => false
  end.

(** ** Host and port *)

(** [net.SplitHostPort]: the host, or [None] on an error. *)
Definition SplitHost (hostport : bytes) : option bytes :=
  match cut_last colon hostport with
  | None => None
  | Some (before, after) =>
    match hostport with
    | "["%char :: inner =>
      match cut "]" inner with
      | None => None
      | Some (host, rest) =>
        (* the bracket must close just before the last colon *)
        if bool_decide (rest = colon :: after)
           && negb (bool_decide ("["%char ∈ inner)) && negb (bool_decide ("]"%char ∈ rest))
        then Some host else None
      end
    | _ =>
      if bool_decide (colon ∈ before) || bool_decide ("["%char ∈ hostport) || bool_decide ("]"%char ∈ hostport)
      then None else Some before
    end
  end.
