(* ===== verification/GoConv.v ===== *)
(** The conversions of Go's [strconv], [time] and [encoding/hex] packages the
    configuration uses: [ParseInt], [ParseBool], [ParseDuration], hexadecimal, and
    the float64 steps of [ParseDuration] and [Duration.Seconds], computed with the
    binary64 operations of the Standard Library's [SpecFloat]. *)

From Stdlib Require Import SpecFloat.
From S2P Require Import Prelude GoStrings GoEncoding.
Local Open Scope Z_scope.

(** ** Integers and booleans *)

(** [strconv.ParseInt(s, 10, bits)] *)
Definition ParseInt (bits : Z) (s : string) : option Z :=
  let '(sign, ds) := match bytes_of s with
    | c :: b => if Ascii.eqb c "-" then (-1, b) else if Ascii.eqb c "+" then (1, b) else (1, c :: b)
    | [] => (1, [])
    end in
  let n := sign * numeral_value ds in
  if bool_decide (ds = []) || negb (forallb is_digit ds) then None
  else if (n <? - 2 ^ (bits - 1)) || (2 ^ (bits - 1) <=? n) then None
  else Some n.

Definition ParseBool (s : string) : option bool :=
  if bool_decide (s ∈ ["1"; "t"; "T"; "TRUE"; "true"; "True"]%string) then Some true
  else if bool_decide (s ∈ ["0"; "f"; "F"; "FALSE"; "false"; "False"]%string) then Some false
  else None.

(** ** Hexadecimal *)

(** [hex.DecodeString] *)
Fixpoint hex_decode (b : bytes) : option (list Z) :=
  match b with
  | [] => Some []
  | [_] => None
  | c1 :: c2 :: b => d1 ← hex_digit c1; d2 ← hex_digit c2; r ← hex_decode b; Some (d1 * 16 + d2 :: r)
  end.

Definition hex_encode (b : list Z) : bytes := b ≫= fun z => [hex_char (z / 16); hex_char (z mod 16)].

Lemma hex_digit_char d : 0 <= d < 16 -> hex_digit (hex_char d) = Some d.
Proof.
  intros Hd. assert (forallb (fun d => bool_decide (hex_digit (hex_char d) = Some d)) (seqZ 0 16) = true) as H
    by (vm_compute; reflexivity).
  rewrite forallb_forall in H. specialize (H d). rewrite <- list_elem_of_In, elem_of_seqZ in H.
  specialize (H ltac:(lia)). by apply bool_decide_eq_true in H.
Qed.

Lemma hex_roundtrip b : Forall is_byte b -> hex_decode (hex_encode b) = Some b.
Proof.
  unfold hex_encode. induction 1 as [|z b Hz Hb IH]; [done|]. unfold is_byte in Hz. cbn.
  rewrite !hex_digit_char by zdiv. cbn. rewrite IH. cbn. do 2 f_equal. zdiv.
Qed.

(** ** Float64 *)

Definition f64_of (n : Z) : spec_float := binary_normalize 53 1024 n 0 false.
Definition f64_mul := SFmul 53 1024.
Definition f64_div := SFdiv 53 1024.
Definition f64_add := SFadd 53 1024.

(** Conversion of a non-negative float to an integer: towards zero. *)
Definition f64_trunc (f : spec_float) : Z :=
  match f with
  | S754_finite s m e =>
    let n := if 0 <=? e then Z.pos m * 2 ^ e else Z.pos m / 2 ^ (- e) in
    if s then - n else n
  | _ => 0
  end.

(** ** Durations: nanoseconds, as [int64] *)

Definition Nanosecond : Z := 1.
Definition Microsecond : Z := 1000.
Definition Millisecond : Z := 1000 * Microsecond.
Definition Second : Z := 1000 * Millisecond.
Definition Minute : Z := 60 * Second.
Definition Hour : Z := 60 * Minute.

(** The unit names, with both spellings of the micro sign. *)
Definition unitMap : list (bytes * Z) :=
  [ (bytes_of "ns", Nanosecond); (bytes_of "us", Microsecond);
    ([chr 194; chr 181; "s"%char], Microsecond); ([chr 206; chr 188; "s"%char], Microsecond);
    (bytes_of "ms", Millisecond); (bytes_of "s", Second); (bytes_of "m", Minute); (bytes_of "h", Hour) ].

Fixpoint leadingInt (s : bytes) (x : Z) : option (Z * bytes) :=
  match s with
  | c :: s' =>
    if is_digit c then
      if 2 ^ 63 / 10 <? x then None
      else
        let x := x * 10 + (byte_val c - 48) in
        if 2 ^ 63 <? x then None else leadingInt s' x
    else Some (x, s)
  | [] => Some (x, [])
  end.

Fixpoint leadingFraction (s : bytes) (x : Z) (scale : spec_float) (overflow : bool) : Z * spec_float * bytes :=
  match s with
  | c :: s' =>
    if is_digit c then
      if overflow then leadingFraction s' x scale true
      else if (2 ^ 63 - 1) / 10 <? x then leadingFraction s' x scale true
      else
        let y := x * 10 + (byte_val c - 48) in
        if 2 ^ 63 <? y then leadingFraction s' x scale true
        else leadingFraction s' y (f64_mul scale (f64_of 10)) false
    else (x, scale, s)
  | [] => (x, scale, [])
  end.

Fixpoint span_unit (s : bytes) : bytes * bytes :=
  match s with
  | c :: s' => if Ascii.eqb c dot || is_digit c then ([], s) else let '(u, r) := span_unit s' in (c :: u, r)
  | [] => ([], [])
  end.

(** One iteration of the loop: the amount and what is left. *)
Definition duration_part (s : bytes) : option (Z * bytes) :=
  match s with
  | [] => None
  | c :: _ =>
    if negb (Ascii.eqb c dot || is_digit c) then None
    else
      p ← leadingInt s 0;
      let '(v, s1) := p in
      let pre := negb (length s1 =? length s)%nat in
      let '(f, scale, s2, post) := match s1 with
        | c :: s1' =>
          if Ascii.eqb c dot then
            let '(f, scale, r) := leadingFraction s1' 0 (f64_of 1) false in
            (f, scale, r, negb (length r =? length s1')%nat)
          else (0, f64_of 1, s1, false)
        | [] => (0, f64_of 1, [], false)
        end in
      if negb pre && negb post then None
      else
        let '(u, s3) := span_unit s2 in
        p ← list_find (fun e => e.1 = u) unitMap;
        let unit := p.2.2 in
        if 2 ^ 63 / unit <? v then None
        else
          let v := v * unit in
          let v := if 0 <? f then u64 (v + f64_trunc (f64_mul (f64_of f) (f64_div (f64_of unit) scale))) else v in
          if 2 ^ 63 <? v then None else Some (v, s3)
  end.

Fixpoint duration_loop (fuel : nat) (s : bytes) (d : Z) : option Z :=
  match fuel, s with
  | _, [] => Some d
  | O, _ => None
  | S fuel, _ =>
    p ← duration_part s;
    let d := u64 (d + p.1) in
    if 2 ^ 63 <? d then None else duration_loop fuel p.2 d
  end.

Definition ParseDuration (s : string) : option Z :=
  let '(neg, b) := match bytes_of s with
    | c :: b => if Ascii.eqb c "-" then (true, b) else if Ascii.eqb c "+" then (false, b) else (false, c :: b)
    | [] => (false, [])
    end in
  if bool_decide (b = bytes_of "0") then Some 0
  else if bool_decide (b = []) then None
  else
    d ← duration_loop (length b) b 0;
    if neg then Some (- d) else if 2 ^ 63 - 1 <? d then None else Some d.

(** [int64(d.Seconds())]: the seconds are a float64 sum before truncation. *)
Definition whole_seconds (d : Z) : Z :=
  f64_trunc (f64_add (f64_of (Z.quot d Second)) (f64_div (f64_of (Z.rem d Second)) (f64_of 1000000000))).
