(* ===== verification/GoTime.v ===== *)
(** Go's [time.Time.Format] with the [ANSIC] layout, for a time given as seconds since 1970
    and the offset of its zone. *)

From S2P Require Import Prelude GoStrings GoEncoding.
Local Open Scope Z_scope.

(** The proleptic Gregorian date of a day counted from 1970: the year starts in March, in
    eras of 400 years. *)
Definition civil (days : Z) : Z * Z * Z :=
  let z := days + 719468 in
  let doe := z mod 146097 in
  let yoe := (doe - doe / 1460 + doe / 36524 - doe / 146096) / 365 in
  let doy := doe - (365 * yoe + yoe / 4 - yoe / 100) in
  let mp := (5 * doy + 2) / 153 in
  let month := if mp <? 10 then mp + 3 else mp - 9 in
  (yoe + 400 * (z / 146097) + (if month <=? 2 then 1 else 0), month, doy - (153 * mp + 2) / 5 + 1).

(** Sunday first; 1970 began on a Thursday. *)
Definition weekday (days : Z) : Z := (days + 4) mod 7.

Definition day_names : list string := ["Sun"; "Mon"; "Tue"; "Wed"; "Thu"; "Fri"; "Sat"].
Definition month_names : list string :=
  ["Jan"; "Feb"; "Mar"; "Apr"; "May"; "Jun"; "Jul"; "Aug"; "Sep"; "Oct"; "Nov"; "Dec"].

Definition name_of (names : list string) (i : Z) : string := default ""%string (names !! Z.to_nat i).

(** At least so wide, filled on the left. *)
Definition padded (fill : Ascii.ascii) (width : nat) (n : Z) : string :=
  let d := FormatUint n in string_of (replicate (width - length d) fill ++ d).

(** [Mon Jan _2 15:04:05 2006] *)
Definition ANSIC (offset t : Z) : string :=
  let t := t + offset in
  let days := t / 86400 in
  let secs := t mod 86400 in
  let '(year, month, day) := civil days in
  name_of day_names (weekday days) +:+ " " +:+ name_of month_names (month - 1) +:+ " " +:+ padded " " 2 day +:+ " "
  +:+ padded "0" 2 (secs / 3600) +:+ ":" +:+ padded "0" 2 (secs / 60 mod 60) +:+ ":" +:+ padded "0" 2 (secs mod 60)
  +:+ " " +:+ (if year <? 0 then "-" else "") +:+ padded "0" 4 (Z.abs year).

Example ANSIC_epoch : ANSIC 0 0 = "Thu Jan  1 00:00:00 1970"%string.
Proof. reflexivity. Qed.
Example ANSIC_leap : ANSIC (-18000) 951800399 = "Mon Feb 28 23:59:59 2000"%string /\ ANSIC 0 951825599 = "Tue Feb 29 11:59:59 2000"%string.
Proof. split; vm_compute; reflexivity. Qed.
Example ANSIC_zero : ANSIC 0 (-62135596800) = "Mon Jan  1 00:00:00 0001"%string.
Proof. vm_compute. reflexivity. Qed.
