(* ===== verification/GoURL.v ===== *)
(** Go's [net/url], as the program uses it: [Parse], the escaping of each part,
    [String], and the query as a map ([Query], [Set], [Encode]). The cap on the number
    of query parameters (ten thousand) is left out. *)

From S2P Require Import Prelude GoStrings GoEncoding GoNet.
Local Open Scope Z_scope.

Definition is_letter (c : Ascii.ascii) : bool :=
  let n := byte_val c in ((97 <=? n) && (n <=? 122)) || ((65 <=? n) && (n <=? 90)).
Definition is_alnum (c : Ascii.ascii) : bool := is_letter c || is_digit c.

(** ** Escapes *)

Inductive mode := EncodePath | EncodeHost | EncodeZone | EncodeUserPassword | EncodeQueryComponent | EncodeFragment.

Definition one_of (s : string) (c : Ascii.ascii) : bool := bool_decide (c ∈ bytes_of s).

Definition shouldEscape (m : mode) (c : Ascii.ascii) : bool :=
  negb (is_alnum c || one_of "-_.~" c
        || match m with
           | EncodeHost | EncodeZone => one_of "!$&'()*+,;=:[]<>" c || Ascii.eqb c (chr 34)
           | EncodePath => one_of "$&+,/:;=@" c
           | EncodeUserPassword => one_of "$&+,;=" c
           | EncodeQueryComponent => false
           | EncodeFragment => one_of "$&+,/:;=?@!()*" c
           end).

Definition upperhex (d : Z) : Ascii.ascii := if d <? 10 then chr (48 + d) else chr (55 + d).

Definition escape_byte (m : mode) (c : Ascii.ascii) : bytes :=
  if shouldEscape m c then
    match m with
    | EncodeQueryComponent =>
      if Ascii.eqb c " " then ["+"%char]
      else ["%"%char; upperhex (byte_val c / 16); upperhex (byte_val c mod 16)]
    | _ => ["%"%char; upperhex (byte_val c / 16); upperhex (byte_val c mod 16)]
    end
  else [c].

Definition escape (m : mode) (s : bytes) : bytes := s ≫= escape_byte m.

Definition is_host (m : mode) : bool := match m with EncodeHost | EncodeZone => true | _ => false end.

(** [unescape]: [None] is an error. *)
Fixpoint unescape (m : mode) (s : bytes) : option bytes :=
  match s with
  | [] => Some []
  | c :: s =>
    if Ascii.eqb c "%" then
      match s with
      | c1 :: c2 :: s =>
        d1 ← hex_digit c1; d2 ← hex_digit c2;
        let v := chr (d1 * 16 + d2) in
        let percent := Ascii.eqb v "%" in
        if match m with
           | EncodeHost => (d1 <? 8) && negb percent
           | EncodeZone => negb percent && negb (Ascii.eqb v " ") && shouldEscape EncodeHost v
           | _ => false
           end then None
        else cons v <$> unescape m s
      | _ => None
      end
    else if is_host m && (byte_val c <? 128) && shouldEscape m c then None
    else cons (match m with EncodeQueryComponent => if Ascii.eqb c "+" then " "%char else c | _ => c end)
           <$> unescape m s
  end.

(** An escaped form that is kept as it was written. *)
Definition validEncoded (m : mode) (s : bytes) : bool :=
  forallb (fun c => one_of "!$&'()*+,;=:@[]%" c || negb (shouldEscape m c)) s.

(** ** Authority *)

Definition validOptionalPort (port : bytes) : bool :=
  match port with
  | [] => true
  | c :: port => Ascii.eqb c colon && forallb is_digit port
  end.

Definition validUserinfo (s : bytes) : bool :=
  forallb (fun c => is_alnum c || one_of "-._:~!$&'()*+,;=%@" c) s.

(** The first occurrence of [sub]: what is before it and what starts with it. *)
Fixpoint find_sub (sub s : bytes) : option (bytes * bytes) :=
  if bool_decide (take (length sub) s = sub) then Some ([], s)
  else match s with
       | [] => None
       | c :: s => p ← find_sub sub s; Some (c :: p.1, p.2)
       end.

(** The host, unescaped. A bracketed host is an IPv6 address with an optional
    zone; elsewhere a colon starts the port, the first one when colons are [strict]
    and the last one otherwise. *)
Definition parseHost (strict : bool) (host : bytes) : option bytes :=
  match cut_last "[" host with
  | Some (_, _) =>
    match cut_last "]" host with
    | None => None
    | Some (before, colonPort) =>
      if negb (validOptionalPort colonPort) then None
      else
        hostname ← (p ← cut_last "[" before; Some p.2);
        name ← match find_sub (bytes_of "%25") hostname with
               | Some (h, z) => h ← unescape EncodeHost h; z ← unescape EncodeZone z; Some (h ++ z)
               | None => unescape EncodeHost hostname
               end;
        match ParseAddr (string_of name) with
        | Some (V6 _ _) => Some ("["%char :: name ++ "]"%char :: colonPort)
        | _ => None
        end
    end
  | None =>
    match (if strict then cut colon host else cut_last colon host) with
    | Some (_, port) => if validOptionalPort (colon :: port) then unescape EncodeHost host else None
    | None => unescape EncodeHost host
    end
  end.

(** A user name and, when there is a colon, a password. *)
Definition Userinfo : Type := bytes * option bytes.

Definition parseUserinfo (s : bytes) : option Userinfo :=
  if negb (validUserinfo s) then None
  else match cut colon s with
       | None => name ← unescape EncodeUserPassword s; Some (name, None)
       | Some (name, password) =>
         name ← unescape EncodeUserPassword name; password ← unescape EncodeUserPassword password;
         Some (name, Some password)
       end.

Definition parseAuthority (strict : bool) (authority : bytes) : option (option Userinfo * bytes) :=
  match cut_last "@" authority with
  | None => host ← parseHost strict authority; Some (None, host)
  | Some (userinfo, host) =>
    host ← parseHost strict host; user ← parseUserinfo userinfo; Some (Some user, host)
  end.

Definition Userinfo_String (u : Userinfo) : bytes :=
  escape EncodeUserPassword u.1
  ++ match u.2 with Some p => colon :: escape EncodeUserPassword p | None => [] end.

(** ** URLs *)

Record URL := mkURL {
  u_Scheme : bytes; u_Opaque : bytes; u_User : option Userinfo; u_Host : bytes;
  u_Path : bytes; u_RawPath : bytes; u_OmitHost : bool; u_ForceQuery : bool; u_RawQuery : bytes;
  u_Fragment : bytes; u_RawFragment : bytes
}.

(** [getScheme]: [None] for a missing scheme before a colon; an empty scheme when
    there is none. *)
Fixpoint scan_scheme (whole s acc : bytes) : option (bytes * bytes) :=
  match s with
  | [] => Some ([], whole)
  | c :: s =>
    if is_letter c then scan_scheme whole s (acc ++ [c])
    else if is_digit c || one_of "+-." c then
      if bool_decide (acc = []) then Some ([], whole) else scan_scheme whole s (acc ++ [c])
    else if Ascii.eqb c colon then if bool_decide (acc = []) then None else Some (acc, s)
    else Some ([], whole)
  end.

Definition getScheme (s : bytes) : option (bytes * bytes) := scan_scheme s s [].

Definition has_ctl (s : bytes) : bool := existsb (fun c => (byte_val c <? 0x20) || (byte_val c =? 0x7f)) s.

Definition starts_with (p s : bytes) : bool := bool_decide (take (length p) s = p).

(** A decoded part and the raw text, which is kept only when escaping the part anew
    would not give it back. *)
Definition with_raw (m : mode) (s : bytes) : option (bytes * bytes) :=
  p ← unescape m s; Some (p, if bool_decide (escape m p = s) then [] else s).

Definition escaped (m : mode) (raw decoded : bytes) : bytes :=
  if negb (bool_decide (raw = [])) && validEncoded m raw && bool_decide (unescape m raw = Some decoded) then raw
  else escape m decoded.

Definition EscapedPath (u : URL) : bytes := escaped EncodePath (u_RawPath u) (u_Path u).
Definition EscapedFragment (u : URL) : bytes := escaped EncodeFragment (u_RawFragment u) (u_Fragment u).

Definition cut_or (c : Ascii.ascii) (s : bytes) : bytes * bytes := default (s, []) (cut c s).

(** The query, and whether there is a lone question mark at the end. *)
Definition split_query (rest : bytes) : bool * (bytes * bytes) :=
  match cut "?" rest with
  | Some (r, q) => (bool_decide (q = []), (r, q))
  | None => (false, (rest, []))
  end.

(** The authority and the path, which keeps its slash. *)
Definition split_authority (rest : bytes) : bytes * bytes :=
  match cut slash rest with Some (a, p) => (a, slash :: p) | None => (rest, []) end.

(** The part of [Parse] before the fragment. [strict] says for which schemes a host
    may hold no colon but its port's: http and https always, the others depending on
    the toolchain and its [urlstrictcolons] setting. *)
Definition parse (strict : bytes -> bool) (s : bytes) : option URL :=
  if has_ctl s then None
  else if bool_decide (s = ["*"%char]) then Some (mkURL [] [] None [] s [] false false [] [] [])
  else
    '(scheme, rest) ← getScheme s;
    let scheme := lower_byte <$> scheme in
    let '(force, (rest, query)) := split_query rest in
    let has_scheme := negb (bool_decide (scheme = [])) in
    if negb (starts_with [slash] rest) && has_scheme
    then Some (mkURL scheme rest None [] [] [] false force query [] [])
    else if negb (starts_with [slash] rest) && bool_decide (colon ∈ (cut_or slash rest).1) then None
    else
      let authority := starts_with [slash; slash] rest && (has_scheme || negb (starts_with [slash; slash; slash] rest)) in
      '(user, host, rest') ←
        (if authority then
           let '(a, p) := split_authority (drop 2 rest) in
           '(user, host) ← parseAuthority (strict scheme) a; Some (user, host, p)
         else Some (None, [], rest));
      '(path, raw) ← with_raw EncodePath rest';
      Some (mkURL scheme [] user host path raw (negb authority && has_scheme && starts_with [slash] rest)
              force query [] []).

Definition set_fragment (u : URL) (f raw : bytes) : URL :=
  mkURL (u_Scheme u) (u_Opaque u) (u_User u) (u_Host u) (u_Path u) (u_RawPath u) (u_OmitHost u) (u_ForceQuery u)
    (u_RawQuery u) f raw.

Definition Parse (strict : bytes -> bool) (s : bytes) : option URL :=
  let '(s, frag) := cut_or "#" s in
  u ← parse strict s;
  '(f, raw) ← with_raw EncodeFragment frag;
  Some (set_fragment u f raw).

(** What comes after the scheme and before the query. *)
Definition hier_part (u : URL) : bytes :=
  if negb (bool_decide (u_Opaque u = [])) then u_Opaque u
  else
    let has_scheme := negb (bool_decide (u_Scheme u = [])) in
    let has_host := negb (bool_decide (u_Host u = [])) in
    let has_user := bool_decide (is_Some (u_User u)) in
    let auth :=
      if (has_scheme || has_host || has_user) && negb (u_OmitHost u && negb has_host && negb has_user) then
        (if has_host || negb (bool_decide (u_Path u = [])) || has_user then [slash; slash] else [])
        ++ match u_User u with Some ui => Userinfo_String ui ++ ["@"%char] | None => [] end
        ++ escape EncodeHost (u_Host u)
      else [] in
    let path := if bool_decide (u_Path u = ["*"%char]) then ["*"%char] else EscapedPath u in
    let sep := if negb (bool_decide (path = [])) && negb (starts_with [slash] path) && has_host then [slash] else [] in
    let dot_slash :=
      if negb has_scheme && bool_decide (auth ++ sep = []) && bool_decide (colon ∈ (cut_or slash path).1)
      then bytes_of "./" else [] in
    auth ++ sep ++ dot_slash ++ path.

Definition URL_String (u : URL) : bytes :=
  (if bool_decide (u_Scheme u = []) then [] else u_Scheme u ++ [colon])
  ++ hier_part u
  ++ (if u_ForceQuery u || negb (bool_decide (u_RawQuery u = [])) then "?"%char :: u_RawQuery u else [])
  ++ (if bool_decide (u_Fragment u = []) then [] else "#"%char :: EscapedFragment u).

Definition set_path (u : URL) (p : bytes) : URL :=
  mkURL (u_Scheme u) (u_Opaque u) (u_User u) (u_Host u) p (u_RawPath u) (u_OmitHost u) (u_ForceQuery u)
    (u_RawQuery u) (u_Fragment u) (u_RawFragment u).

Definition set_query (u : URL) (q : bytes) : URL :=
  mkURL (u_Scheme u) (u_Opaque u) (u_User u) (u_Host u) (u_Path u) (u_RawPath u) (u_OmitHost u) (u_ForceQuery u)
    q (u_Fragment u) (u_RawFragment u).

(** ** Queries *)

Abbreviation Values := (gmap string (list bytes)).

(** One [key=value] pair; a malformed one is dropped, as [Query] ignores the error. *)
Definition parse_pair (pair : bytes) : option (string * bytes) :=
  if bool_decide (pair = []) || bool_decide (";"%char ∈ pair) then None
  else
    let '(k, v) := cut_or "=" pair in
    k ← unescape EncodeQueryComponent k; v ← unescape EncodeQueryComponent v;
    Some (string_of k, v).

Definition add_value (m : Values) (kv : string * bytes) : Values :=
  <[kv.1 := default [] (m !! kv.1) ++ [kv.2]]> m.

Definition parseQuery (q : bytes) : Values :=
  foldl add_value ∅ (omap parse_pair (split_bytes "&" q)).

Definition Query (u : URL) : Values := parseQuery (u_RawQuery u).

Definition encode_pair (kv : string * bytes) : bytes :=
  escape EncodeQueryComponent (bytes_of kv.1) ++ "="%char :: escape EncodeQueryComponent kv.2.

(** The pairs in the order of their keys. *)
Definition sorted_pairs (m : Values) : list (string * bytes) :=
  k ← merge_sort String.le ((map_to_list m).*1); pair k <$> default [] (m !! k).

Definition Encode (m : Values) : bytes := join_bytes "&" (encode_pair <$> sorted_pairs m).
