(* ===== verification/GoURLSpec.v ===== *)
(** What re-rendering a URL keeps: escaping is undone by unescaping, an encoded query
    reads back as the same map, and a URL that [Parse] accepted, with its path or its
    query replaced, is parsed back from [URL_String] with every other part as it was. *)

From S2P Require Import Prelude GoStrings GoEncoding GoNet GoURL.
Local Open Scope Z_scope.

(** ** Bytes *)

Definition all_bytes : bytes := chr <$> seqZ 0 256.

(** A fact of every byte, by evaluation. *)
Lemma byte_forall (P : Ascii.ascii -> bool) : forallb P all_bytes = true -> forall c, P c = true.
Proof.
  rewrite forallb_forall. intros HP c. apply HP, list_elem_of_In. rewrite <- (chr_byte_val c).
  apply list_elem_of_fmap_2, elem_of_seqZ. pose proof (byte_val_range c). lia.
Qed.

(** Neither a control byte nor one of [bad]. *)
Definition clear_of (bad : string) (c : Ascii.ascii) : bool :=
  negb (one_of bad c || (byte_val c <? 0x20) || (byte_val c =? 0x7f)).

Definition clear (bad : string) (s : bytes) : Prop := forallb (clear_of bad) s = true.

Lemma clear_app bad s t : clear bad (s ++ t) <-> clear bad s /\ clear bad t.
Proof. unfold clear. rewrite forallb_app, andb_true_iff. done. Qed.

Lemma clear_notin bad s c : clear bad s -> one_of bad c = true -> c ∉ s.
Proof.
  unfold clear. rewrite forallb_forall. intros Hs Hc Hin. apply list_elem_of_In, Hs in Hin.
  unfold clear_of in Hin. by rewrite Hc in Hin.
Qed.

Lemma clear_ctl bad s : clear bad s -> has_ctl s = false.
Proof.
  unfold clear, has_ctl. rewrite forallb_forall. intros Hs. apply not_true_iff_false. rewrite existsb_exists.
  intros (c & Hin & Hc). apply Hs in Hin. unfold clear_of in Hin.
  by destruct (one_of bad c), (byte_val c <? 0x20), (byte_val c =? 0x7f).
Qed.

Lemma clear_weaken bad bad' s : (forall c, clear_of bad c = true -> clear_of bad' c = true) ->
  clear bad s -> clear bad' s.
Proof. unfold clear. rewrite !forallb_forall. eauto. Qed.

Lemma clear_intro bad s : has_ctl s = false -> (forall c, one_of bad c = true -> c ∉ s) -> clear bad s.
Proof.
  unfold clear, has_ctl. intros Hctl Hbad. apply forallb_forall. intros c Hin. unfold clear_of.
  apply not_true_iff_false in Hctl. rewrite existsb_exists in Hctl.
  destruct (one_of bad c) eqn:E; [by destruct (Hbad c E); apply list_elem_of_In|].
  destruct ((byte_val c <? 0x20) || (byte_val c =? 0x7f)) eqn:E2; [|by rewrite orb_false_l, E2].
  destruct Hctl. eauto.
Qed.

(** ** Cutting *)

Lemma cut_app c a b : c ∉ a -> cut c (a ++ c :: b) = Some (a, b).
Proof.
  induction a as [|x a IH]; intros Hc; simpl.
  - by rewrite Ascii.eqb_refl.
  - apply not_elem_of_cons in Hc as [Hne Hc]. destruct (Ascii.eqb_spec x c); [congruence|].
    by rewrite IH.
Qed.

Lemma cut_or_app c a b : c ∉ a -> cut_or c (a ++ c :: b) = (a, b).
Proof. intros Hc. unfold cut_or. by rewrite cut_app. Qed.

Lemma cut_none c s : c ∉ s -> cut c s = None.
Proof.
  induction s as [|x s IH]; intros Hc; simpl; [done|]. apply not_elem_of_cons in Hc as [Hne Hc].
  destruct (Ascii.eqb_spec x c); [congruence|]. by rewrite IH.
Qed.

Lemma cut_inv c s : match cut c s with Some (a, b) => s = a ++ c :: b /\ c ∉ a | None => c ∉ s end.
Proof.
  induction s as [|x s IH]; simpl; [set_solver|].
  destruct (Ascii.eqb_spec x c) as [->|Hne]; [split; [done|set_solver]|].
  destruct (cut c s) as [[a b]|]; simpl; [destruct IH as [-> IH]; split; [done|set_solver]|set_solver].
Qed.

Lemma cut_last_app c a b : c ∉ b -> cut_last c (a ++ c :: b) = Some (a, b).
Proof.
  intros Hb. unfold cut_last. rewrite rev_app_distr. simpl. rewrite <- app_assoc. simpl.
  rewrite cut_app, !rev_involutive; [done|]. intros Hin. by apply Hb, list_elem_of_In, in_rev, list_elem_of_In.
Qed.

Lemma cut_last_none c s : c ∉ s -> cut_last c s = None.
Proof.
  intros Hs. unfold cut_last. rewrite cut_none; [done|].
  intros Hin. by apply Hs, list_elem_of_In, in_rev, list_elem_of_In.
Qed.

Lemma cut_last_inv c s :
  match cut_last c s with Some (a, b) => s = a ++ c :: b /\ c ∉ b | None => c ∉ s end.
Proof.
  unfold cut_last. pose proof (cut_inv c (rev s)) as H. destruct (cut c (rev s)) as [[a b]|].
  - destruct H as [H Hn]. apply (f_equal (@rev _)) in H. rewrite rev_involutive, rev_app_distr in H. simpl in H.
    rewrite <- app_assoc in H. split; [done|]. intros Hin. by apply Hn, list_elem_of_In, in_rev, list_elem_of_In.
  - intros Hin. apply H, list_elem_of_In. rewrite <- in_rev. by apply list_elem_of_In.
Qed.

(** ** Escaping *)

(** Every byte survives, in a mode that is not a host's. *)
Definition escape_ok (m : mode) (c : Ascii.ascii) : bool :=
  match escape_byte m c with
  | [x] => negb (Ascii.eqb x "%")
           && Ascii.eqb (match m with EncodeQueryComponent => if Ascii.eqb x "+" then " "%char else x | _ => x end) c
  | [p; h; l] =>
    Ascii.eqb p "%" && bool_decide ((d1 ← hex_digit h; d2 ← hex_digit l; Some (chr (d1 * 16 + d2))) = Some c)
  | _ => false
  end.

Lemma escape_ok_all m c : escape_ok m c = true.
Proof. apply byte_forall. by destruct m; vm_compute. Qed.

Lemma unescape_escape_byte m c s : is_host m = false ->
  unescape m (escape_byte m c ++ s) = cons c <$> unescape m s.
Proof.
  intros Hm. pose proof (escape_ok_all m c) as Hok. unfold escape_ok in Hok.
  destruct (escape_byte m c) as [|x [|h [|l [|]]]]; try done; apply andb_prop in Hok as [Hx Hc].
  - apply negb_true_iff in Hx. apply Ascii.eqb_eq in Hc.
    cbn [app unescape]. rewrite Hx, Hm. simpl. by rewrite Hc.
  - apply Ascii.eqb_eq in Hx as ->. apply bool_decide_eq_true in Hc. cbn [app unescape].
    destruct (hex_digit h) as [d1|]; [|done]. destruct (hex_digit l) as [d2|]; [|done].
    simpl in Hc. injection Hc as <-. simpl. by destruct m.
Qed.

Lemma unescape_escape m s : is_host m = false -> unescape m (escape m s) = Some s.
Proof.
  intros Hm. induction s as [|c s IH]; [done|]. unfold escape in *. cbn [mbind list_bind].
  by rewrite unescape_escape_byte, IH.
Qed.

(** What an escaped part never contains. *)
Definition forbidden (m : mode) : string :=
  match m with
  | EncodePath => "?#"
  | EncodeHost | EncodeZone => "/?#@"
  | EncodeUserPassword => "/?#@:[]"
  | EncodeQueryComponent => "#&=;?"
  | EncodeFragment => "#"
  end.

Lemma escape_clear m s : clear (forbidden m) (escape m s).
Proof.
  unfold escape. induction s as [|c s IH]; [done|]. cbn [mbind list_bind]. apply clear_app. split; [|exact IH].
  revert c. apply byte_forall. by destruct m; vm_compute.
Qed.

Lemma validEncoded_clear m s : m = EncodePath \/ m = EncodeFragment -> validEncoded m s = true ->
  clear (forbidden m) s.
Proof.
  unfold validEncoded, clear. intros Hm. rewrite !forallb_forall. intros Hs c Hin. apply Hs in Hin. revert Hin.
  apply implb_true_iff. revert c. apply byte_forall. by destruct Hm as [-> | ->]; vm_compute.
Qed.

(** The form that is printed decodes to the part and ends where the part ends. *)
Lemma escaped_spec m raw p : m = EncodePath \/ m = EncodeFragment ->
  unescape m (escaped m raw p) = Some p /\ clear (forbidden m) (escaped m raw p).
Proof.
  intros Hm. unfold escaped. destruct (validEncoded m raw) eqn:Hv.
  - case_bool_decide as H1; simpl; [|case_bool_decide as H2]; simpl.
    + split; [by apply unescape_escape; destruct Hm as [-> | ->]|apply escape_clear].
    + split; [done|by apply validEncoded_clear].
    + split; [by apply unescape_escape; destruct Hm as [-> | ->]|apply escape_clear].
  - rewrite andb_false_r. simpl. split; [by apply unescape_escape; destruct Hm as [-> | ->]|apply escape_clear].
Qed.

(** ** Rendering and parsing again *)

Definition pg_schemes : list bytes := [bytes_of "postgres"; bytes_of "postgresql"].

(** The text between the slashes and the path. *)
Definition authority_text (u : URL) : bytes :=
  match u_User u with Some ui => Userinfo_String ui ++ ["@"%char] | None => [] end ++ escape EncodeHost (u_Host u).

Definition query_text (u : URL) : bytes :=
  if u_ForceQuery u || negb (bool_decide (u_RawQuery u = [])) then "?"%char :: u_RawQuery u else [].
Definition fragment_text (u : URL) : bytes :=
  if bool_decide (u_Fragment u = []) then [] else "#"%char :: EscapedFragment u.

(** The URLs in question: those of the database's schemes with an authority or a
    path, whose host is one that reads back from its escaped form. *)
Record printable (strict : bytes -> bool) (u : URL) : Prop := {
  pr_scheme : u_Scheme u ∈ pg_schemes;
  pr_opaque : u_Opaque u = [];
  pr_omit : u_OmitHost u = false;
  pr_host : parseHost (strict (u_Scheme u)) (escape EncodeHost (u_Host u)) = Some (u_Host u);
  pr_path : u_Path u = [] \/ exists p, u_Path u = slash :: p;
  pr_raw : u_RawPath u = [] \/ exists p, u_RawPath u = slash :: p;
  pr_query : clear "#" (u_RawQuery u);
  pr_some : u_Host u <> [] \/ u_Path u <> [] \/ is_Some (u_User u)
}.

(** The parts a client of the URL sees. *)
Definition same_parts (u v : URL) : Prop :=
  u_Scheme u = u_Scheme v /\ u_Opaque u = u_Opaque v /\ u_User u = u_User v /\ u_Host u = u_Host v /\
  u_Path u = u_Path v /\ u_RawQuery u = u_RawQuery v /\ u_Fragment u = u_Fragment v.

Lemma EscapedPath_slash u :
  u_Path u = [] \/ (exists p, u_Path u = slash :: p) -> u_RawPath u = [] \/ (exists p, u_RawPath u = slash :: p) ->
  EscapedPath u = [] /\ u_Path u = [] \/ exists p, EscapedPath u = slash :: p.
Proof.
  intros Hp Hr. pose proof (escaped_spec EncodePath (u_RawPath u) (u_Path u) (or_introl eq_refl)) as [Hu _].
  unfold EscapedPath. unfold escaped in *. destruct (_ && _ && _) eqn:E.
  - apply andb_prop in E as [E _]. apply andb_prop in E as [E _]. apply negb_true_iff, bool_decide_eq_false in E.
    destruct Hr as [|[p Hr]]; [done|]. rewrite Hr. eauto.
  - destruct Hp as [-> | [p ->]]; [by left|right]. by eexists.
Qed.

Section print.
Context (strict : bytes -> bool).

Lemma hier_part_text u : printable strict u -> hier_part u = slash :: slash :: authority_text u ++ EscapedPath u.
Proof.
  intros []. unfold hier_part. rewrite (bool_decide_true _ pr_opaque0), pr_omit0. cbn [negb].
  assert (u_Scheme u <> []) as Hs by (intros E; rewrite E in pr_scheme0; set_solver).
  rewrite (bool_decide_false (u_Scheme u = [])) by done. cbn [negb orb andb].
  assert (negb (bool_decide (u_Host u = [])) || negb (bool_decide (u_Path u = [])) || bool_decide (is_Some (u_User u)) = true) as ->.
  { destruct pr_some0 as [H|[H|H]].
    - by rewrite (bool_decide_false (u_Host u = [])).
    - rewrite (bool_decide_false (u_Path u = [])) by done. by rewrite orb_true_r.
    - rewrite (bool_decide_true _ H). by rewrite orb_true_r. }
  rewrite (bool_decide_false (u_Path u = ["*"%char])) by (destruct pr_path0 as [-> | [p ->]]; done).
  replace (if negb (bool_decide (EscapedPath u = [])) && _ && _ then _ else _) with (@nil Ascii.ascii).
  - unfold authority_text. cbn [app andb]. by rewrite <- !app_assoc.
  - destruct (EscapedPath_slash u) as [[-> _]|[p ->]]; try done.
Qed.

Lemma validUserinfo_String ui : validUserinfo (Userinfo_String ui) = true.
Proof.
  assert (forall s, validUserinfo (escape EncodeUserPassword s) = true) as He.
  { intros s. unfold validUserinfo, escape. induction s as [|c s IH]; [done|]. cbn [mbind list_bind].
    rewrite forallb_app, IH, andb_true_r. revert c. apply byte_forall. by vm_compute. }
  unfold validUserinfo, Userinfo_String in *. rewrite forallb_app, He. destruct ui.2; [|done].
  cbn [forallb andb]. by rewrite He.
Qed.

Lemma parseUserinfo_String ui : parseUserinfo (Userinfo_String ui) = Some ui.
Proof.
  unfold parseUserinfo. rewrite validUserinfo_String. cbn [negb]. destruct ui as [name [pw|]]; unfold Userinfo_String; simpl.
  - rewrite cut_app by (eapply clear_notin; [apply (escape_clear EncodeUserPassword)|done]).
    by rewrite !unescape_escape.
  - rewrite app_nil_r, cut_none by (eapply clear_notin; [apply (escape_clear EncodeUserPassword)|done]).
    by rewrite unescape_escape.
Qed.

Lemma parseAuthority_text u : printable strict u ->
  parseAuthority (strict (u_Scheme u)) (authority_text u) = Some (u_User u, u_Host u).
Proof.
  intros []. assert ("@"%char ∉ escape EncodeHost (u_Host u)) as Hat
    by (eapply clear_notin; [apply (escape_clear EncodeHost)|done]).
  unfold parseAuthority, authority_text. destruct (u_User u) as [ui|].
  - rewrite <- app_assoc. cbn [app]. rewrite cut_last_app by done. simpl. rewrite pr_host0. simpl.
    by rewrite parseUserinfo_String.
  - cbn [app]. rewrite cut_last_none by done. simpl. by rewrite pr_host0.
Qed.

Lemma authority_clear u : clear "/?#" (authority_text u).
Proof.
  assert (forall s, clear "/?#" (escape EncodeUserPassword s)) as He
    by (intros s; eapply clear_weaken; [|apply (escape_clear EncodeUserPassword)];
        intros c; apply implb_true_iff; revert c; apply byte_forall; by vm_compute).
  unfold authority_text. apply clear_app. split.
  - destruct (u_User u) as [[name pw]|]; [|done]. unfold Userinfo_String. apply clear_app. split; [|done].
    apply clear_app. split; [apply He|]. destruct pw; [|done]. cbn [snd].
    match goal with |- clear _ (colon :: ?x) => change (clear "/?#" ([colon] ++ x)) end. apply clear_app. split; [done|apply He].
  - eapply clear_weaken; [|apply (escape_clear EncodeHost)].
    intros c. apply implb_true_iff. revert c. apply byte_forall. by vm_compute.
Qed.
(** [Parse] on a text of the expected shape. *)
Lemma parse_shape sc auth path q : sc ∈ pg_schemes -> clear "/?#" auth ->
  path = [] \/ (exists p, path = slash :: p) -> clear "?#" path -> clear "#" q -> q = [] \/ head q = Some "?"%char ->
  parse strict (sc ++ colon :: slash :: slash :: auth ++ path ++ q) =
    '(user, host) ← parseAuthority (strict sc) auth; '(p, raw) ← with_raw EncodePath path;
    Some (mkURL sc [] user host p raw false (bool_decide (q = ["?"%char])) (tail q) [] []).
Proof.
  intros Hsc Ha Hp Hpc Hq Hq0. unfold parse.
  assert (clear "" (sc ++ colon :: slash :: slash :: auth ++ path ++ q)) as Hall.
  { assert (clear "#" (sc ++ colon :: slash :: slash :: auth ++ path ++ q)) as H;
      [|eapply clear_weaken; [|exact H]; intros c; apply implb_true_iff; revert c; apply byte_forall; by vm_compute].
    match goal with |- clear _ (_ ++ ?x :: ?y :: ?z :: ?t) => change (x :: y :: z :: t) with ([x; y; z] ++ t) end.
    rewrite !clear_app. split_and!; try done.
    - unfold pg_schemes in Hsc. apply elem_of_cons in Hsc as [->|Hsc]; [done|]. apply list_elem_of_singleton in Hsc as ->. done.
    - eapply clear_weaken; [|exact Ha]. intros c; apply implb_true_iff; revert c; apply byte_forall; by vm_compute.
    - eapply clear_weaken; [|exact Hpc]. intros c; apply implb_true_iff; revert c; apply byte_forall; by vm_compute. }
  rewrite (clear_ctl _ _ Hall).
  rewrite bool_decide_false; cycle 1.
  { intros H. apply (f_equal length) in H. rewrite length_app in H. simpl in H. lia. }
  assert (getScheme (sc ++ colon :: slash :: slash :: auth ++ path ++ q)
          = Some (sc, slash :: slash :: auth ++ path ++ q) /\ lower_byte <$> sc = sc /\ sc <> []) as (-> & Hlow & Hne).
  { unfold pg_schemes in Hsc. apply elem_of_cons in Hsc as [->|Hsc]; [done|]. apply list_elem_of_singleton in Hsc as ->. done. }
  cbn [mbind option_bind]. rewrite Hlow, (bool_decide_false _ Hne). cbn [negb].
  assert ("?"%char ∉ slash :: slash :: auth ++ path) as Hnq.
  { rewrite !not_elem_of_cons, not_elem_of_app. split_and!; try done; by eapply clear_notin. }
  assert (split_query (slash :: slash :: auth ++ path ++ q)
          = (bool_decide (q = ["?"%char]), (slash :: slash :: auth ++ path, tail q))) as ->.
  { replace (slash :: slash :: auth ++ path ++ q) with ((slash :: slash :: auth ++ path) ++ q) by (cbn; by rewrite <- app_assoc).
    unfold split_query. destruct q as [|c q]; [by rewrite app_nil_r, cut_none|]. destruct Hq0 as [|[= ->]]; [done|].
    rewrite cut_app by done. cbn [tail]. f_equal. apply bool_decide_ext. naive_solver. }
  change (starts_with [slash] (slash :: ?t)) with true. cbn [negb andb].
  replace (starts_with [slash] (slash :: slash :: auth ++ path)) with true by done. cbn [negb andb].
  replace (starts_with [slash; slash] (slash :: slash :: auth ++ path)) with true by done. cbn [negb andb orb].
  change (drop 2 (slash :: slash :: auth ++ path)) with (auth ++ path).
  assert (split_authority (auth ++ path) = (auth, path)) as ->.
  { unfold split_authority. destruct Hp as [->|[p ->]].
    - rewrite app_nil_r, cut_none; [done|]. by eapply clear_notin.
    - rewrite cut_app; [done|]. by eapply clear_notin. }
  destruct (parseAuthority (strict sc) auth) as [[user host]|]; done.
Qed.

Lemma with_raw_decoded m s p : unescape m s = Some p -> exists raw, with_raw m s = Some (p, raw).
Proof. intros H. unfold with_raw. rewrite H. simpl. eauto. Qed.

Lemma set_fragment_parts u f raw :
  u_Scheme (set_fragment u f raw) = u_Scheme u /\ u_Fragment (set_fragment u f raw) = f.
Proof. done. Qed.

(** Such a URL is read back from what [URL_String] prints, part by part. *)
Lemma Parse_String u : printable strict u ->
  exists v, Parse strict (URL_String u) = Some v /\ same_parts v u /\ u_OmitHost v = false.
Proof.
  intros Hpr. destruct (Hpr) as [].
  destruct (escaped_spec EncodePath (u_RawPath u) (u_Path u) (or_introl eq_refl)) as [Hup Hcp].
  destruct (escaped_spec EncodeFragment (u_RawFragment u) (u_Fragment u) (or_intror eq_refl)) as [Huf _].
  set (body := u_Scheme u ++ colon :: slash :: slash :: authority_text u ++ EscapedPath u ++ query_text u).
  assert (URL_String u = body ++ fragment_text u) as ->.
  { unfold URL_String, body. rewrite hier_part_text by done.
    rewrite bool_decide_false by (intros E; rewrite E in pr_scheme0; set_solver).
    fold (query_text u). fold (fragment_text u). cbn [app]. repeat (rewrite <- ?app_assoc; cbn [app]). done. }
  assert (clear "#" (query_text u)) as Hcq.
  { unfold query_text. destruct (_ || _); [|done]. change (clear "#" (["?"%char] ++ u_RawQuery u)). by apply clear_app. }
  assert ("#"%char ∉ body) as Hbody.
  { unfold body. rewrite not_elem_of_app, !not_elem_of_cons, !not_elem_of_app. split_and!; try done.
    - unfold pg_schemes in pr_scheme0. apply elem_of_cons in pr_scheme0 as [->|Hsc]; [|apply list_elem_of_singleton in Hsc as ->];
        by apply (bool_decide_unpack _).
    - by eapply clear_notin; [apply authority_clear|].
    - by eapply clear_notin.
    - by eapply clear_notin. }
  assert (exists f, cut_or "#" (body ++ fragment_text u) = (body, f) /\ unescape EncodeFragment f = Some (u_Fragment u)) as (f & Hf & Hfu).
  { unfold fragment_text, cut_or. case_bool_decide as Hz.
    - exists []. rewrite app_nil_r, cut_none by done. by rewrite Hz.
    - eexists. by rewrite cut_app. }
  fold (EscapedPath u) in Hup, Hcp. unfold Parse. rewrite Hf. unfold body.
  rewrite parse_shape; try done.
  - rewrite parseAuthority_text by done. cbn [mbind option_bind].
    destruct (with_raw_decoded EncodePath _ _ Hup) as [raw ->]. cbn [mbind option_bind].
    destruct (with_raw_decoded EncodeFragment _ _ Hfu) as [raw' ->]. cbn [mbind option_bind].
    eexists. split; [done|]. split; [|done]. unfold same_parts. cbn. split_and!; try done.
    unfold query_text. destruct (u_ForceQuery u); cbn [orb tail]; [done|].
    case_bool_decide; cbn [negb tail]; [by symmetry|done].
  - apply authority_clear.
  - destruct (EscapedPath_slash u pr_path0 pr_raw0) as [[-> _]|]; [by left|by right].
  - unfold query_text. destruct (_ || _); [by right|by left].
Qed.
End print.

(** ** What [Parse] returns *)

Lemma unescape_slash m p : m = EncodePath -> forall q, unescape m (slash :: p) = Some q -> exists q', q = slash :: q'.
Proof. intros -> q. cbn. destruct (unescape EncodePath p); [|done]. intros [= <-]. eauto. Qed.

Lemma split_authority_path rest : (split_authority rest).2 = [] \/ exists p, (split_authority rest).2 = slash :: p.
Proof. unfold split_authority. destruct (cut slash rest) as [[a p]|]; simpl; eauto. Qed.

Lemma split_query_suffix rest : exists r, rest = r ++ (split_query rest).2.2.
Proof.
  unfold split_query. pose proof (cut_inv "?" rest) as H. destruct (cut "?" rest) as [[a b]|]; simpl.
  - destruct H as [-> _]. exists (a ++ ["?"%char]). by rewrite <- app_assoc.
  - exists rest. by rewrite app_nil_r.
Qed.

Lemma scan_scheme_suffix whole s acc sc r : (exists w, whole = w ++ s) ->
  scan_scheme whole s acc = Some (sc, r) -> exists w, whole = w ++ r.
Proof.
  revert acc. induction s as [|c s IH]; intros acc [w Hw]; cbn [scan_scheme].
  - intros [= <- <-]. by exists [].
  - assert (exists w', whole = w' ++ s) as Hw' by (exists (w ++ [c]); by rewrite <- app_assoc).
    destruct (is_letter c); [by apply IH|]. destruct (is_digit c || one_of "+-." c).
    + case_bool_decide; [intros [= <- <-]; by exists []|by apply IH].
    + destruct (Ascii.eqb c colon); [case_bool_decide; [done|]; intros [= <- <-]; done|].
      intros [= <- <-]. by exists [].
Qed.

Lemma parse_inv strict s u : parse strict s = Some u -> u_Opaque u = [] -> u_Scheme u <> [] ->
  (u_Path u = [] \/ exists p, u_Path u = slash :: p) /\ (u_RawPath u = [] \/ exists p, u_RawPath u = slash :: p) /\
  exists r, s = r ++ u_RawQuery u.
Proof.
  unfold parse. destruct (has_ctl s); [done|]. case_bool_decide; [intros [= <-]; done|].
  destruct (getScheme s) as [[sc rest]|] eqn:Hsc; [|done]. cbn [mbind option_bind].
  apply scan_scheme_suffix in Hsc as [w Hw]; [|by exists []].
  pose proof (split_query_suffix rest) as [r Hr]. destruct (split_query rest) as [force [rest' q]]. cbn [snd] in Hr.
  assert (exists r, s = r ++ q) as Hq by (exists (w ++ r); rewrite Hw, Hr; by rewrite app_assoc).
  destruct (starts_with [slash] rest') eqn:Hslash; cbn [negb andb].
  2:{ case_bool_decide; cbn [negb].
      - case_match; [done|]. intros Hu _ Hs. exfalso. destruct (starts_with [slash; slash] rest' && _);
          cbn [mbind option_bind] in Hu.
        + destruct (split_authority _). destruct (parseAuthority _ _) as [[]|]; [|done]. cbn in Hu.
          destruct (with_raw _ _) as [[]|]; [|done]. cbn in Hu. injection Hu as <-. done.
        + destruct (with_raw _ _) as [[]|]; [|done]. cbn in Hu. injection Hu as <-. done.
      - intros [= <-] Ho _. cbn in *. subst. split_and!; eauto. }
  assert (forall user host p, p = [] \/ (exists p', p = slash :: p') -> 
    forall sc' omit, (('(path, raw) ← with_raw EncodePath p; Some (mkURL sc' [] user host path raw omit force q [] [])) = Some u) ->
    (u_Path u = [] \/ exists p, u_Path u = slash :: p) /\ (u_RawPath u = [] \/ exists p, u_RawPath u = slash :: p) /\
    exists r, s = r ++ u_RawQuery u) as Hfin.
  { intros user host p Hp sc' omit. unfold with_raw. destruct (unescape EncodePath p) as [path|] eqn:Hup; [|done].
    cbn [mbind option_bind]. intros [= <-]. cbn. split_and!; [| |done].
    - destruct Hp as [->|[p' ->]]; [cbn in Hup; injection Hup as <-; by left|]. right. by eapply unescape_slash.
    - case_bool_decide; [by left|done]. }
  intros Hu _ _. destruct (starts_with [slash; slash] rest' && _); cbn [mbind option_bind] in Hu.
  - pose proof (split_authority_path (drop 2 rest')) as Hp. destruct (split_authority (drop 2 rest')) as [a p].
    destruct (parseAuthority _ a) as [[user host]|]; [|done]. cbn [mbind option_bind] in Hu.
    by eapply Hfin.
  - eapply Hfin; [|exact Hu]. right. destruct rest' as [|c rest']; [done|]. unfold starts_with in Hslash.
    apply bool_decide_eq_true in Hslash. injection Hslash as ->. eauto.
Qed.

Lemma parse_no_ctl strict s u : parse strict s = Some u -> has_ctl s = false.
Proof. unfold parse. by destruct (has_ctl s). Qed.

(** What is left for the caller of [Parse] to know about a URL it will print: the
    scheme, the host, and that there is an authority. *)
Lemma Parse_printable strict s u : Parse strict s = Some u -> u_Scheme u ∈ pg_schemes -> u_Opaque u = [] ->
  u_OmitHost u = false ->
  parseHost (strict (u_Scheme u)) (escape EncodeHost (u_Host u)) = Some (u_Host u) ->
  u_Host u <> [] \/ u_Path u <> [] \/ is_Some (u_User u) -> printable strict u.
Proof.
  unfold Parse, cut_or. intros HP Hsc Hop Hom Hh Hsome.
  pose proof (cut_inv "#" s) as Hcut. set (b := (default (s, []) (cut "#" s)).1) in *.
  assert ("#"%char ∉ b) as Hb by (subst b; destruct (cut "#" s) as [[a c]|]; [apply (proj2 Hcut)|exact Hcut]).
  destruct (default (s, []) (cut "#" s)) as [b' frag]. cbn [fst] in *.
  destruct (parse strict b') as [v|] eqn:Hv; [|done]. cbn [mbind option_bind] in HP.
  destruct (with_raw EncodeFragment frag) as [[f raw]|]; [|done]. cbn [mbind option_bind] in HP. injection HP as <-.
  cbn in *. assert (u_Scheme v <> []) as Hne by (intros E; rewrite E in Hsc; set_solver).
  destruct (parse_inv _ _ _ Hv Hop Hne) as (Hp & Hr & r & Hq). constructor; cbn; try done.
  apply parse_no_ctl in Hv. subst b b'. apply clear_intro.
  - unfold has_ctl in *. rewrite existsb_app in Hv. by destruct (orb_false_elim _ _ Hv).
  - intros c Hc Hin. unfold one_of in Hc. apply bool_decide_eq_true, list_elem_of_singleton in Hc as ->.
    apply Hb, elem_of_app. by right.
Qed.

(** With an explicit authority there is nothing opaque, and the host is not left out. *)
Lemma Parse_authority strict sc s u : sc ∈ pg_schemes -> Parse strict (sc ++ bytes_of "://" ++ s) = Some u ->
  u_Scheme u = sc /\ u_Opaque u = [] /\ u_OmitHost u = false.
Proof.
  intros Hsc. unfold Parse.
  assert (exists t f, cut_or "#" (sc ++ bytes_of "://" ++ s) = (sc ++ colon :: slash :: slash :: t, f)) as (t & f & ->).
  { unfold cut_or, pg_schemes in *. apply elem_of_cons in Hsc as [->|Hsc]; [|apply list_elem_of_singleton in Hsc as ->];
      simpl; destruct (cut "#" s) as [[a b]|]; simpl; eauto. }
  destruct (parse strict _) as [v|] eqn:Hv; [|done]. cbn [mbind option_bind].
  destruct (with_raw EncodeFragment f) as [[f' raw]|]; [|done]. cbn [mbind option_bind]. intros [= <-]. cbn.
  unfold parse in Hv. destruct (has_ctl _); [done|]. rewrite bool_decide_false in Hv.
  2:{ intros H. apply (f_equal length) in H. rewrite length_app in H. simpl in H. lia. }
  assert (getScheme (sc ++ colon :: slash :: slash :: t) = Some (sc, slash :: slash :: t) /\
          lower_byte <$> sc = sc /\ sc <> []) as (Hg & Hlow & Hne).
  { unfold pg_schemes in Hsc. apply elem_of_cons in Hsc as [->|Hsc]; [done|]. by apply list_elem_of_singleton in Hsc as ->. }
  rewrite Hg in Hv. cbn [mbind option_bind] in Hv. rewrite Hlow, (bool_decide_false _ Hne) in Hv. cbn [negb] in Hv.
  assert (exists r q b, split_query (slash :: slash :: t) = (b, (slash :: slash :: r, q))) as (r & q & b & Hr).
  { unfold split_query. cbn [cut]. replace (Ascii.eqb slash "?") with false by done.
    destruct (cut "?" t) as [[]|]; cbn; eauto. }
  rewrite Hr in Hv. replace (starts_with [slash] (slash :: slash :: r)) with true in Hv by done.
  cbn [negb andb] in Hv. replace (starts_with [slash; slash] (slash :: slash :: r)) with true in Hv by done.
  cbn [negb andb orb] in Hv. destruct (split_authority _) as [a p].
  destruct (parseAuthority _ a) as [[user host]|]; [|done]. cbn [mbind option_bind] in Hv.
  destruct (with_raw _ p) as [[]|]; [|done]. cbn [mbind option_bind] in Hv. by injection Hv as <-.
Qed.

(** ** Queries *)

Lemma parse_encode_pair kv : parse_pair (encode_pair kv) = Some kv.
Proof.
  destruct kv as [k v]. unfold parse_pair, encode_pair. cbn [fst snd].
  pose proof (escape_clear EncodeQueryComponent) as Hc.
  assert (forall s c, one_of "&=;" c = true -> c ∉ escape EncodeQueryComponent s) as Hn.
  { intros s c Ho. eapply clear_notin; [apply Hc|]. revert Ho. apply implb_true_iff. revert c. apply byte_forall. by vm_compute. }
  rewrite bool_decide_false by (intros E; by apply app_eq_nil in E as [_ ?]).
  rewrite bool_decide_false.
  2:{ rewrite elem_of_app, elem_of_cons. intros [H|[H|H]]; [by eapply Hn in H|done|by eapply Hn in H]. }
  cbn [orb]. rewrite cut_or_app by (by apply Hn).
  rewrite !unescape_escape by done. cbn [mbind option_bind]. by rewrite string_of_bytes_of.
Qed.

Lemma encode_pair_no_amp kv : "&"%char ∉ encode_pair kv.
Proof.
  unfold encode_pair. rewrite elem_of_app, elem_of_cons.
  intros [H|[H|H]]; [|done|]; revert H; (eapply clear_notin; [apply escape_clear|done]).
Qed.

Lemma add_values acc k vs : foldl add_value acc (pair k <$> vs) =
  match vs with [] => acc | _ => <[k := default [] (acc !! k) ++ vs]> acc end.
Proof.
  revert acc. induction vs as [|v vs IH]; intros acc; [done|]. rewrite fmap_cons. cbn [foldl]. rewrite IH.
  unfold add_value. cbn [fst snd]. rewrite lookup_insert_eq. cbn [default]. destruct vs; [done|].
  unfold id. by rewrite insert_insert_eq, <- app_assoc.
Qed.

(** Values as [Query] makes them: every key has one. *)
Definition full (m : Values) : Prop := map_Forall (fun _ vs => vs <> []) m.

Lemma fold_pairs (m : Values) ks acc : full m -> NoDup ks -> (forall k, k ∈ ks -> acc !! k = None) ->
  forall j, foldl add_value acc (ks ≫= fun k => pair k <$> default [] (m !! k)) !! j =
    if bool_decide (j ∈ ks) then m !! j else acc !! j.
Proof.
  intros Hm. revert acc. induction ks as [|k ks IH]; intros acc Hnd Hacc j; [done|].
  apply NoDup_cons in Hnd as [Hk Hnd]. cbn [mbind list_bind]. rewrite foldl_app, add_values.
  set (acc' := match default [] (m !! k) with [] => acc | _ => _ end).
  assert (forall i, acc' !! i = if bool_decide (i = k) then m !! k else acc !! i) as Hacc'.
  { intros i. subst acc'. destruct (m !! k) as [vs|] eqn:Hmk; cbn [default].
    - specialize (Hm _ _ Hmk). simpl in Hm. destruct vs as [|v vs]; [done|]. rewrite Hacc by set_solver. cbn [default app]. unfold id.
      case_bool_decide as Hi; [subst; by rewrite lookup_insert_eq|by rewrite lookup_insert_ne].
    - case_bool_decide as Hi; [subst; apply Hacc; set_solver|done]. }
  rewrite IH; [|done|].
  - rewrite Hacc'. repeat case_bool_decide; subst; set_solver.
  - intros i Hi. rewrite Hacc'. rewrite bool_decide_false by (intros ->; done). apply Hacc. set_solver.
Qed.

Lemma sorted_pairs_fold m : full m -> foldl add_value ∅ (sorted_pairs m) = m.
Proof.
  intros Hm. apply map_eq. intros j. unfold sorted_pairs.
  change (?ks ≫= _) with (ks ≫= (fun k => pair k <$> default [] (m !! k))).
  rewrite (fold_pairs m); [|done| |done].
  - case_bool_decide as Hj; [done|]. rewrite lookup_empty. destruct (m !! j) as [vs|] eqn:Hmj; [|done].
    destruct Hj. rewrite merge_sort_Permutation. apply list_elem_of_fmap. exists (j, vs). split; [done|].
    by apply elem_of_map_to_list.
  - rewrite merge_sort_Permutation. apply NoDup_fst_map_to_list.
Qed.

Lemma omap_encode_pairs (l : list (string * bytes)) : omap parse_pair (encode_pair <$> l) = l.
Proof. induction l as [|kv l IH]; [done|]. rewrite fmap_cons. cbn [omap list_omap]. by rewrite parse_encode_pair, IH. Qed.

(** An encoded query is read back as the map it came from. *)
Lemma parseQuery_Encode m : full m -> parseQuery (Encode m) = m.
Proof.
  intros Hm. unfold parseQuery, Encode. rewrite <- (sorted_pairs_fold m Hm) at 2. f_equal.
  rewrite <- (omap_encode_pairs (sorted_pairs m)) at 2. destruct (sorted_pairs m) as [|kv l]; [done|].
  rewrite fmap_cons. rewrite split_join; [done|]. rewrite <- fmap_cons. apply Forall_fmap, Forall_forall.
  intros x _. apply encode_pair_no_amp.
Qed.

Lemma add_value_full m kv : full m -> full (add_value m kv).
Proof.
  intros Hm. unfold add_value. apply map_Forall_insert_2; [|done]. by destruct (default [] _).
Qed.

Lemma Query_full u : full (Query u).
Proof.
  unfold Query, parseQuery. generalize (omap parse_pair (split_bytes "&" (u_RawQuery u))).
  assert (full ∅) as H by apply map_Forall_empty. revert H. generalize (∅ : Values).
  intros m Hm l. revert m Hm. induction l as [|kv l IH]; intros m Hm; [done|]. cbn [foldl]. by apply IH, add_value_full.
Qed.

Lemma Encode_clear m : clear "#" (Encode m).
Proof.
  unfold Encode. induction (sorted_pairs m) as [|kv l IH]; [done|]. 
  assert (clear "#" (encode_pair kv)) as Hkv.
  { assert (forall s, clear "#" (escape EncodeQueryComponent s)) as He
      by (intros s; eapply clear_weaken; [|apply (escape_clear EncodeQueryComponent)];
          intros c; apply implb_true_iff; revert c; apply byte_forall; by vm_compute).
    unfold encode_pair. apply clear_app. split; [apply He|].
    match goal with |- clear _ (?c :: ?x) => change (clear "#" ([c] ++ x)) end. apply clear_app. split; [done|apply He]. }
  destruct l as [|kv' l]; [done|]. rewrite !fmap_cons in *.
  change (join_bytes "&" (?p :: ?q :: ?r)) with (p ++ "&"%char :: join_bytes "&" (q :: r)).
  apply clear_app. split; [done|]. change ("&"%char :: ?x) with (["&"%char] ++ x). by apply clear_app.
Qed.

Lemma Encode_nonempty m : m <> ∅ -> full m -> Encode m <> [].
Proof.
  intros Hne Hm Hq. apply Hne. rewrite <- (parseQuery_Encode m Hm), Hq. reflexivity.
Qed.

(** Replacing the query or the path keeps a URL printable. *)
Lemma printable_query strict u m : printable strict u -> printable strict (set_query u (Encode m)).
Proof. intros []. constructor; cbn; try done. apply Encode_clear. Qed.

Lemma printable_path strict u p : printable strict u -> printable strict (set_path u (slash :: p)).
Proof. intros []. constructor; cbn; eauto. Qed.
