(* ===== verification/Config.v ===== *)
(** Package config (src/config): the environment readers, and the loader and
    validator of every sub-configuration.

    The process environment is a map from names to values. An error is the
    variable it names and its reason; loaders return the value with the errors
    met, validators the list of problems. Durations are nanoseconds. *)

From S2P Require Import Prelude GoStrings GoEncoding GoNet GoConv GoURL.
Local Open Scope Z_scope.

Abbreviation Env := (gmap string string).

Inductive reason :=
| NotInteger | NotDuration | NotBoolean | NotHex | IsEmpty | Negative | NotPositive
| BelowMinimum (got : Z) | AboveMaximum | TooShort | NotOneOf | DevDefault | NotCIDR (entry : string)
| NotAbsoluteURL | NotOriginOnly | Unpaired | WrongLength | BadIdentifier | SameSchema (other : string)
| NeedsSubdomains.
#[export] Instance reason_eq_dec : EqDecision reason.
Proof. solve_decision. Defined.

Definition error := (string * reason)%type.

(** ** Environment readers (env.go, config.go) *)

(** [os.Getenv] *)
Definition Getenv (env : Env) (key : string) : string := default ""%string (env !! key).

Definition String_ (env : Env) (key fallback : string) : string :=
  match env !! key with
  | Some v => if bool_decide (v = ""%string) then fallback else v
  | None => fallback
  end.

(** A parsed variable: the fallback when unset or empty, the fallback with an error
    when it does not parse. *)
Definition parsed {A} (parse : string -> option A) (why : reason) (env : Env) (key : string) (fallback : A)
    : A * list error :=
  match env !! key with
  | Some v =>
    if bool_decide (v = ""%string) then (fallback, [])
    else match parse v with Some a => (a, []) | None => (fallback, [(key, why)]) end
  | None => (fallback, [])
  end.

Definition Int32 : Env -> string -> Z -> Z * list error := parsed (ParseInt 32) NotInteger.
Definition Int64 : Env -> string -> Z -> Z * list error := parsed (ParseInt 64) NotInteger.
Definition Duration : Env -> string -> Z -> Z * list error := parsed ParseDuration NotDuration.
Definition Bool : Env -> string -> bool -> bool * list error := parsed ParseBool NotBoolean.

Definition trimmed (env : Env) (key : string) : string := TrimSpace (Getenv env key).

(** ** The development file [.env] (config.go) *)

(** [godotenv.Load]: it may fail having set some variables, and leaves alone those that
    are set. *)
Class Dotenv := {
  dotenv_error : Type;
  dotenv_load : Env -> Env * option dotenv_error;
  dotenv_keeps : forall env k, is_Some (env !! k) -> (dotenv_load env).1 !! k = env !! k
}.

Inductive dotenv_stat := DotenvPresent | DotenvMissing | DotenvStatFails.

Section dotenv.
Context `{Dotenv}.

Inductive dotenv_report := StatDotenv | LoadDotenvFailed (e : dotenv_error).

Definition LoadDotenv (stat : dotenv_stat) (env : Env) : Env * list dotenv_report :=
  match stat with
  | DotenvMissing => (env, [])
  | DotenvStatFails => (env, [StatDotenv])
  | DotenvPresent =>
    match dotenv_load env with
    | (env, Some e) => (env, [LoadDotenvFailed e])
    | (env, None) => (env, [])
    end
  end.

(** The real environment wins, and no file is no error. *)
Lemma LoadDotenv_keeps stat env : (forall k, is_Some (env !! k) -> (LoadDotenv stat env).1 !! k = env !! k) /\
  (stat = DotenvMissing -> LoadDotenv stat env = (env, [])).
Proof.
  split; [|by intros ->]. intros k Hk. pose proof (dotenv_keeps env k Hk) as Hd. destruct stat; [|done|done].
  cbn. by destruct (dotenv_load env) as [env' []].
Qed.
End dotenv.

Definition EnvDev : string := "dev".
Definition EnvTest : string := "test".
Definition EnvProd : string := "prod".

Definition AppEnv (env : Env) : string := String_ env "APP_ENV" EnvDev.

Definition ValidateAppEnv (e : string) : list error :=
  if bool_decide (e ∈ [EnvDev; EnvTest; EnvProd]) then [] else [("APP_ENV"%string, NotOneOf)].

(** One credential without the other (validate.go). *)
Definition validateCredentialPair (idKey id secretKey secret : string) : list error :=
  if Bool.eqb (bool_decide (id = ""%string)) (bool_decide (secret = ""%string)) then [] else [(idKey, Unpaired)].

Definition when {A} (b : bool) (e : A) : list A := if b then [e] else [].

(** ** Server (server.go) *)

Record ServerConfig := mkServer {
  s_Addr : string;
  s_TrustedProxies : string;
  s_RequestTimeout : Z;
  s_PublicBaseURL : string
}.

Definition defaultTrustedProxies : string := "127.0.0.0/8,::1/128".
Definition defaultServerRequestTimeout : Z := 120 * Second.
Definition minServerRequestTimeout : Z := 15 * Second.

(** The entries of the list, trimmed, without the empty ones. *)
Definition proxy_entries (raw : string) : list string :=
  filter (fun f => f <> ""%string) (map (fun b => TrimSpace (string_of b)) (split_bytes "," (bytes_of raw))).

(** Every malformed entry is an error; with any, there is no prefix at all. *)
Definition parseTrustedProxies (raw : string) : result (list string) (list Prefix) :=
  let fields := proxy_entries raw in
  let errs := filter (fun f => ParsePrefix f = None) fields in
  if bool_decide (errs = []) then Ok (Masked <$> omap ParsePrefix fields) else Err errs.

Definition TrustedProxyPrefixes (s : ServerConfig) : list Prefix :=
  match parseTrustedProxies (s_TrustedProxies s) with Ok ps => ps | Err _ => [] end.

(** [strings.TrimPrefix(s, ":")] *)
Definition trim_colon (s : string) : string :=
  match s with String.String c s' => if Ascii.eqb c ":" then s' else s | _ => s end.

(** [strings.TrimRight(s, "/")] *)
Fixpoint trim_slashes (rb : bytes) : bytes :=
  match rb with c :: b => if Ascii.eqb c slash then trim_slashes b else rb | [] => [] end.

Definition serverAddr (env : Env) : string := ":" +:+ trim_colon (String_ env "PORT" "8080").
Definition ServerAddrFromEnv (env : Env) : string := serverAddr env.

Definition LoadServer (env : Env) : ServerConfig * list error :=
  let '(timeout, errs) := Duration env "SERVER_REQUEST_TIMEOUT" defaultServerRequestTimeout in
  (mkServer (serverAddr env) (default defaultTrustedProxies (env !! "TRUSTED_PROXIES"%string)) timeout
     (string_of (rev (trim_slashes (rev (bytes_of (trimmed env "PUBLIC_BASE_URL")))))), errs).

Definition Server_Validate (s : ServerConfig) : list error :=
  when (s_RequestTimeout s <? minServerRequestTimeout) ("SERVER_REQUEST_TIMEOUT"%string, BelowMinimum (s_RequestTimeout s))
  ++ match parseTrustedProxies (s_TrustedProxies s) with
     | Ok _ => []
     | Err bad => (fun f => ("TRUSTED_PROXIES"%string, NotCIDR f)) <$> bad
     end
  ++ if bool_decide (s_PublicBaseURL s = ""%string) then []
     else match Parse (fun _ => true) (bytes_of (s_PublicBaseURL s)) with
          | None => [("PUBLIC_BASE_URL"%string, NotAbsoluteURL)]
          | Some u =>
            if negb (bool_decide (string_of (u_Scheme u) ∈ ["http"; "https"]%string)) || bool_decide (u_Host u = [])
            then [("PUBLIC_BASE_URL"%string, NotAbsoluteURL)]
            else when (bool_decide (is_Some (u_User u)) || negb (bool_decide (u_Path u = []))
                       || negb (bool_decide (u_RawQuery u = [])) || negb (bool_decide (u_Fragment u = [])))
                   ("PUBLIC_BASE_URL"%string, NotOriginOnly)
          end.

(** ** HSTS (hsts.go) *)

Record HSTSConfig := mkHSTS {
  h_Enabled : bool;
  h_MaxAge : Z;
  h_MaxAgeSet : bool;
  h_IncludeSubdomains : bool;
  h_Preload : bool
}.

Definition DefaultHSTSMaxAge : Z := 180 * 24 * Hour.
Definition hstsPreloadMinMaxAge : Z := 365 * 24 * Hour.

Definition EffectiveMaxAge (h : HSTSConfig) : Z := if h_MaxAgeSet h then h_MaxAge h else DefaultHSTSMaxAge.

Definition LoadHSTS (env : Env) : HSTSConfig * list error :=
  let '(enabled, e1) := Bool env "HSTS_ENABLED" false in
  let '(maxAge, e2) := Duration env "HSTS_MAX_AGE" 0 in
  let maxAgeSet := negb (bool_decide (Getenv env "HSTS_MAX_AGE" = ""%string)) in
  let '(subs, e3) := Bool env "HSTS_INCLUDE_SUBDOMAINS" false in
  let '(preload, e4) := Bool env "HSTS_PRELOAD" false in
  (mkHSTS enabled maxAge maxAgeSet subs preload, e1 ++ e2 ++ e3 ++ e4).

Definition HSTS_Validate (h : HSTSConfig) : list error :=
  when (h_Enabled h && h_MaxAgeSet h && (h_MaxAge h <? 0)) ("HSTS_MAX_AGE"%string, Negative)
  ++ when (h_Enabled h && h_Preload h && (EffectiveMaxAge h <? hstsPreloadMinMaxAge))
       ("HSTS_PRELOAD"%string, BelowMinimum (EffectiveMaxAge h))
  ++ when (h_Enabled h && h_Preload h && negb (h_IncludeSubdomains h)) ("HSTS_PRELOAD"%string, NeedsSubdomains).

(** ** Database (db.go) *)

Record DBConfig := mkDBConfig {
  d_DSN : string;
  d_MaxConns : Z;
  d_ConnTimeout : Z;
  d_Provider : string;
  d_PoolMode : string;
  d_SSLRootCert : string;
  d_MigrateDSN : string
}.

Definition DBProviderPostgres : string := "postgres".
Definition DBProviderSupabase : string := "supabase".
Definition DBPoolModeSession : string := "session".
Definition DBPoolModeTransaction : string := "transaction".
Definition supabaseDefaultMaxConns : Z := 10.

Definition LoadDB (env : Env) : DBConfig * list error :=
  let '(maxConns, e1) := Int32 env "DB_MAX_CONNS" 0 in
  let '(connTimeout, e2) := Duration env "DB_CONNECT_TIMEOUT" (5 * Second) in
  let provider := ToLower (TrimSpace (String_ env "DB_PROVIDER" DBProviderPostgres)) in
  let poolMode := ToLower (TrimSpace (String_ env "DB_POOL_MODE" DBPoolModeSession)) in
  let maxConns := if bool_decide (provider = DBProviderSupabase) && (maxConns =? 0)
                  then supabaseDefaultMaxConns else maxConns in
  (mkDBConfig (Getenv env "DATABASE_URL") maxConns connTimeout provider poolMode
     (trimmed env "DB_SSL_ROOT_CERT") (trimmed env "MIGRATE_DATABASE_URL"), e1 ++ e2).

Definition DB_Validate (d : DBConfig) : list error :=
  when (bool_decide (TrimSpace (d_DSN d) = ""%string)) ("DATABASE_URL"%string, IsEmpty)
  ++ when (d_MaxConns d <? 0) ("DB_MAX_CONNS"%string, Negative)
  ++ when (negb (bool_decide (d_Provider d ∈ [DBProviderPostgres; DBProviderSupabase]))) ("DB_PROVIDER"%string, NotOneOf)
  ++ when (negb (bool_decide (d_PoolMode d ∈ [DBPoolModeSession; DBPoolModeTransaction]))) ("DB_POOL_MODE"%string, NotOneOf)
  ++ when (d_ConnTimeout d <=? 0) ("DB_CONNECT_TIMEOUT"%string, NotPositive).

(** ** Sessions (session.go) *)

Record SessionConfig := mkSession { ss_Secret : string; ss_Secure : bool; ss_Lifetime : Z }.

Definition minSecretLen : nat := 32.
Definition DevSessionSecret : string := "dev-only-insecure-session-secret-change-me".

Definition resolveCookieSecure (mode appEnv : string) : bool * list error :=
  let m := ToLower (TrimSpace mode) in
  if bool_decide (m ∈ ["auto"; ""]%string) then (bool_decide (appEnv = EnvProd), [])
  else if bool_decide (m = "true"%string) then (true, [])
  else if bool_decide (m = "false"%string) then (false, [])
  else (bool_decide (appEnv = EnvProd), [("SESSION_COOKIE_SECURE"%string, NotOneOf)]).

Definition LoadSession (env : Env) (appEnv : string) : SessionConfig * list error :=
  let '(lifetime, e1) := Duration env "SESSION_LIFETIME" (12 * Hour) in
  let '(secure, e2) := resolveCookieSecure (String_ env "SESSION_COOKIE_SECURE" "auto") appEnv in
  (mkSession (String_ env "SESSION_SECRET" DevSessionSecret) secure lifetime, e1 ++ e2).

Definition Session_Validate (s : SessionConfig) (appEnv : string) : list error :=
  when (length (bytes_of (ss_Secret s)) <? minSecretLen)%nat ("SESSION_SECRET"%string, TooShort)
  ++ when (ss_Lifetime s <=? 0) ("SESSION_LIFETIME"%string, NotPositive)
  ++ when (bool_decide (appEnv = EnvProd) && bool_decide (ss_Secret s = DevSessionSecret))
       ("SESSION_SECRET"%string, DevDefault).

(** ** Encryption key (crypto.go) *)

Record CryptoConfig := mkCrypto { c_EncryptionKey : string }.

Definition encryptionKeyLen : nat := 32.
Definition DevEncryptionKey : string := "00000000000000000000000000000000000000000000000000000000deadbeef".

Definition Key (c : CryptoConfig) : result error (list Z) :=
  if bool_decide (c_EncryptionKey c = ""%string) then Err ("ENCRYPTION_KEY"%string, IsEmpty)
  else match hex_decode (bytes_of (c_EncryptionKey c)) with
       | None => Err ("ENCRYPTION_KEY"%string, NotHex)
       | Some key => if (length key =? encryptionKeyLen)%nat then Ok key else Err ("ENCRYPTION_KEY"%string, WrongLength)
       end.

Definition LoadCrypto (env : Env) : CryptoConfig :=
  mkCrypto (TrimSpace (String_ env "ENCRYPTION_KEY" DevEncryptionKey)).

Definition Crypto_Validate (c : CryptoConfig) (appEnv : string) : list error :=
  (if negb (bool_decide (c_EncryptionKey c = ""%string)) || bool_decide (appEnv = EnvProd)
   then match Key c with Ok _ => [] | Err e => [e] end else [])
  ++ when (bool_decide (appEnv = EnvProd) && bool_decide (c_EncryptionKey c = DevEncryptionKey))
       ("ENCRYPTION_KEY"%string, DevDefault).

(** ** TLS, cache directory, schemas (tls.go, cache.go, schemas.go) *)

Record TLSConfig := mkTLS { t_CertFile : string; t_KeyFile : string }.

Definition TLS_Enabled (t : TLSConfig) : bool :=
  negb (bool_decide (t_CertFile t = ""%string)) && negb (bool_decide (t_KeyFile t = ""%string)).
Definition LoadTLS (env : Env) : TLSConfig := mkTLS (trimmed env "TLS_CERT_FILE") (trimmed env "TLS_KEY_FILE").
Definition TLS_Validate (t : TLSConfig) : list error :=
  validateCredentialPair "TLS_CERT_FILE" (t_CertFile t) "TLS_KEY_FILE" (t_KeyFile t).

Definition LoadCache (env : Env) : string := TrimSpace (String_ env "CACHE_DIR" "./.localdata/cache").
Definition Cache_Validate (dir : string) : list error :=
  when (bool_decide (TrimSpace dir = ""%string)) ("CACHE_DIR"%string, IsEmpty).

Record SchemaConfig := mkSchemas { sc_Identity : string; sc_Nestova : string; sc_Nestorage : string }.

Definition LoadSchemas (env : Env) : SchemaConfig :=
  mkSchemas (TrimSpace (String_ env "DB_SCHEMA_IDENTITY" "identity"))
    (TrimSpace (String_ env "DB_SCHEMA_NESTOVA" "nestova"))
    (TrimSpace (String_ env "DB_SCHEMA_NESTORAGE" "nestorage")).

(** [^[a-z_][a-z0-9_]*$] *)
Definition schemaIdentifier (s : string) : bool :=
  let start c := ((97 <=? byte_val c) && (byte_val c <=? 122)) || Ascii.eqb c "_" in
  match bytes_of s with
  | c :: b => start c && forallb (fun c => start c || is_digit c) b
  | [] => false
  end.

Definition maxIdentifierBytes : nat := 63.

Definition validateSchemaName (key name : string) : list error :=
  when (negb (schemaIdentifier name)) (key, BadIdentifier)
  ++ when (maxIdentifierBytes <? length (bytes_of name))%nat (key, AboveMaximum).

Definition Schemas_Validate (s : SchemaConfig) : list error :=
  validateSchemaName "DB_SCHEMA_IDENTITY" (sc_Identity s)
  ++ validateSchemaName "DB_SCHEMA_NESTOVA" (sc_Nestova s)
  ++ validateSchemaName "DB_SCHEMA_NESTORAGE" (sc_Nestorage s)
  ++ when (bool_decide (sc_Identity s = sc_Nestova s)) ("DB_SCHEMA_IDENTITY", SameSchema "DB_SCHEMA_NESTOVA")%string
  ++ when (bool_decide (sc_Identity s = sc_Nestorage s)) ("DB_SCHEMA_IDENTITY", SameSchema "DB_SCHEMA_NESTORAGE")%string
  ++ when (bool_decide (sc_Nestova s = sc_Nestorage s)) ("DB_SCHEMA_NESTOVA", SameSchema "DB_SCHEMA_NESTORAGE")%string.

(** ** Object storage and notification channels (s3.go, sms.go, email.go) *)

Record S3Config := mkS3 {
  s3_Endpoint : string; s3_Region : string; s3_Bucket : string;
  s3_AccessKeyID : string; s3_SecretAccessKey : string; s3_UsePathStyle : bool; s3_PresignTTL : Z
}.

Definition defaultS3PresignTTL : Z := 15 * Minute.

Definition LoadS3 (env : Env) : S3Config * list error :=
  let '(ttl, e1) := Duration env "S3_PRESIGN_TTL" defaultS3PresignTTL in
  let '(pathStyle, e2) := Bool env "S3_USE_PATH_STYLE" false in
  (mkS3 (trimmed env "S3_ENDPOINT") (trimmed env "S3_REGION") (trimmed env "S3_BUCKET")
     (trimmed env "S3_ACCESS_KEY_ID") (trimmed env "S3_SECRET_ACCESS_KEY") pathStyle ttl, e1 ++ e2).

Definition S3_Validate (s : S3Config) : list error :=
  when (bool_decide (s3_Bucket s = ""%string)) ("S3_BUCKET"%string, IsEmpty)
  ++ when (bool_decide (s3_Region s = ""%string)) ("S3_REGION"%string, IsEmpty)
  ++ when (s3_PresignTTL s <=? 0) ("S3_PRESIGN_TTL"%string, NotPositive)
  ++ validateCredentialPair "S3_ACCESS_KEY_ID" (s3_AccessKeyID s) "S3_SECRET_ACCESS_KEY" (s3_SecretAccessKey s).

Record SMSConfig := mkSMS {
  m_Enabled : bool; m_OriginationIdentity : string; m_Region : string;
  m_AccessKeyID : string; m_SecretAccessKey : string; m_RetryMaxAttempts : Z
}.

Definition defaultSMSRetryMaxAttempts : Z := 3.

Definition LoadSMS (env : Env) : SMSConfig * list error :=
  let '(enabled, e1) := Bool env "NOTIFY_SMS_ENABLED" false in
  let '(attempts, e2) := if enabled then Int32 env "SMS_RETRY_MAX_ATTEMPTS" defaultSMSRetryMaxAttempts
                         else (defaultSMSRetryMaxAttempts, []) in
  (mkSMS enabled (trimmed env "SMS_ORIGINATION_IDENTITY") (trimmed env "SMS_REGION")
     (trimmed env "SMS_ACCESS_KEY_ID") (trimmed env "SMS_SECRET_ACCESS_KEY") attempts, e1 ++ e2).

Definition SMS_Validate (s : SMSConfig) : list error :=
  if negb (m_Enabled s) then []
  else
    when (bool_decide (m_OriginationIdentity s = ""%string)) ("SMS_ORIGINATION_IDENTITY"%string, IsEmpty)
    ++ when (bool_decide (m_Region s = ""%string)) ("SMS_REGION"%string, IsEmpty)
    ++ when (m_RetryMaxAttempts s <=? 0) ("SMS_RETRY_MAX_ATTEMPTS"%string, NotPositive)
    ++ validateCredentialPair "SMS_ACCESS_KEY_ID" (m_AccessKeyID s) "SMS_SECRET_ACCESS_KEY" (m_SecretAccessKey s).

Record EmailConfig := mkEmail {
  e_Enabled : bool; e_FromAddress : string; e_Region : string;
  e_AccessKeyID : string; e_SecretAccessKey : string
}.

Definition LoadEmail (env : Env) : EmailConfig * list error :=
  let '(enabled, errs) := Bool env "NOTIFY_EMAIL_ENABLED" false in
  (mkEmail enabled (trimmed env "SES_FROM_ADDRESS") (trimmed env "SES_REGION")
     (trimmed env "SES_ACCESS_KEY_ID") (trimmed env "SES_SECRET_ACCESS_KEY"), errs).

Definition Email_Validate (e : EmailConfig) : list error :=
  if negb (e_Enabled e) then []
  else
    when (bool_decide (e_FromAddress e = ""%string)) ("SES_FROM_ADDRESS"%string, IsEmpty)
    ++ when (bool_decide (e_Region e = ""%string)) ("SES_REGION"%string, IsEmpty)
    ++ validateCredentialPair "SES_ACCESS_KEY_ID" (e_AccessKeyID e) "SES_SECRET_ACCESS_KEY" (e_SecretAccessKey e).
