(* ===== verification/Bootstrap.v ===== *)
(** Package bootstrap (src/bootstrap/bootstrap.go): first-run detection, the
    app-scoped names, generated secrets, and the export of the persisted state into
    the environment that package config reads.

    Main result: the persisted database settings reach [LoadDB] together or not at
    all. The state file itself is [StateFile]. *)

From S2P Require Import Prelude GoStrings GoEncoding GoConv Config.
Local Open Scope Z_scope.

(** ** The application's identity *)

Inductive app_error := ErrEmptyAppName | ErrInvalidAppName.

Record App := mkApp { app_name : string }.

Definition isValidAppName (name : string) : bool :=
  forallb (fun c => let n := byte_val c in
    ((97 <=? n) && (n <=? 122)) || ((65 <=? n) && (n <=? 90)) || ((48 <=? n) && (n <=? 57))
    || (n =? 95) || (n =? 45)) (bytes_of name).

Definition NewApp (name : string) : result app_error App :=
  let trimmed := TrimSpace name in
  if bool_decide (trimmed = ""%string) then Err ErrEmptyAppName
  else if negb (isValidAppName trimmed) then Err ErrInvalidAppName
  else Ok (mkApp trimmed).

Definition StateFileEnv (a : App) : string := ToUpper (app_name a) +:+ "_STATE_FILE".
Definition ForceSetupEnv (a : App) : string := ToUpper (app_name a) +:+ "_FORCE_SETUP".
Definition defaultStateDir : string := "./.localdata".

Definition StatePath (a : App) (env : Env) : string :=
  let p := trimmed env (StateFileEnv a) in
  if bool_decide (p = ""%string) then defaultStateDir +:+ "/" +:+ ToLower (app_name a) +:+ ".json" else p.

(** ** The persisted state *)

Record State := mkState {
  DatabaseURL : string;
  SessionSecret : string;
  EncryptionKey : string;
  Provider : string;
  PoolMode : string;
  SSLRootCert : string
}.

Definition NeedsSetup (a : App) (env : Env) (state : option State) : bool :=
  if default false (ParseBool (trimmed env (ForceSetupEnv a))) then true
  else if match state with
          | Some s => negb (bool_decide (TrimSpace (DatabaseURL s) = ""%string))
          | None => false
          end then false
  else if negb (bool_decide (trimmed env "DATABASE_URL" = ""%string)) then false
  else
    let e := trimmed env "APP_ENV" in
    let e := if bool_decide (e = ""%string) then EnvDev else e in
    negb (bool_decide (e = EnvDev)).

(** [os.Setenv] refuses a value with a NUL byte. *)
Definition Setenv (key val : string) (env : Env) : option Env :=
  if bool_decide (chr 0 ∈ bytes_of val) then None else Some (<[key := val]> env).

(** The environment after the call, and whether it succeeded. *)
Definition setEnvIfAbsent (key val : string) (env : Env) : Env * bool :=
  if bool_decide (val = ""%string) then (env, true)
  else if negb (bool_decide (Getenv env key = ""%string)) then (env, true)
  else match Setenv key val env with Some env => (env, true) | None => (env, false) end.

Fixpoint setAll (kvs : list (string * string)) (env : Env) : Env * bool :=
  match kvs with
  | [] => (env, true)
  | (k, v) :: kvs =>
    let '(env, ok) := setEnvIfAbsent k v env in
    if ok then setAll kvs env else (env, false)
  end.

Definition secretVars (s : State) : list (string * string) :=
  [("SESSION_SECRET", SessionSecret s); ("ENCRYPTION_KEY", EncryptionKey s)]%string.
Definition dbVars (s : State) : list (string * string) :=
  [("DATABASE_URL", DatabaseURL s); ("DB_PROVIDER", Provider s); ("DB_POOL_MODE", PoolMode s);
   ("DB_SSL_ROOT_CERT", SSLRootCert s)]%string.

Definition ExportToEnv (s : option State) (env : Env) : Env * bool :=
  match s with
  | None => (env, true)
  | Some s =>
    let '(env, ok) := setAll (secretVars s) env in
    if negb ok then (env, false)
    else if existsb (fun kv => negb (bool_decide (Getenv env kv.1 = ""%string))) (dbVars s) then (env, true)
    else setAll (dbVars s) env
  end.

Definition secretLen : nat := 32.

(** The 32 bytes drawn, as hexadecimal; [None] when the source fails. *)
Definition GenerateSecret (rnd : option (list Z)) : option string :=
  (fun b => string_of (hex_encode b)) <$> rnd.

(** ** Lemmas on setting variables *)

Lemma setEnvIfAbsent_other key val env k : k <> key -> (setEnvIfAbsent key val env).1 !! k = env !! k.
Proof.
  intros Hk. unfold setEnvIfAbsent, Setenv. repeat case_bool_decide; try done. cbn. by rewrite lookup_insert_ne.
Qed.

Lemma setEnvIfAbsent_keeps key val env k : Getenv env k <> ""%string ->
  (setEnvIfAbsent key val env).1 !! k = env !! k.
Proof.
  intros Hk. destruct (decide (k = key)) as [->|Hne]; [|by apply setEnvIfAbsent_other].
  unfold setEnvIfAbsent. case_bool_decide; [done|]. by rewrite bool_decide_false.
Qed.

Lemma setAll_other kvs env k : k ∉ kvs.*1 -> (setAll kvs env).1 !! k = env !! k.
Proof.
  revert env. induction kvs as [|[k' v] kvs IH]; intros env Hk; cbn [setAll]; [done|].
  rewrite fmap_cons, not_elem_of_cons in Hk. destruct Hk as [Hne Hk].
  pose proof (setEnvIfAbsent_other k' v env k Hne) as He. destruct (setEnvIfAbsent k' v env) as [env' []]; [|done].
  rewrite IH by done. apply He.
Qed.

Lemma setAll_keeps kvs env k : Getenv env k <> ""%string -> (setAll kvs env).1 !! k = env !! k.
Proof.
  revert env. induction kvs as [|[k' v] kvs IH]; intros env Hk; cbn [setAll]; [done|].
  pose proof (setEnvIfAbsent_keeps k' v env k Hk) as He. destruct (setEnvIfAbsent k' v env) as [env' []]; [|done].
  cbn in He. rewrite IH; [done|]. unfold Getenv in *. by rewrite He.
Qed.

(** A run that succeeds leaves every variable it found unset or empty with the
    value given, unless that is empty. *)
Lemma setAll_sets kvs env k v : NoDup kvs.*1 -> (setAll kvs env).2 = true -> (k, v) ∈ kvs ->
  Getenv env k = ""%string -> Getenv (setAll kvs env).1 k = v.
Proof.
  revert env. induction kvs as [|[k' v'] kvs IH]; intros env Hnd; cbn [setAll]; [set_solver|].
  rewrite fmap_cons, NoDup_cons in Hnd. destruct Hnd as [Hnin Hnd]. intros Hok Hin Hempty.
  apply elem_of_cons in Hin as [[= -> ->]|Hin].
  - assert (Getenv (setEnvIfAbsent k' v' env).1 k' = v' \/ (setEnvIfAbsent k' v' env).2 = false) as Hset.
    { unfold setEnvIfAbsent, Setenv. destruct (decide (v' = ""%string)) as [->|Hv]; [by left|].
      rewrite (bool_decide_false (v' = _)) by done. rewrite bool_decide_true by done. cbn [negb].
      case_bool_decide; [by right|]. left. unfold Getenv. simpl. by rewrite lookup_insert_eq. }
    destruct (setEnvIfAbsent k' v' env) as [env' ok]. destruct ok; [|done]. cbn [fst snd] in *.
    destruct Hset as [Hset|]; [|done]. unfold Getenv in *. by rewrite setAll_other.
  - assert (k <> k') as Hne by (intros ->; apply Hnin, (list_elem_of_fmap_2 fst kvs (k', v)), Hin).
    pose proof (setEnvIfAbsent_other k' v' env k Hne) as He.
    destruct (setEnvIfAbsent k' v' env) as [env' []]; [|done]. apply IH; try done.
    unfold Getenv in *. cbn in He. by rewrite He.
Qed.

(** ** The export *)

Definition secretKeys : list string := ["SESSION_SECRET"; "ENCRYPTION_KEY"].
Definition dbKeys : list string := ["DATABASE_URL"; "DB_PROVIDER"; "DB_POOL_MODE"; "DB_SSL_ROOT_CERT"].

Definition is_set (env : Env) (k : string) : bool := negb (bool_decide (Getenv env k = ""%string)).

Lemma export_db_set s env : existsb (is_set env) dbKeys = true ->
  forall k, k ∉ secretKeys -> (ExportToEnv (Some s) env).1 !! k = env !! k.
Proof.
  intros Hset k Hk. cbn [ExportToEnv]. pose proof (fun j => setAll_other (secretVars s) env j) as Hother.
  change ((secretVars s).*1) with secretKeys in Hother.
  destruct (setAll (secretVars s) env) as [env' ok]. cbn in Hother. destruct ok; cbn [negb]; [|by apply Hother].
  replace (existsb _ (dbVars s)) with (existsb (is_set env) dbKeys); [rewrite Hset; by apply Hother|].
  cbn. unfold is_set, Getenv. by rewrite !Hother by set_solver.
Qed.

Lemma export_db_unset s env : existsb (is_set env) dbKeys = false -> (ExportToEnv (Some s) env).2 = true ->
  forall k v, (k, v) ∈ dbVars s -> Getenv (ExportToEnv (Some s) env).1 k = v.
Proof.
  intros Hset. cbn [ExportToEnv]. pose proof (fun j => setAll_other (secretVars s) env j) as Hother.
  change ((secretVars s).*1) with secretKeys in Hother.
  destruct (setAll (secretVars s) env) as [env' ok]. cbn in Hother. destruct ok; cbn [negb]; [|done].
  replace (existsb _ (dbVars s)) with (existsb (is_set env) dbKeys).
  - rewrite Hset. intros Hok k v Hin. apply setAll_sets; try done.
    + change ((dbVars s).*1) with dbKeys. by apply (bool_decide_unpack _).
    + assert (k ∈ dbKeys) as Hk by (change dbKeys with ((dbVars s).*1); by apply (list_elem_of_fmap_2 fst _ (k, v))).
      assert (k ∉ secretKeys) as Hs by (unfold dbKeys in Hk; set_solver).
      unfold Getenv. rewrite Hother by done. apply dec_stable. intros Hne.
      assert (existsb (is_set env) dbKeys = true) as Ht; [|congruence].
      apply existsb_exists. exists k. split; [by apply list_elem_of_In|]. unfold is_set, Getenv.
      by rewrite bool_decide_false.
  - cbn. unfold is_set, Getenv. by rewrite !Hother by set_solver.
Qed.

(** C27. Exporting a persisted state never changes a variable that has a value. When
    the operator has set any of the four database variables, [LoadDB] reads exactly
    what it would have read without the export. Otherwise, if the export succeeds,
    the DSN, provider, pool mode and root certificate it loads are all the persisted
    ones, with the loader's defaults where those are empty. There is no mixture. *)
Theorem ExportToEnv_unit (s : State) (env : Env) :
  let out := ExportToEnv (Some s) env in
  (forall k, Getenv env k <> ""%string -> out.1 !! k = env !! k) /\
  (existsb (is_set env) dbKeys = true -> LoadDB out.1 = LoadDB env) /\
  (existsb (is_set env) dbKeys = false -> out.2 = true ->
     let or v d := if bool_decide (v = ""%string) then d else v in
     let d := (LoadDB out.1).1 in
     d_DSN d = DatabaseURL s /\
     d_Provider d = ToLower (TrimSpace (or (Provider s) DBProviderPostgres)) /\
     d_PoolMode d = ToLower (TrimSpace (or (PoolMode s) DBPoolModeSession)) /\
     d_SSLRootCert d = TrimSpace (SSLRootCert s)).
Proof.
  intros out. subst out. split_and!.
  - intros k Hk. cbn [ExportToEnv]. pose proof (setAll_keeps (secretVars s) env k Hk) as H1.
    destruct (setAll (secretVars s) env) as [env' ok]. cbn in H1. destruct ok; cbn [negb]; [|done].
    case_match; [done|]. rewrite setAll_keeps; [done|]. unfold Getenv in *. by rewrite H1.
  - intros Hset. pose proof (export_db_set s env Hset) as H1.
    unfold LoadDB, Int32, Duration, parsed, String_, trimmed, Getenv. by rewrite !H1 by set_solver.
  - intros Hset Hok or d. pose proof (export_db_unset s env Hset Hok) as H1.
    assert (forall k v dflt, (k, v) ∈ dbVars s -> String_ (ExportToEnv (Some s) env).1 k dflt = or v dflt) as Hstr.
    { intros k v dflt Hin. specialize (H1 k v Hin). unfold String_, or, Getenv in *.
      destruct ((ExportToEnv (Some s) env).1 !! k); simpl in H1; subst; [done|].
      by rewrite bool_decide_true. }
    subst d. unfold LoadDB. destruct (Int32 _ _ _), (Duration _ _ _). cbn [fst d_DSN d_Provider d_PoolMode d_SSLRootCert].
    unfold trimmed. rewrite !(Hstr _ (Provider s)), !(Hstr _ (PoolMode s)) by set_solver.
    rewrite (H1 _ (DatabaseURL s)), (H1 _ (SSLRootCert s)) by set_solver. done.
Qed.

(** A Supabase profile saved by setup, and an operator who sets only the DSN. *)
Definition demo_state : State := mkState "postgres://saved" "s" "k" "supabase" "transaction" "".
Definition demo_env : Env := {[ "DATABASE_URL" := "postgres://mine" ]}%string.

Lemma ExportToEnv_unit_witness :
  d_Provider (LoadDB (ExportToEnv (Some demo_state) ∅).1).1 = DBProviderSupabase /\
  LoadDB (ExportToEnv (Some demo_state) demo_env).1 = LoadDB demo_env /\
  d_Provider (LoadDB demo_env).1 = DBProviderPostgres.
Proof.
  split_and!.
  - assert (existsb (is_set ∅) dbKeys = false) as Hs by (vm_compute; reflexivity).
    assert ((ExportToEnv (Some demo_state) ∅).2 = true) as Ho by (vm_compute; reflexivity).
    destruct (proj2 (proj2 (ExportToEnv_unit demo_state ∅)) Hs Ho) as (_ & -> & _). vm_compute. reflexivity.
  - apply (proj1 (proj2 (ExportToEnv_unit demo_state demo_env))). vm_compute. reflexivity.
  - vm_compute. reflexivity.
Defined.
