(* ===== verification/StateFile.v ===== *)
(** The first-run state file (src/bootstrap/bootstrap.go): [LoadState] and [SaveState]
    over a file system with permission bits, where any call may fail and a write may
    stop half-way. The file is JSON ([GoJSON]).

    Main results: what a successful save leaves is what the next load reads, and the
    secrets are never readable by others in any state a save goes through, unless the
    file was already there with looser permissions. *)

From S2P Require Import Prelude GoStrings GoEncoding GoRunes GoJSON GoConv Config Bootstrap.
Local Open Scope Z_scope.

(** ** The file system *)

(** Files with their contents and permissions, and directories with theirs, by cleaned
    path; the root and the working directory are always there. *)
Record FS := mkFS { fs_files : gmap string (bytes * Z); fs_dirs : gmap string Z }.

Definition Clean (path : string) : string := string_of (clean_bytes (bytes_of path)).

(** [filepath.Dir] *)
Fixpoint drop_last_part (rb : bytes) : bytes :=
  match rb with
  | [] => []
  | c :: t => if Ascii.eqb c slash then rb else drop_last_part t
  end.
Definition Dir (path : string) : string := string_of (clean_bytes (rev (drop_last_part (rev (bytes_of path))))).

Definition dir_exists (fs : FS) (dir : string) : bool :=
  bool_decide (dir = "."%string) || bool_decide (dir = "/"%string) || bool_decide (is_Some (fs_dirs fs !! dir)).

(** A cleaned path and every directory above it, the outermost first. *)
Fixpoint prefixes (acc b : bytes) : list bytes :=
  match b with
  | [] => [acc]
  | c :: t => (if Ascii.eqb c slash && negb (bool_decide (acc = [])) then [acc] else []) ++ prefixes (acc ++ [c]) t
  end.
Definition ancestors (dir : string) : list string := string_of <$> prefixes [] (bytes_of dir).

(** How a system call goes wrong; a write may have emptied the file and written a part. *)
Inductive write_fault := OpenFails | WriteFails (written : nat).

Record Faults := mkFaults {
  f_mkdir : nat -> bool;
  f_write : option write_fault;
  f_chmod : bool;
  f_read : bool
}.

Section calls.
Context (umask : Z) (faults : Faults).

Definition created (mode : Z) : Z := Z.land mode (Z.lnot umask).

Definition set_dir (d : string) (mode : Z) (fs : FS) : FS := mkFS (fs_files fs) (<[d := mode]> (fs_dirs fs)).
Definition set_file (p : string) (f : bytes * Z) (fs : FS) : FS := mkFS (<[p := f]> (fs_files fs)) (fs_dirs fs).

(** The states gone through, the last one first, and whether it succeeded. *)
Fixpoint mkdirs (n : nat) (ds : list string) (mode : Z) (fs : FS) : list FS * bool :=
  match ds with
  | [] => ([], true)
  | d :: ds =>
    if dir_exists fs d then mkdirs n ds mode fs
    else if bool_decide (is_Some (fs_files fs !! d)) || f_mkdir faults n then ([], false)
    else
      let fs' := set_dir d (created mode) fs in
      let '(tr, ok) := mkdirs (S n) ds mode fs' in (tr ++ [fs'], ok)
  end.

Definition MkdirAll (dir : string) (mode : Z) (fs : FS) : list FS * bool := mkdirs 0 (ancestors dir) mode fs.

(** [os.WriteFile]: an existing file keeps its permissions. *)
Definition WriteFile (path : string) (data : bytes) (mode : Z) (fs : FS) : list FS * bool :=
  let p := Clean path in
  if negb (dir_exists fs (Dir path)) || dir_exists fs p then ([], false)
  else
    let m := match fs_files fs !! p with Some (_, m) => m | None => created mode end in
    match f_write faults with
    | Some OpenFails => ([], false)
    | Some (WriteFails n) => ([set_file p (take n data, m) fs; set_file p ([], m) fs], false)
    | None => ([set_file p (data, m) fs; set_file p ([], m) fs], true)
    end.

Definition Chmod (path : string) (mode : Z) (fs : FS) : list FS * bool :=
  let p := Clean path in
  match fs_files fs !! p with
  | Some (data, _) => if f_chmod faults then ([], false) else ([set_file p (data, mode) fs], true)
  | None => ([], false)
  end.

Inductive read_result := ReadOk (data : bytes) | NotExist | ReadFails.

Definition ReadFile (path : string) (fs : FS) : read_result :=
  if f_read faults then ReadFails
  else match fs_files fs !! Clean path with
       | Some (data, _) => ReadOk data
       | None => if dir_exists fs (Clean path) then ReadFails else NotExist
       end.

(** ** The state as JSON *)

Definition state_fields : list (bytes * (State -> string)) :=
  [(bytes_of "database_url", DatabaseURL); (bytes_of "session_secret", SessionSecret);
   (bytes_of "encryption_key", EncryptionKey); (bytes_of "provider", Provider);
   (bytes_of "pool_mode", PoolMode); (bytes_of "ssl_root_cert", SSLRootCert)].

(** The first three are always written, the others unless empty. *)
Definition omit_empty (f : bytes * (State -> string)) : bool :=
  bool_decide (f.1 ∈ [bytes_of "provider"; bytes_of "pool_mode"; bytes_of "ssl_root_cert"]).

Definition member_of (s : State) (f : bytes * (State -> string)) : list (bytes * bytes) :=
  if omit_empty f && bool_decide (f.2 s = ""%string) then [] else [(f.1, bytes_of (f.2 s))].

Definition state_members (s : State) : list (bytes * bytes) := state_fields ≫= member_of s.

Definition MarshalIndent (s : State) : bytes := object_text (state_members s).

Definition set_field (key : bytes) (v : string) (s : State) : State :=
  if bool_decide (key = bytes_of "database_url") then
    mkState v (SessionSecret s) (EncryptionKey s) (Provider s) (PoolMode s) (SSLRootCert s)
  else if bool_decide (key = bytes_of "session_secret") then
    mkState (DatabaseURL s) v (EncryptionKey s) (Provider s) (PoolMode s) (SSLRootCert s)
  else if bool_decide (key = bytes_of "encryption_key") then
    mkState (DatabaseURL s) (SessionSecret s) v (Provider s) (PoolMode s) (SSLRootCert s)
  else if bool_decide (key = bytes_of "provider") then
    mkState (DatabaseURL s) (SessionSecret s) (EncryptionKey s) v (PoolMode s) (SSLRootCert s)
  else if bool_decide (key = bytes_of "pool_mode") then
    mkState (DatabaseURL s) (SessionSecret s) (EncryptionKey s) (Provider s) v (SSLRootCert s)
  else mkState (DatabaseURL s) (SessionSecret s) (EncryptionKey s) (Provider s) (PoolMode s) v.

(** The field a member goes to: by its name, or by a name equal but for case. *)
Definition field_for (key : bytes) : option bytes :=
  match find (fun f => bool_decide (f.1 = key)) state_fields with
  | Some f => Some f.1
  | None => fst <$> find (fun f => bool_decide (fold_name f.1 = fold_name key)) state_fields
  end.

(** Members in order; a type mismatch is remembered and the rest still assigned. *)
Definition assign (acc : State * bool) (m : bytes * json) : State * bool :=
  match field_for m.1, m.2 with
  | None, _ => acc
  | Some _, JNull => acc
  | Some f, JString v => (set_field f (string_of v) acc.1, acc.2)
  | Some _, _ => (acc.1, false)
  end.

Definition zero_state : State := mkState "" "" "" "" "" "".

Definition Unmarshal (data : bytes) : option State :=
  v ← parse_json data;
  match v with
  | JObject l => let '(s, ok) := foldl assign (zero_state, true) l in if ok then Some s else None
  | JNull => Some zero_state
  | _ => None
  end.

(** ** Loading and saving *)

Definition stateFileMode : Z := 0x180. (* 0o600 *)
Definition stateDirMode : Z := 0x1C0. (* 0o700 *)

Inductive state_error := ReadStateFailed | ParseStateFailed | NilState | MkdirFailed | WriteStateFailed | ChmodFailed.

Definition LoadState (path : string) (fs : FS) : result state_error (option State) :=
  match ReadFile path fs with
  | NotExist => Ok None
  | ReadFails => Err ReadStateFailed
  | ReadOk data =>
    match Unmarshal data with
    | None => Err ParseStateFailed
    | Some s => Ok (Some s)
    end
  end.

Definition latest (tr : list FS) (fs : FS) : FS := default fs (head tr).

(** Every state the file system goes through, the last first. *)
Definition SaveState (path : string) (s : option State) (fs : FS) : list FS * result state_error unit :=
  match s with
  | None => ([], Err NilState)
  | Some s =>
    let '(tr1, ok) := MkdirAll (Dir path) stateDirMode fs in
    if negb ok then (tr1, Err MkdirFailed)
    else
      let '(tr2, ok) := WriteFile path (MarshalIndent s) stateFileMode (latest tr1 fs) in
      if negb ok then (tr2 ++ tr1, Err WriteStateFailed)
      else
        let '(tr3, ok) := Chmod path stateFileMode (latest tr2 fs) in
        if negb ok then (tr3 ++ tr2 ++ tr1, Err ChmodFailed) else (tr3 ++ tr2 ++ tr1, Ok tt)
  end.
End calls.

(** ** What a save leaves is what a load reads *)

(** A field as JSON can carry it: bytes outside valid runes become U+FFFD. *)
Definition readable_text (v : string) : string := string_of (valid_text (bytes_of v)).

Definition readable (s : State) : State :=
  mkState (readable_text (DatabaseURL s)) (readable_text (SessionSecret s)) (readable_text (EncryptionKey s))
    (readable_text (Provider s)) (readable_text (PoolMode s)) (readable_text (SSLRootCert s)).

Lemma readable_empty : readable_text "" = ""%string.
Proof. reflexivity. Qed.

(** The members of a state, assigned one by one. *)
Lemma state_members_list s : state_members s =
  [(bytes_of "database_url", bytes_of (DatabaseURL s)); (bytes_of "session_secret", bytes_of (SessionSecret s));
   (bytes_of "encryption_key", bytes_of (EncryptionKey s))]
  ++ (if bool_decide (Provider s = ""%string) then [] else [(bytes_of "provider", bytes_of (Provider s))])
  ++ (if bool_decide (PoolMode s = ""%string) then [] else [(bytes_of "pool_mode", bytes_of (PoolMode s))])
  ++ (if bool_decide (SSLRootCert s = ""%string) then [] else [(bytes_of "ssl_root_cert", bytes_of (SSLRootCert s))]).
Proof. unfold state_members. cbn [state_fields mbind list_bind]. by rewrite app_nil_r. Qed.

Lemma Unmarshal_MarshalIndent s : Unmarshal (MarshalIndent s) = Some (readable s).
Proof.
  unfold Unmarshal, MarshalIndent. rewrite state_members_list. cbn [app]. rewrite parse_object_text.
  cbn [mbind option_bind]. destruct s as [a b c d e f]. unfold readable.
  cbn [Provider PoolMode SSLRootCert DatabaseURL SessionSecret EncryptionKey].
  repeat case_bool_decide; subst; reflexivity.
Qed.

(** ** What a save goes through *)

(** No permission for the group or for others. *)
Definition owner_only (mode : Z) : bool := Z.land mode 0x3F =? 0.

Lemma created_owner_only umask mode : owner_only mode = true -> owner_only (created umask mode) = true.
Proof.
  unfold owner_only, created. rewrite !Z.eqb_eq. intros H.
  by rewrite <- Z.land_assoc, (Z.land_comm _ 0x3F), Z.land_assoc, H, Z.land_0_l.
Qed.

(** A step of a save that leaves the other files, and every directory there was, alone;
    the file itself becomes [f] of what it was. *)
Record step_ok (p : string) (fs fs' : FS) : Prop := {
  so_others : forall q, q <> p -> fs_files fs' !! q = fs_files fs !! q;
  so_dirs : forall d m, fs_dirs fs' !! d = Some m -> fs_dirs fs !! d = Some m \/ owner_only m = true;
  so_mode : forall data m, fs_files fs' !! p = Some (data, m) ->
    owner_only m = true \/ exists data', fs_files fs !! p = Some (data', m)
}.

Lemma step_ok_refl p fs : step_ok p fs fs.
Proof. constructor; eauto. Qed.

Lemma step_ok_trans p fs1 fs2 fs3 : step_ok p fs1 fs2 -> step_ok p fs2 fs3 -> step_ok p fs1 fs3.
Proof.
  intros [A1 A2 A3] [B1 B2 B3]. constructor.
  - intros q Hq. by rewrite B1, A1.
  - intros d m Hd. destruct (B2 _ _ Hd) as [H|H]; [by apply A2|by right].
  - intros data m Hp. destruct (B3 _ _ Hp) as [H|[d' H]]; [by left|by eapply A3].
Qed.

Lemma step_ok_file p fs data m :
  (owner_only m = true \/ exists data', fs_files fs !! p = Some (data', m)) -> step_ok p fs (set_file p (data, m) fs).
Proof.
  intros Hm. constructor; cbn; [intros q Hq; by rewrite lookup_insert_ne|eauto|].
  intros data' m'. rewrite lookup_insert_eq. intros [= -> ->]. done.
Qed.

Lemma step_ok_dir p fs d m : owner_only m = true -> step_ok p fs (set_dir d m fs).
Proof.
  intros Hm. constructor; cbn; [done| |eauto]. intros d' m'. destruct (decide (d' = d)) as [->|Hne].
  - rewrite lookup_insert_eq. intros [= ->]. by right.
  - rewrite lookup_insert_ne by done. by left.
Qed.

Section saves.
Context (umask : Z) (faults : Faults).

Lemma mkdirs_steps p ds mode n fs : owner_only mode = true ->
  Forall (step_ok p fs) (mkdirs umask faults n ds mode fs).1 /\
  Forall (fun fs' => fs_files fs' = fs_files fs) (mkdirs umask faults n ds mode fs).1.
Proof.
  intros Hm. revert n fs. induction ds as [|d ds IH]; intros n fs; cbn [mkdirs]; [split; constructor|].
  destruct (dir_exists fs d); [apply IH|]. destruct (_ || _); [split; constructor|].
  set (fs' := set_dir d _ fs). destruct (IH (S n) fs') as [H1 H2].
  destruct (mkdirs umask faults (S n) ds mode fs') as [tr ok]. cbn [fst] in *.
  assert (step_ok p fs fs') as Hs by (by apply step_ok_dir, created_owner_only).
  split; apply Forall_app; (split; [|constructor; [done|constructor]]).
  - eapply Forall_impl; [exact H1|]. intros x Hx. by eapply step_ok_trans.
  - exact H2.
Qed.

Lemma Forall_latest (P : FS -> Prop) tr fs : P fs -> Forall P tr -> P (latest tr fs).
Proof. intros Hfs Htr. destruct Htr; done. Qed.

Lemma WriteFile_steps path data mode fs : owner_only mode = true ->
  Forall (step_ok (Clean path) fs) (WriteFile umask faults path data mode fs).1.
Proof.
  intros Hm. unfold WriteFile. destruct (_ || _); [constructor|].
  set (m := match fs_files fs !! Clean path with Some (_, m) => m | None => _ end).
  assert (owner_only m = true \/ exists data', fs_files fs !! Clean path = Some (data', m)) as Hmode.
  { subst m. destruct (fs_files fs !! Clean path) as [[d m]|]; [right; eauto|left; by apply created_owner_only]. }
  destruct (f_write faults) as [[|n]|]; repeat (apply List.Forall_cons; [by apply step_ok_file|]); constructor.
Qed.

Lemma Chmod_steps path mode fs : owner_only mode = true ->
  Forall (step_ok (Clean path) fs) (Chmod faults path mode fs).1.
Proof.
  intros Hm. unfold Chmod. destruct (fs_files fs !! Clean path) as [[d m]|]; [|constructor].
  destruct (f_chmod faults); [constructor|]. constructor; [|constructor]. apply step_ok_file. by left.
Qed.

Lemma steps_after p (fs fs' : FS) tr : step_ok p fs fs' -> Forall (step_ok p fs') tr -> Forall (step_ok p fs) tr.
Proof. intros H Htr. eapply Forall_impl; [exact Htr|]. intros x Hx. by eapply step_ok_trans. Qed.

Lemma SaveState_steps path s fs : Forall (step_ok (Clean path) fs) (SaveState umask faults path s fs).1.
Proof.
  destruct s as [s|]; [|constructor]. cbn [SaveState].
  destruct (mkdirs_steps (Clean path) (ancestors (Dir path)) stateDirMode 0 fs eq_refl) as [H1 _].
  unfold MkdirAll. destruct (mkdirs _ _ _ _ _ _) as [tr1 ok1]. cbn [fst] in H1. destruct ok1; cbn [negb]; [|done].
  assert (step_ok (Clean path) fs (latest tr1 fs)) as L1 by (apply Forall_latest; [apply step_ok_refl|done]).
  pose proof (steps_after _ _ _ _ L1 (WriteFile_steps path (MarshalIndent s) stateFileMode (latest tr1 fs) eq_refl)) as H2.
  destruct (WriteFile _ _ _ _ _ _) as [tr2 ok2]. cbn [fst] in H2.
  destruct ok2; cbn [negb]; [|by apply Forall_app].
  assert (step_ok (Clean path) fs (latest tr2 fs)) as L2 by (apply Forall_latest; [apply step_ok_refl|done]).
  pose proof (steps_after _ _ _ _ L2 (Chmod_steps path stateFileMode (latest tr2 fs) eq_refl)) as H3.
  destruct (Chmod _ _ _ _) as [tr3 ok3]. cbn [fst] in H3.
  destruct ok3; cbn [negb fst]; by repeat (apply Forall_app; split).
Qed.

(** A save that succeeds leaves the file it wrote, readable by its owner alone. *)
Lemma SaveState_file path s fs tr : SaveState umask faults path (Some s) fs = (tr, Ok tt) ->
  fs_files (latest tr fs) !! Clean path = Some (MarshalIndent s, stateFileMode).
Proof.
  cbn [SaveState]. destruct (MkdirAll _ _ _ _ _) as [tr1 ok1]. destruct ok1; cbn [negb]; [|done].
  unfold WriteFile. destruct (_ || _); [done|].
  set (m := match fs_files _ !! Clean path with Some (_, m) => m | None => _ end).
  destruct (f_write faults) as [[|n]|]; [done|done|]. cbn [negb latest default head].
  unfold Chmod. cbn [fs_files set_file]. unfold latest at 1. cbn. rewrite lookup_insert_eq.
  destruct (f_chmod faults); [done|]. cbn [negb app]. intros [= <-]. cbn. by rewrite lookup_insert_eq.
Qed.

(** A failure before the file is opened leaves every file as it was. *)
Lemma SaveState_mkdir_failed path s fs tr e : SaveState umask faults path s fs = (tr, Err e) ->
  e = NilState \/ e = MkdirFailed -> Forall (fun fs' => fs_files fs' = fs_files fs) tr.
Proof.
  destruct s as [s|]; [|intros [= <- <-]; constructor]. cbn [SaveState].
  destruct (mkdirs_steps (Clean path) (ancestors (Dir path)) stateDirMode 0 fs eq_refl) as [_ H2].
  unfold MkdirAll. destruct (mkdirs _ _ _ _ _ _) as [tr1 ok1]. cbn [fst] in H2. destruct ok1; cbn [negb].
  - destruct (WriteFile _ _ _ _ _ _) as [tr2 ok2]. destruct ok2; cbn [negb]; [|intros [= <- <-] [|]; done].
    destruct (Chmod _ _ _ _) as [tr3 ok3]. destruct ok3; cbn [negb]; [done|]. intros [= <- <-] [|]; done.
  - intros [= <- <-] _. done.
Qed.
End saves.

(** C34. A state that was saved is the state the next start loads, field by field; bytes that
    are not UTF-8 come back as U+FFFD, and so a state whose fields are valid text comes back
    exactly. No file at all is no state, and is not an error. *)
Theorem SaveState_LoadState (umask : Z) (faults faults' : Faults) (path : string) (s : State) (fs : FS) (tr : list FS) :
  f_read faults' = false ->
  (SaveState umask faults path (Some s) fs = (tr, Ok tt) ->
   LoadState faults' path (latest tr fs) = Ok (Some (readable s)) /\
   ((forall f, f ∈ state_fields -> valid_text (bytes_of (f.2 s)) = bytes_of (f.2 s)) -> readable s = s)) /\
  (fs_files fs !! Clean path = None -> dir_exists fs (Clean path) = false -> LoadState faults' path fs = Ok None).
Proof.
  intros Hr. split.
  - intros Hs. apply SaveState_file in Hs. split.
    + unfold LoadState, ReadFile. by rewrite Hr, Hs, Unmarshal_MarshalIndent.
    + intros Hv. assert (forall f, f ∈ state_fields -> readable_text (f.2 s) = f.2 s) as Hv'.
      { intros f Hf. unfold readable_text. by rewrite Hv, string_of_bytes_of. }
      assert (forall f : State -> string, f ∈ state_fields.*2 -> readable_text (f s) = f s) as Hall.
      { intros f (x & -> & Hx)%list_elem_of_fmap. by apply Hv'. }
      destruct s as [u v w x y z]. unfold readable.
      by rewrite (Hall DatabaseURL), (Hall SessionSecret), (Hall EncryptionKey), (Hall Provider), (Hall PoolMode),
        (Hall SSLRootCert) by (cbn; rewrite !elem_of_cons; repeat (first [left; reflexivity | right])).
  - intros Hf Hd. unfold LoadState, ReadFile. by rewrite Hr, Hf, Hd.
Qed.

(** C30. Saving keeps the secrets to the owner. In every state the file system goes through,
    whatever call fails and however far a write gets: no other file changes; every directory
    is as it was or was made for the owner alone; and the state file has either owner-only
    permissions or those it had before. So a file that did not exist is never open to others,
    and after a save that succeeded it never is. An error before the file is opened leaves
    every file untouched. *)
Theorem SaveState_private (umask : Z) (faults : Faults) (path : string) (s : option State) (fs : FS) :
  let '(tr, r) := SaveState umask faults path s fs in
  (forall fs', fs' ∈ tr ->
     (forall q, q <> Clean path -> fs_files fs' !! q = fs_files fs !! q) /\
     (forall d m, fs_dirs fs' !! d = Some m -> fs_dirs fs !! d = Some m \/ owner_only m = true) /\
     (forall data m, fs_files fs' !! Clean path = Some (data, m) -> owner_only m = false ->
        exists data', fs_files fs !! Clean path = Some (data', m))) /\
  (r = Ok tt -> exists data, fs_files (latest tr fs) !! Clean path = Some (data, stateFileMode) /\
     owner_only stateFileMode = true) /\
  (r = Err NilState \/ r = Err MkdirFailed -> forall fs', fs' ∈ tr -> fs_files fs' = fs_files fs).
Proof.
  pose proof (SaveState_steps umask faults path s fs) as Hsteps.
  destruct (SaveState umask faults path s fs) as [tr r] eqn:Hs. cbn [fst] in Hsteps. split_and!.
  - intros fs' Hin. rewrite Forall_forall in Hsteps. destruct (Hsteps _ Hin) as [A B C]. split_and!; [done|done|].
    intros data m Hp Hm. destruct (C _ _ Hp) as [Ho|Ho]; [congruence|done].
  - intros ->. destruct s as [s|]; [|done]. exists (MarshalIndent s). split; [|done]. by eapply SaveState_file.
  - intros Hr. assert (exists e, r = Err e /\ (e = NilState \/ e = MkdirFailed)) as (e & -> & He) by naive_solver.
    apply Forall_forall. by eapply SaveState_mkdir_failed.
Qed.

Module StateFileWitness.
Definition no_faults : Faults := mkFaults (fun _ => false) None false false.
Definition saved : State := mkState "postgres://u:p<w>@db/nest" "s3cret" "k&ey" "" "session" "".
Definition home : FS := mkFS ∅ {["etc"%string := 0x1ED]}.
Definition state_path : string := "./.localdata/nest.json".

Lemma SaveState_LoadState_witness : exists tr,
  SaveState 0x12 no_faults state_path (Some saved) home = (tr, Ok tt) /\
  LoadState no_faults state_path (latest tr home) = Ok (Some saved) /\
  LoadState no_faults state_path home = Ok None.
Proof.
  assert (exists tr, SaveState 0x12 no_faults state_path (Some saved) home = (tr, Ok tt)) as [tr Hs]
    by (eexists; reflexivity).
  exists tr. split; [exact Hs|].
  destruct (SaveState_LoadState 0x12 no_faults no_faults state_path saved home tr eq_refl) as [H1 H2].
  destruct (H1 Hs) as [-> Hv]. split; [|apply H2; reflexivity]. rewrite Hv; [done|].
  intros f Hf. unfold state_fields in Hf. repeat (apply elem_of_cons in Hf as [->|Hf]; [reflexivity|]). by apply elem_of_nil in Hf.
Defined.

Lemma SaveState_private_witness : exists tr,
  SaveState 0x12 no_faults state_path (Some saved) home = (tr, Ok tt) /\ length tr = 4%nat /\
  (forall fs' data m, fs' ∈ tr -> fs_files fs' !! Clean state_path = Some (data, m) -> owner_only m = true) /\
  exists data, fs_files (latest tr home) !! Clean state_path = Some (data, stateFileMode).
Proof.
  pose proof (SaveState_private 0x12 no_faults state_path (Some saved) home) as Hpriv.
  assert (exists tr, SaveState 0x12 no_faults state_path (Some saved) home = (tr, Ok tt) /\ length tr = 4%nat)
    as (tr & Hs & Hlen) by (eexists; split; reflexivity).
  rewrite Hs in Hpriv. destruct Hpriv as (Hall & Hdone & _). exists tr. split; [exact Hs|]. split; [exact Hlen|]. split.
  - intros fs' data m Hin Hp. destruct (Hall _ Hin) as (_ & _ & Hmode).
    destruct (owner_only m) eqn:Hm; [done|]. by destruct (Hmode _ _ Hp Hm).
  - destruct (Hdone eq_refl) as (data & Hdata & _). by exists data.
Defined.

(** An existing file that others may read holds the new secrets before it is tightened. *)
Example loose_file_window :
  existsb (fun fs => match fs_files fs !! Clean state_path with
                     | Some (data, m) => bool_decide (data = MarshalIndent saved) && negb (owner_only m)
                     | None => false
                     end)
    (SaveState 0x12 no_faults state_path (Some saved)
       (mkFS {[ Clean state_path := ([], 0x1A4) ]} {[ ".localdata"%string := 0x1ED ]})).1 = true.
Proof. vm_compute. reflexivity. Qed.
End StateFileWitness.
