(* ===== verification/DbTest.v ===== *)
(** Package dbtest (src/db/dbtest/dbtest.go): the harness of database-gated tests. It
    derives one database per test package from a configured connection string, creates
    it, resets and migrates its schema, hands out a pool, and cleans up when the test
    ends.

    [*testing.T] is a state monad that logs what the harness does to the outside, in
    order, collects the clean-ups, and can end a test early; the server, the driver
    and the application's migrator answer as they like. *)

From S2P Require Import Prelude GoStrings GoEncoding GoNet GoConv GoURL GoURLSpec Config Db.
Local Open Scope Z_scope.

(** ** The keyword form of a connection string *)

Definition isConninfoSpace (c : Ascii.ascii) : bool :=
  Ascii.eqb c " " || Ascii.eqb c (chr 9) || Ascii.eqb c (chr 10) || Ascii.eqb c (chr 13).

(** The scanners count from where they start; an index beyond the end reads nothing. *)
Fixpoint span_len (p : Ascii.ascii -> bool) (s : bytes) : nat :=
  match s with
  | c :: s => if p c then S (span_len p s) else 0
  | [] => 0
  end.

Definition skipConninfoSpace (conninfo : bytes) (i : nat) : nat :=
  i + span_len isConninfoSpace (drop i conninfo).

Definition scanConninfoKey (conninfo : bytes) (i : nat) : bytes * nat :=
  let n := span_len (fun c => negb (Ascii.eqb c "=") && negb (isConninfoSpace c)) (drop i conninfo) in
  (take n (drop i conninfo), (i + n)%nat).

(** From after the opening quote to after the closing one, or to the end. *)
Fixpoint quoted_len (s : bytes) : nat :=
  match s with
  | [] => 0
  | c :: t =>
    match t with
    | _ :: t' => if Ascii.eqb c backslash then S (S (quoted_len t'))
                 else if Ascii.eqb c quote then 1 else S (quoted_len t)
    | [] => 1
    end
  end.

Definition scanQuotedConninfoValue (conninfo : bytes) (i : nat) : nat := S i + quoted_len (drop (S i) conninfo).

Fixpoint bare_len (s : bytes) : nat :=
  match s with
  | [] => 0
  | c :: t =>
    if isConninfoSpace c then 0
    else match t with
         | _ :: t' => if Ascii.eqb c backslash then S (S (bare_len t')) else S (bare_len t)
         | [] => 1
         end
  end.

Definition scanBareConninfoValue (conninfo : bytes) (i : nat) : nat := i + bare_len (drop i conninfo).

Definition scanConninfoValue (conninfo : bytes) (i : nat) : nat :=
  match conninfo !! i with
  | Some c => if Ascii.eqb c quote then scanQuotedConninfoValue conninfo i else scanBareConninfoValue conninfo i
  | None => scanBareConninfoValue conninfo i
  end.

(** One round of the loop: where the next one starts and the span found, if the
    setting is the database's. [None] at the end of the string. *)
Definition span_round (conninfo : bytes) (i : nat) : option (nat * option (nat * nat)) :=
  let i := skipConninfoSpace conninfo i in
  if (length conninfo <=? i)%nat then None
  else
    let '(key, i) := scanConninfoKey conninfo i in
    if bool_decide (conninfo !! i = Some "="%char) then
      let valStart := S i in
      let i := scanConninfoValue conninfo valStart in
      Some (i, if bool_decide (key = bytes_of "dbname") then Some (valStart, i) else None)
    else Some (i, None).

Fixpoint span_loop (fuel : nat) (conninfo : bytes) (i : nat) (found : option (nat * nat)) : option (nat * nat) :=
  match fuel with
  | O => found
  | S fuel =>
    match span_round conninfo i with
    | None => found
    | Some (i, f) => span_loop fuel conninfo i match f with Some _ => f | None => found end
    end
  end.

(** A round takes at least one byte, so the length is fuel enough. *)
Definition dbnameValueSpan (conninfo : bytes) : option (nat * nat) :=
  span_loop (length conninfo) conninfo 0 None.

(** ** Deriving a package's database *)

Definition isPackageIdentifier (s : string) : bool :=
  forallb (fun c => is_alnum c || Ascii.eqb c "_") (bytes_of s) && negb (bool_decide (s = ""%string)).

(** [pgx.ParseConfig], as far as the harness looks: the database to connect to. *)
Class PgxConn := {
  conn_error : Type;
  ParseDatabase : bytes -> result conn_error string
}.

Section derive.
Context `{PgxConn, Toolchain}.

Inductive derive_error :=
| SuffixEmpty | SuffixNotIdentifier | ParseFailed (e : conn_error) | NotATestDatabase (base : string)
| NameTooLong (derived : string) | NoDatabaseKey.

Definition rewriteDatabase (baseDSN : bytes) (newName : string) : result derive_error bytes :=
  let conninfo :=
    match dbnameValueSpan baseDSN with
    | None => Err NoDatabaseKey
    | Some (start, end_) => Ok (take start baseDSN ++ bytes_of newName ++ drop end_ baseDSN)
    end in
  match Parse strict_colons baseDSN with
  | Some u =>
    if bool_decide (u_Scheme u ∈ pg_schemes) then Ok (URL_String (set_path u (slash :: bytes_of newName)))
    else conninfo
  | None => conninfo
  end.

Definition ends_with (suffix s : bytes) : bool := starts_with (rev suffix) (rev s).

Definition derive (baseDSN : bytes) (suffix : string) : result derive_error (bytes * string) :=
  if bool_decide (TrimSpace suffix = ""%string) then Err SuffixEmpty
  else if negb (isPackageIdentifier suffix) then Err SuffixNotIdentifier
  else
    res_bind (res_map_err ParseFailed (ParseDatabase baseDSN)) (fun database =>
    let base := ToLower database in
    if negb (bool_decide (base = "test"%string)) && negb (ends_with (bytes_of "_test") (bytes_of base))
    then Err (NotATestDatabase base)
    else
      let derived := base +:+ "_" +:+ ToLower suffix in
      if (63 <? String.length derived)%nat then Err (NameTooLong derived)
      else res_bind (rewriteDatabase baseDSN derived) (fun rewritten => Ok (rewritten, derived))).
End derive.

(** ** The harness *)

Definition setupTimeout : Z := 60 * Second.
Definition cleanupTimeout : Z := 30 * Second.
Definition connectTimeout : Z := 10 * Second.
Definition duplicateDatabaseCode : string := "42P04".

(** What the harness does to the outside, in order. A call carries its deadline. *)
Inductive event (hook : Type) :=
| ConnectAdmin (budget : Z) (baseDSN : bytes)
| CreateDatabase (name : string)
| CloseAdmin
| PreReset (h : hook) (budget : Z) (dsn : bytes)
| ResetSchema (budget : Z) (dsn : bytes)
| MigrateUp (budget : Z) (dsn : bytes)
| OpenPool (budget : Z) (cfg : DBConfig)
| ClosePool (cfg : DBConfig).
Arguments ConnectAdmin {hook}. Arguments CreateDatabase {hook}. Arguments CloseAdmin {hook}.
Arguments PreReset {hook}. Arguments ResetSchema {hook}. Arguments MigrateUp {hook}.
Arguments OpenPool {hook}. Arguments ClosePool {hook}.

(** A registered clean-up: the pool's [Close], or the closure over the options. *)
Inductive cleanup (hook : Type) := CloseCleanup (cfg : DBConfig) | ResetCleanup (h : option hook) (dsn : bytes).
Arguments CloseCleanup {hook}. Arguments ResetCleanup {hook}.

Inductive exec_result := ExecOk | PgError (code : string) | OtherError.

(** The maintenance connection, the statement on it, and the application's migrator:
    each answer may depend on how much has happened so far. *)
Class TestEnv := {
  mig_error : Type;
  admin_connects : nat -> bytes -> bool;
  exec_create : nat -> string -> exec_result;
  Reset : nat -> bytes -> option mig_error;
  Up : nat -> bytes -> option mig_error
}.

Section harness.
Context `{PgxConn, Toolchain, Pgx, TestEnv} {hook : Type}.

Inductive fatal :=
| FatalSuffix | FatalDerive (e : derive_error) | FatalParse (e : conn_error) | FatalConnect (name : string)
| FatalCreate (name : string) | FatalReset (e : mig_error) | FatalUp (e : mig_error) | FatalPool (e : db_error).

(** How a step ends: [Skipf] and [Fatalf] end the test, its clean-ups still run. *)
Inductive outcome (A : Type) := Returned (a : A) | Skipped | Failed (f : fatal).
Arguments Returned {A}. Arguments Skipped {A}. Arguments Failed {A}.

Record T := mkT { t_log : list (event hook); t_cleanups : list (cleanup hook) }.

Definition TM (A : Type) : Type := T -> outcome A * T.

Definition ret {A} (a : A) : TM A := fun t => (Returned a, t).
Definition bind {A B} (m : TM A) (k : A -> TM B) : TM B := fun t =>
  match m t with
  | (Returned a, t) => k a t
  | (Skipped, t) => (Skipped, t)
  | (Failed f, t) => (Failed f, t)
  end.
Definition fail {A} (f : fatal) : TM A := fun t => (Failed f, t).
Definition skip {A} : TM A := fun t => (Skipped, t).
(** The event, then how much had happened when it was answered. *)
Definition act (e : event hook) : TM nat := fun t =>
  (Returned (length (t_log t)), mkT (t_log t ++ [e]) (t_cleanups t)).
Definition Cleanup (c : cleanup hook) : TM unit := fun t => (Returned tt, mkT (t_log t) (c :: t_cleanups t)).

Notation "'do!' x ':=' m 'in' k" := (bind m (fun x => k))
  (at level 200, x pattern, m at level 100, k at level 200).

Record Harness := mkHarness { envVar : string }.

(** [None] for the panics; [migrator]: whether there is one. *)
Definition New (envVar : string) (migrator : bool) : option Harness :=
  if bool_decide (TrimSpace envVar = ""%string) then None
  else if negb migrator then None
  else Some (mkHarness envVar).

Record options := mkOptions { preReset : option hook }.
Definition Option_ : Type := options -> options.
Definition WithPreReset (h : hook) : Option_ := fun _ => mkOptions (Some h).

Definition deriveDSN (baseDSN : bytes) (suffix : string) : TM (bytes * string) :=
  match derive baseDSN suffix with
  | Ok r => ret r
  | Err e => fail (FatalDerive e)
  end.

(** The connection is closed on every path after it is there. *)
Definition createDatabase (baseDSN : bytes) (derivedName : string) : TM unit :=
  match ParseDatabase baseDSN with
  | Err e => fail (FatalParse e)
  | Ok _ =>
    do! n := act (ConnectAdmin connectTimeout baseDSN) in
    if negb (admin_connects n baseDSN) then fail (FatalConnect derivedName)
    else
      do! n := act (CreateDatabase derivedName) in
      do! _ := act CloseAdmin in
      match exec_create n derivedName with
      | ExecOk => ret tt
      | PgError code => if bool_decide (code = duplicateDatabaseCode) then ret tt else fail (FatalCreate derivedName)
      | OtherError => fail (FatalCreate derivedName)
      end
  end.

Definition preResetOf (h : option hook) (budget : Z) (dsn : bytes) : TM unit :=
  match h with
  | Some h => do! _ := act (PreReset h budget dsn) in ret tt
  | None => ret tt
  end.

Definition poolConfigFor (derivedDSN : bytes) : DBConfig :=
  mkDBConfig (string_of derivedDSN) 0 (5 * Second) "" "" "" "".

Definition NewIsolatedPool (h : Harness) (env : Env) (suffix : string) (opts : list Option_) : TM DBConfig :=
  let cfg := foldl (fun o opt => opt o) (mkOptions None) opts in
  let baseDSN := bytes_of (Getenv env (envVar h)) in
  if bool_decide (baseDSN = []) then skip
  else if bool_decide (TrimSpace suffix = ""%string) then fail FatalSuffix
  else
    do! d := deriveDSN baseDSN suffix in
    let '(derivedDSN, derivedName) := d in
    do! _ := createDatabase baseDSN derivedName in
    do! _ := preResetOf (preReset cfg) setupTimeout derivedDSN in
    do! n := act (ResetSchema setupTimeout derivedDSN) in
    match Reset n derivedDSN with
    | Some e => fail (FatalReset e)
    | None =>
      do! n := act (MigrateUp setupTimeout derivedDSN) in
      match Up n derivedDSN with
      | Some e => fail (FatalUp e)
      | None =>
        do! _ := Cleanup (ResetCleanup (preReset cfg) derivedDSN) in
        let pc := poolConfigFor derivedDSN in
        do! _ := act (OpenPool connectTimeout pc) in
        match Db.New pc [] with
        | Err e => fail (FatalPool e)
        | Ok _ => do! _ := Cleanup (CloseCleanup pc) in ret pc
        end
      end
    end.

Definition DSN (h : Harness) (env : Env) (suffix : string) : TM bytes :=
  let baseDSN := bytes_of (Getenv env (envVar h)) in
  if bool_decide (baseDSN = []) then skip
  else
    do! d := deriveDSN baseDSN suffix in
    do! _ := createDatabase baseDSN d.2 in
    ret d.1.

(** One clean-up; a reset that fails is only logged. *)
Definition run_cleanup (c : cleanup hook) : TM unit :=
  match c with
  | CloseCleanup cfg => do! _ := act (ClosePool cfg) in ret tt
  | ResetCleanup h dsn =>
    do! _ := preResetOf h cleanupTimeout dsn in
    do! _ := act (ResetSchema cleanupTimeout dsn) in
    ret tt
  end.

(** The end of a test: the clean-ups, the last registered first. *)
Definition finish (t : T) : T :=
  foldl (fun t c => (run_cleanup c t).2) (mkT (t_log t) []) (t_cleanups t).
End harness.

Arguments Returned {_ _ _ A}.
Arguments Skipped {_ _ _ A}.
Arguments Failed {_ _ _ A}.
