(* ===== verification/Session.v ===== *)
(** What a session may hold (src/identity/session/gob.go). scs keeps the values of a
    session as one gob of a map from keys to interface values, and [encoding/gob]
    needs the concrete type of each to be registered in the process that writes and in
    the process that reads. [init] registers the two types the applications put there;
    the manager itself is in Db.v. *)

From S2P Require Import Prelude Db.

(** The types [encoding/gob] registers on its own. *)
Definition gob_basics : gset string :=
  list_to_set ["int"; "int8"; "int16"; "int32"; "int64"; "uint"; "uint8"; "uint16"; "uint32"; "uint64"; "float32";
    "float64"; "complex64"; "complex128"; "uintptr"; "bool"; "string"; "[]uint8"; "[]int"; "[]int8"; "[]int16";
    "[]int32"; "[]int64"; "[]uint"; "[]uint16"; "[]uint32"; "[]uint64"; "[]float32"; "[]float64"; "[]complex64";
    "[]complex128"; "[]uintptr"; "[]bool"; "[]string"]%string.

Definition time_Time : string := "time.Time".
Definition webauthn_SessionData : string := "github.com/go-webauthn/webauthn/webauthn.SessionData".

(** [gob.Register], by the type's full name. *)
Definition Register (type : string) (registered : gset string) : gset string := {[ type ]} ∪ registered.

Definition init (registered : gset string) : gset string :=
  Register webauthn_SessionData (Register time_Time registered).

(** A session's values: the concrete type and the contents of each. *)
Record session_value := mkValue { sv_type : string; sv_data : string }.

Definition all_registered (registered : gset string) (vs : gmap string session_value) : bool :=
  bool_decide (map_Forall (fun _ v => sv_type v ∈ registered) vs).

(** One unknown type fails the whole map, on either side. *)
Definition encode_values (registered : gset string) (vs : gmap string session_value) : option (gmap string session_value) :=
  if all_registered registered vs then Some vs else None.
Definition decode_values (registered : gset string) (blob : gmap string session_value) : option (gmap string session_value) :=
  if all_registered registered blob then Some blob else None.

(** Types any application of this package can put in a session. *)
Definition shared (t : string) : Prop := t ∈ gob_basics \/ t = time_Time \/ t = webauthn_SessionData.

Lemma shared_registered own t : gob_basics ⊆ own -> shared t -> t ∈ init own.
Proof.
  intros Ho Ht. unfold init, Register. rewrite !elem_of_union, !elem_of_singleton. destruct Ht as [Ht|[->| ->]]; [|by auto..].
  right. right. by apply Ho.
Qed.

(** Whatever else two applications register on their own, each reads what the other wrote as
    long as the values are of the shared types. *)
Lemma sessions_shared (writer reader : gset string) (vs : gmap string session_value) :
  gob_basics ⊆ writer -> gob_basics ⊆ reader -> map_Forall (fun _ v => shared (sv_type v)) vs ->
  (b ← encode_values (init writer) vs; decode_values (init reader) b) = Some vs.
Proof.
  intros Hw Hr Hvs. unfold encode_values, decode_values, all_registered.
  assert (forall own, gob_basics ⊆ own -> map_Forall (fun _ v => sv_type v ∈ init own) vs) as Hall
    by (intros own Ho k v Hv; by eapply shared_registered, Hvs).
  rewrite bool_decide_true by auto. cbn. by rewrite bool_decide_true by auto.
Qed.

(** A value of a type only the writer registered loses the reader the whole session, the
    member id included. *)
Lemma session_lost (reader : gset string) (vs : gmap string session_value) k v :
  vs !! k = Some v -> sv_type v ∉ init reader -> decode_values (init reader) vs = None.
Proof.
  intros Hv Ht. unfold decode_values, all_registered. rewrite bool_decide_false; [done|]. intros Hall. by apply Ht, (Hall k).
Qed.

Example half_adopted :
  let vs := {[ KeyMemberID := mkValue "string" "ann"; "mfa_verified_at"%string := mkValue time_Time "12:00" ]} in
  (size <$> decode_values (init gob_basics) vs, decode_values gob_basics vs) = (Some 2%nat, None).
Proof. vm_compute. reflexivity. Qed.
