(* ===== verification/Http.v ===== *)
(** The HTTP layer (src/httpserver): the middleware of src/httpserver/middleware and
    the server [New] builds from them.

    A handler is a function from the writer it is given and the request to what it
    does: the calls it makes on the writer, in order, with the log lines and metric
    updates between them, and how it ends. A middleware maps handlers to handlers.
    Only two things about the writer matter to a handler: whether it already is the
    [responseWriter] wrapper, which middleware share, and that wrapper's state.
    [net/http]'s own response is the fold [serve]. *)

From S2P Require Import Prelude GoStrings GoEncoding GoNet GoConv Config.
Local Open Scope Z_scope.

(** ** Requests *)

Record forwarded := mkForwarded { scheme : string; clientIP : string }.

(** The values middleware keep in the request context. [c_route]: a route-pattern
    holder is present. *)
Record Context := mkContext {
  c_forwarded : option forwarded;
  c_requestID : option string;
  c_route : bool;
  c_deadline : option Z
}.

(** [r_header]: canonical header names to their lines. [r_now] is the time of
    arrival and [r_rand] what [crypto/rand] yields for a new id, [None] if it fails. *)
Record Request := mkRequest {
  r_RemoteAddr : string;
  r_Host : string;
  r_TLS : bool;
  r_header : gmap string (list string);
  r_Method : string;
  r_Path : string;
  r_now : Z;
  r_rand : option (list Z);
  r_ctx : Context
}.

Definition with_ctx (f : Context -> Context) (r : Request) : Request :=
  mkRequest (r_RemoteAddr r) (r_Host r) (r_TLS r) (r_header r) (r_Method r) (r_Path r) (r_now r) (r_rand r) (f (r_ctx r)).

Definition Values (r : Request) (key : string) : list string := default [] (r_header r !! key).
Definition HeaderGet (r : Request) (key : string) : string := default ""%string (head (Values r key)).

(** ** Forwarded headers (forwarded.go) *)

Definition onWireScheme (r : Request) : string := if r_TLS r then "https" else "http".

Definition remoteIP (remoteAddr : string) : option Addr :=
  let host := match SplitHost (bytes_of remoteAddr) with Some h => string_of h | None => remoteAddr end in
  Unmap <$> ParseAddr (TrimSpace host).

Definition ipInPrefixes (addr : Addr) (prefixes : list Prefix) : bool :=
  existsb (fun p => Contains p addr) prefixes.

Definition normalizeScheme (s : string) : string :=
  let l := ToLower s in
  if bool_decide (l = "http"%string) then "http"
  else if bool_decide (l = "https"%string) then "https"
  else "".

Definition firstToken (s : string) : string :=
  TrimSpace match cut "," (bytes_of s) with Some (before, _) => string_of before | None => s end.

(** The non-empty tokens of all the lines, in order. *)
Definition xff_tokens (values : list string) : list string :=
  filter (fun t => t <> ""%string)
    (values ≫= fun v => map (fun b => TrimSpace (string_of b)) (split_bytes "," (bytes_of v))).

(** The first token that is an address outside the trusted networks. *)
Fixpoint first_client (trusted : list Prefix) (tokens : list string) : option Addr :=
  match tokens with
  | [] => None
  | t :: tokens =>
    match ParseAddr t with
    | None => first_client trusted tokens
    | Some a => if ipInPrefixes (Unmap a) trusted then first_client trusted tokens else Some (Unmap a)
    end
  end.

(** From the right. *)
Definition clientFromXFF (values : list string) (trusted : list Prefix) : option Addr :=
  first_client trusted (rev (xff_tokens values)).

Definition resolveForwarded (r : Request) (trusted : list Prefix) : forwarded :=
  let scheme := onWireScheme r in
  match remoteIP (r_RemoteAddr r) with
  | None => mkForwarded scheme (r_RemoteAddr r)
  | Some peer =>
    if negb (ipInPrefixes peer trusted) then mkForwarded scheme (Addr_String peer)
    else
      let proto := normalizeScheme (firstToken (HeaderGet r "X-Forwarded-Proto")) in
      mkForwarded (if bool_decide (proto = ""%string) then scheme else proto)
        match clientFromXFF (Values r "X-Forwarded-For") trusted with
        | Some client => Addr_String client
        | None => Addr_String peer
        end
  end.

(** The zero value when [ForwardedHeaders] did not run. *)
Definition fromContext (c : Context) : forwarded := default (mkForwarded "" "") (c_forwarded c).

Definition RequestScheme (c : Context) : string := scheme (fromContext c).
Definition ClientIP (c : Context) : string := clientIP (fromContext c).
Definition IsHTTPS (c : Context) : bool := bool_decide (RequestScheme c = "https"%string).

(** ** The writer *)

(** [Write b n]: the underlying writer reports [n] bytes. [Flush] and [Hijack] say
    whether the underlying writer can, and for [Hijack] whether it succeeds. *)
Inductive act :=
| SetHeader (key value : string)
| WriteHeader (code : Z)
| Write (body : string) (n : Z)
| Flush (supported : bool)
| Hijack (ok : bool)
| LogRequest (method path : string) (status bytes : Z) (clientIP requestID : string)
| LogPanic (requestID : string)
| InFlight (delta : Z)
| CountRequest (method route : string) (status : Z)
| RoutePattern (pattern : string).

Inductive ending := Returns | Panics | Aborts.

Record responseWriter := mkRW { status : Z; nbytes : Z; wroteHeader : bool }.
Definition fresh_rw : responseWriter := mkRW 0 0 false.

(** One call on the wrapper: its new state and what it passes on. *)
Definition rw_WriteHeader (code : Z) (w : responseWriter) : responseWriter * list act :=
  if wroteHeader w then (w, []) else (mkRW code (nbytes w) true, [WriteHeader code]).

Definition rw_step (w : responseWriter) (a : act) : responseWriter * list act :=
  match a with
  | WriteHeader code => rw_WriteHeader code w
  | Write body n =>
    let '(w, out) := rw_WriteHeader 200 w in
    (mkRW (status w) (nbytes w + n) (wroteHeader w), out ++ [Write body n])
  | Flush true => let '(w, out) := rw_WriteHeader 200 w in (w, out ++ [Flush true])
  | Hijack true => (mkRW (status w) (nbytes w) true, [Hijack true])
  | a => (w, [a])
  end.

Fixpoint rw_run (w : responseWriter) (acts : list act) : responseWriter * list act :=
  match acts with
  | [] => (w, [])
  | a :: acts =>
    let '(w, out) := rw_step w a in
    let '(w, out') := rw_run w acts in
    (w, out ++ out')
  end.

(** ** Handlers *)

Inductive writer := Raw | Wrapped (w : responseWriter).
Definition Handler := writer -> Request -> list act * ending.
Definition Middleware := Handler -> Handler.

(** The first of the list is the outermost. *)
Definition Chain (mws : list Middleware) : Middleware := fun next => foldr (fun mw h => mw h) next mws.

Definition ForwardedHeaders (trusted : list Prefix) : Middleware := fun next w r =>
  next w (with_ctx (fun c => mkContext (Some (resolveForwarded r trusted)) (c_requestID c) (c_route c) (c_deadline c)) r).

(** *** Request ids (middleware.go) *)

Definition maxRequestIDLen : nat := 128.

Definition validRequestID (id : string) : bool :=
  let b := bytes_of id in
  negb (length b =? 0)%nat && (length b <=? maxRequestIDLen)%nat
  && forallb (fun c => let n := byte_val c in
       ((97 <=? n) && (n <=? 122)) || ((65 <=? n) && (n <=? 90)) || ((48 <=? n) && (n <=? 57))
       || (n =? 45) || (n =? 95) || (n =? 46)) b.

Definition newRequestID (rnd : option (list Z)) : string :=
  match rnd with None => "unknown" | Some b => string_of (hex_encode b) end.

Definition RequestID : Middleware := fun next w r =>
  let id := HeaderGet r "X-Request-Id" in
  let id := if validRequestID id then id else newRequestID (r_rand r) in
  let '(acts, e) := next w (with_ctx (fun c => mkContext (c_forwarded c) (Some id) (c_route c) (c_deadline c)) r) in
  (SetHeader "X-Request-Id" id :: acts, e).

Definition RequestIDFromContext (c : Context) : string := default ""%string (c_requestID c).

(** A deadline is never later than the one there is. *)
Definition Timeout (d : Z) : Middleware := fun next w r =>
  let deadline := r_now r + d in
  next w (with_ctx (fun c => mkContext (c_forwarded c) (c_requestID c) (c_route c)
    (Some match c_deadline c with Some old => Z.min old deadline | None => deadline end)) r).

(** *** Security headers (csp.go, security.go) *)

Definition CSPDirective := (string * list string)%type.

Definition join (sep : string) (l : list string) : string :=
  match l with [] => ""%string | s :: l => foldl (fun acc x => acc +:+ sep +:+ x) s l end.

Definition CSP_String (p : list CSPDirective) : string :=
  join "; " ((fun d => join " " (d.1 :: d.2)) <$> p).

Definition DefaultCSP : list CSPDirective := [("frame-ancestors", ["'self'"])]%string.

Definition SecurityHeadersWithPolicy (hsts : string) (csp : list CSPDirective) : Middleware := fun next w r =>
  let policy := CSP_String csp in
  let '(acts, e) := next w r in
  ([SetHeader "X-Content-Type-Options" "nosniff"; SetHeader "Referrer-Policy" "strict-origin-when-cross-origin"]
   ++ when (negb (bool_decide (policy = ""%string))) (SetHeader "Content-Security-Policy" policy)
   ++ [SetHeader "X-Frame-Options" "SAMEORIGIN"]
   ++ when (negb (bool_decide (hsts = ""%string)) && IsHTTPS (r_ctx r)) (SetHeader "Strict-Transport-Security" hsts)
   ++ acts, e).

Definition SecurityHeaders (hsts : string) : Middleware := SecurityHeadersWithPolicy hsts DefaultCSP.

(** *** Logging and recovery (logging.go) *)

Definition status_or_200 (w : responseWriter) : Z := if status w =? 0 then 200 else status w.

Definition log_client (r : Request) : string :=
  let ip := ClientIP (r_ctx r) in
  if bool_decide (ip = ""%string)
  then match SplitHost (bytes_of (r_RemoteAddr r)) with Some h => string_of h | None => r_RemoteAddr r end
  else ip.

(** No line is logged for a panic that goes past it. *)
Definition RequestLogger : Middleware := fun next _ r =>
  let '(acts, e) := next (Wrapped fresh_rw) r in
  let '(rw, out) := rw_run fresh_rw acts in
  match e with
  | Returns => (out ++ [LogRequest (r_Method r) (r_Path r) (status_or_200 rw) (nbytes rw) (log_client r)
                          (RequestIDFromContext (r_ctx r))], Returns)
  | _ => (out, e)
  end.

(** A shared wrapper is used as it is; otherwise a fresh one is put around the
    writer, and its calls pass through it. *)
Definition with_wrapper (w : writer) (body : responseWriter -> list act * ending) : list act * ending :=
  match w with
  | Wrapped rw => body rw
  | Raw => let '(acts, e) := body fresh_rw in ((rw_run fresh_rw acts).2, e)
  end.

Definition recoverAndRespond (rw : responseWriter) (r : Request) : list act :=
  LogPanic (RequestIDFromContext (r_ctx r))
  :: if wroteHeader rw then []
     else [SetHeader "Content-Type" "text/plain; charset=utf-8"; WriteHeader 500; Write "internal server error" 21].

Definition Recoverer : Middleware := fun next w r =>
  with_wrapper w (fun rw =>
    let '(acts, e) := next (Wrapped rw) r in
    match e with
    | Panics => (acts ++ recoverAndRespond (rw_run rw acts).1 r, Returns)
    | _ => (acts, e)
    end).

(** *** Metrics (metrics.go) *)

Definition normalizeMethod (m : string) : string :=
  if bool_decide (m ∈ ["GET"; "HEAD"; "POST"; "PUT"; "PATCH"; "DELETE"; "CONNECT"; "OPTIONS"; "TRACE"]%string)
  then m else "OTHER".

(** The pattern the innermost capture left in the holder. *)
Definition captured (acts : list act) : string :=
  default ""%string (last (omap (fun a => match a with RoutePattern p => Some p | _ => None end) acts)).

(** Without instrumentation it passes the handler through. The in-flight gauge is
    lowered however the handler ends; the counters move only when it returns. The
    fallback to the pattern of a request that nothing copied, for use without
    [CaptureRoutePattern], is left out. *)
Definition Metrics (enabled : bool) : Middleware := fun next =>
  if negb enabled then next
  else fun w r =>
    with_wrapper w (fun rw =>
      let '(acts, e) := next (Wrapped rw)
        (with_ctx (fun c => mkContext (c_forwarded c) (c_requestID c) true (c_deadline c)) r) in
      let route := captured acts in
      let route := if bool_decide (route = ""%string) then "unmatched"%string else route in
      ([InFlight 1] ++ acts
       ++ match e with
          | Returns => [CountRequest (normalizeMethod (r_Method r)) route (status_or_200 (rw_run rw acts).1)]
          | _ => []
          end ++ [InFlight (-1)], e)).

(** The mux's pattern, into the holder, however the handler ends. *)
Definition CaptureRoutePattern (pattern : Request -> string) : Middleware := fun next w r =>
  let '(acts, e) := next w r in
  (acts ++ when (c_route (r_ctx r)) (RoutePattern (pattern r)), e).

(** ** The server (server.go) *)

Definition requestTimeoutMargin : Z := 5 * Second.

Definition hstsHeaderValue (c : HSTSConfig) : string :=
  if negb (h_Enabled c) then ""
  else
    let secs := whole_seconds (EffectiveMaxAge c) in
    "max-age=" +:+ (if secs <? 0 then "-" else "") +:+ string_of (FormatUint (Z.abs secs))
    +:+ (if h_IncludeSubdomains c then "; includeSubDomains" else "")
    +:+ (if h_Preload c then "; preload" else "").

Record HttpConfig := mkHttpConfig {
  cfg_Server : ServerConfig;
  cfg_HSTS : HSTSConfig;
  cfg_CSP : option (list CSPDirective)
}.

Definition cspOrDefault (p : option (list CSPDirective)) : list CSPDirective := default DefaultCSP p.

(** [d_mux] is the application's mux, whose pattern for a request is [d_pattern];
    [d_metrics] whether request metrics are on. *)
Record Deps := mkDeps {
  d_middleware : list Middleware;
  d_metrics : bool;
  d_mux : Handler;
  d_pattern : Request -> string
}.

Record Server := mkHttpServer {
  sv_Addr : string;
  sv_Handler : Handler;
  sv_MaxHeaderBytes : Z;
  sv_ReadHeaderTimeout : Z;
  sv_ReadTimeout : Z;
  sv_WriteTimeout : Z;
  sv_IdleTimeout : Z
}.

(** The logger is always there: [New] panics without one. *)
Definition canonical_chain (cfg : HttpConfig) (deps : Deps) : list Middleware :=
  let requestTimeout := s_RequestTimeout (cfg_Server cfg) - requestTimeoutMargin in
  [RequestID;
   ForwardedHeaders (TrustedProxyPrefixes (cfg_Server cfg));
   SecurityHeadersWithPolicy (hstsHeaderValue (cfg_HSTS cfg)) (cspOrDefault (cfg_CSP cfg));
   RequestLogger;
   Metrics (d_metrics deps);
   Recoverer]
  ++ when (0 <? requestTimeout) (Timeout requestTimeout)
  ++ d_middleware deps
  ++ [CaptureRoutePattern (d_pattern deps)].

Definition New (cfg : HttpConfig) (deps : Deps) : Server :=
  {| sv_Addr := s_Addr (cfg_Server cfg);
     sv_Handler := Chain (canonical_chain cfg deps) (d_mux deps);
     sv_MaxHeaderBytes := 2 ^ 20;
     sv_ReadHeaderTimeout := 5 * Second;
     sv_ReadTimeout := s_RequestTimeout (cfg_Server cfg);
     sv_WriteTimeout := s_RequestTimeout (cfg_Server cfg);
     sv_IdleTimeout := 60 * Second |}.

Definition handleHealthz : Handler := fun _ _ =>
  ([SetHeader "Content-Type" "text/plain; charset=utf-8"; WriteHeader 200; Write "ok" 2], Returns).

(** [ready]: [None] without a check, else whether it reports an error. *)
Definition handleReadyz (ready : option (Request -> bool)) : Handler := fun _ r =>
  (SetHeader "Content-Type" "text/plain; charset=utf-8"
   :: if match ready with Some f => f r | None => false end
      then [WriteHeader 503; Write "unavailable" 11]
      else [WriteHeader 200; Write "ready" 5], Returns).
