(* ===== verification/HttpSpec.v ===== *)
(** What the HTTP layer promises: a client cannot choose the address or the scheme
    it is seen with, every request is answered with exactly one status, which is
    the one logged, a panic becomes a 500 exactly when nothing has been sent, and
    the security headers are on every response unless the application overrides them
    in time. *)

From S2P Require Import Prelude GoStrings GoEncoding GoNet GoConv Config Http.
Local Open Scope Z_scope.

(** ** [net/http]'s response *)

(** [rs_sent]: the status and the headers as they were sent; [rs_extra] counts
    superfluous [WriteHeader] calls, which [net/http] ignores and complains about. *)
Record response := mkResp {
  rs_headers : gmap string string;
  rs_info : list Z;
  rs_sent : option (Z * gmap string string);
  rs_body : string;
  rs_hijacked : bool;
  rs_extra : nat
}.

Definition empty_response : response := mkResp ∅ [] None "" false 0.

Definition informational (code : Z) : bool := (100 <=? code) && (code <=? 199) && negb (code =? 101).

Definition send (code : Z) (s : response) : response :=
  match rs_sent s with
  | Some _ => mkResp (rs_headers s) (rs_info s) (rs_sent s) (rs_body s) (rs_hijacked s) (S (rs_extra s))
  | None => mkResp (rs_headers s) (rs_info s) (Some (code, rs_headers s)) (rs_body s) (rs_hijacked s) (rs_extra s)
  end.

Definition send_default (s : response) : response :=
  match rs_sent s with Some _ => s | None => send 200 s end.

Definition serve_act (s : response) (a : act) : response :=
  match a with
  | SetHeader k v => mkResp (<[k := v]> (rs_headers s)) (rs_info s) (rs_sent s) (rs_body s) (rs_hijacked s) (rs_extra s)
  | WriteHeader code =>
    if rs_hijacked s then s
    else if informational code && bool_decide (rs_sent s = None)
    then mkResp (rs_headers s) (rs_info s ++ [code]) None (rs_body s) false (rs_extra s)
    else send code s
  | Write body _ =>
    if rs_hijacked s then s
    else
      let s := send_default s in
      mkResp (rs_headers s) (rs_info s) (rs_sent s) (rs_body s +:+ body) (rs_hijacked s) (rs_extra s)
  | Flush true => if rs_hijacked s then s else send_default s
  | Hijack true => mkResp (rs_headers s) (rs_info s) (rs_sent s) (rs_body s) true (rs_extra s)
  | _ => s
  end.

Definition serve (acts : list act) : response := foldl serve_act empty_response acts.

(** When the handler has returned, an unsent response is a 200. *)
Definition finished (s : response) : response := if rs_hijacked s then s else send_default s.

(** The statuses logged. *)
Definition logged (acts : list act) : list Z :=
  omap (fun a => match a with LogRequest _ _ st _ _ _ => Some st | _ => None end) acts.

(** ** Client addresses *)

Lemma split_bytes_comma c p b : split_bytes c (p ++ c :: b) = split_bytes c p ++ split_bytes c b.
Proof.
  induction p as [|x p IH]; cbn [app].
  - cbn. destruct (split_bytes_cons c b) as (q & qs & Hb). rewrite Hb. by rewrite Ascii.eqb_refl.
  - cbn [split_bytes]. rewrite IH. destruct (split_bytes_cons c p) as (q & qs & ->). cbn [app].
    by destruct (Ascii.eqb x c).
Qed.

Lemma xff_tokens_app vs ws : xff_tokens (vs ++ ws) = xff_tokens vs ++ xff_tokens ws.
Proof. unfold xff_tokens. by rewrite bind_app, filter_app. Qed.

Lemma xff_tokens_comma v w : xff_tokens [v +:+ "," +:+ w] = xff_tokens [v] ++ xff_tokens [w].
Proof.
  unfold xff_tokens. cbn [mbind list_bind]. rewrite !app_nil_r, <- filter_app, <- map_app, <- split_bytes_comma.
  by rewrite !bytes_of_app.
Qed.

Lemma first_client_app trusted l l' :
  first_client trusted (l ++ l') =
  match first_client trusted l with Some a => Some a | None => first_client trusted l' end.
Proof.
  induction l as [|t l IH]; cbn; [done|]. destruct (ParseAddr t); [|done].
  by destruct (ipInPrefixes _ _).
Qed.

Lemma clientFromXFF_prefix trusted vs ws a :
  clientFromXFF ws trusted = Some a -> clientFromXFF (vs ++ ws) trusted = Some a.
Proof.
  unfold clientFromXFF. intros Hw. by rewrite xff_tokens_app, rev_app_distr, first_client_app, Hw.
Qed.

Lemma first_client_untrusted trusted l a : first_client trusted l = Some a ->
  ipInPrefixes a trusted = false /\ exists t, t ∈ l /\ Unmap <$> ParseAddr t = Some a.
Proof.
  induction l as [|t l IH]; cbn; [done|]. destruct (ParseAddr t) as [b|] eqn:Hb.
  - destruct (ipInPrefixes (Unmap b) trusted) eqn:Hin.
    + intros H. destruct (IH H) as [? (t' & ? & ?)]. split; [done|]. exists t'. split; [by right|done].
    + intros [= <-]. split; [done|]. exists t. rewrite Hb. split; [by left|done].
  - intros H. destruct (IH H) as [? (t' & ? & ?)]. split; [done|]. exists t'. split; [by right|done].
Qed.

(** C19. A client cannot choose how it is seen. Through an untrusted peer (or one
    whose address does not parse) no header counts: the address is the peer's and
    the scheme is the connection's. Through a trusted proxy, whatever lines the
    client sent before, and whatever it put in front of the proxy's own part of the
    last line, the address is the rightmost one outside the trusted networks in the
    proxy's part, when there is one; it is never inside a trusted network. *)
Theorem client_ip_not_spoofable (r : Request) (trusted : list Prefix) :
  match remoteIP (r_RemoteAddr r) with
  | None => resolveForwarded r trusted = mkForwarded (onWireScheme r) (r_RemoteAddr r)
  | Some peer =>
    (ipInPrefixes peer trusted = false ->
       resolveForwarded r trusted = mkForwarded (onWireScheme r) (Addr_String peer)) /\
    (ipInPrefixes peer trusted = true ->
       forall forged_lines forged own a,
         Values r "X-Forwarded-For" = forged_lines ++ [forged +:+ "," +:+ own] ->
         clientFromXFF [own] trusted = Some a ->
         clientIP (resolveForwarded r trusted) = Addr_String a /\ ipInPrefixes a trusted = false /\
         exists t, t ∈ xff_tokens [own] /\ Unmap <$> ParseAddr t = Some a)
  end.
Proof.
  unfold resolveForwarded. destruct (remoteIP (r_RemoteAddr r)) as [peer|]; [|done]. split; intros Hp.
  - by rewrite Hp.
  - intros forged_lines forged own a Hv Ha. rewrite Hp, Hv. cbn [negb clientIP].
    assert (clientFromXFF [forged +:+ "," +:+ own] trusted = Some a) as Hlast.
    { revert Ha. unfold clientFromXFF. intros Ha. by rewrite xff_tokens_comma, rev_app_distr, first_client_app, Ha. }
    rewrite (clientFromXFF_prefix trusted forged_lines _ a Hlast). split; [done|].
    apply first_client_untrusted in Ha as [? (t & Ht & ?)]. split; [done|]. exists t. split; [|done].
    apply list_elem_of_In in Ht. rewrite <- in_rev in Ht. by apply list_elem_of_In.
Qed.

(** ** The wrapper and the response under it *)

(** The calls of a handler that answers over HTTP: final statuses, no takeover of
    the connection, and no line of the access log. *)
Definition proper (a : act) : Prop :=
  match a with
  | WriteHeader code => 200 <= code <= 999 \/ code = 101
  | Hijack true | LogRequest _ _ _ _ _ _ => False
  | _ => True
  end.

(** The wrapper knows what has been sent. *)
Definition in_step (w : responseWriter) (s : response) : Prop :=
  rs_hijacked s = false /\ rs_extra s = 0%nat /\ rs_info s = [] /\
  if wroteHeader w then exists hs, rs_sent s = Some (status w, hs) /\ status w <> 0
  else rs_sent s = None /\ status w = 0 /\ rs_body s = ""%string.

Lemma serve_app acts acts' : serve (acts ++ acts') = foldl serve_act (serve acts) acts'.
Proof. apply foldl_app. Qed.

Lemma rw_run_app w acts acts' :
  rw_run w (acts ++ acts') =
  ((rw_run (rw_run w acts).1 acts').1, (rw_run w acts).2 ++ (rw_run (rw_run w acts).1 acts').2).
Proof.
  revert w. induction acts as [|a acts IH]; intros w; cbn [app rw_run].
  - by rewrite <- surjective_pairing.
  - destruct (rw_step w a) as [w' out]. rewrite IH. destruct (rw_run w' acts) as [w'' out'']. cbn [fst snd].
    by rewrite app_assoc.
Qed.

Lemma in_step_header w s code : in_step w s -> code <> 0 -> informational code = false ->
  in_step (rw_WriteHeader code w).1 (foldl serve_act s (rw_WriteHeader code w).2).
Proof.
  intros (Hh & He & Hi & Hw) Hc Hinf. unfold rw_WriteHeader, in_step. destruct (wroteHeader w) eqn:Hwr; rewrite ?Hwr in Hw.
  - cbn. by rewrite Hwr.
  - destruct Hw as (Hs & Hst & _). cbn. rewrite Hh, Hinf. cbn. unfold send. rewrite Hs. cbn. split_and!; try done. by eexists.
Qed.

(** Calls that touch neither the wrapper nor what was sent. *)
Definition neutral (a : act) : Prop :=
  match a with WriteHeader _ | Write _ _ | Flush true | Hijack true => False | _ => True end.

Lemma rw_step_neutral w a : neutral a -> rw_step w a = (w, [a]).
Proof. by destruct a as [| | |[]|[]| | | | |]. Qed.

Lemma in_step_send_default w s : in_step w s -> wroteHeader w = true -> send_default s = s.
Proof. intros (_ & _ & _ & Hw) Hwr. rewrite Hwr in Hw. destruct Hw as (hs & Hs & _). unfold send_default. by rewrite Hs. Qed.

Lemma wrote_after code w : wroteHeader (rw_WriteHeader code w).1 = true.
Proof. unfold rw_WriteHeader. by destruct (wroteHeader w) eqn:Hw. Qed.

Lemma in_step_act w s a : in_step w s -> proper a ->
  in_step (rw_step w a).1 (foldl serve_act s (rw_step w a).2).
Proof.
  intros Hin Hp. destruct a as [k v|code|body n|[]|[]|?|?|?|?|?]; try exact Hin; cbn [rw_step].
  - apply in_step_header; [done|simpl in Hp; lia|unfold informational; simpl in Hp; lia].
  - pose proof (in_step_header w s 200 Hin ltac:(done) eq_refl) as H1. pose proof (wrote_after 200 w) as H2.
    destruct (rw_WriteHeader 200 w) as [w' out]. cbn [fst snd] in *. rewrite foldl_app.
    pose proof (in_step_send_default _ _ H1 H2) as H3. destruct H1 as (Hh & He & Hi & Hw).
    rewrite H2 in Hw.
    cbn [foldl serve_act]. rewrite Hh, H3. unfold in_step. cbn. by rewrite H2.
  - pose proof (in_step_header w s 200 Hin ltac:(done) eq_refl) as H1. pose proof (wrote_after 200 w) as H2.
    destruct (rw_WriteHeader 200 w) as [w' out]. cbn [fst snd] in *. rewrite foldl_app.
    pose proof (in_step_send_default _ _ H1 H2) as H3. pose proof H1 as (Hh & _).
    cbn [foldl serve_act]. by rewrite Hh, H3.
  - done.
Qed.

Lemma in_step_run w s acts : in_step w s -> Forall proper acts ->
  in_step (rw_run w acts).1 (foldl serve_act s (rw_run w acts).2).
Proof.
  intros Hin Hp. revert w s Hin. induction Hp as [|a acts Ha Hacts IH]; intros w s Hin; [done|]. cbn [rw_run].
  pose proof (in_step_act w s a Hin Ha) as H1. destruct (rw_step w a) as [w' out]. cbn [fst snd] in H1.
  specialize (IH w' _ H1). destruct (rw_run w' acts) as [w'' out']. cbn [fst snd] in *. by rewrite foldl_app.
Qed.

Lemma rw_run_neutral w acts : Forall neutral acts -> rw_run w acts = (w, acts).
Proof.
  induction 1 as [|a acts Ha Hacts IH]; [done|]. cbn [rw_run]. rewrite rw_step_neutral by done. by rewrite IH.
Qed.

Lemma serve_neutral s acts : Forall neutral acts ->
  let s' := foldl serve_act s acts in
  rs_sent s' = rs_sent s /\ rs_body s' = rs_body s /\ rs_hijacked s' = rs_hijacked s /\ rs_extra s' = rs_extra s.
Proof.
  intros Hn. revert s. induction Hn as [|a acts Ha Hacts IH]; intros s; [done|]. cbn [foldl].
  destruct (IH (serve_act s a)) as (-> & -> & -> & ->). by destruct a as [| | |[]|[]| | | | |].
Qed.

(** Metrics and the panic log: the wrapper and the response do not see them. *)
Definition inert (a : act) : Prop :=
  match a with InFlight _ | CountRequest _ _ _ | RoutePattern _ | LogPanic _ => True | _ => False end.

Lemma inert_proper acts : Forall inert acts -> Forall proper acts.
Proof. intros Hi. eapply Forall_impl; [exact Hi|]. by intros []. Qed.

Lemma inert_run w acts : Forall inert acts -> rw_run w acts = (w, acts).
Proof. intros Hi. apply rw_run_neutral. eapply Forall_impl; [exact Hi|]. by intros []. Qed.

Lemma inert_serve s acts : Forall inert acts -> foldl serve_act s acts = s.
Proof.
  intros Hi. revert s. induction Hi as [|a acts Ha Hacts IH]; intros s; [done|]. cbn [foldl]. rewrite IH. by destruct a.
Qed.

(** Header lines set before anything is sent. *)
Lemma in_step_fresh hs : Forall neutral hs -> in_step fresh_rw (serve hs).
Proof.
  intros Hn. unfold serve. destruct (serve_neutral empty_response hs Hn) as (Hs & Hb & Hh & He).
  unfold in_step. rewrite Hs, Hh, He, Hb. split_and!; try done.
  assert (rs_info (foldl serve_act empty_response hs) = []) as ->; [|done]. clear - Hn.
  assert (forall s, rs_info s = [] -> rs_info (foldl serve_act s hs) = []) as Hi; [|by apply Hi].
  induction Hn as [|a hs Ha Hhs IH]; intros s Hs; [done|]. cbn [foldl]. apply IH.
  by destruct a as [| | |[]|[]| | | | |].
Qed.

(** ** The chain *)

Section chain.
Variables (cfg : HttpConfig) (deps : Deps) (r : Request).

(** What runs inside [Recoverer]. *)
Definition inner : Handler :=
  Chain (when (0 <? s_RequestTimeout (cfg_Server cfg) - requestTimeoutMargin)
           (Timeout (s_RequestTimeout (cfg_Server cfg) - requestTimeoutMargin))
         ++ d_middleware deps ++ [CaptureRoutePattern (d_pattern deps)]) (d_mux deps).

Definition request_id : string :=
  let id := HeaderGet r "X-Request-Id" in if validRequestID id then id else newRequestID (r_rand r).

(** The request as it reaches [RequestLogger], and as it reaches [inner]. *)
Definition outer_request : Request :=
  with_ctx (fun c => mkContext (Some (resolveForwarded r (TrustedProxyPrefixes (cfg_Server cfg)))) (Some request_id)
    (c_route c) (c_deadline c)) r.
Definition inner_request : Request :=
  if d_metrics deps
  then with_ctx (fun c => mkContext (c_forwarded c) (c_requestID c) true (c_deadline c)) outer_request
  else outer_request.

(** The headers set before anything else runs. *)
Definition header_acts : list act :=
  let policy := CSP_String (cspOrDefault (cfg_CSP cfg)) in
  let hsts := hstsHeaderValue (cfg_HSTS cfg) in
  [SetHeader "X-Request-Id" request_id; SetHeader "X-Content-Type-Options" "nosniff";
   SetHeader "Referrer-Policy" "strict-origin-when-cross-origin"]
  ++ when (negb (bool_decide (policy = ""%string))) (SetHeader "Content-Security-Policy" policy)
  ++ [SetHeader "X-Frame-Options" "SAMEORIGIN"]
  ++ when (negb (bool_decide (hsts = ""%string)) && IsHTTPS (r_ctx outer_request)) (SetHeader "Strict-Transport-Security" hsts).

(** What [Recoverer] makes of [inner]'s calls and ending. *)
Definition recovered (acts : list act) (e : ending) : list act * ending :=
  match e with
  | Panics => (acts ++ recoverAndRespond (rw_run fresh_rw acts).1 inner_request, Returns)
  | _ => (acts, e)
  end.

Definition counted (acts : list act) (e : ending) : list act :=
  match e with
  | Returns =>
    let route := captured acts in
    [CountRequest (normalizeMethod (r_Method r)) (if bool_decide (route = ""%string) then "unmatched"%string else route)
       (status_or_200 (rw_run fresh_rw acts).1)]
  | _ => []
  end.

Definition log_acts (acts : list act) (e : ending) : list act :=
  match e with
  | Returns =>
    let rw := (rw_run fresh_rw acts).1 in
    [LogRequest (r_Method r) (r_Path r) (status_or_200 rw) (nbytes rw) (log_client outer_request) request_id]
  | _ => []
  end.

(** What [Metrics] puts around the calls of what runs inside it. *)
Definition metrics_before : list act := if d_metrics deps then [InFlight 1] else [].
Definition metrics_after (acts : list act) (e : ending) : list act :=
  if d_metrics deps then counted acts e ++ [InFlight (-1)] else [].

(** The server's handler, level by level. *)
Lemma New_handler acts e :
  inner (Wrapped fresh_rw) inner_request = (acts, e) ->
  let '(acts', e') := recovered acts e in
  let all := metrics_before ++ acts' ++ metrics_after acts' e' in
  sv_Handler (New cfg deps) Raw r = (header_acts ++ (rw_run fresh_rw all).2 ++ log_acts all e', e').
Proof.
  intros Hin.
  unfold New. cbn [sv_Handler]. unfold canonical_chain, Chain at 1. cbn [app foldr].
  fold (Chain (when (0 <? s_RequestTimeout (cfg_Server cfg) - requestTimeoutMargin)
    (Timeout (s_RequestTimeout (cfg_Server cfg) - requestTimeoutMargin))
    ++ d_middleware deps ++ [CaptureRoutePattern (d_pattern deps)]) (d_mux deps)).
  fold inner.
  assert (forall rq, rq = inner_request -> Recoverer inner (Wrapped fresh_rw) rq = recovered acts e) as Hrec.
  { intros rq ->. unfold Recoverer, with_wrapper, recovered. rewrite Hin. by destruct e. }
  destruct (recovered acts e) as [acts' e'] eqn:Hr.
  assert (Metrics (d_metrics deps) (Recoverer inner) (Wrapped fresh_rw) outer_request =
    (metrics_before ++ acts' ++ metrics_after acts' e', e')) as Hm.
  { unfold Metrics, metrics_before, metrics_after. destruct (d_metrics deps) eqn:Hd; cbn [negb].
    - unfold with_wrapper. rewrite (Hrec (with_ctx _ outer_request)) by (unfold inner_request; by rewrite Hd).
      unfold counted. by destruct e'.
    - rewrite (Hrec outer_request) by (unfold inner_request; by rewrite Hd). by rewrite app_nil_r. }
  cbv zeta. generalize dependent (metrics_before ++ acts' ++ metrics_after acts' e'). intros all Hm.
  unfold RequestID, ForwardedHeaders, SecurityHeadersWithPolicy, RequestLogger.
  match goal with |- context [Metrics (d_metrics deps) (Recoverer inner) (Wrapped fresh_rw) ?q] =>
    change q with outer_request end.
  rewrite Hm. destruct (rw_run fresh_rw all) as [rw out] eqn:Hrun. unfold log_acts, header_acts. rewrite Hrun.
  destruct e'; cbn [fst snd app]; rewrite <- ?app_assoc, ?app_nil_r; reflexivity.
Qed.

Lemma metrics_inert acts e : Forall inert metrics_before /\ Forall inert (metrics_after acts e).
Proof. unfold metrics_before, metrics_after. destruct (d_metrics deps), e; split; repeat constructor. Qed.

Lemma neutral_headers : Forall neutral header_acts.
Proof. unfold header_acts, when. repeat case_match; repeat constructor. Qed.

Lemma recovered_proper acts e : Forall proper acts -> Forall proper (recovered acts e).1.
Proof.
  intros Hp. unfold recovered, recoverAndRespond. destruct e; [done| |done]. apply Forall_app. split; [done|].
  case_match; repeat constructor; simpl; lia.
Qed.

Lemma logged_app l l' : logged (l ++ l') = logged l ++ logged l'.
Proof. unfold logged. apply omap_app. Qed.

Lemma logged_run w acts : Forall proper acts -> logged (rw_run w acts).2 = [].
Proof.
  intros Hp. revert w. induction Hp as [|a acts Ha Hacts IH]; intros w; [done|]. cbn [rw_run].
  assert (logged (rw_step w a).2 = []) as Hs.
  { destruct a as [| | |[]|[]| | | | |]; try done; cbn; unfold rw_WriteHeader; by destruct (wroteHeader w). }
  destruct (rw_step w a) as [w' out]. specialize (IH w'). destruct (rw_run w' acts). cbn [snd] in *.
  by rewrite logged_app, Hs, IH.
Qed.

Lemma logged_neutral_headers : logged header_acts = [].
Proof. unfold header_acts, when. by repeat case_match. Qed.

Lemma finished_in_step w s : in_step w s ->
  rs_extra (finished s) = 0%nat /\ exists hs, rs_sent (finished s) = Some (status_or_200 w, hs).
Proof.
  intros (Hh & Hx & _ & Hw). unfold finished, send_default, status_or_200. rewrite Hh.
  destruct (wroteHeader w).
  - destruct Hw as (hs & Hs & Hne). rewrite Hs. apply Z.eqb_neq in Hne. rewrite Hne. eauto.
  - destruct Hw as (Hs & -> & _). rewrite Hs. unfold send. rewrite Hs. cbn. eauto.
Qed.

Lemma serve_inert pre acts post : Forall inert pre -> Forall inert post ->
  serve (header_acts ++ (rw_run fresh_rw (pre ++ acts ++ post)).2) = serve (header_acts ++ (rw_run fresh_rw acts).2).
Proof.
  intros Hpre Hpost. rewrite !serve_app, rw_run_app, (inert_run _ pre), rw_run_app, (inert_run _ post) by done.
  cbn [fst snd]. by rewrite !foldl_app, (inert_serve _ post), (inert_serve _ pre) by done.
Qed.

(** The 500 of a recovered panic, or what was already on its way. *)
Lemma serve_recovered acts : Forall proper acts ->
  let before := serve (header_acts ++ (rw_run fresh_rw acts).2) in
  let after := finished (serve (header_acts ++ (rw_run fresh_rw
    (acts ++ recoverAndRespond (rw_run fresh_rw acts).1 inner_request)).2)) in
  match rs_sent before with
  | Some sent => rs_sent after = Some sent /\ rs_body after = rs_body before
  | None => exists hs, rs_sent after = Some (500, hs) /\ rs_body after = "internal server error"%string
  end.
Proof.
  intros Hp before after. subst before after.
  pose proof (in_step_run _ _ acts (in_step_fresh _ neutral_headers) Hp) as Hstep. rewrite <- serve_app in Hstep.
  rewrite rw_run_app. cbn [fst snd]. rewrite app_assoc, (serve_app (header_acts ++ _)).
  generalize dependent (serve (header_acts ++ (rw_run fresh_rw acts).2)).
  generalize (rw_run fresh_rw acts).1. intros w s (Hh & Hx & _ & Hw). unfold recoverAndRespond.
  destruct (wroteHeader w) eqn:Hwr; rewrite ?Hwr in Hw.
  - destruct Hw as (hs & Hs & _). rewrite Hs. cbn. unfold finished, send_default. by rewrite Hh, Hs.
  - destruct Hw as (Hs & _ & Hb). rewrite Hs. unfold rw_run, rw_step, rw_WriteHeader. rewrite Hwr.
    destruct s as [headers info sent body hijacked extra]. cbn in *. subst. cbn. eauto.
Qed.

(** C20. The server answers every request exactly once. Take any application
    handler and feature middleware whose calls are proper: final statuses only (after a
    1xx one the wrapper loses the final status, [early_hints_lose_status] below), no
    taking over of the connection, and no access-log line of their own. Let [acts] and [e] be
    what they do inside [Recoverer] for this request. Only [http.ErrAbortHandler]
    leaves the server as a panic. [net/http] never sees a superfluous [WriteHeader].
    Unless aborted, the response has one status, and the one access-log line carries
    that status. A panic before anything was sent becomes a 500 with the fixed body;
    a panic after that leaves the status, the headers and the body sent so far as
    they were. *)
Theorem New_response acts e :
  inner (Wrapped fresh_rw) inner_request = (acts, e) -> Forall proper acts ->
  let '(out, e') := sv_Handler (New cfg deps) Raw r in
  let resp := finished (serve out) in
  let before := serve (header_acts ++ (rw_run fresh_rw acts).2) in
  e' = match e with Aborts => Aborts | _ => Returns end /\
  rs_extra resp = 0%nat /\
  (e <> Aborts -> exists st hs, rs_sent resp = Some (st, hs) /\ logged out = [st]) /\
  (e = Panics ->
     match rs_sent before with
     | Some sent => rs_sent resp = Some sent /\ rs_body resp = rs_body before
     | None => exists hs, rs_sent resp = Some (500, hs) /\ rs_body resp = "internal server error"%string
     end).
Proof.
  intros Hin Hp. pose proof (New_handler acts e Hin) as Hnew.
  destruct (recovered acts e) as [acts' e'] eqn:Hr. cbv zeta in Hnew. rewrite Hnew. clear Hnew.
  destruct (metrics_inert acts' e') as [Hpre Hpost]. revert Hpre Hpost.
  generalize metrics_before (metrics_after acts' e'). intros pre post Hpre Hpost.
  assert (e' = match e with Aborts => Aborts | _ => Returns end) as He' by (unfold recovered in Hr; by destruct e; simplify_eq).
  pose proof (recovered_proper acts e Hp) as Hp'. rewrite Hr in Hp'. cbn [fst] in Hp'.
  assert (Forall proper (pre ++ acts' ++ post)) as Hall by (rewrite !Forall_app; auto using inert_proper).
  pose proof (in_step_run _ _ _ (in_step_fresh _ neutral_headers) Hall) as Hstep. rewrite <- serve_app in Hstep.
  assert (forall s, foldl serve_act s (log_acts (pre ++ acts' ++ post) e') = s) as Hlog by (intros s; by destruct e').
  rewrite app_assoc, serve_app, Hlog. intros resp before. subst resp before.
  destruct (finished_in_step _ _ Hstep) as (Hx & hs & Hs). split_and!; [done..| |].
  - intros He. exists (status_or_200 (rw_run fresh_rw (pre ++ acts' ++ post)).1), hs. split; [done|].
    rewrite !logged_app, logged_neutral_headers, logged_run by done. by subst e'; destruct e.
  - intros ->. unfold recovered in Hr. injection Hr as <- _. rewrite serve_inert by done. by apply serve_recovered.
Qed.

(** ** Headers *)

(** The value a header is sent with, from the calls of the application and the value
    [v] it has before them: the last one set before the response goes out, which is at
    the first final status, write or flush. After an informational status ([hinted]) the
    wrapper swallows every other one. *)
Fixpoint overriding (k : string) (hinted : bool) (acts : list act) (v : option string) : option string :=
  match acts with
  | [] => v
  | SetHeader k' x :: acts => overriding k hinted acts (if String.eqb k' k then Some x else v)
  | WriteHeader code :: acts => if hinted || informational code then overriding k true acts v else v
  | Write _ _ :: _ | Flush true :: _ | Hijack true :: _ => v
  | _ :: acts => overriding k hinted acts v
  end.

(** No call sets [k]. *)
Definition leaves (k : string) (a : act) : Prop := match a with SetHeader k' _ => k' <> k | _ => True end.

Lemma overriding_leaves k h acts v : Forall (leaves k) acts -> overriding k h acts v = v.
Proof.
  intros Hl. revert h. induction Hl as [|a acts Ha _ IH]; intros h; [done|].
  destruct a as [k' x|code|body n|[]|[]| | | | |]; simpl in *; try done.
  - apply String.eqb_neq in Ha. by rewrite Ha.
  - by case_match.
Qed.

Lemma overriding_app k h acts l v : Forall (leaves k) l -> overriding k h (acts ++ l) v = overriding k h acts v.
Proof.
  intros Hl. revert h v. induction acts as [|a acts IH]; intros h v; cbn [app]; [by apply overriding_leaves|].
  destruct a as [k' x|code|body n|[]|[]| | | | |]; simpl; try done. by case_match.
Qed.

Lemma overriding_inert k h pre acts v : Forall inert pre -> overriding k h (pre ++ acts) v = overriding k h acts v.
Proof. induction 1 as [|a pre Ha _ IH]; [done|]. by destruct a. Qed.

(** What is sent stays; nothing is sent on a connection taken over. *)
Lemma sent_kept s acts x : rs_sent s = Some x -> rs_sent (finished (foldl serve_act s acts)) = Some x.
Proof.
  revert s. induction acts as [|a acts IH]; intros s Hs.
  - simpl. unfold finished, send_default. rewrite Hs. by case_match.
  - cbn [foldl]. apply IH. destruct a as [k' v|code|body n|[]|[]|?|?|?|?|?]; try done; cbn [serve_act];
      (destruct (rs_hijacked s); [done|]); unfold send_default, send; rewrite ?Hs; try done.
    rewrite bool_decide_false, andb_false_r by done. cbn. by rewrite ?Hs.
Qed.

Lemma hijacked_kept s acts : rs_hijacked s = true -> rs_sent s = None ->
  rs_sent (finished (foldl serve_act s acts)) = None.
Proof.
  revert s. induction acts as [|a acts IH]; intros s Hh Hs.
  - simpl. unfold finished. by rewrite Hh.
  - cbn [foldl]. apply IH; destruct a as [k' v|code|body n|[]|[]|?|?|?|?|?]; cbn; by rewrite ?Hh.
Qed.

(** The sent value of a header is the one [overriding] predicts. *)
Lemma overriding_run k acts w s v st hs :
  rs_sent s = None -> rs_hijacked s = false -> rs_headers s !! k = v ->
  rs_sent (finished (foldl serve_act s (rw_run w acts).2)) = Some (st, hs) ->
  hs !! k = overriding k (wroteHeader w) acts v.
Proof.
  revert w s v. induction acts as [|a acts IH]; intros w s v Hs Hh Hv.
  - cbn. unfold finished, send_default. rewrite Hh, Hs. unfold send. rewrite Hs. cbn. by intros [= _ <-].
  - cbn [rw_run]. destruct (rw_step w a) as [w' out] eqn:Hstep. pose proof (IH w') as IH'.
    destruct (rw_run w' acts) as [w'' out'] eqn:Hrun. cbn [snd] in *. rewrite foldl_app. intros Hsent.
    destruct a as [k' x|code|body n|[]|[]|?|?|?|?|?]; cbn in Hstep.
    + injection Hstep as <- <-. eapply IH' in Hsent; [exact Hsent|done|done|]. cbn.
      destruct (String.eqb_spec k' k) as [->|]; [by rewrite lookup_insert_eq|by rewrite lookup_insert_ne].
    + unfold rw_WriteHeader in Hstep. cbn [overriding].
      destruct (wroteHeader w) eqn:Hw; injection Hstep as <- <-; cbn [orb].
      * eapply IH' in Hsent; [by rewrite Hsent, Hw|done..].
      * cbn [foldl serve_act] in Hsent. rewrite Hh, Hs, bool_decide_true, andb_true_r in Hsent by done.
        destruct (informational code) eqn:Hi; cbn [andb] in Hsent.
        -- eapply IH' in Hsent; [exact Hsent|done..].
        -- unfold send in Hsent. rewrite Hs in Hsent. erewrite sent_kept in Hsent by reflexivity. by injection Hsent as _ <-.
    + unfold rw_WriteHeader in Hstep. cbn [overriding].
      destruct (wroteHeader w); injection Hstep as <- <-; cbn [app foldl serve_act] in Hsent; rewrite ?Hh, ?Hs in Hsent;
        cbn [andb negb informational] in Hsent; unfold send_default, send in Hsent; rewrite ?Hs in Hsent; cbn in Hsent;
        rewrite ?Hh, ?Hs in Hsent; cbn in Hsent; erewrite sent_kept in Hsent by reflexivity; by injection Hsent as _ <-.
    + unfold rw_WriteHeader in Hstep. cbn [overriding].
      destruct (wroteHeader w); injection Hstep as <- <-; cbn [app foldl serve_act] in Hsent; rewrite ?Hh, ?Hs in Hsent;
        cbn [andb negb informational] in Hsent; unfold send_default, send in Hsent; rewrite ?Hs in Hsent; cbn in Hsent;
        rewrite ?Hh, ?Hs in Hsent; cbn in Hsent; erewrite sent_kept in Hsent by reflexivity; by injection Hsent as _ <-.
    + injection Hstep as <- <-. by eapply IH' in Hsent.
    + injection Hstep as <- <-. cbn [foldl serve_act] in Hsent. by rewrite hijacked_kept in Hsent.
    + injection Hstep as <- <-. by eapply IH' in Hsent.
    + injection Hstep as <- <-. by eapply IH' in Hsent.
    + injection Hstep as <- <-. by eapply IH' in Hsent.
    + injection Hstep as <- <-. by eapply IH' in Hsent.
    + injection Hstep as <- <-. by eapply IH' in Hsent.
    + injection Hstep as <- <-. by eapply IH' in Hsent.
Qed.

Lemma leaves_inert k acts : Forall inert acts -> Forall (leaves k) acts.
Proof. intros Hi. eapply Forall_impl; [exact Hi|]. by intros []. Qed.

Lemma overriding_recovered k acts e v : k <> "Content-Type"%string ->
  overriding k false (recovered acts e).1 v = overriding k false acts v.
Proof.
  intros Hk. unfold recovered, recoverAndRespond. destruct e; [done| |done]. cbn [fst]. apply overriding_app.
  case_match; repeat constructor. cbn. done.
Qed.

(** A header of [header_acts] is sent with what the application makes of it. *)
Lemma header_sent acts e k st hs :
  inner (Wrapped fresh_rw) inner_request = (acts, e) -> k <> "Content-Type"%string ->
  rs_sent (finished (serve (sv_Handler (New cfg deps) Raw r).1)) = Some (st, hs) ->
  hs !! k = overriding k false acts (rs_headers (serve header_acts) !! k).
Proof.
  intros Hin Hk. pose proof (New_handler acts e Hin) as Hnew.
  rewrite <- (overriding_recovered k acts e _ Hk).
  destruct (recovered acts e) as [acts' e']. cbn [fst].
  cbv zeta in Hnew. rewrite Hnew. clear Hnew. destruct (metrics_inert acts' e') as [Hpre Hpost]. revert Hpre Hpost.
  generalize metrics_before (metrics_after acts' e'). intros pre post Hpre Hpost. cbn [fst].
  assert (forall l s, foldl serve_act s (log_acts l e') = s) as Hlog by (intros l s; by destruct e').
  rewrite app_assoc, serve_app, Hlog, serve_app. intros Hs.
  destruct (serve_neutral empty_response header_acts neutral_headers) as (Hsent & _ & Hh & _).
  rewrite (overriding_run k (pre ++ acts' ++ post) fresh_rw (serve header_acts) _ st hs Hsent Hh eq_refl Hs). cbn [wroteHeader fresh_rw].
  rewrite overriding_inert, overriding_app by auto using leaves_inert. done.
Qed.

Definition security_keys : list string :=
  ["X-Request-Id"; "X-Content-Type-Options"; "Referrer-Policy"; "Content-Security-Policy"; "X-Frame-Options";
   "Strict-Transport-Security"].

(** C33. Whatever the handler does and however it ends, a response that is sent carries
    each of these headers with the last value the application gave it before the response
    went out ([overriding], as the mux does with [nosniff] on its own 404 and 405), and
    otherwise with the server's: the request id, [nosniff], the referrer policy and
    [X-Frame-Options], the configured policy (none when it renders empty), and
    [Strict-Transport-Security] exactly when HSTS is enabled and the effective scheme of
    the request is https. *)
Theorem security_headers acts e st hs :
  inner (Wrapped fresh_rw) inner_request = (acts, e) ->
  rs_sent (finished (serve (sv_Handler (New cfg deps) Raw r).1)) = Some (st, hs) ->
  let policy := CSP_String (cspOrDefault (cfg_CSP cfg)) in
  let https := bool_decide (scheme (resolveForwarded r (TrustedProxyPrefixes (cfg_Server cfg))) = "https"%string) in
  let sent k v := hs !! k = overriding k false acts v in
  sent "X-Request-Id"%string (Some request_id) /\
  sent "X-Content-Type-Options"%string (Some "nosniff"%string) /\
  sent "Referrer-Policy"%string (Some "strict-origin-when-cross-origin"%string) /\
  sent "X-Frame-Options"%string (Some "SAMEORIGIN"%string) /\
  sent "Content-Security-Policy"%string (if bool_decide (policy = ""%string) then None else Some policy) /\
  sent "Strict-Transport-Security"%string
    (if h_Enabled (cfg_HSTS cfg) && https then Some (hstsHeaderValue (cfg_HSTS cfg)) else None).
Proof.
  intros Hin Hs policy https sent.
  assert (forall k v, k ∈ security_keys -> rs_headers (serve header_acts) !! k = v -> sent k v) as Hget.
  { intros k v Hk <-. unfold sent. apply (header_sent acts e k st hs Hin); [|done].
    intros ->. assert ("Content-Type"%string ∉ security_keys) as Hno by (by apply (bool_decide_unpack _)). destruct (Hno Hk). }
  clearbody sent.
  assert (negb (bool_decide (hstsHeaderValue (cfg_HSTS cfg) = ""%string)) = h_Enabled (cfg_HSTS cfg)) as Hen.
  { unfold hstsHeaderValue. destruct (h_Enabled (cfg_HSTS cfg)); cbn [negb]; [|done]. by rewrite bool_decide_false. }
  split_and!; (apply Hget; [by apply (bool_decide_unpack _)|]); unfold header_acts; rewrite Hen;
    change (IsHTTPS (r_ctx outer_request)) with https; fold policy;
    generalize request_id (hstsHeaderValue (cfg_HSTS cfg)); clearbody policy https; intros id hsts;
    destruct (bool_decide (policy = "")%string), (h_Enabled (cfg_HSTS cfg)), https;
    vm_compute; reflexivity.
Qed.
End chain.

(** ** Witnesses *)

Module HttpWitness.

Definition demo_config : HttpConfig :=
  mkHttpConfig (mkServer ":8080" "127.0.0.0/8,10.0.0.0/8" (120 * Second) "") (mkHSTS true 0 false true false) None.

(** A handler that panics on one path, after sending a page on another. *)
Definition demo_mux : Handler := fun _ r =>
  if bool_decide (r_Path r = "/late"%string) then ([WriteHeader 201; Write "half a page" 11], Panics)
  else if bool_decide (r_Path r = "/early"%string) then ([SetHeader "X-App" "1"], Panics)
  else ([Write "hello" 5], Returns).
Definition demo_deps : Deps := mkDeps [] true demo_mux (fun _ => "GET /"%string).

Definition demo_request (path : string) : Request :=
  mkRequest "127.0.0.1:4242" "nest.example" false
    {[ "X-Forwarded-Proto" := ["https"]; "X-Forwarded-For" := ["6.6.6.6"; "7.7.7.7,203.0.113.9, 10.0.0.2"] ]}%string
    "GET" path 0 None (mkContext None None false None).

(** Two forged addresses, then the proxies' own part. *)
Lemma client_ip_not_spoofable_witness :
  clientIP (resolveForwarded (demo_request "/") (TrustedProxyPrefixes (cfg_Server demo_config))) = "203.0.113.9"%string.
Proof.
  pose proof (client_ip_not_spoofable (demo_request "/") (TrustedProxyPrefixes (cfg_Server demo_config))) as H.
  assert (remoteIP (r_RemoteAddr (demo_request "/")) = Some (V4 2130706433)) as Hp by (vm_compute; reflexivity).
  rewrite Hp in H. destruct H as [_ H].
  destruct (H ltac:(vm_compute; reflexivity) ["6.6.6.6"]%string "7.7.7.7" "203.0.113.9, 10.0.0.2" (V4 3405803785)) as [-> _];
    [vm_compute; reflexivity..|]. vm_compute. reflexivity.
Defined.

Definition early_acts : list act := [SetHeader "X-App" "1"; RoutePattern "GET /"].
Definition late_acts : list act := [WriteHeader 201; Write "half a page" 11; RoutePattern "GET /"].

Definition sent_status (s : response) : option Z := fst <$> rs_sent s.

Lemma sent_status_Some s st : sent_status s = Some st -> exists hs, rs_sent s = Some (st, hs).
Proof. unfold sent_status. destruct (rs_sent s) as [[st' hs]|]; [|done]. intros [= ->]. by exists hs. Qed.

Lemma New_response_witness :
  (rs_body (finished (serve (sv_Handler (New demo_config demo_deps) Raw (demo_request "/early")).1)) = "internal server error")%string /\
  sent_status (finished (serve (sv_Handler (New demo_config demo_deps) Raw (demo_request "/late")).1)) = Some 201.
Proof.
  split.
  - pose proof (New_response demo_config demo_deps (demo_request "/early") early_acts Panics
      eq_refl ltac:(repeat constructor)) as H.
    assert (sent_status (serve (header_acts demo_config (demo_request "/early") ++ (rw_run fresh_rw early_acts).2)) = None)
      as Hb by (vm_compute; reflexivity).
    destruct (sv_Handler _ _ _) as [out e']. destruct H as (_ & _ & _ & H). specialize (H eq_refl).
    unfold sent_status in Hb. destruct (rs_sent (serve (header_acts _ _ ++ _))); [done|]. by destruct H as (hs & _ & H).
  - pose proof (New_response demo_config demo_deps (demo_request "/late") late_acts Panics eq_refl
      ltac:(repeat constructor; simpl; lia)) as H.
    assert (sent_status (serve (header_acts demo_config (demo_request "/late") ++ (rw_run fresh_rw late_acts).2)) = Some 201)
      as Hb by (vm_compute; reflexivity).
    destruct (sv_Handler _ _ _) as [out e']. destruct H as (_ & _ & _ & H). specialize (H eq_refl).
    unfold sent_status in *. destruct (rs_sent (serve (header_acts _ _ ++ _))) as [[st hs]|]; [|done].
    cbn [fst]. destruct H as [-> _]. by injection Hb as ->.
Defined.

(** A handler that overrides a header in time, and another too late. *)
Definition framing_acts : list act :=
  [SetHeader "X-Frame-Options" "DENY"; Write "page" 4; SetHeader "Referrer-Policy" "unsafe-url"].
Definition framing_deps : Deps :=
  mkDeps [] true (fun _ _ => (framing_acts, Returns)) (fun _ => "GET /"%string).

(** The proxy says https, so that header is there; the override counts, the late one
    does not. *)
Lemma security_headers_witness : exists hs,
  rs_sent (finished (serve (sv_Handler (New demo_config framing_deps) Raw (demo_request "/")).1)) = Some (200, hs) /\
  (hs !! "Strict-Transport-Security" = Some "max-age=15552000; includeSubDomains")%string /\
  (hs !! "X-Frame-Options" = Some "DENY")%string /\
  (hs !! "Referrer-Policy" = Some "strict-origin-when-cross-origin")%string.
Proof.
  assert (sent_status (finished (serve (sv_Handler (New demo_config framing_deps) Raw (demo_request "/")).1)) = Some 200)
    as Hst by (vm_compute; reflexivity).
  destruct (sent_status_Some _ _ Hst) as [hs Hs]. exists hs. split; [exact Hs|].
  destruct (security_headers demo_config framing_deps (demo_request "/") (framing_acts ++ [RoutePattern "GET /"]) Returns 200 hs eq_refl Hs)
    as (_ & _ & -> & -> & _ & ->).
  vm_compute. split_and!; reflexivity.
Defined.

(** A handler that sends an informational status first. *)
Definition hinting_mux : Handler := fun _ _ => ([WriteHeader 103; WriteHeader 404], Returns).

(** The wrapper takes the informational status for the final one: the client gets
    a 200 instead of the handler's 404, and the log says 103. *)
Example early_hints_lose_status :
  let out := (sv_Handler (New demo_config (mkDeps [] true hinting_mux (fun _ => "GET /"%string))) Raw (demo_request "/")).1 in
  sent_status (finished (serve out)) = Some 200 /\ logged out = [103].
Proof. vm_compute. by split. Qed.
End HttpWitness.
