(* ===== verification/Routes.v ===== *)
(** The routes of the server ([routes] of src/httpserver/server.go) on net/http's
    [ServeMux]: which patterns conflict, which one a request matches, redirects and the
    answers for no match.

    Patterns come parsed; a request's path is its decoded one, so a path with an escaped
    slash is outside the model. The redirecting handler, whose status depends on the Go
    release, is a parameter.

    Main result: the probes answer whatever the application registers, an application that
    registers one of them again stops at start-up, and no other request sees them. *)

From S2P Require Import Prelude GoStrings GoEncoding GoNet Config Http.
Local Open Scope Z_scope.

(** ** Patterns *)

(** A literal (the slash itself for [{$}]), a wildcard, or a last wildcard for the rest of
    the path, which is also what a trailing slash stands for. *)
Inductive segment := Lit (s : string) | Wild (name : string) | Multi (name : string).

Record pattern := mkPattern { p_str : string; p_method : string; p_host : string; p_segs : list segment }.

Inductive relationship := Equivalent | MoreGeneral | MoreSpecific | Disjoint | Overlaps.

Definition inverse (r : relationship) : relationship :=
  match r with MoreGeneral => MoreSpecific | MoreSpecific => MoreGeneral | r => r end.

Definition combineRelationships (r1 r2 : relationship) : relationship :=
  match r1, r2 with
  | Equivalent, _ => r2
  | Disjoint, _ | Overlaps, _ => r1
  | _, Equivalent => r1
  | MoreGeneral, MoreSpecific | MoreSpecific, MoreGeneral => Overlaps
  | _, _ => r2
  end.

Definition compareSegments (s1 s2 : segment) : relationship :=
  match s1, s2 with
  | Multi _, Multi _ => Equivalent
  | Multi _, _ => MoreGeneral
  | _, Multi _ => MoreSpecific
  | Wild _, Wild _ => Equivalent
  | Wild _, Lit s => if String.eqb s "/" then Disjoint else MoreGeneral
  | Lit s, Wild _ => if String.eqb s "/" then Disjoint else MoreSpecific
  | Lit s, Lit s' => if String.eqb s s' then Equivalent else Disjoint
  end.

Definition ends_in_multi (l : list segment) : bool :=
  match last l with Some (Multi _) => true | _ => false end.

Fixpoint compare_from (rel : relationship) (l1 l2 : list segment) (multi1 multi2 : bool) : relationship :=
  match l1, l2 with
  | [], [] => rel
  | [], _ :: _ => if multi1 then combineRelationships rel MoreGeneral else Disjoint
  | _ :: _, [] => if multi2 then combineRelationships rel MoreSpecific else Disjoint
  | s1 :: l1, s2 :: l2 =>
    match combineRelationships rel (compareSegments s1 s2) with
    | Disjoint => Disjoint
    | rel => compare_from rel l1 l2 multi1 multi2
    end
  end.

Definition comparePaths (p1 p2 : pattern) : relationship :=
  let multi1 := ends_in_multi (p_segs p1) in
  let multi2 := ends_in_multi (p_segs p2) in
  if negb (length (p_segs p1) =? length (p_segs p2))%nat && negb multi1 && negb multi2 then Disjoint
  else compare_from Equivalent (p_segs p1) (p_segs p2) multi1 multi2.

Definition compareMethods (p1 p2 : pattern) : relationship :=
  if String.eqb (p_method p1) (p_method p2) then Equivalent
  else if String.eqb (p_method p1) "" then MoreGeneral
  else if String.eqb (p_method p2) "" then MoreSpecific
  else if String.eqb (p_method p1) "GET" && String.eqb (p_method p2) "HEAD" then MoreGeneral
  else if String.eqb (p_method p2) "GET" && String.eqb (p_method p1) "HEAD" then MoreSpecific
  else Disjoint.

Definition comparePathsAndMethods (p1 p2 : pattern) : relationship :=
  match compareMethods p1 p2 with
  | Disjoint => Disjoint
  | mrel => combineRelationships mrel (comparePaths p1 p2)
  end.

Definition conflictsWith (p1 p2 : pattern) : bool :=
  if negb (String.eqb (p_host p1) (p_host p2)) then false
  else match comparePathsAndMethods p1 p2 with Equivalent | Overlaps => true | _ => false end.

(** ** The mux *)

Record mux_entry := mkEntry { e_pattern : pattern; e_handler : Handler }.

(** In the order of registration; [None] for the panic on a conflict. *)
Definition Mux : Type := list mux_entry.

Definition Handle (p : pattern) (h : Handler) (t : Mux) : option Mux :=
  if existsb (fun e => conflictsWith p (e_pattern e)) t then None else Some (t ++ [mkEntry p h]).

(** The segments of a path; a trailing slash is a segment of its own. *)
Fixpoint mark_slash (parts : list bytes) : list string :=
  match parts with
  | [] => []
  | [p] => [if bool_decide (p = []) then "/"%string else string_of p]
  | p :: parts => string_of p :: mark_slash parts
  end.
Definition path_segments (path : string) : list string :=
  match bytes_of path with
  | [] => []
  | _ :: b => mark_slash (split_bytes slash b)
  end.

(** What is left of a pattern past one segment of the path. *)
Definition leaf : Type := list segment * mux_entry.
Definition take_lit (seg : string) (l : leaf) : option leaf :=
  match l.1 with Lit s :: rest => if String.eqb s seg then Some (rest, l.2) else None | _ => None end.
Definition take_wild (l : leaf) : option leaf :=
  match l.1 with Wild _ :: rest => Some (rest, l.2) | _ => None end.
Definition is_multi (l : leaf) : bool := match l.1 with [Multi _] => true | _ => false end.
Definition is_end (l : leaf) : bool := match l.1 with [] => true | _ => false end.

(** A literal first, then a single wildcard, then the rest of the path. *)
Fixpoint matchPath (pats : list leaf) (path : list string) : option mux_entry :=
  match path with
  | [] => snd <$> find is_end pats
  | seg :: rest =>
    match matchPath (omap (take_lit seg) pats) rest with
    | Some e => Some e
    | None =>
      match (if String.eqb seg "/" then None else matchPath (omap take_wild pats) rest) with
      | Some e => Some e
      | None => snd <$> find is_multi pats
      end
    end
  end.

Definition with_host (host : string) (t : Mux) : Mux := List.filter (fun e => String.eqb (p_host (e_pattern e)) host) t.
Definition with_method (m : string) (t : Mux) : Mux := List.filter (fun e => String.eqb (p_method (e_pattern e)) m) t.
Definition leaves (t : Mux) : list leaf := (fun e => (p_segs (e_pattern e), e)) <$> t.

Definition first_some {A} (x y : option A) : option A := match x with Some a => Some a | None => y end.

Definition matchMethodAndPath (t : Mux) (method : string) (path : list string) : option mux_entry :=
  first_some (matchPath (leaves (with_method method t)) path)
    (first_some (if String.eqb method "HEAD" then matchPath (leaves (with_method "GET" t)) path else None)
       (matchPath (leaves (with_method "" t)) path)).

(** Patterns with the request's host come before those without. *)
Definition mux_match (t : Mux) (host method path : string) : option mux_entry :=
  first_some (if String.eqb host "" then None else matchMethodAndPath (with_host host t) method (path_segments path))
    (matchMethodAndPath (with_host "" t) method (path_segments path)).

Definition slashes (path : string) : nat := length (List.filter (fun c => Ascii.eqb c slash) (bytes_of path)).
Definition ends_in_slash (path : string) : bool := bool_decide (last (bytes_of path) = Some slash).

Definition exactMatch (n : option mux_entry) (path : string) : bool :=
  match n with
  | None => false
  | Some e =>
    if negb (ends_in_multi (p_segs (e_pattern e))) then true
    else if negb (bool_decide (path = ""%string)) && negb (ends_in_slash path) then false
    else (length (p_segs (e_pattern e)) =? slashes path)%nat
  end.

Definition cleanPath (p : string) : string :=
  let b := bytes_of p in
  match b with
  | [] => "/"
  | c :: _ =>
    let b := if Ascii.eqb c slash then b else slash :: b in
    let np := clean_bytes b in
    string_of (if bool_decide (last b = Some slash) && negb (bool_decide (np = [slash])) then np ++ [slash] else np)
  end.

Definition stripHostPort (h : string) : string :=
  if negb (bool_decide (":"%char ∈ bytes_of h)) then h
  else match SplitHost (bytes_of h) with Some host => string_of host | None => h end.

Definition methods_at (t : Mux) (path : string) : gset string :=
  list_to_set (List.filter (fun m => negb (String.eqb m "") && bool_decide (is_Some (matchPath (leaves (with_method m t)) (path_segments path))))
                 ((fun e => p_method (e_pattern e)) <$> t)).

(** The methods some pattern would take the path with. *)
Definition matchingMethods (t : Mux) (host path : string) : gset string :=
  let at_host path :=
    let ms := (if String.eqb host "" then ∅ else methods_at (with_host host t) path) ∪ methods_at (with_host "" t) path in
    if bool_decide ("GET"%string ∈ ms) then {["HEAD"%string]} ∪ ms else ms in
  at_host path ∪ (if ends_in_slash path then ∅ else at_host (path +:+ "/")).

(** [http.Error] *)
Definition Error (text : string) (code : Z) : Handler := fun _ _ =>
  ([SetHeader "Content-Type" "text/plain; charset=utf-8"; SetHeader "X-Content-Type-Options" "nosniff"; WriteHeader code;
    Write (text +:+ String (chr 10) "") (Z.of_nat (S (String.length text)))], Returns).

Definition MethodNotAllowed (allowed : gset string) : Handler := fun w r =>
  let '(acts, e) := Error "Method Not Allowed" 405 w r in
  (SetHeader "Allow" (String.concat ", " (merge_sort String.le (elements allowed))) :: acts, e).

Section mux.
Context (RedirectHandler : string -> Handler).

(** The entry, or where to redirect, when only the slash is missing. *)
Definition matchOrRedirect (t : Mux) (host method path : string) : option mux_entry * option string :=
  let n := mux_match t host method path in
  if negb (exactMatch n path) && negb (ends_in_slash path) then
    let path' := path +:+ "/" in
    if exactMatch (mux_match t host method path') path' then (None, Some path') else (n, None)
  else (n, None).

(** The handler of a request and the pattern it goes by. *)
Definition findHandler (t : Mux) (r : Request) : Handler * string :=
  let connect := String.eqb (r_Method r) "CONNECT" in
  let host := if connect then r_Host r else stripHostPort (r_Host r) in
  let path := if connect then r_Path r else cleanPath (r_Path r) in
  let '(n, u) := matchOrRedirect t host (r_Method r) path in
  match u with
  | Some u => (RedirectHandler (cleanPath u), cleanPath u)
  | None =>
    if negb connect && negb (String.eqb path (r_Path r)) then
      (RedirectHandler path, match n with Some e => p_str (e_pattern e) | None => ""%string end)
    else
      match n with
      | Some e => (e_handler e, p_str (e_pattern e))
      | None =>
        let allowed := matchingMethods t host path in
        (if bool_decide (allowed = ∅) then Error "404 page not found" 404 else MethodNotAllowed allowed, ""%string)
      end
  end.

Definition ServeHTTP (t : Mux) : Handler := fun w r => (findHandler t r).1 w r.
Definition Pattern (t : Mux) (r : Request) : string := (findHandler t r).2.

(** ** The server's routes *)

Definition platform_pattern (path : string) : pattern := mkPattern ("GET /" +:+ path) "GET" "" [Lit path].

(** [app]: what the application's [Routes] registers, in order. *)
Definition routes (ready : option (Request -> bool)) (metricsHandler : option Handler) (app : list (pattern * Handler))
    : option Mux :=
  foldl (fun t ph => t ← t; Handle ph.1 ph.2 t) (Some [])
    ([(platform_pattern "healthz", handleHealthz); (platform_pattern "readyz", handleReadyz ready)]
     ++ match metricsHandler with Some h => [(platform_pattern "metrics", h)] | None => [] end
     ++ app).

(** The dependencies of [New], with the mux they give. *)
Definition routed (middleware : list Middleware) (metrics : bool) (t : Mux) : Deps :=
  mkDeps middleware metrics (ServeHTTP t) (Pattern t).
End mux.

(** ** Literal routes and the rest *)

(** A leaf of literals only takes one path. *)
Definition lit_leaf (l : leaf) (q : list string) : Prop := l.1 = Lit <$> q.

Lemma matchPath_skip path : forall (L X : list leaf),
  (forall l, l ∈ L -> exists q, lit_leaf l q /\ q <> path) -> matchPath (L ++ X) path = matchPath X path.
Proof.
  assert (forall (p : leaf -> bool) L X, (forall l, l ∈ L -> p l = false) -> find p (L ++ X) = find p X) as Hfind.
  { intros p L X HL. induction L as [|l L IH]; [done|]. cbn [app find]. rewrite (HL l) by set_solver. apply IH. set_solver. }
  induction path as [|seg rest IH]; intros L X HL; cbn [matchPath].
  - rewrite Hfind; [done|]. intros l Hl. destruct (HL l Hl) as ([|s q] & Hq & Hne); [done|]. unfold is_end. by rewrite Hq.
  - rewrite !omap_app, !IH.
    + rewrite Hfind; [done|]. intros l Hl. destruct (HL l Hl) as ([|s [|s' q]] & Hq & _); unfold is_multi; by rewrite Hq.
    + intros l Hl. apply list_elem_of_omap in Hl as (l0 & Hl0 & Ht). destruct (HL l0 Hl0) as (q & Hq & _).
      unfold take_wild in Ht. rewrite Hq in Ht. by destruct q.
    + intros l Hl. apply list_elem_of_omap in Hl as (l0 & Hl0 & Ht). destruct (HL l0 Hl0) as (q & Hq & Hne).
      unfold take_lit in Ht. rewrite Hq in Ht. destruct q as [|s q]; [done|]. cbn in Ht.
      destruct (String.eqb_spec s seg) as [->|]; [|done]. injection Ht as <-. exists q. split; [done|congruence].
Qed.

(** A match is one of the entries it was looked for in. *)
Lemma matchPath_in path : forall (X : list leaf) e, matchPath X path = Some e -> exists l, (l, e) ∈ X.
Proof.
  assert (forall (p : leaf -> bool) (X : list leaf) e, snd <$> find p X = Some e -> exists l, (l, e) ∈ X) as Hfind.
  { intros p X e. destruct (find p X) as [[l e']|] eqn:Hf; [|done]. intros [= <-]. apply find_some in Hf as [Hin _].
    exists l. by apply list_elem_of_In. }
  induction path as [|seg rest IH]; intros X e; cbn [matchPath]; [apply Hfind|].
  destruct (matchPath (omap (take_lit seg) X) rest) as [e1|] eqn:H1.
  { intros [= <-]. apply IH in H1 as (l & Hl). apply list_elem_of_omap in Hl as ([l0 e0] & Hl0 & Ht). exists l0.
    unfold take_lit in Ht. cbn in Ht. by repeat case_match; simplify_eq. }
  destruct (String.eqb seg "/"); [apply Hfind|].
  destruct (matchPath (omap take_wild X) rest) as [e2|] eqn:H2; [|apply Hfind].
  intros [= <-]. apply IH in H2 as (l & Hl). apply list_elem_of_omap in Hl as ([l0 e0] & Hl0 & Ht). exists l0.
  unfold take_wild in Ht. cbn in Ht. by repeat case_match; simplify_eq.
Qed.

Lemma elem_of_methods_at t path m : m ∈ methods_at t path <->
  m <> ""%string /\ is_Some (matchPath (leaves (with_method m t)) (path_segments path)).
Proof.
  unfold methods_at. rewrite elem_of_list_to_set, list_elem_of_In, filter_In, andb_true_iff, bool_decide_eq_true, negb_true_iff.
  rewrite String.eqb_neq. split; [tauto|]. intros [Hm [e He]]. split; [|split; [done|by exists e]].
  destruct (matchPath_in _ _ _ He) as [l Hl]. apply list_elem_of_fmap in Hl as (e' & [= -> <-] & Hin).
  unfold with_method in Hin. apply list_elem_of_In, filter_In in Hin as [Hin Hm']. apply String.eqb_eq in Hm'.
  apply in_map_iff. by exists e.
Qed.

(** Entries of one literal segment each, on any host and with any method. *)
Definition literal_entries (qs : list string) (P : Mux) : Prop :=
  forall e, e ∈ P -> exists q, q ∈ qs /\ p_segs (e_pattern e) = [Lit q].

Section platform.
Context (P A : Mux) (qs : list string) (Hlit : literal_entries qs P).

Lemma filter_literal (f : mux_entry -> bool) : literal_entries qs (List.filter f P).
Proof. intros e He. apply Hlit. apply list_elem_of_In in He. apply list_elem_of_In. by apply filter_In in He as [? _]. Qed.

Definition others (path : string) : Prop := forall q, q ∈ qs -> path_segments path <> [q].

Lemma matchPath_app m host path : others path ->
  matchPath (leaves (with_method m (with_host host (P ++ A)))) (path_segments path)
  = matchPath (leaves (with_method m (with_host host A))) (path_segments path).
Proof.
  intros Ho. unfold with_method, with_host. rewrite !List.filter_app. unfold leaves. rewrite fmap_app.
  apply matchPath_skip. intros l Hl. apply list_elem_of_fmap in Hl as (e & -> & He).
  apply list_elem_of_In, filter_In in He as [He _]. apply filter_In in He as [He _]. apply list_elem_of_In in He.
  destruct (Hlit e He) as (q & Hq & Hs). exists [q]. split; [by unfold lit_leaf; cbn; rewrite Hs|].
  intros E. by apply (Ho q Hq).
Qed.

Lemma mux_match_app host method path : others path -> mux_match (P ++ A) host method path = mux_match A host method path.
Proof.
  intros Ho. unfold mux_match, matchMethodAndPath. by rewrite !matchPath_app.
Qed.

Lemma methods_at_app host path : others path ->
  methods_at (with_host host (P ++ A)) path = methods_at (with_host host A) path.
Proof.
  intros Ho. apply set_eq. intros m. rewrite !elem_of_methods_at, matchPath_app by done. done.
Qed.
End platform.

Lemma mark_slash_last ps : ps <> [] -> exists front, mark_slash (ps ++ [[]]) = front ++ ["/"%string] /\ front <> [].
Proof.
  induction ps as [|p ps IH]; [done|]. intros _. destruct ps as [|p' ps].
  - by exists [string_of p].
  - destruct IH as (front & Hf & _); [done|]. exists (string_of p :: front). split; [|done].
    change (mark_slash ((p :: p' :: ps) ++ [[]])) with (string_of p :: mark_slash ((p' :: ps) ++ [[]])). by rewrite Hf.
Qed.

Lemma split_bytes_slash b : split_bytes slash (b ++ [slash]) = split_bytes slash b ++ [[]].
Proof.
  induction b as [|c b IH]; [done|]. cbn [app split_bytes]. rewrite IH.
  destruct (split_bytes_cons slash b) as (p & ps & ->). cbn [app]. by destruct (Ascii.eqb c slash).
Qed.

(** A path with a trailing slash is no single literal's. *)
Lemma slash_others qs path : "/"%string ∉ qs -> others qs (path +:+ "/").
Proof.
  intros Hs q Hq E. unfold path_segments in E. rewrite bytes_of_app in E.
  destruct (bytes_of path) as [|c b]; cbn [app bytes_of] in E.
  - injection E as <-. done.
  - change (bytes_of "/") with [slash] in E. rewrite split_bytes_slash in E.
    destruct (mark_slash_last (split_bytes slash b)) as (front & Hf & Hne).
    { by destruct (split_bytes_cons slash b) as (p & ps & ->). }
    assert (front ++ ["/"%string] = [q]) as E2 by (rewrite <- Hf; exact E). clear E. rename E2 into E.
    destruct front as [|x front]; [done|]. injection E as -> E. by destruct front.
Qed.

Section server.
Context (RedirectHandler : string -> Handler).

Definition platform_paths : list string := ["healthz"; "readyz"; "metrics"]%string.

Definition request_path (r : Request) : string :=
  if String.eqb (r_Method r) "CONNECT" then r_Path r else cleanPath (r_Path r).
Definition request_host (r : Request) : string :=
  if String.eqb (r_Method r) "CONNECT" then r_Host r else stripHostPort (r_Host r).

Lemma findHandler_app P A qs r : literal_entries qs P -> "/"%string ∉ qs -> others qs (request_path r) ->
  findHandler RedirectHandler (P ++ A) r = findHandler RedirectHandler A r.
Proof.
  intros Hlit Hs Ho. pose proof (slash_others qs (request_path r) Hs) as Ho'.
  unfold findHandler. fold (request_host r). fold (request_path r).
  unfold matchOrRedirect, matchingMethods.
  by rewrite !(mux_match_app P A qs), !(methods_at_app P A qs) by done.
Qed.

Definition entries (l : list (pattern * Handler)) : Mux := (fun ph => mkEntry ph.1 ph.2) <$> l.

Lemma Handle_entries l : forall t0 t, foldl (fun t ph => t ← t; Handle ph.1 ph.2 t) (Some t0) l = Some t ->
  t = t0 ++ entries l /\
  forall l1 ph l2 e, l = l1 ++ ph :: l2 -> e ∈ t0 ++ entries l1 -> conflictsWith ph.1 (e_pattern e) = false.
Proof.
  assert (forall l, foldl (fun t ph => t ← t; Handle ph.1 ph.2 t) None l = @None Mux) as Hnone by (intros l'; by induction l').
  induction l as [|ph l IH]; intros t0 t; cbn [foldl mbind option_bind].
  - intros [= <-]. split; [by rewrite app_nil_r|]. intros [] ? ? ? ?; done.
  - unfold Handle at 2. destruct (existsb _ t0) eqn:Hex; [by rewrite Hnone|]. intros Hf.
    destruct (IH _ _ Hf) as [-> Hc]. split; [cbn; by rewrite <- app_assoc|].
    intros [|x l1] ph' l2 e Hl He.
    + injection Hl as <- <-. rewrite app_nil_r in He. destruct (conflictsWith ph.1 (e_pattern e)) eqn:Hcf; [|done].
      rewrite <- Hex. symmetry. apply existsb_exists. exists e. split; [by apply list_elem_of_In|done].
    + injection Hl as <- ->. apply (Hc l1 ph' l2); [done|]. cbn in He. by rewrite <- app_assoc.
Qed.

Definition platform (ready : option (Request -> bool)) (metricsHandler : option Handler) : list (pattern * Handler) :=
  [(platform_pattern "healthz", handleHealthz); (platform_pattern "readyz", handleReadyz ready)]
  ++ match metricsHandler with Some h => [(platform_pattern "metrics", h)] | None => [] end.

Lemma platform_literal ready metricsHandler : literal_entries platform_paths (entries (platform ready metricsHandler)).
Proof.
  intros e He. apply list_elem_of_fmap in He as (ph & -> & Hin). unfold platform in Hin.
  rewrite elem_of_app in Hin. destruct Hin as [Hin|Hin].
  - apply elem_of_cons in Hin as [->|Hin]; [exists "healthz"%string; split; [set_solver|done]|].
    apply list_elem_of_singleton in Hin as ->. exists "readyz"%string. split; [set_solver|done].
  - destruct metricsHandler; [|by apply elem_of_nil in Hin]. apply list_elem_of_singleton in Hin as ->.
    exists "metrics"%string. split; [set_solver|done].
Qed.

(** Nothing registered for the host of the request itself. *)
Definition no_host_routes (host : string) (app : list (pattern * Handler)) : Prop :=
  forall ph, ph ∈ app -> p_host ph.1 = host -> host = ""%string.

Lemma no_host_match host t app method path : no_host_routes host app -> (forall e, e ∈ t -> p_host (e_pattern e) = ""%string) ->
  mux_match (t ++ entries app) host method path =
  matchMethodAndPath (with_host "" (t ++ entries app)) method (path_segments path).
Proof.
  intros Hno Ht. unfold mux_match. destruct (String.eqb_spec host "") as [|Hne]; [done|].
  assert (with_host host (t ++ entries app) = []) as ->; [|unfold matchMethodAndPath; cbn].
  - unfold with_host. destruct (List.filter _ _) as [|e l] eqn:Hf; [done|].
    assert (e ∈ t ++ entries app /\ p_host (e_pattern e) = host) as [Hin Hh].
    { assert (In e (e :: l)) as Hin by (by left). rewrite <- Hf in Hin. apply filter_In in Hin as [Hin Hh].
      split; [by apply list_elem_of_In|by apply String.eqb_eq]. }
    apply elem_of_app in Hin as [Hin|Hin]; [rewrite (Ht e Hin) in Hh; by destruct Hne|].
    apply list_elem_of_fmap in Hin as (ph & -> & Hin). by destruct Hne, (Hno ph Hin).
  - assert (forall path, matchPath [] path = None) as Hn by (intros l; induction l as [|s l IH]; [done|]; cbn; rewrite !IH; by destruct (String.eqb s "/")).
    rewrite !Hn. by destruct (String.eqb method "HEAD").
Qed.

Lemma platform_pattern_inj a b (h h' : Handler) : (platform_pattern a, h) = (platform_pattern b, h') -> a = b /\ h = h'.
Proof.
  intros E. split; [apply (f_equal (fun x => p_segs x.1)) in E; by injection E|by apply (f_equal snd) in E].
Qed.

(** The first entry a literal route meets on its own path is the platform's. *)
Lemma platform_match ready metricsHandler app seg h :
  (platform_pattern seg, h) ∈ platform ready metricsHandler ->
  matchMethodAndPath (with_host "" (entries (platform ready metricsHandler) ++ entries app)) "GET" [seg]
  = Some (mkEntry (platform_pattern seg) h).
Proof.
  intros Hin. unfold platform in Hin. rewrite elem_of_app in Hin. destruct Hin as [Hin|Hin].
  - apply elem_of_cons in Hin as [[-> ->]%platform_pattern_inj|Hin]; [by destruct metricsHandler|].
    apply list_elem_of_singleton, platform_pattern_inj in Hin as [-> ->]. by destruct metricsHandler.
  - destruct metricsHandler as [m|]; [|by apply elem_of_nil in Hin].
    by apply list_elem_of_singleton, platform_pattern_inj in Hin as [-> ->].
Qed.

Lemma conflict_self p : conflictsWith p p = true.
Proof.
  unfold conflictsWith. rewrite String.eqb_refl. cbn [negb]. unfold comparePathsAndMethods, compareMethods.
  rewrite String.eqb_refl. unfold comparePaths. rewrite Nat.eqb_refl. cbn [negb andb].
  generalize (ends_in_multi (p_segs p)). intros b.
  assert (forall l, compare_from Equivalent l l b b = Equivalent) as Hl; [|by rewrite Hl].
  intros l. induction l as [|s l IH]; [done|]. cbn [compare_from].
  assert (combineRelationships Equivalent (compareSegments s s) = Equivalent) as ->; [|done].
  destruct s; cbn; [by rewrite String.eqb_refl|done|done].
Qed.

(** The mux of an accepted registration, and what it was checked for. *)
Lemma routes_entries ready metricsHandler app t : routes ready metricsHandler app = Some t ->
  t = entries (platform ready metricsHandler) ++ entries app /\
  forall l1 ph l2 ph', app = l1 ++ ph :: l2 -> ph' ∈ platform ready metricsHandler ++ l1 -> conflictsWith ph.1 ph'.1 = false.
Proof.
  unfold routes. rewrite app_assoc. fold (platform ready metricsHandler). intros Hr.
  apply Handle_entries in Hr as [-> Hc]. rewrite app_nil_l. unfold entries. rewrite fmap_app. split; [done|].
  intros l1 ph l2 ph' -> Hin.
  apply (Hc (platform ready metricsHandler ++ l1) ph l2 (mkEntry ph'.1 ph'.2)); [by rewrite <- app_assoc|].
  apply list_elem_of_fmap. by exists ph'.
Qed.

(** A GET of one of the server's own paths finds its handler. *)
Lemma platform_found ready metricsHandler app t r seg h :
  routes ready metricsHandler app = Some t -> (platform_pattern seg, h) ∈ platform ready metricsHandler ->
  r_Method r = "GET"%string -> r_Path r = "/" +:+ seg -> no_host_routes (stripHostPort (r_Host r)) app ->
  findHandler RedirectHandler t r = (h, "GET /" +:+ seg).
Proof.
  intros [-> _]%routes_entries Hin Hm Hp Hno. unfold findHandler. rewrite Hm, Hp.
  change (String.eqb "GET" "CONNECT") with false. cbv iota zeta.
  assert (seg ∈ platform_paths) as Hseg by
    (destruct (platform_literal ready metricsHandler (mkEntry (platform_pattern seg) h)) as (q & Hq & [= <-]);
     [apply list_elem_of_fmap; by exists (platform_pattern seg, h)|done]).
  assert (cleanPath ("/" +:+ seg) = "/" +:+ seg /\ path_segments ("/" +:+ seg) = [seg]) as [Hcl Hps]
    by (unfold platform_paths in Hseg; set_unfold in Hseg; destruct Hseg as [->|[->|[->|[]]]]; done).
  unfold matchOrRedirect. rewrite Hcl, no_host_match; [|done|].
  2:{ intros e He. apply list_elem_of_fmap in He as (ph & -> & Hph). unfold platform in Hph.
      rewrite elem_of_app in Hph. destruct Hph as [Hph|Hph]; [set_unfold in Hph; destruct Hph as [->|[->|[]]]; done|].
      destruct metricsHandler; [|by apply elem_of_nil in Hph]. by apply list_elem_of_singleton in Hph as ->. }
  rewrite Hps, (platform_match _ _ _ _ h) by done. cbn [exactMatch e_pattern platform_pattern p_segs ends_in_multi last negb andb].
  by rewrite String.eqb_refl.
Qed.

(** C32. The platform's routes stand apart. Whatever the application registers, when the mux
    accepts it: a GET of a probe, and of the metrics when there are any, is answered by the
    server's own handler unless the application has routes for that very host; every other
    path is answered as if the application's routes were alone on the mux, redirects, 404s
    and 405s included. And an application that registers one of the server's patterns again,
    or two patterns that conflict, does not start. *)
Theorem platform_routes (ready : option (Request -> bool)) (metricsHandler : option Handler)
    (app : list (pattern * Handler)) (t : Mux) (r : Request) :
  routes ready metricsHandler app = Some t ->
  (forall seg h, (platform_pattern seg, h) ∈ platform ready metricsHandler ->
     r_Method r = "GET"%string -> r_Path r = "/" +:+ seg -> no_host_routes (stripHostPort (r_Host r)) app ->
     findHandler RedirectHandler t r = (h, "GET /" +:+ seg)) /\
  (others platform_paths (request_path r) ->
     findHandler RedirectHandler t r = findHandler RedirectHandler (entries app) r) /\
  (forall l1 ph l2 ph', app = l1 ++ ph :: l2 -> ph' ∈ platform ready metricsHandler ++ l1 ->
     conflictsWith ph.1 ph'.1 = false /\ ph.1 <> ph'.1).
Proof.
  intros Hr. destruct (routes_entries _ _ _ _ Hr) as [Ht Hc]. split_and!.
  - intros seg h. by apply platform_found.
  - intros Ho. rewrite Ht. eapply findHandler_app; [apply platform_literal| |exact Ho]. unfold platform_paths. set_solver.
  - intros l1 ph l2 ph' Happ Hin. pose proof (Hc l1 ph l2 ph' Happ Hin) as Hcf.
    split; [done|]. intros E. by rewrite E, conflict_self in Hcf.
Qed.
End server.

Module RoutesWitness.
Definition redirect (url : string) : Handler := fun _ _ => ([SetHeader "Location" url; WriteHeader 307], Returns).
Definition page (body : string) : Handler := fun _ _ => ([Write body (Z.of_nat (String.length body))], Returns).
Definition scrape : Handler := page "up 1".

(** Pages under a wildcard, a subtree, a host of its own, and a method-less probe. *)
Definition app : list (pattern * Handler) :=
  [(mkPattern "GET /pages/{page}" "GET" "" [Lit "pages"; Wild "page"], page "page");
   (mkPattern "/static/" "" "" [Lit "static"; Multi ""], page "asset");
   (mkPattern "GET admin.example/healthz" "GET" "admin.example" [Lit "healthz"], page "admin");
   (mkPattern "/healthz" "" "" [Lit "healthz"], page "anything but GET")].

Definition get (method host path : string) : Request :=
  mkRequest "10.0.0.9:1" host false ∅ method path 0 None (mkContext None None false None).

Definition shows (t : Mux) (r : Request) : string * list act := ((findHandler redirect t r).2, (ServeHTTP redirect t Raw r).1).

Lemma platform_routes_witness : exists t,
  routes (Some (fun _ => true)) (Some scrape) app = Some t /\
  findHandler redirect t (get "GET" "nest.example:8080" "/readyz") = (handleReadyz (Some (fun _ => true)), "GET /readyz"%string) /\
  findHandler redirect t (get "GET" "nest.example:8080" "/metrics") = (scrape, "GET /metrics"%string) /\
  findHandler redirect t (get "GET" "nest.example" "/static") = findHandler redirect (entries app) (get "GET" "nest.example" "/static").
Proof.
  destruct (routes (Some (fun _ => true)) (Some scrape) app) as [t|] eqn:Ht; [|by vm_compute in Ht].
  destruct (platform_routes redirect _ _ _ t (get "GET" "nest.example:8080" "/readyz") Ht) as [Hready _].
  destruct (platform_routes redirect _ _ _ t (get "GET" "nest.example:8080" "/metrics") Ht) as [Hmetrics _].
  destruct (platform_routes redirect _ _ _ t (get "GET" "nest.example" "/static") Ht) as (_ & Hrest & _).
  assert (no_host_routes "nest.example" app) as Hno.
  { intros ph Hph. unfold app in Hph. by repeat (apply elem_of_cons in Hph as [->|Hph]; [done|]); apply elem_of_nil in Hph. }
  exists t. split; [done|]. split; [|split].
  - apply (Hready "readyz"%string); [unfold platform; set_solver|done|done|exact Hno].
  - apply (Hmetrics "metrics"%string); [unfold platform; set_solver|done|done|exact Hno].
  - apply Hrest. intros q Hq. unfold platform_paths in Hq.
    repeat (apply elem_of_cons in Hq as [->|Hq]; [by vm_compute|]). by apply elem_of_nil in Hq.
Defined.

(** A host's own probe comes before the server's, a method-less one answers the other
    methods, and a missing slash is redirected. *)
Example routes_by_rank :
  option_map (fun t => (shows t (get "GET" "admin.example" "/healthz"), shows t (get "POST" "nest.example" "/healthz"),
                        shows t (get "GET" "nest.example" "/static"), shows t (get "HEAD" "nest.example" "/readyz")))
    (routes None None app)
  = Some (("GET admin.example/healthz", [Write "admin" 5]), ("/healthz", [Write "anything but GET" 16]),
          ("/static/", [SetHeader "Location" "/static/"; WriteHeader 307]),
          ("GET /readyz", [SetHeader "Content-Type" "text/plain; charset=utf-8"; WriteHeader 200; Write "ready" 5]))%string.
Proof. vm_compute. reflexivity. Qed.

(** The other methods of a probe's path, and a path nobody takes. *)
Example routes_refused :
  option_map (fun t => (shows t (get "DELETE" "nest.example" "/readyz"), shows t (get "GET" "nest.example" "/a/b")))
    (routes None None [])
  = Some (("", [SetHeader "Allow" "GET, HEAD"; SetHeader "Content-Type" "text/plain; charset=utf-8";
                SetHeader "X-Content-Type-Options" "nosniff"; WriteHeader 405;
                Write ("Method Not Allowed" +:+ String (Ascii.ascii_of_nat 10) "") 19]),
          ("", [SetHeader "Content-Type" "text/plain; charset=utf-8"; SetHeader "X-Content-Type-Options" "nosniff";
                WriteHeader 404; Write ("404 page not found" +:+ String (Ascii.ascii_of_nat 10) "") 19]))%string.
Proof. vm_compute. reflexivity. Qed.

(** Registering a probe again stops the server, and so do patterns that overlap. *)
Example routes_conflict :
  routes None None [(mkPattern "GET /healthz" "GET" "" [Lit "healthz"], page "mine")] = None /\
  routes None None [(mkPattern "/a/{x}" "" "" [Lit "a"; Wild "x"], page "1");
                    (mkPattern "/{y}/b" "" "" [Wild "y"; Lit "b"], page "2")] = None.
Proof. split; vm_compute; reflexivity. Qed.
End RoutesWitness.
