(* ===== verification/ServerSpec.v ===== *)
(** The whole way of a request through the server: the chain of [New], the feature
    middleware, the mux of [Run] and the handler it finds. The chain is transparent:
    the client gets what the handler would have sent on its own behind the security
    headers, and the access log and the counters say so. *)

From S2P Require Import Prelude GoStrings GoNet GoConv Config Http HttpSpec Routes.
Local Open Scope Z_scope.

(** ** The request as the handler sees it *)

(** Feature middleware that only keeps values in the request context. *)
Definition feature (f : Context -> Context) : Middleware := fun next w r => next w (with_ctx f r).

Definition keeps_route (f : Context -> Context) : Prop := forall c, c_route (f c) = c_route c.

Section server.
Context (RedirectHandler : string -> Handler).
Variables (cfg : HttpConfig) (features : list (Context -> Context)) (metrics : bool) (t : Mux) (r : Request).

Definition deps : Deps := routed RedirectHandler (feature <$> features) metrics t.

Definition timed (d : Z) (r : Request) : Request :=
  with_ctx (fun c => mkContext (c_forwarded c) (c_requestID c) (c_route c)
    (Some match c_deadline c with Some old => Z.min old (r_now r + d) | None => r_now r + d end)) r.

(** After [RequestID], [ForwardedHeaders], [Metrics], [Timeout] and the features. *)
Definition reached : Request :=
  let d := s_RequestTimeout (cfg_Server cfg) - requestTimeoutMargin in
  let r := inner_request cfg deps r in
  foldl (fun r f => with_ctx f r) (if 0 <? d then timed d r else r) features.

Lemma findHandler_ctx f q : findHandler RedirectHandler t (with_ctx f q) = findHandler RedirectHandler t q.
Proof. reflexivity. Qed.

Lemma findHandler_features fs q :
  findHandler RedirectHandler t (foldl (fun r f => with_ctx f r) q fs) = findHandler RedirectHandler t q.
Proof. revert q. induction fs as [|f fs IH]; intros q; [done|]. cbn [foldl]. by rewrite IH, findHandler_ctx. Qed.

(** Nothing on the way changes what the mux looks at. *)
Lemma findHandler_reached : findHandler RedirectHandler t reached = findHandler RedirectHandler t r.
Proof.
  unfold reached. rewrite findHandler_features. unfold inner_request.
  by destruct (0 <? _), (d_metrics deps).
Qed.

Lemma c_route_features fs q : Forall keeps_route fs ->
  c_route (r_ctx (foldl (fun r f => with_ctx f r) q fs)) = c_route (r_ctx q).
Proof. intros Hk. revert q. induction Hk as [|f fs Hf _ IH]; intros q; [done|]. cbn [foldl]. rewrite IH. apply Hf. Qed.

Lemma Chain_features fs h w q :
  Chain (feature <$> fs) h w q = h w (foldl (fun r f => with_ctx f r) q fs).
Proof. revert q. induction fs as [|f fs IH]; intros q; [done|]. cbn. by rewrite <- IH. Qed.

Lemma Chain_app l l' h : Chain (l ++ l') h = Chain l (Chain l' h).
Proof. unfold Chain. apply foldr_app. Qed.

(** What runs inside [Recoverer]: the handler of the mux, then the capture of its pattern. *)
Lemma inner_reached acts e :
  Forall keeps_route features ->
  (findHandler RedirectHandler t r).1 (Wrapped fresh_rw) reached = (acts, e) ->
  exists b, (metrics = true -> b = true) /\
  inner cfg deps (Wrapped fresh_rw) (inner_request cfg deps r)
  = (acts ++ when b (RoutePattern (findHandler RedirectHandler t r).2), e).
Proof.
  intros Hk Hh. exists (c_route (r_ctx reached)). split.
  - intros Hm. unfold reached. rewrite c_route_features by done. unfold inner_request, deps, routed. cbn [d_metrics].
    rewrite Hm. by destruct (0 <? _).
  - unfold inner. rewrite !Chain_app.
    assert (forall h, Chain (when (0 <? s_RequestTimeout (cfg_Server cfg) - requestTimeoutMargin)
        (Timeout (s_RequestTimeout (cfg_Server cfg) - requestTimeoutMargin)))
        (Chain (d_middleware deps) h) (Wrapped fresh_rw) (inner_request cfg deps r) = h (Wrapped fresh_rw) reached) as ->.
    { intros h. unfold reached. destruct (0 <? _); cbn [when Chain foldr]; unfold deps at 1, routed; cbn [d_middleware];
        [unfold Timeout|]; by rewrite Chain_features. }
    cbn [Chain foldr]. unfold CaptureRoutePattern, deps, routed. cbn [d_mux d_pattern].
    unfold ServeHTTP, Pattern. rewrite findHandler_reached. by rewrite Hh.
Qed.
End server.

(** ** The chain is transparent *)

(** The calls of a handler that answers over HTTP, and touches neither the log nor the metrics. *)
Definition plain (a : act) : Prop :=
  match a with
  | SetHeader _ _ | Write _ _ | Flush _ | Hijack false => True
  | WriteHeader code => 200 <= code <= 999 \/ code = 101
  | _ => False
  end.

Lemma plain_proper acts : Forall plain acts -> Forall proper acts.
Proof. intros Hp. eapply Forall_impl; [exact Hp|]. by intros [| | | |[]| | | | |]. Qed.

(** The same to the client: all but the count of calls [net/http] ignored. *)
Definition agree (s1 s2 : response) : Prop :=
  rs_headers s1 = rs_headers s2 /\ rs_sent s1 = rs_sent s2 /\ rs_body s1 = rs_body s2 /\
  rs_hijacked s1 = false /\ rs_hijacked s2 = false.

Lemma send_default_idem s : send_default (send_default s) = send_default s.
Proof. unfold send_default at 2 3. destruct (rs_sent s) eqn:Hs; unfold send_default; [by rewrite Hs|]. unfold send. by rewrite Hs. Qed.

Lemma agree_send code s1 s2 : agree s1 s2 -> rs_sent s1 = None -> agree (send code s1) (send code s2).
Proof. intros (Hh & Hs & Hb & H1 & H2) Hn. unfold send. rewrite <- Hs, Hn. by rewrite <- Hh. Qed.

Lemma agree_send_default s1 s2 : agree s1 s2 -> agree (send_default s1) (send_default s2).
Proof.
  intros Ha. pose proof Ha as (_ & Hs & _). unfold send_default. rewrite <- Hs.
  destruct (rs_sent s1) eqn:Hn; [done|]. by apply agree_send.
Qed.

(** The calls as the wrapper passes them on leave the response the calls themselves leave. *)
Lemma agree_header w s1 s2 code : in_step w s1 -> agree s1 s2 -> informational code = false ->
  agree (foldl serve_act s1 (rw_WriteHeader code w).2) (serve_act s2 (WriteHeader code)).
Proof.
  intros (Hh & _ & _ & Hw) Ha Hi. pose proof Ha as (E1 & E2 & E3 & E4 & E5). unfold rw_WriteHeader.
  cbn [serve_act]. rewrite E5, Hi. cbn [andb].
  destruct (wroteHeader w).
  - destruct Hw as (hs & Hs & _). unfold send. rewrite <- E2, Hs. cbn. unfold agree. cbn. by rewrite <- Hs.
  - destruct Hw as (Hs & _). cbn [snd foldl serve_act]. rewrite Hh, Hi. by apply agree_send.
Qed.

Lemma default_wrote w s : in_step w s -> foldl serve_act s (rw_WriteHeader 200 w).2 = send_default s.
Proof.
  intros (Hh & _ & _ & Hw). unfold rw_WriteHeader. destruct (wroteHeader w).
  - destruct Hw as (hs & Hs & _). unfold send_default. by rewrite Hs.
  - destruct Hw as (Hs & _). cbn. rewrite Hh. unfold send_default. by rewrite Hs.
Qed.

Lemma agree_act w s1 s2 a : in_step w s1 -> agree s1 s2 -> plain a ->
  agree (foldl serve_act s1 (rw_step w a).2) (serve_act s2 a).
Proof.
  intros Hin Ha Hp. pose proof Ha as (E1 & E2 & E3 & E4 & E5).
  pose proof (agree_send_default _ _ Ha) as (F1 & F2 & F3 & F4 & F5).
  destruct a as [k v|code|body n|[]|[]|?|?|?|?|?]; try done; cbn [rw_step].
  - cbn. unfold agree. cbn. by rewrite E1.
  - apply agree_header; [done..|]. unfold informational. simpl in Hp. lia.
  - pose proof (default_wrote w s1 Hin) as Hd. destruct (rw_WriteHeader 200 w) as [w' out]. cbn [snd] in *.
    rewrite foldl_app, Hd. cbn [foldl serve_act]. rewrite F4, E5. rewrite send_default_idem.
    unfold agree. cbn. by rewrite F1, F2, F3.
  - pose proof (default_wrote w s1 Hin) as Hd. destruct (rw_WriteHeader 200 w) as [w' out]. cbn [snd] in *.
    rewrite foldl_app, Hd. cbn [foldl serve_act]. rewrite F4, E5. by rewrite send_default_idem.
Qed.

Lemma agree_run w s1 s2 acts : in_step w s1 -> agree s1 s2 -> Forall plain acts ->
  agree (foldl serve_act s1 (rw_run w acts).2) (foldl serve_act s2 acts).
Proof.
  intros Hin Ha Hp. revert w s1 s2 Hin Ha. induction Hp as [|a acts Hpa Hp IH]; intros w s1 s2 Hin Ha; [done|].
  pose proof (agree_act w s1 s2 a Hin Ha Hpa) as Ha'.
  pose proof (in_step_act w s1 a Hin ltac:(by apply (Forall_singleton proper), plain_proper, Forall_singleton)) as Hin'.
  cbn [rw_run foldl]. destruct (rw_step w a) as [w' out]. cbn [fst snd] in *.
  specialize (IH w' _ _ Hin' Ha'). destruct (rw_run w' acts) as [w'' out']. cbn [snd] in *. by rewrite foldl_app.
Qed.

(** ** The access log and the counters *)

Definition lines : list act -> list act := omap (fun a => match a with LogRequest _ _ _ _ _ _ => Some a | _ => None end).
Definition counts : list act -> list (string * string * Z) :=
  omap (fun a => match a with CountRequest m p st => Some (m, p, st) | _ => None end).
Definition in_flight (acts : list act) : Z :=
  foldr Z.add 0 (omap (fun a => match a with InFlight d => Some d | _ => None end) acts).
(** The bytes the writer reported written. *)
Definition written (acts : list act) : Z :=
  foldr Z.add 0 (omap (fun a => match a with Write _ n => Some n | _ => None end) acts).

Lemma omap_plain {A} (f : act -> option A) acts : (forall a, plain a -> f a = None) -> Forall plain acts -> omap f acts = [].
Proof. intros Hf Hp. induction Hp as [|a acts Ha Hp IH]; [done|]. cbn. by rewrite Hf. Qed.

Lemma plain_run w acts : Forall plain acts -> Forall plain (rw_run w acts).2.
Proof.
  intros Hp. revert w. induction Hp as [|a acts Ha Hp IH]; intros w; [constructor|]. cbn [rw_run].
  assert (Forall plain (rw_step w a).2) as Hs.
  { destruct a as [| | |[]|[]| | | | |]; try done; cbn; unfold rw_WriteHeader; destruct (wroteHeader w); cbn;
      rewrite ?Forall_cons, ?Forall_nil; cbn in *; split_and?; first [done | lia]. }
  destruct (rw_step w a) as [w' out]. specialize (IH w'). destruct (rw_run w' acts). cbn [snd] in *. by apply Forall_app.
Qed.

Lemma nbytes_run w acts : nbytes (rw_run w acts).1 = nbytes w + written acts.
Proof.
  revert w. induction acts as [|a acts IH]; intros w; [cbn; lia|]. cbn [rw_run].
  assert (nbytes (rw_step w a).1 = nbytes w + written [a]) as Hs.
  { destruct a as [| | |[]|[]| | | | |]; cbn; unfold rw_WriteHeader; try destruct (wroteHeader w); cbn; lia. }
  assert (written (a :: acts) = written [a] + written acts) as -> by (unfold written; destruct a; cbn; lia).
  destruct (rw_step w a) as [w' out]. specialize (IH w'). destruct (rw_run w' acts). cbn [fst] in *. lia.
Qed.

Lemma plain_headers cfg r : Forall plain (header_acts cfg r).
Proof. unfold header_acts, when. repeat case_match; repeat constructor. Qed.

Lemma captured_plain acts p b : Forall plain acts ->
  captured (acts ++ when b (RoutePattern p)) = if b then p else ""%string.
Proof.
  intros Hp. unfold captured. rewrite omap_app, (omap_plain _ acts) by (done || by intros []). by destruct b.
Qed.

Lemma run_inert w pre acts post : Forall inert pre -> Forall inert post ->
  rw_run w (pre ++ acts ++ post) = ((rw_run w acts).1, pre ++ (rw_run w acts).2 ++ post).
Proof. intros Hpre Hpost. by rewrite rw_run_app, (inert_run _ pre), rw_run_app, (inert_run _ post). Qed.

Lemma serve_same_inert s pre acts post : Forall inert pre -> Forall inert post ->
  foldl serve_act s (pre ++ acts ++ post) = foldl serve_act s acts.
Proof. intros Hpre Hpost. by rewrite !foldl_app, (inert_serve _ pre), (inert_serve _ post). Qed.

(** The label of a route the mux has no pattern for. *)
Definition route_label (pattern : string) : string :=
  if bool_decide (pattern = ""%string) then "unmatched"%string else pattern.

(** [net/http] alone, answering [acts] behind the server's own headers. *)
Definition direct (cfg : HttpConfig) (r : Request) (acts : list act) : response :=
  finished (serve (header_acts cfg r ++ acts)).

Section served.
Context (RedirectHandler : string -> Handler).
Variables (cfg : HttpConfig) (features : list (Context -> Context)) (metrics : bool) (t : Mux) (r : Request).
Context (Hfeatures : Forall keeps_route features).

Let sv := New cfg (deps RedirectHandler features metrics t).
Let seen := reached RedirectHandler cfg features metrics t r.

(** All the server does for a request whose handler returns. *)
Lemma served_calls acts :
  (findHandler RedirectHandler t r).1 (Wrapped fresh_rw) seen = (acts, Returns) -> Forall plain acts ->
  exists pre post,
    Forall inert pre /\ Forall inert post /\
    let rw := (rw_run fresh_rw acts).1 in
    sv_Handler sv Raw r =
      (header_acts cfg r ++ (pre ++ (rw_run fresh_rw acts).2 ++ post)
       ++ [LogRequest (r_Method r) (r_Path r) (status_or_200 rw) (written acts) (log_client (outer_request cfg r)) (request_id r)],
       Returns) /\
    counts pre = [] /\
    counts post = (if metrics
      then [(normalizeMethod (r_Method r), route_label (Pattern RedirectHandler t r), status_or_200 rw)] else []) /\
    in_flight (pre ++ post) = 0.
Proof.
  intros Hh Hp. destruct (inner_reached _ _ _ metrics _ _ _ _ Hfeatures Hh) as (b & Hb & Hin).
  pose proof (New_handler _ _ _ _ _ Hin) as Hnew. cbn [recovered] in Hnew. cbv zeta in Hnew.
  set (rp := when b (RoutePattern (findHandler RedirectHandler t r).2)) in *.
  assert (Forall inert rp) as Hrp by (unfold rp; destruct b; repeat constructor).
  destruct (metrics_inert (deps RedirectHandler features metrics t) r (acts ++ rp) Returns) as [Hbefore Hafter].
  exists (metrics_before (deps RedirectHandler features metrics t)),
    (rp ++ metrics_after (deps RedirectHandler features metrics t) r (acts ++ rp) Returns).
  split; [done|]. split; [by apply Forall_app|]. rewrite <- !app_assoc in Hnew. cbv zeta. split; [|split_and!].
  - unfold sv. rewrite Hnew. unfold log_acts.
    rewrite run_inert by (try apply Forall_app; done). cbn [fst snd].
    rewrite nbytes_run. cbn [nbytes fresh_rw]. by rewrite Z.add_0_l.
  - unfold metrics_before. by destruct (d_metrics _).
  - unfold counts. rewrite omap_app. unfold metrics_after, deps, routed. cbn [d_metrics].
    assert (forall l : list (string * string * Z), omap (fun a : act => match a with CountRequest m p st => Some (m, p, st) | _ => None end) rp ++ l = l)
      as -> by (unfold rp; by destruct b).
    destruct metrics; [|done]. unfold counted.
    assert (captured (acts ++ rp) = Pattern RedirectHandler t r) as ->
      by (subst rp; rewrite (Hb eq_refl); by apply (captured_plain acts _ true)).
    by rewrite rw_run_app, (inert_run _ rp).
  - unfold in_flight, metrics_before, metrics_after, deps, routed. cbn [d_metrics]. unfold rp. destruct metrics, b; done.
Qed.

Lemma served acts :
  (findHandler RedirectHandler t r).1 (Wrapped fresh_rw) seen = (acts, Returns) -> Forall plain acts ->
  exists st hs out,
    sv_Handler sv Raw r = (out, Returns) /\
    rs_sent (direct cfg r acts) = Some (st, hs) /\
    rs_sent (finished (serve out)) = Some (st, hs) /\
    rs_body (finished (serve out)) = rs_body (direct cfg r acts) /\
    rs_extra (finished (serve out)) = 0%nat /\
    lines out = [LogRequest (r_Method r) (r_Path r) st (written acts) (log_client (outer_request cfg r)) (request_id r)] /\
    counts out = (if metrics then [(normalizeMethod (r_Method r), route_label (Pattern RedirectHandler t r), st)] else []) /\
    in_flight out = 0.
Proof.
  intros Hh Hp. destruct (served_calls acts Hh Hp) as (pre & post & Hpre & Hpost & Hout & Hc0 & Hc & Hf). cbv zeta in Hout.
  pose proof (neutral_headers cfg r) as Hn. pose proof (in_step_fresh _ Hn) as Hfresh.
  pose proof (in_step_run _ _ _ Hfresh (plain_proper _ Hp)) as Hstep.
  assert (agree (serve (header_acts cfg r)) (serve (header_acts cfg r))) as Ha by (destruct Hfresh as (Hhj & _); done).
  pose proof (agree_send_default _ _ (agree_run _ _ _ _ Hfresh Ha Hp)) as Hag.
  pose proof (agree_run _ _ _ _ Hfresh Ha Hp) as (_ & _ & _ & Hj1 & Hj2).
  destruct (finished_in_step _ _ Hstep) as (Hx & hs & Hs).
  assert (serve (header_acts cfg r ++ (pre ++ (rw_run fresh_rw acts).2 ++ post)
       ++ [LogRequest (r_Method r) (r_Path r) (status_or_200 (rw_run fresh_rw acts).1) (written acts)
             (log_client (outer_request cfg r)) (request_id r)])
     = foldl serve_act (serve (header_acts cfg r)) (rw_run fresh_rw acts).2) as Hserve.
  { rewrite !serve_app, foldl_app. cbn [foldl serve_act]. by rewrite serve_same_inert. }
  exists (status_or_200 (rw_run fresh_rw acts).1), hs, (header_acts cfg r ++ (pre ++ (rw_run fresh_rw acts).2 ++ post)
       ++ [LogRequest (r_Method r) (r_Path r) (status_or_200 (rw_run fresh_rw acts).1) (written acts)
             (log_client (outer_request cfg r)) (request_id r)]).
  assert (finished (foldl serve_act (serve (header_acts cfg r)) (rw_run fresh_rw acts).2)
    = send_default (foldl serve_act (serve (header_acts cfg r)) (rw_run fresh_rw acts).2)) as Hfin
    by (unfold finished; by rewrite Hj1).
  assert (direct cfg r acts = send_default (foldl serve_act (serve (header_acts cfg r)) acts)) as Hdir
    by (unfold direct, finished; by rewrite serve_app, Hj2).
  rewrite Hserve, Hdir. rewrite Hfin in Hs, Hx |- *. destruct Hag as (_ & <- & <- & _).
  pose proof (plain_headers cfg r) as Hph. pose proof (plain_run fresh_rw acts Hp) as Hpr.
  split_and!; try done.
  - unfold lines. rewrite !omap_app, (omap_plain _ (header_acts cfg r)), (omap_plain _ (rw_run fresh_rw acts).2)
      by (done || by intros []).
    assert (forall l, Forall inert l -> omap (fun a => match a with LogRequest _ _ _ _ _ _ => Some a | _ => None end) l = []) as Hi.
    { intros l Hl. induction Hl as [|a l Hal Hl IH]; [done|]. by destruct a. }
    by rewrite (Hi pre), (Hi post).
  - unfold counts in *. rewrite !omap_app, (omap_plain _ (header_acts cfg r)), (omap_plain _ (rw_run fresh_rw acts).2)
      by (done || by intros []). rewrite Hc0, Hc. by rewrite app_nil_r.
  - unfold in_flight in *. rewrite omap_app in Hf.
    rewrite !omap_app, (omap_plain _ (header_acts cfg r)), (omap_plain _ (rw_run fresh_rw acts).2)
      by (done || by intros []). cbn [app omap list_omap]. by rewrite app_nil_r.
Qed.
End served.

(** A short text behind the server's headers. *)
Lemma direct_text cfg r k v code body n : 200 <= code <= 999 ->
  let resp := direct cfg r [SetHeader k v; WriteHeader code; Write body n] in
  (exists hs, rs_sent resp = Some (code, hs) /\ hs !! k = Some v) /\ rs_body resp = body.
Proof.
  intros Hc. unfold direct. rewrite serve_app. destruct (in_step_fresh _ (neutral_headers cfg r)) as (Hh & _ & _ & Hs & _ & Hb).
  destruct (serve (header_acts cfg r)) as [headers info sent body' hijacked extra]. cbn in Hh, Hs, Hb. subst.
  cbn [foldl serve_act rs_hijacked rs_sent].
  assert (informational code = false) as -> by (unfold informational; lia). cbn. split; [|done].
  eexists. split; [reflexivity|]. apply lookup_insert_eq.
Qed.

Section properties.
Context (RedirectHandler : string -> Handler).
Variables (cfg : HttpConfig) (features : list (Context -> Context)) (metrics : bool).
Variables (ready : option (Request -> bool)) (metricsHandler : option Handler) (app : list (pattern * Handler)).

(** C21. The server is transparent to the application. Take any routes the mux accepts beside the
    server's own, any feature middleware that only keeps context values, and a request outside
    the server's own paths. Let [acts] be what the handler the application's own mux would find
    does with the request as it arrives there, and suppose it returns and its calls are [plain]:
    no informational status, no taking over of the connection, no log line, metric or route
    pattern of its own. Then the client gets what
    [net/http] alone would make of [acts] behind the server's headers: the same status, the same
    headers as they were sent and the same body, and no superfluous [WriteHeader] even if the
    handler makes some. The access log has one line, with that status and the bytes written; the
    counter moves once when metrics are on, by the application's pattern (or "unmatched") and
    that status; and the in-flight gauge is back where it was. *)
Theorem server_transparent (t : Mux) (r : Request) (h : Handler) (p : string) (acts : list act) :
  Forall keeps_route features ->
  routes ready metricsHandler app = Some t ->
  others platform_paths (request_path r) ->
  findHandler RedirectHandler (entries app) r = (h, p) ->
  h (Wrapped fresh_rw) (reached RedirectHandler cfg features metrics t r) = (acts, Returns) -> Forall plain acts ->
  exists st hs out,
    sv_Handler (New cfg (deps RedirectHandler features metrics t)) Raw r = (out, Returns) /\
    rs_sent (direct cfg r acts) = Some (st, hs) /\
    rs_sent (finished (serve out)) = Some (st, hs) /\
    rs_body (finished (serve out)) = rs_body (direct cfg r acts) /\
    rs_extra (finished (serve out)) = 0%nat /\
    lines out = [LogRequest (r_Method r) (r_Path r) st (written acts) (log_client (outer_request cfg r)) (request_id r)] /\
    counts out = (if metrics then [(normalizeMethod (r_Method r), route_label p, st)] else []) /\
    in_flight out = 0.
Proof.
  intros Hk [-> _]%routes_entries Ho Hfind Hh Hp.
  assert (findHandler RedirectHandler (entries (platform ready metricsHandler) ++ entries app) r = (h, p)) as Hf.
  { rewrite <- Hfind. eapply findHandler_app; [apply platform_literal| |exact Ho]. unfold platform_paths. set_solver. }
  pose proof (served RedirectHandler cfg features metrics (entries (platform ready metricsHandler) ++ entries app) r Hk acts) as Hs. unfold Pattern in Hs. rewrite Hf in Hs.
  by apply Hs.
Qed.

(** What a probe of the server answers at [path]. *)
Definition answers (t : Mux) (r : Request) (path : string) (st : Z) (body : string) : Prop :=
  exists hs out,
    sv_Handler (New cfg (deps RedirectHandler features metrics t)) Raw r = (out, Returns) /\
    rs_sent (finished (serve out)) = Some (st, hs) /\
    (hs !! "Content-Type" = Some "text/plain; charset=utf-8")%string /\
    rs_body (finished (serve out)) = body /\
    logged out = [st] /\
    counts out = (if metrics then [("GET"%string, "GET " +:+ path, st)] else []).

Lemma logged_lines out m p st n ip id : lines out = [LogRequest m p st n ip id] -> logged out = [st].
Proof.
  assert (logged out = omap (fun a => match a with LogRequest _ _ st _ _ _ => Some st | _ => None end) (lines out)) as ->.
  { unfold logged, lines. induction out as [|a out IH]; [done|]. destruct a; cbn; by rewrite ?IH. }
  by intros ->.
Qed.

Lemma probe_served (t : Mux) (r : Request) (seg : string) (h : Handler) (code : Z) (body : string) (n : Z) :
  Forall keeps_route features ->
  routes ready metricsHandler app = Some t -> no_host_routes (stripHostPort (r_Host r)) app ->
  (platform_pattern seg, h) ∈ platform ready metricsHandler -> seg ∈ platform_paths ->
  r_Method r = "GET"%string -> r_Path r = "/" +:+ seg -> 200 <= code <= 999 ->
  h (Wrapped fresh_rw) (reached RedirectHandler cfg features metrics t r)
    = ([SetHeader "Content-Type" "text/plain; charset=utf-8"; WriteHeader code; Write body n], Returns) ->
  answers t r ("/" +:+ seg) code body.
Proof.
  intros Hk Hr Hno Hin Hseg Hm Hp Hc Hh.
  pose proof (platform_found RedirectHandler _ _ _ _ _ _ _ Hr Hin Hm Hp Hno) as Hf.
  pose proof (served RedirectHandler cfg features metrics t r Hk
    [SetHeader "Content-Type" "text/plain; charset=utf-8"; WriteHeader code; Write body n]) as Hs.
  unfold Pattern in Hs. rewrite Hf in Hs. destruct Hs as (st & hs & out & Hout & Hd & Hsent & Hb & _ & Hl & Hcnt & _).
  { exact Hh. }
  { repeat constructor; simpl; lia. }
  destruct (direct_text cfg r "Content-Type" "text/plain; charset=utf-8" code body n Hc) as [(hs' & Hd' & Hct) Hbody].
  rewrite Hd' in Hd. injection Hd as <- <-. exists hs', out. rewrite Hb, Hbody. split_and!; try done.
  - by eapply logged_lines.
  - rewrite Hcnt, Hm. destruct metrics; [|done]. unfold platform_paths in Hseg. set_unfold in Hseg.
    by destruct Hseg as [->|[->|[->|[]]]].
Qed.

(** The probes answer through the whole server. With any routes the mux accepts and no route
    for the very host of the request, a GET of /healthz is a plain-text 200 "ok"; a GET of
    /readyz is a 200 "ready" or, exactly when the readiness check reports an error for the
    request as it reaches the handler, a 503 "unavailable"; without a check it is ready. Each is
    logged once with its status, and counted by the probe's own pattern. *)
Theorem probe_answers (t : Mux) (r : Request) :
  Forall keeps_route features ->
  routes ready metricsHandler app = Some t -> no_host_routes (stripHostPort (r_Host r)) app ->
  r_Method r = "GET"%string ->
  (r_Path r = "/healthz"%string -> answers t r "/healthz" 200 "ok") /\
  (r_Path r = "/readyz"%string ->
     if match ready with Some f => f (reached RedirectHandler cfg features metrics t r) | None => false end
     then answers t r "/readyz" 503 "unavailable"
     else answers t r "/readyz" 200 "ready").
Proof.
  intros Hk Hr Hno Hm. split; intros Hp.
  - apply (probe_served t r "healthz" handleHealthz 200 "ok" 2); try done; unfold platform, platform_paths; set_solver.
  - pose proof (probe_served t r "readyz" (handleReadyz ready)) as Hready. unfold handleReadyz in Hready at 2.
    destruct (match ready with Some f => _ | None => _ end).
    + apply (Hready 503 "unavailable"%string 11); try done; unfold platform, platform_paths; set_solver.
    + apply (Hready 200 "ready"%string 5); try done; unfold platform, platform_paths; set_solver.
Qed.
End properties.

Module ServerWitness.
Import HttpWitness RoutesWitness.

(** A feature that tightens the deadline. *)
Definition hurry : Context -> Context := fun c => mkContext (c_forwarded c) (c_requestID c) (c_route c) (Some 7).

Definition down : option (Request -> bool) := Some (fun r => bool_decide (c_deadline (r_ctx r) = Some 7)).

Definition at_host (path : string) : Request := get "GET" "nest.example" path.

(** A page of the application, by its own pattern. *)
Lemma server_transparent_witness : exists t hs out,
  routes down None RoutesWitness.app = Some t /\
  sv_Handler (New demo_config (deps redirect [hurry] true t)) Raw (at_host "/pages/7") = (out, Returns) /\
  rs_sent (finished (serve out)) = Some (200, hs) /\
  rs_body (finished (serve out)) = "page"%string /\
  counts out = [("GET", "GET /pages/{page}", 200)]%string.
Proof.
  destruct (routes down None RoutesWitness.app) as [t|] eqn:Ht; [|by vm_compute in Ht].
  destruct (server_transparent redirect demo_config [hurry] true down None RoutesWitness.app t (at_host "/pages/7")
    (page "page") "GET /pages/{page}" [Write "page" 4]) as (st & hs & out & Hout & Hd & Hs & Hb & _ & _ & Hc & _).
  - repeat constructor.
  - exact Ht.
  - intros q Hq. unfold platform_paths in Hq.
    repeat (apply elem_of_cons in Hq as [->|Hq]; [by vm_compute|]). by apply elem_of_nil in Hq.
  - reflexivity.
  - reflexivity.
  - repeat constructor.
  - assert (rs_body (direct demo_config (at_host "/pages/7") [Write "page" 4]) = "page"%string /\
      fst <$> rs_sent (direct demo_config (at_host "/pages/7") [Write "page" 4]) = Some 200) as [Hbody Hst]
      by (split; vm_compute; reflexivity).
    rewrite Hd in Hst. cbn in Hst. injection Hst as ->. exists t, hs, out.
    split; [done|]. split; [done|]. split; [done|]. split; [by rewrite Hb|exact Hc].
Defined.

(** The check sees the deadline the feature left. *)
Lemma probe_answers_witness : exists t,
  routes down None RoutesWitness.app = Some t /\
  answers redirect demo_config [hurry] true t (at_host "/healthz") "/healthz" 200 "ok" /\
  answers redirect demo_config [hurry] true t (at_host "/readyz") "/readyz" 503 "unavailable".
Proof.
  destruct (routes down None RoutesWitness.app) as [t|] eqn:Ht; [|by vm_compute in Ht].
  assert (no_host_routes "nest.example" RoutesWitness.app) as Hno.
  { intros ph Hph. unfold RoutesWitness.app in Hph. by repeat (apply elem_of_cons in Hph as [->|Hph]; [done|]); apply elem_of_nil in Hph. }
  assert (Forall keeps_route [hurry]) as Hk by (repeat constructor).
  destruct (probe_answers redirect demo_config [hurry] true down None RoutesWitness.app t (at_host "/healthz") Hk Ht Hno eq_refl)
    as [Hhealth _].
  destruct (probe_answers redirect demo_config [hurry] true down None RoutesWitness.app t (at_host "/readyz") Hk Ht Hno eq_refl)
    as [_ Hready].
  exists t. split; [done|]. split; [by apply Hhealth|]. exact (Hready eq_refl).
Defined.

(** A handler's second status: the wrapper swallows it, [net/http] would have complained. *)
Example second_status_dropped :
  let acts := [WriteHeader 201; WriteHeader 500; Write "done" 4] in
  let out := (sv_Handler (New demo_config (mkDeps [] true (fun _ _ => (acts, Returns)) (fun _ => "POST /x"%string))) Raw (at_host "/x")).1 in
  (sent_status (finished (serve out)), rs_extra (finished (serve out))) = (Some 201, 0%nat) /\
  rs_extra (direct demo_config (at_host "/x") acts) = 1%nat.
Proof. vm_compute. by split. Qed.
End ServerWitness.
