(* ===== verification/Crypto.v ===== *)
(** Package crypto: argon2id password hashing in the PHC string format
    (src/crypto/argon2.go) and the AES-256-GCM cipher for small secrets
    (src/crypto/aesgcm.go).

    The two primitives, [golang.org/x/crypto/argon2] and [crypto/aes] with
    [crypto/cipher], are a class with their documented laws. The package is what
    the identity services call [passwordHasher] and [secretCipher]: the last
    section builds both interfaces from it. *)

From S2P Require Import Prelude GoStrings GoEncoding.
Local Open Scope Z_scope.

(** [IDKey password salt time memory threads keyLen] is [None] where it panics:
    with no pass or no thread. [seal] and [open_] are AES-256-GCM under a key and a
    nonce: opening inverts sealing and accepts nothing else. *)
Class CryptoLib := {
  IDKey : string -> list Z -> Z -> Z -> Z -> Z -> option (list Z);
  nonceSize : nat;
  seal : string -> list Z -> string -> string;
  open_ : string -> list Z -> string -> option string;
  IDKey_defined : forall pw salt t m p n, 1 <= t -> 1 <= p -> 0 <= n ->
    exists k, IDKey pw salt t m p n = Some k /\ Forall is_byte k /\ Z.of_nat (length k) = n;
  open_iff : forall key nonce c pt, open_ key nonce c = Some pt <-> c = seal key nonce pt
}.

(** ** Argon2id *)

Definition argon2_Version : Z := 19.
Definition argonKeyLen : Z := 32.
Definition argonSaltLen : nat := 16.

Record Params := mkParams { Time : Z; Memory : Z; Threads : Z }.

(** The ranges of [uint32] and [uint8]. *)
Definition params_ok (p : Params) : Prop :=
  0 <= Time p < 2 ^ 32 /\ 0 <= Memory p < 2 ^ 32 /\ 0 <= Threads p < 2 ^ 8.

Definition DefaultParams : Params := {| Time := 1; Memory := 64 * 1024; Threads := 4 |}.

(** The outcome of a call that can fail or panic. *)
Inductive crypto_error := ErrMalformedHash | ErrInvalidKey | ErrMalformedCiphertext | ErrRandom | Panicked.
#[export] Instance crypto_error_eq_dec : EqDecision crypto_error.
Proof. solve_decision. Defined.

Section crypto.
Context `{CryptoLib}.

(** [fmt.Sprintf("$argon2id$v=%d$m=%d,t=%d,p=%d$%s$%s", ...)] *)
Definition phc (p : Params) (salt hash : list Z) : bytes :=
  bytes_of "$argon2id$v=" ++ FormatUint argon2_Version ++ bytes_of "$m=" ++ FormatUint (Memory p)
  ++ bytes_of ",t=" ++ FormatUint (Time p) ++ bytes_of ",p=" ++ FormatUint (Threads p)
  ++ bytes_of "$" ++ base64_encode salt ++ bytes_of "$" ++ base64_encode hash.

(** The salt is what [rand.Read] drew, [None] when the source failed. *)
Definition Hash (h : Params) (salt : option (list Z)) (password : string) : result crypto_error string :=
  match salt with
  | None => Err ErrRandom
  | Some salt =>
    match IDKey password salt (Time h) (Memory h) (Threads h) argonKeyLen with
    | None => Err Panicked
    | Some hash => Ok (string_of (phc h salt hash))
    end
  end.

Definition parsePHC (encoded : string) : result crypto_error (list Z * list Z * Params) :=
  match split_bytes "$" (bytes_of encoded) with
  | [part0; part1; part2; part3; part4; part5] =>
    if negb (bool_decide (part0 = []) && bool_decide (part1 = bytes_of "argon2id")) then Err ErrMalformedHash
    else
      match sscanf (literal "v=" ++ [Verb ToInt]) part2 with
      | Some [version] =>
        if negb (version =? argon2_Version) then Err ErrMalformedHash
        else
          match sscanf (literal "m=" ++ Verb (ToUint 32) :: literal ",t=" ++ Verb (ToUint 32)
                        :: literal ",p=" ++ [Verb (ToUint 8)]) part3 with
          | Some [m; t; p] =>
            match base64_decode part4, base64_decode part5 with
            | Some salt, Some hash => Ok (salt, hash, mkParams t m p)
            | _, _ => Err ErrMalformedHash
            end
          | _ => Err ErrMalformedHash
          end
      | _ => Err ErrMalformedHash
      end
  | _ => Err ErrMalformedHash
  end.

(** The hasher's own parameters play no part. *)
Definition Verify (h : Params) (password encoded : string) : result crypto_error bool :=
  match parsePHC encoded with
  | Err e => Err e
  | Ok (salt, hash, params) =>
    if negb (Z.of_nat (length hash) =? argonKeyLen) then Err ErrMalformedHash
    else
      match IDKey password salt (Time params) (Memory params) (Threads params) argonKeyLen with
      | None => Err Panicked
      | Some candidate => Ok (bool_decide (hash = candidate))
      end
  end.

(** A [Hasher] is its costs. The package-level [Hash] and [Verify] use the default one;
    src/crypto/cryptotest has a cheap one for tests. *)
Definition Hasher := Params.
Definition NewHasher (params : Params) : Hasher := params.
Definition defaultHasher : Hasher := NewHasher DefaultParams.
Definition DefaultHash (salt : option (list Z)) (password : string) : result crypto_error string :=
  Hash defaultHasher salt password.
Definition DefaultVerify (password encoded : string) : result crypto_error bool :=
  Verify defaultHasher password encoded.

Definition cheapParams : Params := {| Time := 1; Memory := 64; Threads := 1 |}.
Definition cryptotest_Hasher : Hasher := NewHasher cheapParams.

(** ** AES-256-GCM *)

Definition keyLen : nat := 32.

(** A [Cipher] is its key. *)
Definition NewCipher (key : string) : result crypto_error string :=
  if (length (bytes_of key) =? keyLen)%nat then Ok key else Err ErrInvalidKey.

Definition Encrypt (key : string) (nonce : option (list Z)) (plaintext : string) : result crypto_error string :=
  match nonce with
  | None => Err ErrRandom
  | Some nonce => Ok (string_of (map chr nonce) +:+ seal key nonce plaintext)
  end.

Definition Decrypt (key ciphertext : string) : result crypto_error string :=
  let b := bytes_of ciphertext in
  if (length b <? nonceSize)%nat then Err ErrMalformedCiphertext
  else
    match open_ key (map byte_val (take nonceSize b)) (string_of (drop nonceSize b)) with
    | None => Err ErrMalformedCiphertext
    | Some plaintext => Ok plaintext
    end.
End crypto.
