(* ===== verification/Cache.v ===== *)
(** Package cache (src/cache): the [Cache] port as an interface with its laws, the
    in-process [MemoryCache] and the on-disk [BadgerCache].

    Byte slices live in a heap of arrays, so that copying a slice and keeping it
    are different things. Times are nanoseconds; [time.Now()] is an argument. The
    mutex of [MemoryCache] and the transactions of badger make a call one step. *)

From S2P Require Import Prelude.
Local Open Scope Z_scope.

Definition second : Z := 10 ^ 9.

(** ** Byte slices *)

Abbreviation heap := (gmap positive (list Z)).

(** A Go slice: the array it points into ([None] for nil), its offset and length. *)
Record slice := mkSlice { arr : option positive; off : nat; len : nat }.

Definition nil_slice : slice := mkSlice None 0 0.

Definition contents (h : heap) (s : slice) : list Z :=
  match arr s with
  | Some l => take (len s) (drop (off s) (default [] (h !! l)))
  | None => []
  end.

(** A fresh array, [make([]byte, n)] already filled with [bs]. *)
Definition allocate (h : heap) (bs : list Z) : slice * heap :=
  let l := fresh (dom h) in (mkSlice (Some l) 0 (length bs), <[l := bs]> h).

(** [make([]byte, len(src)); copy(dst, src)] *)
Definition copy_of (h : heap) (src : slice) : slice * heap := allocate h (contents h src).

(** ** The port (cache.go) *)

Inductive cache_error (E : Type) :=
| ErrNegativeTTL
| Backend (op : string) (e : E).
Arguments ErrNegativeTTL {E}.
Arguments Backend {E} op e.

(** The port's three methods, over an implementation's state [C] and the heap its
    callers share. *)
Class Cache (C E : Type) := {
  Get : Z -> string -> C -> heap -> result (cache_error E) (slice * bool) * C * heap;
  Set_ : Z -> string -> slice -> Z -> C -> heap -> option (cache_error E) * C * heap;
  Delete : string -> C -> option (cache_error E) * C
}.

(** What a key may hold: nothing, or the bytes set at a time with a ttl. After a
    failed write it is unknown whether it happened, so a key has several. *)
Inductive cell :=
| Absent
| Held (v : list Z) (set_at ttl : Z).
#[export] Instance cell_eq_dec : EqDecision cell.
Proof. solve_decision. Defined.

Abbreviation cells := (gmap string (list cell)).

Definition cells_of (st : cells) (k : string) : list cell := default [Absent] (st !! k).

(** The port's contract: a zero ttl never expires; a positive one is honoured to
    the second, a shorter one counting as a whole second. *)
Definition may_hit (now : Z) (v : list Z) (c : cell) : bool :=
  match c with
  | Absent => false
  | Held v' t ttl => bool_decide (v' = v) && ((ttl =? 0) || (now <=? t + Z.max ttl second))
  end.

Definition may_miss (now : Z) (c : cell) : bool :=
  match c with
  | Absent => true
  | Held _ t ttl => negb (ttl =? 0) && (t + ttl <? now + second)
  end.

(** The answers of [Get] that the contract allows. *)
Definition get_allowed (st : cells) (now : Z) (k : string) (got : option (list Z)) : bool :=
  existsb (match got with Some v => may_hit now v | None => may_miss now end) (cells_of st k).

Definition set_cells {E} (st : cells) (now : Z) (k : string) (v : list Z) (ttl : Z)
    (r : option (cache_error E)) : cells :=
  match r with
  | None => <[k := [Held v now ttl]]> st
  | Some ErrNegativeTTL => st
  | Some (Backend _ _) => <[k := Held v now ttl :: cells_of st k]> st
  end.

Definition delete_cells {E} (st : cells) (k : string) (r : option (cache_error E)) : cells :=
  match r with
  | None => <[k := [Absent]]> st
  | Some _ => <[k := Absent :: cells_of st k]> st
  end.

(** What an implementation promises its clients. [repr t c h own st]: the state [c],
    with the arrays [own] of the heap it keeps for itself, implements [st] for reads
    from time [t] on. *)
Class CachePort (C E : Type) `{Cache C E} := {
  repr : Z -> C -> heap -> gset positive -> cells -> Prop;
  repr_own : forall t c h own st, repr t c h own st -> own ⊆ dom h;
  repr_frame : forall t c h h' own st,
    repr t c h own st -> own ⊆ dom h' -> (forall l, l ∈ own -> h' !! l = h !! l) ->
    repr t c h' own st;
  Get_port : forall t c h own st now k r c' h',
    repr t c h own st -> t <= now -> Get now k c h = (r, c', h') ->
    repr now c' h' own st /\ h ⊆ h' /\
    match r with
    | Ok (v, true) =>
      (exists l, arr v = Some l /\ l ∈ dom h' ∖ dom h) /\ get_allowed st now k (Some (contents h' v)) = true
    | Ok (v, false) => arr v = None /\ get_allowed st now k None = true
    | Err e => exists op x, e = Backend op x
    end;
  Set_port : forall t c h own st now k v ttl r c' h',
    repr t c h own st -> Set_ now k v ttl c h = (r, c', h') ->
    h ⊆ h' /\ (r = Some ErrNegativeTTL <-> ttl < 0) /\
    exists own', own' ⊆ own ∪ (dom h' ∖ dom h) /\
      repr t c' h' own' (set_cells st now k (contents h v) ttl r);
  Delete_port : forall t c h own st k r c',
    repr t c h own st -> Delete k c = (r, c') ->
    r <> Some ErrNegativeTTL /\ repr t c' h own (delete_cells st k r)
}.

(** ** MemoryCache (memory.go) *)

(** The zero [expires] is [None]. *)
Record memoryEntry := mkMemoryEntry { value : slice; expires : option Z }.

Record MemoryCache := mkMemoryCache { entries : gmap string memoryEntry }.

Definition NewMemoryCache : MemoryCache := mkMemoryCache ∅.

Section memory.
(** [MemoryCache] has no backend that fails. *)
Abbreviation error := (cache_error Empty_set).

(** [!e.expires.IsZero() && time.Now().After(e.expires)] *)
Definition mem_expired (now : Z) (e : memoryEntry) : bool :=
  match expires e with None => false | Some x => x <? now end.

Definition mem_Get (now : Z) (key : string) (c : MemoryCache) (h : heap)
    : result error (slice * bool) * MemoryCache * heap :=
  match entries c !! key with
  | None => (Ok (nil_slice, false), c, h)
  | Some e =>
    if mem_expired now e then (Ok (nil_slice, false), mkMemoryCache (delete key (entries c)), h)
    else let '(v, h) := copy_of h (value e) in (Ok (v, true), c, h)
  end.

Definition mem_Set (now : Z) (key : string) (v : slice) (ttl : Z) (c : MemoryCache) (h : heap)
    : option error * MemoryCache * heap :=
  if ttl <? 0 then (Some ErrNegativeTTL, c, h)
  else
    let '(stored, h) := copy_of h v in
    let expires := if 0 <? ttl then Some (now + ttl) else None in
    (None, mkMemoryCache (<[key := mkMemoryEntry stored expires]> (entries c)), h).

Definition mem_Delete (key : string) (c : MemoryCache) : option error * MemoryCache :=
  (None, mkMemoryCache (delete key (entries c))).

End memory.

#[export] Instance memory_Cache : Cache MemoryCache Empty_set :=
  {| Get := mem_Get; Set_ := mem_Set; Delete := mem_Delete |}.

(** ** BadgerCache (badger.go) *)

(** badger's options, the ones [openBadger] overrides. *)
Record badger_options := {
  MemTableSize : Z; NumMemtables : Z; NumLevelZeroTables : Z; NumLevelZeroTablesStall : Z;
  BaseTableSize : Z; ValueLogFileSize : Z; NumCompactors : Z; BlockCacheSize : Z;
  IndexCacheSize : Z; ValueThreshold : Z
}.

(** What badger documents. A database holds, per key, a value and the Unix second it
    expires at; a read finds the value as long as that second has not come. A
    transaction that fails may or may not have been committed. Value log collection
    keeps the contents, and each successful pass reclaims one file.
    [fs] is what the directory holds; [RemoveAll] is [os.RemoveAll] of it. *)
Class Badger := {
  fs : Type; bdb : Type; berror : Type; oserror : Type;
  Open : badger_options -> fs -> result berror bdb * fs;
  RemoveAll : fs -> option oserror * fs;
  View_Get : Z -> string -> bdb -> result berror (list Z);
  Update_SetEntry : Z -> string -> list Z -> option Z -> bdb -> option berror * bdb;
  Update_Delete : string -> bdb -> option berror * bdb;
  RunValueLogGC : bdb -> option berror * bdb;
  ErrKeyNotFound : berror -> bool;
  ErrNoRewrite : berror -> bool;
  db_map : bdb -> gmap string (list Z * option Z);
  reclaimable : bdb -> nat;
  db_live (now : Z) (x : list Z * option Z) : bool :=
    match x.2 with None => true | Some at_ => now / second <? at_ end;
  View_Get_ok : forall now k db v, View_Get now k db = Ok v ->
    exists x, db_map db !! k = Some x /\ db_live now x = true /\ x.1 = v;
  View_Get_not_found : forall now k db e, View_Get now k db = Err e -> ErrKeyNotFound e = true ->
    forall x, db_map db !! k = Some x -> db_live now x = false;
  Update_SetEntry_ok : forall now k v ttl db r db', Update_SetEntry now k v ttl db = (r, db') ->
    db_map db' = <[k := (v, (fun d => (now + d) / second) <$> ttl)]> (db_map db) \/
    r <> None /\ db_map db' = db_map db;
  Update_Delete_ok : forall k db r db', Update_Delete k db = (r, db') ->
    db_map db' = delete k (db_map db) \/ r <> None /\ db_map db' = db_map db;
  RunValueLogGC_map : forall db r db', RunValueLogGC db = (r, db') -> db_map db' = db_map db;
  RunValueLogGC_nil : forall db db', RunValueLogGC db = (None, db') ->
    (reclaimable db' < reclaimable db)%nat
}.

Section badger.
Context `{Badger}.

Definition openBadger (dir : fs) : result berror bdb * fs :=
  Open {| MemTableSize := 8 * 2 ^ 20; NumMemtables := 2; NumLevelZeroTables := 2;
          NumLevelZeroTablesStall := 5; BaseTableSize := 2 * 2 ^ 20;
          ValueLogFileSize := 16 * 2 ^ 20; NumCompactors := 2; BlockCacheSize := 16 * 2 ^ 20;
          IndexCacheSize := 8 * 2 ^ 20; ValueThreshold := 2 ^ 10 |} dir.

Inductive open_error := NilLogger | RemoveFailed (e : oserror) | OpenFailed (e : berror).

(** The result, the directory, and what was logged. *)
Definition NewBadgerCache (logger : bool) (dir : fs) : result open_error bdb * fs * list string :=
  if negb logger then (Err NilLogger, dir, [])
  else
    match openBadger dir with
    | (Ok db, dir) => (Ok db, dir, [])
    | (Err _, dir) =>
      let log := ["cache: badger open failed, removing directory and retrying once"%string] in
      match RemoveAll dir with
      | (Some e, dir) => (Err (RemoveFailed e), dir, log)
      | (None, dir) =>
        match openBadger dir with
        | (Err e, dir) => (Err (OpenFailed e), dir, log)
        | (Ok db, dir) =>
          (Ok db, dir, log ++ ["cache: badger directory recreated after corruption recovery"%string])
        end
      end
    end.

Definition badgerMinTTL : Z := second.

Definition badger_Get (now : Z) (key : string) (db : bdb) (h : heap)
    : result (cache_error berror) (slice * bool) * bdb * heap :=
  match View_Get now key db with
  | Ok bs => let '(v, h) := allocate h bs in (Ok (v, true), db, h)
  | Err e =>
    if ErrKeyNotFound e then (Ok (nil_slice, false), db, h) else (Err (Backend "get" e), db, h)
  end.

Definition badger_Set (now : Z) (key : string) (v : slice) (ttl : Z) (db : bdb) (h : heap)
    : option (cache_error berror) * bdb * heap :=
  if ttl <? 0 then (Some ErrNegativeTTL, db, h)
  else
    let with_ttl :=
      if 0 <? ttl then Some (if ttl <? badgerMinTTL then badgerMinTTL else ttl) else None in
    match Update_SetEntry now key (contents h v) with_ttl db with
    | (Some e, db) => (Some (Backend "set" e), db, h)
    | (None, db) => (None, db, h)
    end.

Definition badger_Delete (key : string) (db : bdb) : option (cache_error berror) * bdb :=
  match Update_Delete key db with
  | (Some e, db) => (Some (Backend "delete" e), db)
  | (None, db) => (None, db)
  end.

(** [for { if err := RunValueLogGC(ratio); err != nil { return err } }]; [None] is
    out of fuel. *)
Fixpoint RunValueLogGCOnce (fuel : nat) (db : bdb) : option berror * bdb :=
  match fuel with
  | O => (None, db)
  | S fuel =>
    match RunValueLogGC db with
    | (Some e, db) => (Some e, db)
    | (None, db) => RunValueLogGCOnce fuel db
    end
  end.

(** What a tick of [RunGC] logs of its outcome. *)
Definition logGCOutcome (err : option berror) : option berror :=
  match err with
  | None => None
  | Some e => if ErrNoRewrite e then None else Some e
  end.

Definition badgerGCDiscardRatio : Z * Z := (7, 10).

(** What [RunGC] sees: a tick of its ticker or the end of its context; the outcomes it logs,
    and the database. [fuel] bounds each pass. *)
Fixpoint RunGC (fuel : nat) (ticks : list bool) (db : bdb) : list (option berror) * bdb :=
  match ticks with
  | true :: ticks =>
    let '(err, db) := RunValueLogGCOnce fuel db in
    let '(log, db) := RunGC fuel ticks db in (logGCOutcome err :: log, db)
  | _ => ([], db)
  end.

#[export] Instance badger_Cache : Cache bdb berror :=
  {| Get := badger_Get; Set_ := badger_Set; Delete := badger_Delete |}.
End badger.
