(* ===== verification/CacheSpec.v ===== *)
(** Package cache, what it promises: both implementations keep the port's contract,
    and whatever a client does with the slices it holds, every answer it gets is one
    the contract allows. *)

From S2P Require Import Prelude Cache.
Local Open Scope Z_scope.

(** ** Arrays *)

Section arrays.
Implicit Types (h : heap) (s : slice).

Lemma contents_eq h h' s :
  (forall l, arr s = Some l -> h' !! l = h !! l) -> contents h' s = contents h s.
Proof. unfold contents. destruct (arr s) as [l|]; [|done]. intros Hl. by rewrite Hl. Qed.

Lemma allocate_spec h bs s h' :
  allocate h bs = (s, h') ->
  exists l, s = mkSlice (Some l) 0 (length bs) /\ (l ∉ dom h) /\ h' = <[l := bs]> h /\ l ∈ dom h' /\
    h ⊆ h' /\ contents h' s = bs.
Proof.
  unfold allocate. intros [= <- <-]. set (l := fresh _).
  assert (l ∉ dom h) as Hl by apply is_fresh.
  exists l. split_and!; [done..|set_solver| |].
  - apply insert_subseteq. by apply not_elem_of_dom.
  - unfold contents. simpl. rewrite lookup_insert_eq. simpl. by rewrite drop_0, firstn_all.
Qed.

Lemma subseteq_lookup h h' l : h ⊆ h' -> l ∈ dom h -> h' !! l = h !! l.
Proof. intros Hs [x Hx]%elem_of_dom. rewrite Hx. by eapply lookup_weaken. Qed.

Lemma cells_of_insert (st : cells) k k' cs :
  cells_of (<[k := cs]> st) k' = if bool_decide (k = k') then cs else cells_of st k'.
Proof.
  unfold cells_of. case_bool_decide; subst.
  - by rewrite lookup_insert_eq.
  - by rewrite lookup_insert_ne.
Qed.
End arrays.

(** ** MemoryCache keeps the contract *)

Section memory.
Implicit Types (c : MemoryCache) (h : heap) (own : gset positive) (st : cells).

Definition expiry (t ttl : Z) : option Z := if 0 <? ttl then Some (t + ttl) else None.

(** An entry against the single cell of its key. *)
Definition mem_cell (t : Z) (h : heap) (own : gset positive) (e : option memoryEntry) (c : cell) : Prop :=
  match c, e with
  | Absent, None => True
  | Absent, Some _ => False
  | Held v t0 ttl, Some e =>
    0 <= ttl /\ contents h (value e) = v /\ expires e = expiry t0 ttl /\
    exists l, arr (value e) = Some l /\ l ∈ own
  | Held _ t0 ttl, None => 0 < ttl /\ t0 + ttl < t
  end.

Definition mem_repr (t : Z) c h own st : Prop :=
  own ⊆ dom h /\
  forall k, exists x, cells_of st k = [x] /\ mem_cell t h own (entries c !! k) x.

Lemma mem_cell_mono t t' h h' own own' e x :
  t <= t' -> own ⊆ own' -> (forall l, l ∈ own -> h' !! l = h !! l) ->
  mem_cell t h own e x -> mem_cell t' h' own' e x.
Proof.
  intros Ht Hown Hh. destruct x as [|v t0 ttl], e as [e|]; simpl; [done..| |lia].
  intros (? & <- & ? & l & Hl & Hin). split_and!; [done| |done|set_solver].
  apply contents_eq. intros l' ?. apply Hh. congruence.
Qed.

Lemma mem_frame t c h h' own st :
  mem_repr t c h own st -> own ⊆ dom h' -> (forall l, l ∈ own -> h' !! l = h !! l) ->
  mem_repr t c h' own st.
Proof.
  intros [_ Hc] Hd Hh. split; [done|]. intros k. destruct (Hc k) as (x & ? & ?).
  exists x. split; [done|]. by eapply mem_cell_mono; [apply Z.le_refl|..].
Qed.

Lemma mem_later t t' c h own st : mem_repr t c h own st -> t <= t' -> mem_repr t' c h own st.
Proof.
  intros [? Hc] Ht. split; [done|]. intros k. destruct (Hc k) as (x & ? & ?).
  exists x. split; [done|]. by eapply mem_cell_mono.
Qed.

Lemma mem_frame_sub t c h h' own st :
  mem_repr t c h own st -> h ⊆ h' -> mem_repr t c h' own st.
Proof.
  intros Hr Hs. pose proof Hr as [Hd _]. apply (mem_frame t c h); [done| |].
  - apply subseteq_dom in Hs. set_solver.
  - intros l Hl. apply subseteq_lookup; [done|set_solver].
Qed.

Lemma mem_Get_port t c h own st now k r c' h' :
  mem_repr t c h own st -> t <= now -> mem_Get now k c h = (r, c', h') ->
  mem_repr now c' h' own st /\ h ⊆ h' /\
  match r with
  | Ok (v, true) =>
    (exists l, arr v = Some l /\ l ∈ dom h' ∖ dom h) /\ get_allowed st now k (Some (contents h' v)) = true
  | Ok (v, false) => arr v = None /\ get_allowed st now k None = true
  | Err e => exists op x, e = Backend op x
  end.
Proof.
  intros Hr Ht. apply (mem_later _ now) in Hr; [|done]. clear Ht.
  pose proof Hr as [Hd Hc]. destruct (Hc k) as (x & Hx & Hcell). unfold mem_Get.
  destruct (entries c !! k) as [e|] eqn:He.
  2: { intros [= <- <- <-]. split_and!; [done..|]. unfold get_allowed. rewrite Hx. simpl.
       destruct x as [|v0 t0 ttl]; simpl in *; [done|].
       apply orb_true_iff; left. rewrite (proj2 (Z.eqb_neq _ _)) by lia. simpl.
       apply Z.ltb_lt. unfold second. lia. }
  destruct x as [|v0 t0 ttl]; [done|]. destruct Hcell as (Httl & Hv & Hexp & l & Hl & Hin).
  unfold mem_expired. rewrite Hexp. unfold expiry.
  destruct (0 <? ttl) eqn:Hpos; [destruct (t0 + ttl <? now) eqn:Hnow|]; to_prop.
  - intros [= <- <- <-]. split_and!; [|done|done|].
    + split; [done|]. intros k'. simpl. destruct (decide (k = k')) as [<-|Hk].
      * exists (Held v0 t0 ttl). split; [done|]. rewrite lookup_delete_eq. simpl. lia.
      * rewrite lookup_delete_ne by done. apply Hc.
    + unfold get_allowed. rewrite Hx. simpl. apply orb_true_iff; left.
      rewrite (proj2 (Z.eqb_neq _ _)) by lia. apply Z.ltb_lt. unfold second. lia.
  - destruct (copy_of h (value e)) as [v h1] eqn:Hcopy. intros [= <- <- <-].
    apply allocate_spec in Hcopy as (l' & -> & Hl' & -> & Hdom & Hsub & Hcon).
    split_and!; [by eapply mem_frame_sub|done|exists l'; set_solver|].
    rewrite Hcon, Hv. unfold get_allowed. rewrite Hx. simpl. rewrite orb_false_r.
    rewrite bool_decide_true by done. apply orb_true_iff; right. apply Z.leb_le. lia.
  - destruct (copy_of h (value e)) as [v h1] eqn:Hcopy. intros [= <- <- <-].
    apply allocate_spec in Hcopy as (l' & -> & Hl' & -> & Hdom & Hsub & Hcon).
    split_and!; [by eapply mem_frame_sub|done|exists l'; set_solver|].
    rewrite Hcon, Hv. unfold get_allowed. rewrite Hx. simpl. rewrite orb_false_r.
    rewrite bool_decide_true by done. apply orb_true_iff; left. apply Z.eqb_eq. lia.
Qed.

Lemma mem_cell_other t c h h' own own' st k :
  mem_repr t c h own st -> own ⊆ own' -> h ⊆ h' ->
  exists x, cells_of st k = [x] /\ mem_cell t h' own' (entries c !! k) x.
Proof.
  intros [Hd Hc] Hown Hsub. destruct (Hc k) as (x & Hx & Hcell). exists x. split; [done|].
  eapply mem_cell_mono; [apply Z.le_refl|done| |done].
  intros l Hl. apply subseteq_lookup; [done|set_solver].
Qed.

Lemma mem_Set_port t c h own st now k v ttl r c' h' :
  mem_repr t c h own st -> mem_Set now k v ttl c h = (r, c', h') ->
  h ⊆ h' /\ (r = Some ErrNegativeTTL <-> ttl < 0) /\
  exists own', own' ⊆ own ∪ (dom h' ∖ dom h) /\
    mem_repr t c' h' own' (set_cells st now k (contents h v) ttl r).
Proof.
  intros Hr. unfold mem_Set. destruct (ttl <? 0) eqn:Hneg; to_prop.
  { intros [= <- <- <-]. split_and!; [done..|]. exists own. split; [set_solver|done]. }
  destruct (copy_of h v) as [s h1] eqn:Hcopy. intros [= <- <- <-].
  apply allocate_spec in Hcopy as (l & -> & Hl & -> & Hl' & Hsub & Hcon).
  split_and!; [done|split; [done|lia]|].
  exists (own ∪ {[l]}). pose proof Hr as [Hd _]. split; [set_solver|].
  split; [set_solver|]. intros k'. simpl. rewrite cells_of_insert. case_bool_decide; subst.
  - exists (Held (contents h v) now ttl). split; [done|].
    rewrite lookup_insert_eq. simpl. split_and!; [done..|]. exists l. set_solver.
  - rewrite lookup_insert_ne by done. eapply mem_cell_other; [done|set_solver|done].
Qed.

Lemma mem_Delete_port t c h own st k r c' :
  mem_repr t c h own st -> mem_Delete k c = (r, c') ->
  r <> Some ErrNegativeTTL /\ mem_repr t c' h own (delete_cells st k r).
Proof.
  intros [Hd Hc]. intros [= <- <-]. split; [done|]. split; [done|].
  intros k'. simpl. rewrite cells_of_insert. case_bool_decide; subst.
  - exists Absent. by rewrite lookup_delete_eq.
  - rewrite lookup_delete_ne by done. apply Hc.
Qed.
End memory.

#[export] Instance MemoryCache_port : CachePort MemoryCache Empty_set := {|
  repr := mem_repr;
  repr_own := fun t c h own st Hr => proj1 Hr;
  repr_frame := mem_frame;
  Get_port := mem_Get_port;
  Set_port := mem_Set_port;
  Delete_port := mem_Delete_port
|}.

Lemma NewMemoryCache_repr t h : mem_repr t NewMemoryCache h ∅ ∅.
Proof. split; [set_solver|]. intros k. by exists Absent. Qed.

(** ** BadgerCache keeps the contract *)

Section badger.
Context `{Badger}.
Implicit Types (db : bdb) (h : heap) (own : gset positive) (st : cells).

Definition clamp (ttl : Z) : Z := Z.max ttl badgerMinTTL.

(** A stored value, or none, is one of the cells its key may have. *)
Definition holds (x : option (list Z * option Z)) (c : cell) : Prop :=
  match c, x with
  | Absent, None => True
  | Held v t ttl, Some x =>
    0 <= ttl /\ x = (v, if 0 <? ttl then Some ((t + clamp ttl) / second) else None)
  | _, _ => False
  end.

(** badger's state has no arrays of the heap, and does not depend on the time. *)
Definition badger_repr (t : Z) db h own st : Prop :=
  own = ∅ /\ forall k, exists c, c ∈ cells_of st k /\ holds (db_map db !! k) c.

Lemma get_allowed_cell st now k got c :
  c ∈ cells_of st k ->
  match got with Some v => may_hit now v c | None => may_miss now c end = true ->
  get_allowed st now k got = true.
Proof.
  intros Hc Hm. unfold get_allowed. apply existsb_exists. exists c.
  split; [by apply list_elem_of_In|]. by destruct got.
Qed.

Lemma live_hit now v t ttl x : holds (Some x) (Held v t ttl) -> db_live now x = true ->
  may_hit now x.1 (Held v t ttl) = true.
Proof.
  intros [Hp ->]. unfold db_live, may_hit, clamp, badgerMinTTL. simpl.
  rewrite bool_decide_true by done. simpl. destruct (0 <? ttl) eqn:Hpos; to_prop; intros Hl.
  - to_prop. apply orb_true_iff; right. apply Z.leb_le. unfold second in *. zdiv.
  - apply orb_true_iff; left. apply Z.eqb_eq. lia.
Qed.

Lemma dead_miss now v t ttl x : holds (Some x) (Held v t ttl) -> db_live now x = false ->
  may_miss now (Held v t ttl) = true.
Proof.
  intros [Hp ->]. unfold db_live, may_miss, clamp, badgerMinTTL. simpl.
  destruct (0 <? ttl) eqn:Hpos; [|done]. intros Hl. to_prop.
  rewrite (proj2 (Z.eqb_neq _ _)) by lia. apply Z.ltb_lt. unfold second in *. zdiv.
Qed.

Lemma badger_Get_port t db h own st now k r db' h' :
  badger_repr t db h own st -> t <= now -> badger_Get now k db h = (r, db', h') ->
  badger_repr now db' h' own st /\ h ⊆ h' /\
  match r with
  | Ok (v, true) =>
    (exists l, arr v = Some l /\ l ∈ dom h' ∖ dom h) /\ get_allowed st now k (Some (contents h' v)) = true
  | Ok (v, false) => arr v = None /\ get_allowed st now k None = true
  | Err e => exists op x, e = Backend op x
  end.
Proof.
  intros Hr _. pose proof Hr as [Hown Hc]. destruct (Hc k) as (c & Hin & Hh).
  unfold badger_Get. destruct (View_Get now k db) as [bs|e] eqn:Hv.
  - destruct (allocate h bs) as [v h1] eqn:Hal. intros [= <- <- <-].
    apply allocate_spec in Hal as (l & -> & Hl & -> & Hl' & Hsub & Hcon).
    apply View_Get_ok in Hv as (x & Hx & Hlive & <-). rewrite Hx in Hh.
    split_and!; [done..|exists l; set_solver|]. rewrite Hcon. eapply get_allowed_cell; [done|].
    destruct c; [done|]. by apply live_hit.
  - destruct (ErrKeyNotFound e) eqn:He; intros [= <- <- <-]; [|split_and!; eauto; done].
    split_and!; [done..|]. eapply get_allowed_cell; [done|].
    pose proof (View_Get_not_found _ _ _ _ Hv He) as Hdead.
    destruct (db_map db !! k) as [x|], c; simpl in Hh; try done.
    by eapply dead_miss, Hdead.
Qed.

(** What a write may leave behind: the new value, or, when it failed, the old one. *)
Lemma badger_write st db db' k c0 y failed own t h :
  badger_repr t db h own st -> holds y c0 ->
  db_map db' = partial_alter (fun _ => y) k (db_map db) \/ failed = true /\ db_map db' = db_map db ->
  badger_repr t db' h own (<[k := if failed then c0 :: cells_of st k else [c0]]> st).
Proof.
  intros [Hown Hc] Hy Hw. split; [done|]. intros k'. rewrite cells_of_insert.
  destruct (Hc k') as (c & Hin & Hh). case_bool_decide as Hk; subst.
  - destruct Hw as [->|[-> ->]].
    + exists c0. rewrite lookup_partial_alter_eq. split; [|done]. destruct failed; set_solver.
    + exists c. split; [set_solver|done].
  - exists c. split; [done|]. destruct Hw as [->|[_ ->]]; [|done].
    by rewrite lookup_partial_alter_ne.
Qed.

Lemma badger_Set_port t db h own st now k v ttl r db' h' :
  badger_repr t db h own st -> badger_Set now k v ttl db h = (r, db', h') ->
  h ⊆ h' /\ (r = Some ErrNegativeTTL <-> ttl < 0) /\
  exists own', own' ⊆ own ∪ (dom h' ∖ dom h) /\
    badger_repr t db' h' own' (set_cells st now k (contents h v) ttl r).
Proof.
  intros Hr. unfold badger_Set. destruct (ttl <? 0) eqn:Hneg; to_prop.
  { intros [= <- <- <-]. split_and!; [done..|]. exists own. split; [set_solver|done]. }
  set (w := if 0 <? ttl then _ else _).
  destruct (Update_SetEntry now k (contents h v) w db) as [e db1] eqn:Hu.
  pose proof (Update_SetEntry_ok _ _ _ _ _ _ _ Hu) as Hlaw.
  assert (holds (Some (contents h v, (fun d => (now + d) / second) <$> w)) (Held (contents h v) now ttl))
    as Hy.
  { simpl. split; [done|]. subst w. unfold clamp. destruct (0 <? ttl); [|done]. simpl.
    do 4 f_equal. destruct (ttl <? badgerMinTTL) eqn:?; to_prop; lia. }
  assert (h ⊆ h) as Hh by done.
  destruct e as [e|]; intros [= <- <- <-]; (split_and!; [done|split; [done|lia]|]);
    exists own; (split; [set_solver|]).
  - eapply (badger_write _ _ _ _ _ _ true); [done..|].
    destruct Hlaw as [?|[_ ?]]; auto.
  - eapply (badger_write _ _ _ _ _ _ false); [done..|].
    destruct Hlaw as [?|[? _]]; [auto|done].
Qed.

Lemma badger_Delete_port t db h own st k r db' :
  badger_repr t db h own st -> badger_Delete k db = (r, db') ->
  r <> Some ErrNegativeTTL /\ badger_repr t db' h own (delete_cells st k r).
Proof.
  intros Hr. unfold badger_Delete. destruct (Update_Delete k db) as [e db1] eqn:Hu.
  pose proof (Update_Delete_ok _ _ _ _ Hu) as Hlaw.
  destruct e as [e|]; intros [= <- <-]; (split; [done|]).
  - eapply (badger_write _ _ _ _ Absent None true); [done..|]. destruct Hlaw as [?|[_ ?]]; auto.
  - eapply (badger_write _ _ _ _ Absent None false); [done..|]. destruct Hlaw as [?|[? _]]; [auto|done].
Qed.

#[export] Instance BadgerCache_port : CachePort bdb berror := {|
  repr := badger_repr;
  repr_own := fun t db h own st Hr => ltac:(destruct Hr as [-> _]; set_solver);
  repr_frame := fun t db h h' own st Hr _ _ => Hr;
  Get_port := badger_Get_port;
  Set_port := badger_Set_port;
  Delete_port := badger_Delete_port
|}.
End badger.

(** What a database holds as it is opened: a key that expires at a second is as if set
    one second before, for one second. *)
Definition opened_cells `{Badger} (db : bdb) : cells :=
  (fun x => [match x.2 with
             | None => Held x.1 0 0
             | Some at_ => Held x.1 (at_ * second - second) second
             end]) <$> db_map db.

Lemma opened_repr `{Badger} t (db : bdb) h : badger_repr t db h ∅ (opened_cells db).
Proof.
  split; [done|]. intros k. unfold cells_of, opened_cells. rewrite lookup_fmap.
  destruct (db_map db !! k) as [[v [at_|]]|]; simpl; eexists; (split; [by apply list_elem_of_singleton|]);
    simpl; [|done..].
  split; [done|]. do 2 f_equal. unfold clamp, badgerMinTTL, second. zdiv.
Qed.

(** ** Histories: what clients do, and what they observe *)

(** A client calls the cache with slices of arrays it holds, allocates arrays, and
    writes to those it holds, among them the ones the cache returned to it. *)
Inductive call :=
| CGet (k : string) (now : Z)
| CSet (k : string) (v : slice) (ttl now : Z)
| CDelete (k : string)
| CAlloc (bs : list Z)
| CWrite (l : positive) (i : nat) (b : Z).

Inductive event (E : Type) :=
| Got (k : string) (now : Z) (answer : result (cache_error E) (option (list Z)))
| Stored (k : string) (v : list Z) (ttl now : Z) (r : option (cache_error E))
| Deleted (k : string) (r : option (cache_error E)).
Arguments Got {E}.
Arguments Stored {E}.
Arguments Deleted {E}.

Section run.
Context {C E : Type}.
(** The three methods of the cache the clients share. *)
Context (get : Z -> string -> C -> heap -> result (cache_error E) (slice * bool) * C * heap).
Context (set : Z -> string -> slice -> Z -> C -> heap -> option (cache_error E) * C * heap).
Context (del : string -> C -> option (cache_error E) * C).

Record world := mkWorld { cache : C; arrays : heap; held : gset positive }.

Definition arr_set (s : slice) : gset positive :=
  match arr s with Some l => {[l]} | None => ∅ end.

Definition step (w : world) (o : call) : world * list (event E) :=
  match o with
  | CGet k now =>
    let '(r, c, h) := get now k (cache w) (arrays w) in
    match r with
    | Ok (v, ok) =>
      (mkWorld c h (held w ∪ arr_set v),
       [Got k now (Ok (if ok then Some (contents h v) else None))])
    | Err e => (mkWorld c h (held w), [Got k now (Err e)])
    end
  | CSet k v ttl now =>
    if decide (arr_set v ⊆ held w) then
      let '(r, c, h) := set now k v ttl (cache w) (arrays w) in
      (mkWorld c h (held w), [Stored k (contents (arrays w) v) ttl now r])
    else (w, [])
  | CDelete k =>
    let '(r, c) := del k (cache w) in
    (mkWorld c (arrays w) (held w), [Deleted k r])
  | CAlloc bs =>
    let '(s, h) := allocate (arrays w) bs in (mkWorld (cache w) h (held w ∪ arr_set s), [])
  | CWrite l i b =>
    if decide (l ∈ held w) then
      (mkWorld (cache w) (alter (fun bs => <[i := b]> bs) l (arrays w)) (held w), [])
    else (w, [])
  end.

Fixpoint history (w : world) (ops : list call) : list (event E) :=
  match ops with
  | [] => []
  | o :: ops => let '(w', evs) := step w o in evs ++ history w' ops
  end.

End run.

(** Reads are made at non-decreasing times (under the lock, by the monotonic clock). *)
Fixpoint clocked (t : Z) (ops : list call) : Prop :=
  match ops with
  | [] => True
  | CGet _ now :: ops => t <= now /\ clocked now ops
  | _ :: ops => clocked t ops
  end.

(** The contract over a history, from what each key may hold. *)
Fixpoint legal {E} (st : cells) (evs : list (event E)) : Prop :=
  match evs with
  | [] => True
  | Got k now (Ok a) :: evs => get_allowed st now k a = true /\ legal st evs
  | Got k now (Err e) :: evs => (exists op x, e = Backend op x) /\ legal st evs
  | Stored k v ttl now r :: evs =>
    (r = Some ErrNegativeTTL <-> ttl < 0) /\ legal (set_cells st now k v ttl r) evs
  | Deleted k r :: evs => r <> Some ErrNegativeTTL /\ legal (delete_cells st k r) evs
  end.

(** What holds of an implementation of the port, through its laws. *)
Section histories.
Context {C E : Type} `{CachePort C E}.

(** The cache's arrays and the clients' are apart. *)
Definition apart (t : Z) (w : world) (own : gset positive) (st : cells) : Prop :=
  repr t (cache w) (arrays w) own st /\ own ## held w /\ held w ⊆ dom (arrays w).

Definition call_time (o : call) (t : Z) : Z := match o with CGet _ now => now | _ => t end.

Lemma step_apart t w own st o w' evs :
  apart t w own st -> t <= call_time o t -> step Get Set_ Delete w o = (w', evs) ->
  exists own' st', apart (call_time o t) w' own' st' /\ forall evs', legal st' evs' -> legal st (evs ++ evs').
Proof.
  intros (Hr & Hd & Hh) Ht. pose proof (repr_own _ _ _ _ _ Hr) as Ho. destruct w as [c h hd].
  destruct o as [k now|k v ttl now|k|bs|l i b]; cbn [step call_time cache arrays held] in *.
  - destruct (Get now k c h) as [[r c'] h'] eqn:HG.
    destruct (Get_port _ _ _ _ _ _ _ _ _ _ Hr Ht HG) as (Hr' & Hsub & Hans).
    apply subseteq_dom in Hsub. unfold apart, arr_set.
    destruct r as [[v []]|e]; intros [= <- <-]; exists own, st; simpl.
    + destruct Hans as [(l & -> & Hl) Hal]. split_and!; [done|set_solver..|by intros].
    + destruct Hans as [-> Hal]. split_and!; [done|set_solver..|by intros].
    + split_and!; [done|set_solver..|by intros].
  - case_decide as Hv; [|intros [= <- <-]; exists own, st; by split_and!].
    destruct (Set_ now k v ttl c h) as [[r c'] h'] eqn:HS. intros [= <- <-].
    destruct (Set_port _ _ _ _ _ _ _ _ _ _ _ _ Hr HS) as (Hsub & Hneg & own' & Hown & Hr').
    apply subseteq_dom in Hsub. exists own', (set_cells st now k (contents h v) ttl r).
    unfold apart; simpl. split_and!; [done|set_solver..|by intros].
  - destruct (Delete k c) as [r c'] eqn:HD. intros [= <- <-].
    destruct (Delete_port _ _ _ _ _ _ _ _ Hr HD) as [Hn Hr'].
    exists own, (delete_cells st k r). unfold apart; simpl. split_and!; [done..|by intros].
  - destruct (allocate h bs) as [s h'] eqn:Hal. intros [= <- <-].
    apply allocate_spec in Hal as (l & -> & Hl & -> & _ & Hsub & _).
    exists own, st. unfold apart, arr_set; simpl. rewrite dom_insert.
    split_and!; [|set_solver..|done].
    apply (repr_frame _ _ h); [done|set_solver|].
    intros l' ?. rewrite lookup_insert_ne; [done|set_solver].
  - case_decide as Hl; intros [= <- <-]; exists own, st; [|by split_and!].
    unfold apart; simpl. rewrite dom_alter. split_and!; [|done..].
    apply (repr_frame _ _ h); [done|by rewrite dom_alter|].
    intros l' ?. rewrite lookup_alter_ne; [done|set_solver].
Qed.

Lemma clocked_cons t o ops : clocked t (o :: ops) -> t <= call_time o t /\ clocked (call_time o t) ops.
Proof. destruct o; simpl; [done|..]; intros; (split; [lia|done]). Qed.

Lemma history_legal t w own st ops :
  apart t w own st -> clocked t ops -> legal st (history Get Set_ Delete w ops).
Proof.
  revert t w own st. induction ops as [|o ops IH]; intros t w own st Ha; [done|].
  intros [Ht Hc]%clocked_cons. simpl. destruct (step _ _ _ w o) as [w' evs] eqn:Hs.
  destruct (step_apart _ _ _ _ _ _ _ Ha Ht Hs) as (own' & st' & Ha' & Hl). eauto.
Qed.
End histories.

(** ** The guarantees *)

(** C22. Through either cache, a new [MemoryCache] or a [BadgerCache] over whatever its
    database held when it was opened, and whatever its clients do with the slices they
    hold (those they pass to [Set], and those [Get] returned), every answer is one the
    port's contract allows: the bytes of the last successful write as they were when it
    was made, never past the requested lifetime, and never lost more than a second
    before its end; a negative ttl is refused and changes nothing. *)
Theorem cache_contract (t : Z) (h : heap) (held : gset positive) (ops : list call) :
  held ⊆ dom h -> clocked t ops ->
  legal ∅ (history mem_Get mem_Set mem_Delete (mkWorld NewMemoryCache h held) ops) /\
  (forall `{Badger} (db : bdb),
     legal (opened_cells db) (history badger_Get badger_Set badger_Delete (mkWorld db h held) ops)).
Proof.
  intros Hh Hc. split; [|intros HB db].
  - refine (history_legal (C := MemoryCache) (E := Empty_set) t (mkWorld NewMemoryCache h held) ∅ ∅ ops _ Hc).
    split_and!; [apply NewMemoryCache_repr|set_solver|done].
  - refine (history_legal (C := bdb) (E := berror) t (mkWorld db h held) ∅ (opened_cells db) ops _ Hc).
    split_and!; [apply opened_repr|set_solver|done].
Qed.

(** A failure to open the cache directory is retried once, on an emptied directory:
    an open cache comes from the directory as it was, or from the emptied one after a
    logged error; the directory is emptied in no other case; otherwise the caller gets
    the error of the last step. *)
Theorem NewBadgerCache_outcome `{Badger} (dir : fs) :
  let '(r, dir', log) := NewBadgerCache true dir in
  match openBadger dir with
  | (Ok db, d1) => r = Ok db /\ dir' = d1 /\ log = []
  | (Err _, d1) =>
    log <> [] /\
    match RemoveAll d1 with
    | (Some e, d2) => r = Err (RemoveFailed e) /\ dir' = d2
    | (None, d2) =>
      (openBadger d2).2 = dir' /\
      match (openBadger d2).1 with
      | Ok db => r = Ok db
      | Err e => r = Err (OpenFailed e)
      end
    end
  end.
Proof.
  unfold NewBadgerCache. simpl. destruct (openBadger dir) as [[db|e] d1]; [done|].
  destruct (RemoveAll d1) as [[e'|] d2]; [done|]. by destruct (openBadger d2) as [[db|e'] d3].
Qed.

(** A value log collection ends, after at most one pass per reclaimable file, with the
    error that stopped it, and loses nothing. *)
Theorem RunValueLogGCOnce_ends `{Badger} (db : bdb) fuel :
  (reclaimable db < fuel)%nat ->
  exists e db', RunValueLogGCOnce fuel db = (Some e, db') /\ db_map db' = db_map db.
Proof.
  revert db. induction fuel as [|fuel IH]; intros db Hf; [lia|]. simpl.
  destruct (RunValueLogGC db) as [[e|] db1] eqn:Hg.
  - exists e, db1. split; [done|]. by eapply RunValueLogGC_map.
  - pose proof (RunValueLogGC_nil _ _ Hg). destruct (IH db1) as (e & db2 & -> & Hm); [lia|].
    exists e, db2. split; [done|]. rewrite Hm. by eapply RunValueLogGC_map.
Qed.

(** ** A concrete badger, and clients *)

Module CacheWitness.
(** A directory is corrupt or not; a database is its map. *)
#[local] Instance toy_badger : Badger.
Proof.
  refine {|
    fs := bool; bdb := gmap string (list Z * option Z); berror := bool; oserror := Empty_set;
    Open := fun _ corrupt => if corrupt then (Err false, true) else (Ok ∅, false);
    RemoveAll := fun _ => (None, false);
    View_Get := fun now k db =>
      match db !! k with
      | Some (v, None) => Ok v
      | Some (v, Some at_) => if now / second <? at_ then Ok v else Err true
      | None => Err true
      end;
    Update_SetEntry := fun now k v ttl db =>
      (None, <[k := (v, (fun d => (now + d) / second) <$> ttl)]> db);
    Update_Delete := fun k db => (None, delete k db);
    RunValueLogGC := fun db => (Some false, db);
    ErrKeyNotFound := fun e => e; ErrNoRewrite := fun e => negb e;
    db_map := fun db => db; reclaimable := fun _ => 0%nat
  |}; try done.
  - intros now k db v. destruct (db !! k) as [[v' [at_|]]|] eqn:Hk; try done.
    + destruct (now / second <? at_) eqn:Hl; [|done]. intros [= ->]. by eexists.
    + intros [= ->]. by eexists.
  - intros now k db e Hg He x Hx. rewrite Hx in Hg. destruct x as [v [at_|]]; [|done].
    simpl in *. by destruct (now / second <? at_).
  - intros now k v ttl db r db' [= <- <-]. by left.
  - intros k db r db' [= <- <-]. by left.
  - by intros db r db' [= <- <-].
Defined.

Definition no_entries : bdb := (∅ : gmap string (list Z * option Z)).

Definition key : string := "recipes:externalfind:1".

(** A client that writes to the slice it passed to [Set], and to the one [Get]
    returned, before reading again. *)
Definition client (mine got : positive) : list call :=
  [CAlloc [1; 2]; CSet key (mkSlice (Some mine) 0 2) (2 * second) 0; CWrite mine 0 9;
   CGet key 1; CWrite got 0 7; CGet key second; CGet key (5 * second);
   CSet key (mkSlice (Some mine) 1 1) (-1) 0].

Example client_memory :
  history mem_Get mem_Set mem_Delete (mkWorld NewMemoryCache ∅ ∅) (client (fresh (∅ : gset positive)) 3) =
  [Stored key [1; 2] (2 * second) 0 None; Got key 1 (Ok (Some [1; 2]));
   Got key second (Ok (Some [1; 2])); Got key (5 * second) (Ok None);
   Stored key [2] (-1) 0 (Some ErrNegativeTTL)].
Proof. vm_compute. reflexivity. Qed.

Lemma cache_contract_witness :
  legal ∅ (history mem_Get mem_Set mem_Delete (mkWorld NewMemoryCache ∅ ∅) (client 1 3)) /\
  legal (opened_cells no_entries)
    (history badger_Get badger_Set badger_Delete (mkWorld no_entries ∅ ∅) (client 1 2)).
Proof.
  split.
  - apply (cache_contract 0 ∅ ∅ (client 1 3)); [set_solver|]. simpl. unfold second. lia.
  - apply (cache_contract 0 ∅ ∅ (client 1 2)); [set_solver|]. simpl. unfold second. lia.
Defined.
End CacheWitness.
