(* ===== verification/Metrics.v ===== *)
(** Package metrics (src/metrics): the scheduler tick recorder and the HTTP metrics'
    constructor. Prometheus itself is what is recorded: the metrics registered, by
    name, and the observations made on them, by label values. *)

From S2P Require Import Prelude.
Local Open Scope Z_scope.

Inductive panic := NilRegistry | NilRegisterer | EmptyNamespace | ReservedName | AlreadyRegistered (name : string).
#[export] Instance panic_eq_dec : EqDecision panic.
Proof. solve_decision. Defined.

(** ** Registration *)

(** A registry is the names registered on it, [None] the nil registerer. *)
Abbreviation registry := (list string).

(** [promauto.With(reg).New...]: it panics when the name is taken. *)
Definition register (reg : registry) (name : string) : result panic registry :=
  if bool_decide (name ∈ reg) then Err (AlreadyRegistered name) else Ok (name :: reg).

Definition register_all (reg : registry) (names : list string) : result panic registry :=
  foldl (fun r n => res_bind r (fun reg => register reg n)) (Ok reg) names.

Definition full_name (namespace name : string) : string := namespace +:+ "_" +:+ name.

Definition http_metric_names : list string :=
  ["http_requests_total"; "http_request_duration_seconds"; "http_requests_in_flight"]%string.
Definition scheduler_metric_names : list string :=
  ["scheduler_ticks_total"; "scheduler_tick_duration_seconds";
   "scheduler_last_success_timestamp_seconds"]%string.

(** The Prometheus client: the metric names of the standard collectors, and the scrape
    handler of a registry, which may register its own error counter there. *)
Class Prometheus (handler : Type) := {
  go_collector : list string;
  process_collector : list string;
  build_info_collector : list string;
  HandlerFor : registry -> handler * registry
}.

(** A fresh registry with the standard collectors; [MustRegister] panics on a clash. *)
Definition NewRegistry {handler} `{Prometheus handler} : result panic registry :=
  register_all [] (go_collector ++ process_collector ++ build_info_collector).

Definition Handler {handler} `{Prometheus handler} (reg : option registry) : result panic (handler * registry) :=
  match reg with
  | None => Err NilRegistry
  | Some reg => Ok (HandlerFor reg)
  end.

Definition NewHTTPMetrics (reg : option registry) (namespace : string) : result panic registry :=
  match reg with
  | None => Err NilRegisterer
  | Some reg =>
    if bool_decide (namespace = ""%string) then Err EmptyNamespace
    else register_all reg (full_name namespace <$> http_metric_names)
  end.

(** ** The tick recorder (scheduler.go) *)

Definition schedulerOther : string := "other".
Definition tickResultSuccess : string := "success".
Definition tickResultError : string := "error".

(** The recorder's allowlist, and what it recorded, oldest first. *)
Inductive observation :=
| TicksInc (scheduler result : string)
| DurationObserve (scheduler : string) (d : Z)
| LastSuccessSet (scheduler : string) (now : Z).
#[export] Instance observation_eq_dec : EqDecision observation.
Proof. solve_decision. Defined.

Record PromTickRecorder := mkRecorder { known : gset string; recorded : list observation }.

Definition NewPromTickRecorder (reg : option registry) (namespace : string) (known : list string)
    : result panic (PromTickRecorder * registry) :=
  match reg with
  | None => Err NilRegisterer
  | Some reg =>
    if bool_decide (namespace = ""%string) then Err EmptyNamespace
    else if bool_decide (schedulerOther ∈ known) then Err ReservedName
    else res_bind (register_all reg (full_name namespace <$> scheduler_metric_names))
           (fun reg => Ok (mkRecorder (list_to_set known) [], reg))
  end.

(** One completed cycle; [failed] says [err] was not nil. *)
Record tick := mkTick { t_name : string; t_dur : Z; t_failed : bool; t_now : Z }.

Definition scheduler_label (r : PromTickRecorder) (name : string) : string :=
  if bool_decide (name ∈ known r) then name else schedulerOther.

Definition ObserveTick (t : tick) (r : PromTickRecorder) : PromTickRecorder :=
  let scheduler := scheduler_label r (t_name t) in
  let result := if t_failed t then tickResultError else tickResultSuccess in
  mkRecorder (known r)
    (recorded r ++ [TicksInc scheduler result; DurationObserve scheduler (t_dur t)]
     ++ (if t_failed t then [] else [LastSuccessSet scheduler (t_now t)])).

(** The port a scheduler records its cycles through, its two implementations. *)
Class TickRecorder (R : Type) := observe_tick : tick -> R -> R.

#[export] Instance PromTickRecorder_port : TickRecorder PromTickRecorder := ObserveTick.

Inductive NopTickRecorder := Nop.
Definition Nop_ObserveTick (_ : tick) (r : NopTickRecorder) : NopTickRecorder := r.
#[export] Instance NopTickRecorder_port : TickRecorder NopTickRecorder := Nop_ObserveTick.

(** ** Wiring *)

Lemma register_all_Ok (names : list string) (reg : registry) :
  NoDup names -> (forall n, n ∈ names -> n ∉ reg) -> register_all reg names = Ok (rev names ++ reg).
Proof.
  unfold register_all. revert reg. induction names as [|n names IH]; intros reg Hnd Hnew; [done|].
  apply NoDup_cons in Hnd as [Hn Hnd]. cbn [foldl res_bind]. unfold register at 2.
  rewrite bool_decide_false by (apply Hnew; left). rewrite IH; [cbn; by rewrite <- app_assoc|done|].
  intros n' Hn' Hin. apply elem_of_cons in Hin as [->|Hin]; [done|]. by apply (Hnew n'); [right|].
Qed.

Lemma register_all_taken (names : list string) (reg : registry) n :
  n ∈ reg -> register_all reg (n :: names) = Err (AlreadyRegistered n).
Proof.
  intros Hn. unfold register_all. cbn [foldl res_bind]. unfold register at 2. rewrite bool_decide_true by done.
  by induction names.
Qed.

(** A fresh registry is one: standard collectors that do not clash register. *)
Lemma NewRegistry_Ok {handler} `{Prometheus handler} :
  NoDup (go_collector ++ process_collector ++ build_info_collector) -> exists reg, NewRegistry = Ok reg.
Proof. intros Hnd. eexists. apply register_all_Ok; [done|]. intros n _. apply not_elem_of_nil. Qed.

Lemma full_name_inj ns a b : full_name ns a = full_name ns b -> a = b.
Proof. unfold full_name. intros E. by do 2 apply (inj (String.append _)) in E. Qed.

(** The HTTP metrics of a namespace go on a registry once; the second wiring panics on the
    first of them, and so does any registry that has it. *)
Lemma NewHTTPMetrics_once reg ns :
  ns <> ""%string -> (forall n, full_name ns n ∉ reg) ->
  exists reg', NewHTTPMetrics (Some reg) ns = Ok reg' /\
    NewHTTPMetrics (Some reg') ns = Err (AlreadyRegistered (full_name ns "http_requests_total")).
Proof.
  intros Hns Hreg. unfold NewHTTPMetrics. rewrite bool_decide_false by done. eexists. split.
  - apply register_all_Ok.
    + apply NoDup_fmap_2; [intros a b; apply full_name_inj|]. apply (bool_decide_unpack _). by vm_compute.
    + intros n Hn. apply list_elem_of_fmap in Hn as (n' & -> & _). apply Hreg.
  - apply register_all_taken. cbn. set_solver.
Qed.

(** ** What the recorder guarantees *)

Definition observe_all (ts : list tick) (r : PromTickRecorder) : PromTickRecorder :=
  foldl (fun r t => ObserveTick t r) r ts.

(** The series of each metric: its distinct label values. *)
Definition tick_labels (os : list observation) : list (string * string) :=
  omap (fun o => match o with TicksInc s x => Some (s, x) | _ => None end) os.
Definition tick_series (r : PromTickRecorder) : gset (string * string) :=
  list_to_set (tick_labels (recorded r)).

(** The value of a counter, and of the last-success gauge. *)
Definition ticks_total (s x : string) (os : list observation) : nat :=
  length (filter (fun o => o = TicksInc s x) os).
Definition last_success (s : string) (os : list observation) : option Z :=
  last (omap (fun o => match o with
                       | LastSuccessSet s' t => if bool_decide (s' = s) then Some t else None
                       | _ => None
                       end) os).

Definition outcome (t : tick) : string := if t_failed t then tickResultError else tickResultSuccess.

Lemma observe_all_known ts r : known (observe_all ts r) = known r.
Proof. revert r. induction ts as [|t ts IH]; intros r; [done|]. unfold observe_all in *. simpl. by rewrite IH. Qed.

Lemma observe_all_snoc ts t r : observe_all (ts ++ [t]) r = ObserveTick t (observe_all ts r).
Proof. unfold observe_all. by rewrite foldl_app. Qed.

Lemma scheduler_label_known r r' n : known r = known r' -> scheduler_label r n = scheduler_label r' n.
Proof. unfold scheduler_label. by intros ->. Qed.

(** Every label pair a recorder with the allowlist [ks] can use. *)
Definition label_pairs (ks : list string) : list (string * string) :=
  ((fun s => (s, tickResultSuccess)) <$> schedulerOther :: ks)
  ++ ((fun s => (s, tickResultError)) <$> schedulerOther :: ks).

Lemma size_list_to_set_le (l : list (string * string)) :
  (size (list_to_set l : gset (string * string)) <= length l)%nat.
Proof.
  induction l as [|x l IH]; [done|].
  rewrite list_to_set_cons, size_union_alt, size_singleton. simpl.
  pose proof (subseteq_size (list_to_set l ∖ {[x]}) (list_to_set l : gset (string * string))
    ltac:(set_solver)). lia.
Qed.

Lemma tick_labels_snoc t r :
  tick_labels (recorded (ObserveTick t r)) =
  tick_labels (recorded r) ++ [(scheduler_label r (t_name t), outcome t)].
Proof.
  unfold tick_labels, ObserveTick, outcome. cbn [recorded]. rewrite omap_app. by destruct (t_failed t).
Qed.

Lemma tick_series_bound ks ts r :
  known r = list_to_set ks -> recorded r = [] ->
  tick_series (observe_all ts r) ⊆ list_to_set (label_pairs ks).
Proof.
  intros Hk Hr. unfold tick_series. induction ts as [|t ts IH] using rev_ind.
  { simpl. rewrite Hr. set_solver. }
  rewrite observe_all_snoc, tick_labels_snoc, list_to_set_app_L.
  rewrite (scheduler_label_known _ r) by apply observe_all_known.
  assert (scheduler_label r (t_name t) ∈ schedulerOther :: ks) as Hl.
  { unfold scheduler_label. rewrite Hk. case_bool_decide; set_solver. }
  apply union_subseteq. split; [done|]. rewrite list_to_set_singleton_L.
  apply singleton_subseteq_l, elem_of_list_to_set. unfold label_pairs, outcome.
  rewrite elem_of_app, !list_elem_of_fmap. destruct (t_failed t); eauto.
Qed.

Lemma New_recorder reg ns ks r reg' :
  NewPromTickRecorder reg ns ks = Ok (r, reg') ->
  known r = list_to_set ks /\ recorded r = [] /\ schedulerOther ∉ ks.
Proof.
  unfold NewPromTickRecorder. destruct reg as [reg|]; [|done]. repeat case_bool_decide; try done.
  destruct (register_all _ _); [|done]. by intros [= <- _].
Qed.

Lemma ticks_total_snoc s x t r :
  ticks_total s x (recorded (ObserveTick t r)) =
  (ticks_total s x (recorded r) +
   if decide (scheduler_label r (t_name t) = s /\ outcome t = x) then 1 else 0)%nat.
Proof.
  unfold ticks_total. simpl. rewrite filter_app, length_app. f_equal. fold (outcome t).
  destruct (t_failed t); simpl; rewrite !filter_cons, filter_nil; repeat case_decide; naive_solver.
Qed.

(** A counter is the number of ticks it stands for. *)
Lemma ticks_total_count (P : tick -> Prop) `{forall t, Decision (P t)} s x ts r :
  recorded r = [] ->
  (forall t, scheduler_label r (t_name t) = s /\ outcome t = x <-> P t) ->
  ticks_total s x (recorded (observe_all ts r)) = length (filter P ts).
Proof.
  intros Hr HP. induction ts as [|t ts IH] using rev_ind.
  { unfold ticks_total. simpl. by rewrite Hr. }
  rewrite observe_all_snoc, ticks_total_snoc, IH, filter_app, length_app. f_equal.
  rewrite (scheduler_label_known _ r) by apply observe_all_known.
  rewrite filter_cons, filter_nil. specialize (HP t). repeat case_decide; naive_solver.
Qed.

(** C35. However many names callers make up, a recorder has at most two tick series per
    allowed scheduler and two for the rest, and each series counts its ticks exactly:
    an allowed name's series are its own, every other name shares "other". *)
Theorem tick_cardinality reg ns ks r reg' ts :
  NewPromTickRecorder reg ns ks = Ok (r, reg') ->
  let r' := observe_all ts r in
  (size (tick_series r') <= 2 * (length ks + 1))%nat /\
  (forall s x, s ∈ ks ->
     ticks_total s x (recorded r') = length (filter (fun t => t_name t = s /\ outcome t = x) ts)) /\
  (forall x, ticks_total schedulerOther x (recorded r') =
     length (filter (fun t => (t_name t ∉ ks) /\ outcome t = x) ts)).
Proof.
  intros Hn r'. destruct (New_recorder _ _ _ _ _ Hn) as (Hk & Hr & Hres).
  assert (forall n, scheduler_label r n = if decide (n ∈ ks) then n else schedulerOther) as Hl.
  { intros n. unfold scheduler_label. rewrite Hk.
    by rewrite (bool_decide_ext _ _ (elem_of_list_to_set _ _)), decide_bool_decide. }
  split_and!.
  - etrans; [by eapply subseteq_size, tick_series_bound|].
    etrans; [apply size_list_to_set_le|]. unfold label_pairs. rewrite length_app, !length_fmap. simpl. lia.
  - intros s x Hs. apply ticks_total_count; [done|]. intros t. rewrite Hl. case_decide; [reflexivity|].
    split; intros [<- ?]; done.
  - intros x. apply ticks_total_count; [done|]. intros t. rewrite Hl. case_decide as Hin; [|tauto].
    split; intros [Hx ?]; [|done]. by rewrite Hx in Hin.
Qed.

Lemma tick_cardinality_witness :
  let r' := observe_all [mkTick "poll" 5 false 1; mkTick "typo" 5 true 2; mkTick "typo2" 5 true 3]
              (mkRecorder {["poll"%string]} []) in
  ticks_total "other" "error" (recorded r') = 2%nat /\ (size (tick_series r') <= 4)%nat.
Proof.
  split; [vm_compute; reflexivity|].
  exact (proj1 (tick_cardinality (Some []) "app" ["poll"%string] _ _ _ eq_refl)).
Defined.
