(* ===== verification/Migrate.v ===== *)
(** Packages db/migrate and identity/migrate (src/db/migrate/migrate.go,
    src/identity/migrate/migrate.go): the migration runner over goose, and the boot
    guard on the identity schema's version.

    goose, pgx and the database behind them are a class with their documented
    laws. A call runs in a world: the database, the handles opened and closed so
    far, and the operations asked of goose. *)

From S2P Require Import Prelude GoStrings GoEncoding GoTime.
Local Open Scope Z_scope.

(** ** Migration file systems ([fs.FS], [fs.Sub], [fs.Glob]) *)

(** The paths of the files of an [embed.FS]. *)
Abbreviation fsys := (list string).

Definition path_parts (p : string) : list string := string_of <$> split_bytes slash (bytes_of p).

(** [fs.ValidPath], on valid UTF-8. *)
Definition ValidPath (name : string) : bool :=
  bool_decide (name = "."%string)
  || forallb (fun p => negb (bool_decide (p ∈ [""; "."; ".."]%string))) (path_parts name).

Fixpoint strip_parts (dir p : list string) : option (list string) :=
  match dir, p with
  | [], _ :: _ => Some p
  | d :: dir, q :: p => if bool_decide (d = q) then strip_parts dir p else None
  | _, [] => None
  end.

Definition join_parts (ps : list string) : string := string_of (join_bytes slash (bytes_of <$> ps)).

(** [fs.Sub]: the files below [dir], or an error for an invalid path. *)
Definition Sub (f : fsys) (dir : string) : option fsys :=
  if negb (ValidPath dir) then None
  else if bool_decide (dir = "."%string) then Some f
  else Some (omap (fun p => join_parts <$> strip_parts (path_parts dir) (path_parts p)) f).

Definition has_suffix (suf s : string) : bool :=
  bool_decide (bytes_of suf = drop (String.length s - String.length suf) (bytes_of s))
  && (String.length suf <=? String.length s)%nat.

(** [fs.Glob(f, "*.sql")]: the entries of the root that match, directories included. *)
Definition Glob_sql (f : fsys) : list string :=
  filter (fun n => has_suffix ".sql" n = true) (remove_dups (omap (fun p => head (path_parts p)) f)).

(** ** The runner's configuration (migrate.go) *)

Record newOptions := mkNewOptions { versionTable : string; ensureSchema_ : string; sessionLock : bool }.

Definition NewOption := newOptions -> newOptions.
Definition WithVersionTable (name : string) : NewOption :=
  fun o => mkNewOptions name (ensureSchema_ o) (sessionLock o).
Definition WithEnsureSchema (schema : string) : NewOption :=
  fun o => mkNewOptions (versionTable o) schema (sessionLock o).
Definition WithSessionLock : NewOption :=
  fun o => mkNewOptions (versionTable o) (ensureSchema_ o) true.

Record Runner := mkRunner { migrations : fsys; r_opts : newOptions }.

(** What [providerOptions] gives goose. *)
Record provider_config := mkConfig { cfg_table : option string; cfg_lock : bool }.

(** A migration as goose reports it. *)
Record goose_status := mkGooseStatus { gs_version : Z; gs_path : string; gs_applied : bool; gs_at : Z }.

(** [AppliedAt] in seconds since 1970. *)
Record MigrationStatus := mkStatus { Version : Z; Source : string; Applied : bool; AppliedAt : Z }.

Inductive goose_op := GUp | GDown | GUpTo (v : Z) | GDownTo (v : Z).

(** What goose, pgx and Postgres do. [db] is the database behind a DSN; [applied] the
    versions its table records as applied, [has_schema] its schemas. *)
Class Goose := {
  db : Type; gerror : Type;
  sql_Open : string -> option gerror;
  ParseConfig : string -> option gerror;
  Ping : string -> db -> option gerror;
  Exec : string -> db -> option gerror * db;
  Query_schema : string -> db -> result gerror bool;
  sqlstate : gerror -> option string;
  Sanitize : string -> string;
  NewPostgresSessionLocker : option gerror;
  NewProvider : fsys -> provider_config -> db -> option gerror;
  run_goose : fsys -> provider_config -> goose_op -> db -> option gerror * db;
  goose_Status : fsys -> provider_config -> db -> result gerror (list goose_status) * db;
  GetDBVersion : fsys -> provider_config -> db -> result gerror Z * db;
  sources : fsys -> list (Z * string);
  applied : db -> option string -> gset Z;
  has_schema : db -> string -> bool;
  Exec_create : forall s d e d', Exec ("CREATE SCHEMA IF NOT EXISTS " +:+ Sanitize s) d = (e, d') ->
    (forall t, has_schema d t = true -> has_schema d' t = true) /\
    (forall t, applied d' t = applied d t) /\
    match e with
    | None => has_schema d' s = true
    | Some e =>
      (sqlstate e = Some "42P06"%string \/ sqlstate e = Some "23505"%string) -> has_schema d' s = true
    end;
  Query_schema_ok : forall s d b, Query_schema s d = Ok b -> b = has_schema d s;
  goose_Status_ok : forall f c d l d', goose_Status f c d = (Ok l, d') ->
    (forall v p, (v, p) ∈ sources f <-> exists s, s ∈ l /\ gs_version s = v /\ gs_path s = p) /\
    (forall s, s ∈ l -> gs_applied s = bool_decide (gs_version s ∈ applied d (cfg_table c)));
  GetDBVersion_ok : forall f c d v d', GetDBVersion f c d = (Ok v, d') ->
    0 <= v /\ (v = 0 \/ v ∈ applied d (cfg_table c)) /\ forall v', v' ∈ applied d (cfg_table c) -> v' <= v
}.

Inductive error (E : Type) :=
| BadSub (dir : string)
| NoMigrations (dir : string)
| OpenFailed (e : E)
| ParseFailed (e : E)
| ConnectFailed (e : E)
| EnsureFailed (e : E)
| LockerFailed (e : E)
| ProviderFailed (e : E)
| GooseFailed (op : string) (e : E)
| QueryFailed (e : E)
| CheckFailed (e : error E)
| TooOld (have want : Z).
Arguments BadSub {E}. Arguments NoMigrations {E}. Arguments OpenFailed {E}. Arguments ParseFailed {E}.
Arguments ConnectFailed {E}. Arguments EnsureFailed {E}. Arguments LockerFailed {E}.
Arguments ProviderFailed {E}. Arguments GooseFailed {E}. Arguments QueryFailed {E}.
Arguments CheckFailed {E}. Arguments TooOld {E}.

Definition newRunnerDir (dir : string) : string := if bool_decide (dir = ""%string) then "."%string else dir.

Definition New {E} (f : fsys) (dir : string) (opts : list NewOption) : result (error E) Runner :=
  let dir := newRunnerDir dir in
  match Sub f dir with
  | None => Err (BadSub dir)
  | Some sub =>
    if bool_decide (Glob_sql sub = []) then Err (NoMigrations dir)
    else Ok (mkRunner sub (foldl (fun o opt => opt o) (mkNewOptions "" "" false) opts))
  end.

(** [options] of one call: [true] for [PoolerSafe]. *)
Definition Option_ := bool -> bool.
Definition PoolerSafe : Option_ := fun _ => true.
Definition resolve (opts : list Option_) : bool := foldl (fun o opt => opt o) false opts.

(** ** Running against a database *)

(** What was asked of the database and of goose, in order. *)
Inductive action :=
| Executed (stmt : string)
| Asked (op : string) (cfg : provider_config).

Section runner.
Context `{Goose}.

(** [handles]: how many [*sql.DB] were opened; [closed] those closed, in order. *)
Record world := mkWorld { w_db : db; handles : nat; closed : list nat; actions : list action }.

Definition M (A : Type) := world -> result (error gerror) A * world.

Definition close (n : nat) (w : world) : world :=
  mkWorld (w_db w) (handles w) (closed w ++ [n]) (actions w).

Definition act (a : action) (d : db) (w : world) : world :=
  mkWorld d (handles w) (closed w) (actions w ++ [a]).

Definition poolerSafeConnConfig (dsn : string) : option (error gerror) := ParseFailed <$> ParseConfig dsn.

Definition openDB (dsn : string) (poolerSafe : bool) : M nat := fun w =>
  let opened := (Ok (handles w), mkWorld (w_db w) (S (handles w)) (closed w) (actions w)) in
  if negb poolerSafe then
    match sql_Open dsn with Some e => (Err (OpenFailed e), w) | None => opened end
  else
    match poolerSafeConnConfig dsn with Some e => (Err e, w) | None => opened end.

Definition connect (dsn : string) (poolerSafe : bool) : M nat := fun w =>
  match openDB dsn poolerSafe w with
  | (Err e, w) => (Err e, w)
  | (Ok h, w) =>
    match Ping dsn (w_db w) with
    | Some e => (Err (ConnectFailed e), close h w)
    | None => (Ok h, w)
    end
  end.

Definition duplicateSchemaCode : string := "42P06".
Definition uniqueViolationCode : string := "23505".

Definition ensureSchema (schema : string) : M unit := fun w =>
  let stmt := ("CREATE SCHEMA IF NOT EXISTS " +:+ Sanitize schema)%string in
  let '(err, d) := Exec stmt (w_db w) in
  let w := act (Executed stmt) d w in
  match err with
  | None => (Ok tt, w)
  | Some e =>
    if bool_decide (sqlstate e = Some duplicateSchemaCode)
       || bool_decide (sqlstate e = Some uniqueViolationCode)
    then (Ok tt, w)
    else (Err (EnsureFailed e), w)
  end.

Definition providerOptions (r : Runner) : result (error gerror) provider_config :=
  let table :=
    if bool_decide (versionTable (r_opts r) = ""%string) then None else Some (versionTable (r_opts r)) in
  if sessionLock (r_opts r) then
    match NewPostgresSessionLocker with
    | Some e => Err (LockerFailed e)
    | None => Ok (mkConfig table true)
    end
  else Ok (mkConfig table false).

(** A goose Provider owns the handle it was built with: its Close closes it. *)
Record Provider := mkProvider { p_handle : nat; p_fs : fsys; p_config : provider_config }.

Definition newProvider (r : Runner) (dsn : string) (opts : list Option_) : M Provider := fun w =>
  match connect dsn (resolve opts) w with
  | (Err e, w) => (Err e, w)
  | (Ok h, w) =>
    match (if bool_decide (ensureSchema_ (r_opts r) = ""%string) then (Ok tt, w)
           else ensureSchema (ensureSchema_ (r_opts r)) w) with
    | (Err e, w) => (Err e, close h w)
    | (Ok _, w) =>
      match providerOptions r with
      | Err e => (Err e, close h w)
      | Ok cfg =>
        match NewProvider (migrations r) cfg (w_db w) with
        | Some e => (Err (ProviderFailed e), close h w)
        | None => (Ok (mkProvider h (migrations r) cfg), w)
        end
      end
    end
  end.

(** The frame every method repeats: build the provider, defer its Close. *)
Definition with_provider {A} (r : Runner) (dsn : string) (opts : list Option_)
    (body : Provider -> M A) : M A := fun w =>
  match newProvider r dsn opts w with
  | (Err e, w) => (Err e, w)
  | (Ok p, w) => let '(res, w) := body p w in (res, close (p_handle p) w)
  end.

(** [p.Up(ctx)] and the like, with the label its error is wrapped in. *)
Definition goose_run (label : string) (op : goose_op) (p : Provider) : M unit := fun w =>
  let '(err, d) := run_goose (p_fs p) (p_config p) op (w_db w) in
  let w := act (Asked label (p_config p)) d w in
  match err with Some e => (Err (GooseFailed label e), w) | None => (Ok tt, w) end.

Definition Up (r : Runner) dsn opts : M unit := with_provider r dsn opts (goose_run "up" GUp).
Definition Down (r : Runner) dsn opts : M unit := with_provider r dsn opts (goose_run "down" GDown).
Definition Reset (r : Runner) dsn opts : M unit := with_provider r dsn opts (goose_run "reset" (GDownTo 0)).
Definition UpTo (r : Runner) dsn (version : Z) opts : M unit :=
  with_provider r dsn opts (goose_run "up-to" (GUpTo version)).
Definition DownTo (r : Runner) dsn (version : Z) opts : M unit :=
  with_provider r dsn opts (goose_run "down-to" (GDownTo version)).

(** [filepath.Base] of a clean path. *)
Definition Base (p : string) : string := default p (last (path_parts p)).

Definition Status (r : Runner) dsn opts : M (list MigrationStatus) :=
  with_provider r dsn opts (fun p w =>
    let '(res, d) := goose_Status (p_fs p) (p_config p) (w_db w) in
    let w := act (Asked "status" (p_config p)) d w in
    match res with
    | Err e => (Err (GooseFailed "status" e), w)
    | Ok l =>
      (Ok ((fun s => mkStatus (gs_version s) (Base (gs_path s)) (gs_applied s) (gs_at s)) <$> l), w)
    end).

Definition AppliedVersion (r : Runner) dsn opts : M Z :=
  with_provider r dsn opts (fun p w =>
    let '(res, d) := GetDBVersion (p_fs p) (p_config p) (w_db w) in
    let w := act (Asked "version" (p_config p)) d w in
    match res with Err e => (Err (GooseFailed "version" e), w) | Ok v => (Ok v, w) end).

Definition SchemaExists (dsn schema : string) (opts : list Option_) : M bool := fun w =>
  match connect dsn (resolve opts) w with
  | (Err e, w) => (Err e, w)
  | (Ok h, w) =>
    match Query_schema schema (w_db w) with
    | Err e => (Err (QueryFailed e), close h w)
    | Ok b => (Ok b, close h w)
    end
  end.
End runner.

(** ** The table of [WriteStatus] *)

Definition newline : string := String (chr 10) "".

(** [%-24s] *)
Definition left_padded (width : nat) (s : string) : string :=
  s +:+ string_of (replicate (width - String.length s) " "%char).

(** [zone]: the offset of the time's location at an instant. *)
Definition status_line (zone : Z -> Z) (s : MigrationStatus) : string :=
  let appliedAt := if Applied s then ANSIC (zone (AppliedAt s)) (AppliedAt s) else "Pending"%string in
  "    " +:+ left_padded 24 appliedAt +:+ " -- " +:+ Source s +:+ newline.

(** One write after the other; the first that fails ends it. [accepts]: whether the writer
    takes its n-th write. The writes that went through, and whether there was an error. *)
Fixpoint write_lines (accepts : nat -> bool) (n : nat) (lines : list string) : list string * bool :=
  match lines with
  | [] => ([], false)
  | l :: lines =>
    if accepts n then let '(done_, err) := write_lines accepts (S n) lines in (l :: done_, err) else ([], true)
  end.

Definition WriteStatus (accepts : nat -> bool) (zone : Z -> Z) (statuses : list MigrationStatus) : list string * bool :=
  write_lines accepts 0
    (("    Applied At                  Migration" +:+ newline)
     :: ("    =======================================" +:+ newline)
     :: (status_line zone <$> statuses)).

Lemma write_lines_prefix accepts lines : forall n, let '(done_, err) := write_lines accepts n lines in
  done_ = take (length done_) lines /\ (err = false <-> done_ = lines) /\
  (err = true -> accepts (n + length done_)%nat = false) /\ (forall i, (i < length done_)%nat -> accepts (n + i)%nat = true).
Proof.
  induction lines as [|l lines IH]; intros n; cbn [write_lines].
  - split_and!; [done|done|done|]. cbn. lia.
  - destruct (accepts n) eqn:Ha.
    + specialize (IH (S n)). destruct (write_lines accepts (S n) lines) as [d err]. destruct IH as (H1 & H2 & H3 & H4).
      cbn [length take]. split_and!.
      * by f_equal.
      * rewrite H2. split; [by intros ->|by intros [=]].
      * intros He. rewrite <- (H3 He). f_equal. lia.
      * intros [|i] Hi; [by rewrite Nat.add_0_r|]. rewrite <- (H4 i) by lia. f_equal. lia.
    + split_and!; [done|by split|by rewrite Nat.add_0_r|cbn; lia].
Qed.

(** The lines of the table, up to the first write the writer refuses. *)
Lemma WriteStatus_table accepts zone statuses :
  let '(written, err) := WriteStatus accepts zone statuses in
  (err = false <-> length written = S (S (length statuses))) /\
  (forall i s, statuses !! i = Some s -> (S (S i) < length written)%nat -> written !! S (S i) = Some (status_line zone s)).
Proof.
  unfold WriteStatus. set (lines := _ :: _ :: _). pose proof (write_lines_prefix accepts lines 0) as Hp.
  destruct (write_lines accepts 0 lines) as [d err]. destruct Hp as (Hd & He & _ & _).
  assert (length lines = S (S (length statuses))) as Hl by (subst lines; cbn; by rewrite length_fmap). split.
  - rewrite He, <- Hl. split; [by intros ->|]. intros Hlen. by rewrite Hd, Hlen, firstn_all.
  - intros i s Hs Hi. rewrite Hd, lookup_take_lt by done. subst lines.
    change ((status_line zone <$> statuses) !! i = Some (status_line zone s)). by rewrite list_lookup_fmap, Hs.
Qed.

Example status_lines :
  WriteStatus (fun _ => true) (fun _ => 0)
    [mkStatus 1 "00001_widget.sql" true 951825599; mkStatus 2 "00002_gadget.sql" false 0]
  = ([("    Applied At                  Migration" +:+ newline); ("    =======================================" +:+ newline);
      ("    Tue Feb 29 11:59:59 2000 -- 00001_widget.sql" +:+ newline);
      ("    Pending                  -- 00002_gadget.sql" +:+ newline)]%string, false).
Proof. vm_compute. reflexivity. Qed.

(** ** The identity schema (identity/migrate) *)

Module Identity.
Section identity.
Context `{Goose}.

Definition migrationsFS : fsys :=
  ["migrations/00001_identity_baseline.sql"; "migrations/00002_identity_mfa.sql";
   "migrations/00003_identity_webauthn.sql"; "migrations/00004_identity_sessions.sql";
   "migrations/00005_identity_member_pin.sql"]%string.

Definition identity_versionTable : string := "identity.goose_db_version".
Definition schemaName : string := "identity".

Definition New_identity : result (error gerror) Runner :=
  New migrationsFS "migrations"
    [WithVersionTable identity_versionTable; WithEnsureSchema schemaName; WithSessionLock].

(** The loop over the statuses: the highest applied version, from 0. *)
Definition highest_applied (l : list MigrationStatus) : Z :=
  foldl (fun applied s => if Applied s && (applied <? Version s) then Version s else applied) 0 l.

Definition RequireVersion (dsn : string) (minVersion : Z) : M unit := fun w =>
  match New migrationsFS "migrations"
          [WithVersionTable identity_versionTable; WithEnsureSchema schemaName] with
  | Err e => (Err e, w)
  | Ok r =>
    match Status r dsn [] w with
    | (Err e, w) => (Err (CheckFailed e), w)
    | (Ok l, w) =>
      let applied := highest_applied l in
      if applied <? minVersion then (Err (TooOld applied minVersion), w) else (Ok tt, w)
    end
  end.
End identity.
End Identity.
