(* ===== verification/MigrateSpec.v ===== *)
(** Packages db/migrate and identity/migrate, what they promise: no path leaks or
    double-closes a handle, and the boot guard lets a binary start exactly when the
    schema is new enough, without taking the migration lock. *)

From S2P Require Import Prelude GoStrings Migrate.
Local Open Scope Z_scope.

(** ** Handles *)

Section runs.
Context `{Goose}.
Implicit Types (w : world) (r : Runner).

(** Every handle opened so far is closed, once, in the order of opening. *)
Definition tidy (w : world) : Prop := closed w = seq 0 (handles w).

(** A call that may have opened the handle [h]: it did and closed it, or it did not. *)
Definition balanced {A} (m : M A) : Prop := forall w, tidy w -> tidy (m w).2.

(** Between building a provider and closing it, one handle is open. *)
Definition holding (h : nat) (w : world) : Prop := handles w = S h /\ closed w = seq 0 h.

Lemma close_tidy h w : holding h w -> tidy (close h w).
Proof. intros [Hh Hc]. unfold tidy. simpl. rewrite Hh, Hc. by rewrite seq_S. Qed.

(** What a step that opens nothing leaves as it was, and what it does to the database
    short of running migrations. *)
Record quiet (w w' : world) : Prop := {
  quiet_handles : handles w' = handles w;
  quiet_closed : closed w' = closed w;
  quiet_applied : forall t, applied (w_db w') t = applied (w_db w) t;
  quiet_schemas : forall s, has_schema (w_db w) s = true -> has_schema (w_db w') s = true;
  quiet_asked : forall op cfg, Asked op cfg ∈ actions w' -> Asked op cfg ∈ actions w
}.

Lemma quiet_holding h w w' : quiet w w' -> holding h w -> holding h w'.
Proof. intros Hq [Hh Hc]. destruct Hq as [Hh' Hc' _ _ _]. split; congruence. Qed.

Lemma openDB_spec dsn b w :
  match openDB dsn b w with
  | (Ok h, w') => h = handles w /\ handles w' = S h /\ closed w' = closed w /\
                  w_db w' = w_db w /\ actions w' = actions w
  | (Err _, w') => w' = w
  end.
Proof.
  unfold openDB. destruct (negb b); [destruct (sql_Open dsn)|destruct (poolerSafeConnConfig dsn)]; done.
Qed.

Lemma connect_spec dsn b w :
  tidy w ->
  match connect dsn b w with
  | (Ok h, w') => holding h w' /\ w_db w' = w_db w /\ actions w' = actions w
  | (Err _, w') => tidy w' /\ w_db w' = w_db w /\ actions w' = actions w
  end.
Proof.
  intros Ht. unfold connect. pose proof (openDB_spec dsn b w) as Ho.
  destruct (openDB dsn b w) as [[h|e] w1]; [|by subst].
  destruct Ho as (Hh & Hn & Hc & Hd & Ha). rewrite Hd.
  assert (holding h w1) as Hhold by (split; [done|]; rewrite Hc, Ht; by subst).
  destruct (Ping dsn (w_db w)); [|done]. split_and!; [by apply close_tidy|done..].
Qed.

Lemma ensureSchema_spec s w :
  let '(res, w') := ensureSchema s w in
  quiet w w' /\ (res = Ok tt -> has_schema (w_db w') s = true).
Proof.
  unfold ensureSchema. destruct (Exec _ (w_db w)) as [e d] eqn:He.
  destruct (Exec_create _ _ _ _ He) as (Hs & Ha & Hr).
  assert (forall stmt, quiet w (act (Executed stmt) d w)) as Hq.
  { intros stmt. split; simpl; [done|done|exact Ha|exact Hs|].
    intros op cfg [?|?%list_elem_of_singleton]%elem_of_app; done. }
  destruct e as [e|]; [|done].
  destruct (_ || _) eqn:Hcode; (split; [done|]); [|done].
  intros _. apply Hr. apply orb_true_iff in Hcode as [Hc|Hc]; apply bool_decide_eq_true in Hc; auto.
Qed.

(** The configuration of a provider is the runner's. *)
Definition configured (r : Runner) (p : Provider) : Prop :=
  p_fs p = migrations r /\
  p_config p = mkConfig (if bool_decide (versionTable (r_opts r) = ""%string) then None
                         else Some (versionTable (r_opts r))) (sessionLock (r_opts r)).

Lemma providerOptions_spec r cfg :
  providerOptions r = Ok cfg ->
  cfg = mkConfig (if bool_decide (versionTable (r_opts r) = ""%string) then None
                  else Some (versionTable (r_opts r))) (sessionLock (r_opts r)).
Proof.
  unfold providerOptions. destruct (sessionLock _); [destruct NewPostgresSessionLocker|]; by intros [= <-].
Qed.

Lemma newProvider_spec r dsn opts w :
  tidy w ->
  let '(res, w') := newProvider r dsn opts w in
  (forall t, applied (w_db w') t = applied (w_db w) t) /\
  (forall s, has_schema (w_db w) s = true -> has_schema (w_db w') s = true) /\
  (forall op cfg, Asked op cfg ∈ actions w' -> Asked op cfg ∈ actions w) /\
  match res with
  | Ok p => holding (p_handle p) w' /\ configured r p /\
            (ensureSchema_ (r_opts r) <> ""%string ->
             has_schema (w_db w') (ensureSchema_ (r_opts r)) = true)
  | Err _ => tidy w'
  end.
Proof.
  intros Ht. unfold newProvider. pose proof (connect_spec dsn (resolve opts) w Ht) as Hc.
  destruct (connect dsn (resolve opts) w) as [[h|e] w1].
  2: { destruct Hc as (Ht' & -> & ->). done. }
  destruct Hc as (Hh & Hd & Ha). rewrite <- Hd, <- Ha. clear Ht Hd Ha w. rename w1 into w.
  set (es := if bool_decide _ then _ else _).
  assert (let '(res, w') := es in quiet w w' /\
          (res = Ok tt -> ensureSchema_ (r_opts r) <> ""%string ->
           has_schema (w_db w') (ensureSchema_ (r_opts r)) = true)) as Hes.
  { subst es. case_bool_decide as Hemp; [|pose proof (ensureSchema_spec (ensureSchema_ (r_opts r)) w) as Hs].
    - split; [by split|]. by intros _ ?.
    - destruct (ensureSchema _ w) as [res w']. destruct Hs as [? Hs]. split; [done|]. auto. }
  clearbody es. destruct es as [[[]|e] w1]; destruct Hes as [Hq Hs];
    pose proof (quiet_holding _ _ _ Hq Hh) as Hh1; destruct Hq as [_ _ Hap Hsch Hask].
  2: { split_and!; [done..|by apply close_tidy]. }
  destruct (providerOptions r) as [cfg|e] eqn:Hp.
  2: { split_and!; [done..|by apply close_tidy]. }
  apply providerOptions_spec in Hp.
  destruct (NewProvider _ _ _); split_and!; try done; [by apply close_tidy|by apply Hs].
Qed.

Lemma with_provider_balanced {A} r dsn opts (body : Provider -> M A) :
  (forall p w h, holding h w -> holding h (body p w).2) -> balanced (with_provider r dsn opts body).
Proof.
  intros Hb w Ht. unfold with_provider. pose proof (newProvider_spec r dsn opts w Ht) as Hp.
  destruct (newProvider r dsn opts w) as [[p|e] w1]; destruct Hp as (_ & _ & _ & Hp); [|done].
  destruct Hp as [Hh _]. pose proof (Hb p w1 _ Hh) as Hh'.
  destruct (body p w1) as [res w2]. by apply close_tidy.
Qed.

Lemma goose_run_holding label op p w h : holding h w -> holding h (goose_run label op p w).2.
Proof. unfold goose_run. by destruct (run_goose _ _ _ _) as [[e|] d]. Qed.

Lemma Status_balanced r dsn opts : balanced (Status r dsn opts).
Proof. apply with_provider_balanced. intros p w h. by destruct (goose_Status _ _ _) as [[l|e] d]. Qed.

Lemma AppliedVersion_balanced r dsn opts : balanced (AppliedVersion r dsn opts).
Proof. apply with_provider_balanced. intros p w h. by destruct (GetDBVersion _ _ _) as [[v|e] d]. Qed.

Lemma goose_run_balanced r dsn opts label op : balanced (with_provider r dsn opts (goose_run label op)).
Proof. apply with_provider_balanced. intros. by apply goose_run_holding. Qed.

Lemma SchemaExists_balanced dsn s opts : balanced (SchemaExists dsn s opts).
Proof.
  intros w Ht. unfold SchemaExists. pose proof (connect_spec dsn (resolve opts) w Ht) as Hc.
  destruct (connect dsn (resolve opts) w) as [[h|e] w1]; destruct Hc as (Hh & _); [|done].
  destruct (Query_schema s (w_db w1)); by apply close_tidy.
Qed.
End runs.

(** ** The boot guard *)

Import Identity.

(** The embedded migrations, rooted at their directory. *)
Definition identityFS : fsys :=
  ["00001_identity_baseline.sql"; "00002_identity_mfa.sql"; "00003_identity_webauthn.sql";
   "00004_identity_sessions.sql"; "00005_identity_member_pin.sql"]%string.

Section guard.
Context `{Goose}.
Implicit Types (w : world).

Lemma New_unlocked :
  New (E := gerror) migrationsFS "migrations"
    [WithVersionTable identity_versionTable; WithEnsureSchema schemaName] =
  Ok (mkRunner identityFS (mkNewOptions identity_versionTable schemaName false)).
Proof. vm_compute. reflexivity. Qed.

Lemma New_identity_ok :
  New_identity = Ok (mkRunner identityFS (mkNewOptions identity_versionTable schemaName true)).
Proof. vm_compute. reflexivity. Qed.

Lemma highest_applied_spec l :
  0 <= highest_applied l /\
  (highest_applied l = 0 \/ exists s, s ∈ l /\ Applied s = true /\ Version s = highest_applied l) /\
  forall s, s ∈ l -> Applied s = true -> Version s <= highest_applied l.
Proof.
  unfold highest_applied. set (step := fun _ _ => _).
  enough (forall a, 0 <= a -> let h := foldl step a l in
    a <= h /\ (h = a \/ exists s, s ∈ l /\ Applied s = true /\ Version s = h) /\
    forall s, s ∈ l -> Applied s = true -> Version s <= h) as Hgen by exact (Hgen 0 (Z.le_refl 0)).
  induction l as [|x l IH]; intros a Ha; simpl.
  { split_and!; [lia|by left|]. by intros s ?%not_elem_of_nil. }
  assert (a <= step a x /\ (Applied x = true -> Version x <= step a x) /\
          (step a x = a \/ Applied x = true /\ Version x = step a x)) as (Hle & Hx & Hor).
  { subst step. simpl. destruct (Applied x); simpl; [|split_and!; [lia|done|by left]].
    destruct (a <? Version x) eqn:Hlt; to_prop; split_and!; try lia; auto. }
  destruct (IH (step a x)) as (H1 & H2 & H3); [lia|]. split_and!; [lia| |].
  - destruct H2 as [->|(s & ? & ?)]; [|right; exists s; set_solver].
    destruct Hor as [->|[? ?]]; [by left|right]. exists x. set_solver.
  - intros s [->|Hs]%elem_of_cons Hs'; [|by apply H3]. specialize (Hx Hs'). lia.
Qed.

(** The versions a binary knows that the identity table records as applied. *)
Definition known_applied (d : db) (v : Z) : Prop :=
  v ∈ applied d (Some identity_versionTable) /\ exists p, (v, p) ∈ sources identityFS.

Lemma Status_spec r dsn w :
  tidy w -> ensureSchema_ (r_opts r) <> ""%string -> versionTable (r_opts r) <> ""%string ->
  let '(res, w') := Status r dsn [] w in
  (forall op cfg, Asked op cfg ∈ actions w' ->
     Asked op cfg ∈ actions w \/ cfg_lock cfg = sessionLock (r_opts r)) /\
  match res with
  | Ok l => forall v,
      (exists s, s ∈ l /\ Applied s = true /\ Version s = v) <->
      v ∈ applied (w_db w) (Some (versionTable (r_opts r))) /\
      exists p, (v, p) ∈ sources (migrations r)
  | Err _ => True
  end.
Proof.
  intros Ht Hs Hv. unfold Status, with_provider. pose proof (newProvider_spec r dsn [] w Ht) as Hp.
  destruct (newProvider r dsn [] w) as [[p|e] w1]; destruct Hp as (Hap & _ & Hask & Hp).
  2: { split; [|done]. intros op cfg ?. left. eauto. }
  destruct Hp as (_ & [Hfs Hcfg] & _). rewrite bool_decide_false in Hcfg by done.
  destruct (goose_Status _ _ _) as [res d] eqn:Hst.
  assert (forall op cfg, Asked op cfg ∈ actions w1 ++ [Asked "status" (p_config p)] ->
    Asked op cfg ∈ actions w \/ cfg_lock cfg = sessionLock (r_opts r)) as Hact.
  { intros op cfg [?|[= -> ->]%list_elem_of_singleton]%elem_of_app; [left; eauto|].
    right. by rewrite Hcfg. }
  destruct res as [l|e]; (split; [exact Hact|]); [|done].
  destruct (goose_Status_ok _ _ _ _ _ Hst) as [Hsrc Happ]. rewrite Hcfg, Hfs in *. simpl in Happ.
  intros v. rewrite <- Hap. split.
  - intros (s & (g & -> & Hg)%list_elem_of_fmap & Ha & <-). simpl in *. split.
    + by rewrite (Happ _ Hg), bool_decide_eq_true in Ha.
    + exists (gs_path g). apply Hsrc. eauto.
  - intros (Ha & p0 & (g & Hg & <- & <-)%Hsrc). eexists. split; [by apply list_elem_of_fmap; eauto|].
    simpl. split; [|done]. by rewrite (Happ _ Hg), bool_decide_eq_true.
Qed.

Lemma RequireVersion_eq dsn minv w :
  RequireVersion dsn minv w =
  match Status (mkRunner identityFS (mkNewOptions identity_versionTable schemaName false)) dsn [] w with
  | (Err e, w) => (Err (CheckFailed e), w)
  | (Ok l, w) =>
    if highest_applied l <? minv then (Err (TooOld (highest_applied l) minv), w) else (Ok tt, w)
  end.
Proof. unfold RequireVersion. by rewrite New_unlocked. Qed.

Lemma RequireVersion_answer dsn minv w :
  tidy w ->
  let '(res, w') := RequireVersion dsn minv w in
  (forall op cfg, Asked op cfg ∈ actions w' -> Asked op cfg ∈ actions w \/ cfg_lock cfg = false) /\
  match res with
  | Err (CheckFailed _) => True
  | _ => exists h, 0 <= h /\ (h = 0 \/ known_applied (w_db w) h) /\
      (forall v, known_applied (w_db w) v -> v <= h) /\
      res = if h <? minv then Err (TooOld h minv) else Ok tt
  end.
Proof.
  intros Ht. rewrite RequireVersion_eq. set (r := mkRunner _ _).
  pose proof (Status_spec r dsn w Ht ltac:(done) ltac:(done)) as Hst.
  destruct (Status r dsn [] w) as [[l|e] w']; destruct Hst as [Hask Hl]; [|by split].
  destruct (highest_applied_spec l) as (H1 & H2 & H3).
  assert (exists h, 0 <= h /\ (h = 0 \/ known_applied (w_db w) h) /\
    (forall v, known_applied (w_db w) v -> v <= h) /\ h = highest_applied l) as (h & ? & ? & ? & <-).
  { exists (highest_applied l). split_and!; [done| |intros v Hv|done].
    - destruct H2 as [?|(s & ? & ? & ?)]; [by left|right]. apply Hl. eauto.
    - apply Hl in Hv as (s & ? & ? & <-). by apply H3. }
  destruct (h <? minv) eqn:Hlt; (split; [done|]); exists h; by rewrite Hlt.
Qed.
End guard.

(** ** The guarantees *)

(** The package's entry points, each with its runner and arguments. *)
Inductive call :=
| CUp (r : Runner) | CDown (r : Runner) | CReset (r : Runner)
| CUpTo (r : Runner) (v : Z) | CDownTo (r : Runner) (v : Z)
| CStatus (r : Runner) | CAppliedVersion (r : Runner)
| CSchemaExists (schema : string) | CRequireVersion (min : Z).

Definition run_call `{Goose} (dsn : string) (opts : list Option_) (w : world) (c : call) : world :=
  match c with
  | CUp r => (Up r dsn opts w).2
  | CDown r => (Down r dsn opts w).2
  | CReset r => (Reset r dsn opts w).2
  | CUpTo r v => (UpTo r dsn v opts w).2
  | CDownTo r v => (DownTo r dsn v opts w).2
  | CStatus r => (Status r dsn opts w).2
  | CAppliedVersion r => (AppliedVersion r dsn opts w).2
  | CSchemaExists s => (SchemaExists dsn s opts w).2
  | CRequireVersion v => (RequireVersion dsn v w).2
  end.

(** C31. Whatever the database and goose answer, after any sequence of calls every handle
    that was opened has been closed, exactly once. *)
Theorem handles_closed `{Goose} dsn opts d calls :
  let w := foldl (run_call dsn opts) (mkWorld d 0 [] []) calls in
  closed w = seq 0 (handles w).
Proof.
  simpl. assert (tidy (mkWorld d 0 [] [])) as Ht by done. revert Ht.
  generalize (mkWorld d 0 [] []). induction calls as [|c calls IH]; intros w Ht; [done|].
  apply IH. clear IH. destruct c; simpl.
  1-5: by apply goose_run_balanced.
  - by apply Status_balanced.
  - by apply AppliedVersion_balanced.
  - by apply SchemaExists_balanced.
  - rewrite RequireVersion_eq. set (r := mkRunner _ _). pose proof (Status_balanced r dsn [] w Ht) as Hs.
    destruct (Status r dsn [] w) as [[l|e] w']; [|done]. by destruct (_ <? _).
Qed.

(** C23. The boot guard never asks for the migration lock. It lets a binary start only if
    the version the database records is at least the minimum; it refuses with the
    highest recorded version this binary knows, which is below the minimum, and is the
    recorded version unless a newer binary has migrated the schema. *)
Theorem boot_guard `{Goose} r dsn minv w v w1 :
  tidy w -> New_identity = Ok r -> AppliedVersion r dsn [] w = (Ok v, w1) ->
  let '(res, w') := RequireVersion dsn minv w in
  (forall op cfg, Asked op cfg ∈ actions w' -> Asked op cfg ∈ actions w \/ cfg_lock cfg = false) /\
  match res with
  | Ok _ => minv <= v
  | Err (TooOld have want) =>
    want = minv /\ have < minv /\ have <= v /\
    ((forall v', v' ∈ applied (w_db w) (Some identity_versionTable) -> 0 < v' ->
      exists p, (v', p) ∈ sources identityFS) -> have = v)
  | Err (CheckFailed _) => True
  | Err _ => False
  end.
Proof.
  intros Ht Hr Hv. rewrite New_identity_ok in Hr. injection Hr as <-.
  pose proof (RequireVersion_answer dsn minv w Ht) as Ha.
  destruct (RequireVersion dsn minv w) as [res w']. destruct Ha as [Hask Ha]. split; [done|].
  unfold AppliedVersion, with_provider in Hv. set (r := mkRunner _ _) in Hv.
  pose proof (newProvider_spec r dsn [] w Ht) as Hp.
  destruct (newProvider r dsn [] w) as [[p|e] w2]; [|done].
  destruct Hp as (Hap & _ & _ & _ & [_ Hcfg] & _).
  destruct (GetDBVersion _ _ _) as [[v'|e] d] eqn:Hg; [|done]. injection Hv as -> _.
  destruct (GetDBVersion_ok _ _ _ _ _ Hg) as (Hpos & Hin & Hmax).
  rewrite Hcfg in Hin, Hmax. simpl in Hin, Hmax. rewrite Hap in Hin, Hmax.
  assert (forall h, h = 0 \/ known_applied (w_db w) h -> h <= v) as Hle.
  { intros h [->|[Hh _]]; [done|]. by apply Hmax. }
  destruct res as [[]|[]]; try done; destruct Ha as (h & Hh & Hk & Hall & Heq);
    destruct (h <? minv) eqn:Hlt; to_prop; try done; specialize (Hle h Hk).
  - lia.
  - injection Heq as -> ->. split_and!; [done..|]. intros Hknown.
    destruct Hin as [->|Hin]; [lia|]. destruct (decide (v = 0)) as [->|]; [lia|].
    destruct (Hknown v Hin ltac:(lia)) as [src Hs]. specialize (Hall v (conj Hin (ex_intro _ src Hs))). lia.
Qed.

(** ** A concrete database *)

Module MigrateWitness.

(** A database is the versions applied in the identity table and whether the schema
    exists; one migration set is known. *)
#[local] Instance toy_goose : Goose.
Proof.
  refine {|
    db := list Z * bool; gerror := unit;
    sql_Open := fun _ => None; ParseConfig := fun _ => None; Ping := fun _ _ => None;
    Exec := fun _ d => (None, (d.1, true)); Query_schema := fun _ d => Ok d.2;
    sqlstate := fun _ => None; Sanitize := fun s => s; NewPostgresSessionLocker := None;
    NewProvider := fun _ _ _ => None; run_goose := fun _ _ _ d => (None, d);
    goose_Status := fun f _ d =>
      (Ok (imap (fun i p => mkGooseStatus (Z.of_nat i + 1) p
                   (bool_decide (Z.of_nat i + 1 ∈ d.1)) 0) f), d);
    GetDBVersion := fun _ _ d => (Ok (foldr Z.max 0 d.1), d);
    sources := imap (fun i p => (Z.of_nat i + 1, p));
    applied := fun d _ => list_to_set d.1; has_schema := fun d _ => d.2
  |}.
  - by intros s d e d' [= <- <-].
  - by intros s d b [= <-].
  - intros f c d l d' [= <- <-]. split.
    + intros v p. rewrite !elem_of_lookup_imap. split.
      * intros (i & x & [= -> ->] & Hi). eexists. split; [apply elem_of_lookup_imap; eauto|done].
      * intros (s & (i & x & -> & Hi)%elem_of_lookup_imap & <- & <-). eauto.
    + intros s (i & x & -> & Hi)%elem_of_lookup_imap. simpl. by rewrite (bool_decide_ext _ _ (elem_of_list_to_set _ _)).
  - intros f c [l b] v d' [= <- <-]. simpl. clear. induction l as [|x l (H1 & H2 & H3)]; simpl.
    { split_and!; [done|by left|set_solver]. }
    split_and!; [lia| |intros v' Hv'; rewrite elem_of_union, elem_of_singleton in Hv'; destruct Hv' as [->|Hv'%H3]; lia].
    destruct (Z.max_spec x (foldr Z.max 0 l)) as [[? ->]|[? ->]]; [|set_solver].
    destruct H2; [by left|set_solver].
Defined.

Definition at_version_two : world := @mkWorld toy_goose ([0; 1; 2], true) 0 [] [].

Definition identity_runner : Runner :=
  mkRunner identityFS (mkNewOptions identity_versionTable schemaName true).

Lemma recorded_version :
  AppliedVersion identity_runner "dsn" [] at_version_two =
  (Ok 2, (AppliedVersion identity_runner "dsn" [] at_version_two).2).
Proof. reflexivity. Qed.

(** The check is not read-only: on an empty database it creates the schema. *)
Example guard_creates_schema :
  let '(res, w') := RequireVersion "dsn" 1 (@mkWorld toy_goose ([], false) 0 [] []) in
  res = Err (TooOld 0 1) /\ has_schema (w_db w') "identity" = true.
Proof. split; reflexivity. Qed.

Lemma boot_guard_witness :
  (RequireVersion "dsn" 3 at_version_two).1 = Err (TooOld 2 3) /\
  (RequireVersion "dsn" 1 at_version_two).1 = Ok tt /\
  let '(res, w') := RequireVersion "dsn" 3 at_version_two in
  forall op cfg, Asked op cfg ∈ actions w' -> Asked op cfg ∈ [] \/ cfg_lock cfg = false.
Proof.
  split; [reflexivity|]. split; [reflexivity|].
  exact (proj1 (boot_guard _ "dsn" 3 at_version_two 2 _ eq_refl New_identity_ok recorded_version)).
Defined.
End MigrateWitness.
