(* ===== verification/Web.v ===== *)
(** What reaches a browser besides the middleware: rendering (src/render/render.go),
    static files (src/ui/static/embed.go and [StaticFileServer] of
    src/httpserver/server.go) and QR codes (src/qrcode/qrcode.go).

    Results: a page that fails to render commits nothing, so that the caller can still
    answer; the two variants of a page are told apart by the header that says so; only an
    embedded file is ever cached for a year; a QR code is the PNG that was drawn, at the
    size asked for. *)

From S2P Require Import Prelude GoStrings GoEncoding GoNet GoConv Config Migrate Http HttpSpec.
Local Open Scope Z_scope.

(** ** Rendering *)

Section render.
Context {error : Type}.

(** A templ component under a request's context: what it wrote before it ended, and its
    error, if any. *)
Definition Component : Type := Context -> string * option error.

Inductive render_error := RenderFailed (e : error) | WriteFailed.

(** [HX-Request] in its canonical form. *)
Definition IsHTMX (r : Request) : bool := bool_decide (HeaderGet r "Hx-Request" = "true"%string).

(** [accepts body]: how many bytes of it the client's connection takes. An empty buffer
    is not written at all. *)
Definition Render (accepts : string -> Z) (ctx : Context) (status : Z) (c : Component) : list act * option render_error :=
  let '(buf, err) := c ctx in
  match err with
  | Some e => ([], Some (RenderFailed e))
  | None =>
    let n := accepts buf in
    ([SetHeader "Content-Type" "text/html; charset=utf-8"; WriteHeader status]
     ++ when (negb (bool_decide (buf = ""%string))) (Write buf n),
     if bool_decide (buf = ""%string) || (n =? Z.of_nat (String.length buf)) then None else Some WriteFailed)
  end.

Definition Page (accepts : string -> Z) (ctx : Context) (r : Request) (layout : Component -> Component)
    (content : Component) : list act * option render_error :=
  let '(acts, err) := if IsHTMX r then Render accepts ctx 200 content else Render accepts ctx 200 (layout content) in
  (SetHeader "Vary" "HX-Request" :: acts, err).
End render.

(** ** Static files *)

(** [http.NotFound] *)
Definition NotFound : Handler := fun _ _ =>
  ([SetHeader "Content-Type" "text/plain; charset=utf-8"; SetHeader "X-Content-Type-Options" "nosniff";
    WriteHeader 404; Write ("404 page not found" +:+ String (chr 10) "") 19], Returns).

Definition MountPath : string := "/hearth-static/".

(** What is at a path of an [embed.FS]: a file or a directory. *)
Inductive entry := IsFile | IsDir.

Definition Stat (f : fsys) (name : string) : option entry :=
  if negb (ValidPath name) then None
  else if bool_decide (name ∈ f) then Some IsFile
  else if bool_decide (name = "."%string)
          || existsb (fun p => bool_decide (is_Some (strip_parts (path_parts name) (path_parts p)))) f
       then Some IsDir
       else None.

Definition TrimPrefixSlash (s : string) : string :=
  match s with String c s' => if Ascii.eqb c slash then s' else s | EmptyString => s end.

(** [files] is [http.FileServerFS] over the same assets. *)
Definition Handler_static (assets : fsys) (files : Handler) : Handler := fun w r =>
  let path := r_Path r in
  if bool_decide (path = ""%string) || has_suffix "/" path then NotFound w r
  else
    match Stat assets (TrimPrefixSlash path) with
    | Some IsFile =>
      let '(acts, e) := files w r in
      (SetHeader "Cache-Control" "public, max-age=31536000, immutable" :: acts, e)
    | _ => NotFound w r
    end.

Definition staticCacheControl : string := "public, max-age=3600".

Definition StaticFileServer (files : Handler) : Handler := fun w r =>
  let '(acts, e) := files w r in
  (SetHeader "Cache-Control" staticCacheControl :: SetHeader "X-Content-Type-Options" "nosniff" :: acts, e).

(** ** QR codes *)

(** The encoder and its PNG writer, at so many pixels a module. *)
Class QrLib := {
  qr_error : Type;
  qr_code : Type;
  qr_New : string -> result qr_error qr_code;
  qr_Save : qr_code -> Z -> result qr_error (list Z)
}.

Section qr.
Context `{QrLib}.

Inductive png_error := ErrInvalidModuleSize (got : Z) | QrEncode (e : qr_error) | QrRender (e : qr_error).

Definition dataURIPrefix : bytes := bytes_of "data:image/png;base64,".

(** [base64.StdEncoding]: padded to a multiple of four. *)
Definition base64_padding (b : list Z) : bytes := replicate ((3 - length b mod 3) mod 3) "="%char.
Definition base64_std (b : list Z) : bytes := base64_encode b ++ base64_padding b.

(** [uint8(n)] *)
Definition u8 (n : Z) : Z := n mod 256.

Definition PNGDataURI (content : string) (moduleSize : Z) : result png_error bytes :=
  if (moduleSize <=? 0) || (255 <? moduleSize) then Err (ErrInvalidModuleSize moduleSize)
  else
    res_bind (res_map_err QrEncode (qr_New content)) (fun code =>
    res_bind (res_map_err QrRender (qr_Save code (u8 moduleSize))) (fun png =>
    Ok (dataURIPrefix ++ base64_std png))).
End qr.

(** ** A page is sent whole or not at all *)

Section page.
Context {error : Type}.
Implicit Types (c content : Component (error := error)).

(** The component a request gets. *)
Definition variant (r : Request) (layout : Component -> Component) content : Component :=
  if IsHTMX r then content else layout content.

Lemma Page_variant accepts ctx r layout content : Page accepts ctx r layout content =
  let '(acts, err) := Render accepts ctx 200 (variant r layout content) in (SetHeader "Vary" "HX-Request" :: acts, err).
Proof. unfold Page, variant. by destruct (IsHTMX r). Qed.

(** A page goes out whole or not at all. When the component of the request's variant
    (the bare fragment for HTMX, else the layout around it) renders, the response is a 200 of
    type HTML whose body is exactly what it wrote, marked as varying by HX-Request. When it
    fails, however much it had written, no status and no byte has been sent, and whatever the
    caller answers instead is what the client receives. *)
Theorem Page_atomic (accepts : string -> Z) (ctx : Context) (r : Request) (layout : Component -> Component)
    (content : Component) (status : Z) (answer : string) :
  let '(acts, err) := Page accepts ctx r layout content in
  let '(buf, failed) := variant r layout content ctx in
  match failed with
  | None =>
    (exists h, rs_sent (finished (serve acts)) = Some (200, h) /\
       h !! "Content-Type"%string = Some "text/html; charset=utf-8"%string /\ h !! "Vary"%string = Some "HX-Request"%string) /\
    rs_body (finished (serve acts)) = buf /\
    (accepts buf = Z.of_nat (String.length buf) -> err = None)
  | Some e =>
    err = Some (RenderFailed e) /\ rs_sent (serve acts) = None /\ rs_body (serve acts) = ""%string /\
    (200 <= status -> exists h,
       rs_sent (finished (serve (acts ++ [WriteHeader status; Write answer (Z.of_nat (String.length answer))]))) = Some (status, h) /\
       rs_body (finished (serve (acts ++ [WriteHeader status; Write answer (Z.of_nat (String.length answer))]))) = answer)
  end.
Proof.
  rewrite Page_variant. unfold Render. destruct (variant r layout content ctx) as [buf [e|]].
  - split_and!; try done. intros Hst. unfold serve, finished. cbn.
    unfold informational. destruct (Z.leb_spec status 199); [lia|]. rewrite andb_false_r. cbn. eauto.
  - unfold when, serve, finished. case_bool_decide as Hb; subst; cbn.
    + split_and!; try done. eexists. split; [done|]. by rewrite lookup_insert_eq, lookup_insert_ne, lookup_insert_eq.
    + split_and!; try done.
      * eexists. split; [done|]. by rewrite lookup_insert_eq, lookup_insert_ne, lookup_insert_eq.
      * intros ->. by rewrite Z.eqb_refl.
Qed.
End page.

(** ** What is cached, and for how long *)

Definition cache_control (acts : list act) : list string :=
  omap (fun a => match a with SetHeader "Cache-Control" v => Some v | _ => None end) acts.

Lemma Stat_file f name : Stat f name = Some IsFile -> name ∈ f /\ ".."%string ∉ path_parts name.
Proof.
  unfold Stat. destruct (ValidPath name) eqn:Hv; [|done]. cbn [negb]. case_bool_decide as Hin; [|by case_match].
  intros _. split; [done|]. unfold ValidPath in Hv. apply orb_prop in Hv as [Hd|Hv].
  - apply bool_decide_eq_true in Hd as ->. by apply (bool_decide_unpack _).
  - rewrite forallb_forall in Hv. intros Hin'. apply list_elem_of_In, Hv in Hin'. done.
Qed.

Lemma NotFound_answer w r : cache_control (NotFound w r).1 = [] /\ (NotFound w r).2 = Returns /\
  exists h, rs_sent (finished (serve (NotFound w r).1)) = Some (404, h).
Proof. split_and!; [done|done|by eexists]. Qed.

(** The embedded assets are cached for a year exactly when they are there: a request for
    a file of the embedded tree is handed to the file server with that header set first; any
    other request, a directory, an empty path, one that climbs out of the tree or a file that
    does not exist yet, is a 404 without any caching header. *)
Theorem static_cached (assets : fsys) (files : Handler) (w : writer) (r : Request) :
  let '(acts, e) := Handler_static assets files w r in
  let name := TrimPrefixSlash (r_Path r) in
  (Stat assets name = Some IsFile /\ has_suffix "/" (r_Path r) = false ->
     acts = SetHeader "Cache-Control" "public, max-age=31536000, immutable" :: (files w r).1 /\ e = (files w r).2) /\
  (~ (Stat assets name = Some IsFile /\ has_suffix "/" (r_Path r) = false) ->
     cache_control acts = [] /\ e = Returns /\ exists h, rs_sent (finished (serve acts)) = Some (404, h)) /\
  (Stat assets name = Some IsFile -> name ∈ assets /\ ".."%string ∉ path_parts name).
Proof.
  unfold Handler_static.
  assert (forall acts e, (acts, e) = NotFound w r -> cache_control acts = [] /\ e = Returns /\
    exists h, rs_sent (finished (serve acts)) = Some (404, h)) as Hnf
    by (intros acts e Hn; pose proof (NotFound_answer w r) as H; by rewrite <- Hn in H).
  destruct (bool_decide (r_Path r = ""%string) || has_suffix "/" (r_Path r)) eqn:Hdir.
  - destruct (NotFound w r) as [acts e]. split_and!; [|intros _; by apply Hnf|apply Stat_file].
    intros [Hs Hsuf]. rewrite Hsuf, orb_false_r in Hdir. apply bool_decide_eq_true in Hdir. rewrite Hdir in Hs.
    by vm_compute in Hs.
  - destruct (orb_false_elim _ _ Hdir) as [_ Hsuf]. destruct (Stat assets _) as [[]|] eqn:Hs.
    + destruct (files w r) as [acts e]. split_and!; [done|by intros []|]. intros _. by apply Stat_file.
    + destruct (NotFound w r) as [acts e]. split_and!; [by intros []|intros _; by apply Hnf|done].
    + destruct (NotFound w r) as [acts e]. split_and!; [by intros []|intros _; by apply Hnf|done].
Qed.

(** The moderate cache of the other file server is never the immutable one. *)
Lemma StaticFileServer_headers files w r :
  (StaticFileServer files w r).1 = SetHeader "Cache-Control" "public, max-age=3600" ::
    SetHeader "X-Content-Type-Options" "nosniff" :: (files w r).1 /\ (StaticFileServer files w r).2 = (files w r).2.
Proof. unfold StaticFileServer. by destruct (files w r). Qed.

(** ** The image in the page *)

Section image.
Context `{QrLib}.

(** The PNG is drawn at the size asked for, which never wraps, and the URI decodes to it;
    any other size is an error before the library is asked for anything. *)
Lemma PNGDataURI_spec content moduleSize :
  (1 <= moduleSize <= 255 -> u8 moduleSize = moduleSize /\
   forall uri, PNGDataURI content moduleSize = Ok uri ->
     exists code png, qr_New content = Ok code /\ qr_Save code moduleSize = Ok png /\
       uri = dataURIPrefix ++ base64_encode png ++ base64_padding png /\
       (Forall is_byte png -> base64_decode (base64_encode png) = Some png)) /\
  (~ 1 <= moduleSize <= 255 -> PNGDataURI content moduleSize = Err (ErrInvalidModuleSize moduleSize)).
Proof.
  split.
  - intros Hm. assert (u8 moduleSize = moduleSize) as Hu by (unfold u8; apply Z.mod_small; lia). split; [done|].
    intros uri. unfold PNGDataURI. destruct (Z.leb_spec moduleSize 0); [lia|]. destruct (Z.ltb_spec 255 moduleSize); [lia|].
    cbn [orb]. rewrite Hu. destruct (qr_New content) as [code|] eqn:Hn; [|done]. cbn [res_map_err res_bind].
    destruct (qr_Save code moduleSize) as [png|] eqn:Hp; [|done]. cbn [res_map_err res_bind]. intros [= <-].
    exists code, png. split_and!; try done. apply base64_roundtrip.
  - intros Hm. unfold PNGDataURI. destruct (Z.leb_spec moduleSize 0); [done|].
    destruct (Z.ltb_spec 255 moduleSize); [done|lia].
Qed.
End image.

Module WebWitness.
Definition layout (c : Component (error := string)) : Component := fun ctx =>
  let '(b, e) := c ctx in ("<html>" +:+ b +:+ "</html>", e).
Definition fragment : Component (error := string) := fun _ => ("<p>hi</p>"%string, None).
Definition broken : Component (error := string) := fun _ => ("<p>"%string, Some "nil map"%string).
Definition get (path : string) (htmx : bool) : Request :=
  mkRequest "10.0.0.9:1" "nest.example" false (if htmx then {["Hx-Request" := ["true"]]} else ∅)%string "GET" path 0 None
    (mkContext None None false None).
Definition all (s : string) : Z := Z.of_nat (String.length s).

Lemma Page_atomic_witness :
  rs_body (finished (serve (Page all (r_ctx (get "/" true)) (get "/" true) layout fragment).1)) = "<p>hi</p>"%string /\
  rs_body (finished (serve (Page all (r_ctx (get "/" false)) (get "/" false) layout fragment).1)) = "<html><p>hi</p></html>"%string /\
  rs_sent (serve (Page all (r_ctx (get "/" false)) (get "/" false) layout broken).1) = None.
Proof.
  split_and!.
  - exact (proj1 (proj2 (Page_atomic all (r_ctx (get "/" true)) (get "/" true) layout fragment 500 "error"))).
  - exact (proj1 (proj2 (Page_atomic all (r_ctx (get "/" false)) (get "/" false) layout fragment 500 "error"))).
  - exact (proj1 (proj2 (Page_atomic all (r_ctx (get "/" false)) (get "/" false) layout broken 500 "error"))).
Defined.

Definition assets : fsys := ["fonts/space-mono.woff2"; "js/htmx.min.js"]%string.
Definition files : Handler := fun _ _ => ([WriteHeader 200; Write "js" 2], Returns).

Lemma static_cached_witness :
  cache_control (Handler_static assets files Raw (get "js/htmx.min.js" false)).1 = ["public, max-age=31536000, immutable"]%string /\
  cache_control (Handler_static assets files Raw (get "js/new.js" false)).1 = [] /\
  cache_control (Handler_static assets files Raw (get "../js/htmx.min.js" false)).1 = [] /\
  cache_control (Handler_static assets files Raw (get "js" false)).1 = [].
Proof.
  split_and!.
  - exact (f_equal cache_control (proj1 (proj1 (static_cached assets files Raw (get "js/htmx.min.js" false)) (conj eq_refl eq_refl)))).
  - refine (proj1 (proj1 (proj2 (static_cached assets files Raw (get "js/new.js" false))) _)). intros [? ?]. discriminate.
  - refine (proj1 (proj1 (proj2 (static_cached assets files Raw (get "../js/htmx.min.js" false))) _)). intros [? ?]. discriminate.
  - refine (proj1 (proj1 (proj2 (static_cached assets files Raw (get "js" false))) _)). intros [? ?]. discriminate.
Defined.
End WebWitness.
