(* ===== verification/Components.v ===== *)
(** The shell every application renders its pages in (src/ui/components/layout_templ.go and
    navpill_templ.go, the code templ generates from layout.templ and navpill.templ), write
    by write.

    A component is what it writes before it ends and its error ([Web.Component]). templ's
    run-time functions are a class: escaping, attribute values, the sanitising of URLs.
    The text literals are the generated ones, with [`] for a double quote, [~] for a new
    line and [^] for a tab. *)

From S2P Require Import Prelude GoStrings GoEncoding GoNet Config Http Web.
Local Open Scope Z_scope.
Local Open Scope string_scope.

Definition double_quote : Ascii.ascii := chr 34.

Definition markup_byte (c : Ascii.ascii) : Ascii.ascii :=
  if Ascii.eqb c "`" then double_quote
  else if Ascii.eqb c "~" then chr 10
  else if Ascii.eqb c "^" then chr 9
  else c.
Definition markup (s : string) : string := string_of (map markup_byte (bytes_of s)).

(** The five character references Go's html package writes, read back. *)
Definition references : list (bytes * Ascii.ascii) :=
  [(bytes_of "&amp;", "&"%char); (bytes_of "&lt;", "<"%char); (bytes_of "&gt;", ">"%char);
   (bytes_of "&#34;", double_quote); (bytes_of "&#39;", chr 39)].

Fixpoint unescape_refs (fuel : nat) (b : bytes) : bytes :=
  match fuel, b with
  | S fuel, c :: t =>
    match find (fun r => bool_decide (take (length r.1) b = r.1)) references with
    | Some r => r.2 :: unescape_refs fuel (drop (length r.1) b)
    | None => c :: unescape_refs fuel t
    end
  | _, _ => b
  end.
Definition read_refs (s : string) : string := string_of (unescape_refs (length (bytes_of s)) (bytes_of s)).

Definition lacks (cs s : string) : bool := forallb (fun c => negb (bool_decide (c ∈ bytes_of cs))) (bytes_of s).

(** templ's run time. What the components rely on: escaped text has no angle bracket and no
    quote and an attribute value no double quote, both read back; a plain string passes
    [JoinStringErrs]; class names that are strings need no style element. *)
Class Templ (error : Type) := {
  EscapeString : string -> string;
  ResolveAttributeValue : string -> result error string;
  JoinStringErrs : string -> result error string;
  JoinURLErrs : string -> result error string;
  RenderCSSItems : list string -> string * option error;
  CSSClasses_String : list string -> string;
  escape_lacks : forall s, lacks (markup "<>'`") (EscapeString s) = true;
  escape_reads : forall s, read_refs (EscapeString s) = s;
  attribute_lacks : forall s v, ResolveAttributeValue s = Ok v -> lacks (markup "`") v = true /\ read_refs v = s;
  join_string : forall s, JoinStringErrs s = Ok s;
  css_of_names : forall names, RenderCSSItems names = ("", None)
}.

(** ** Writing *)

Section components.
Context {error : Type} `{Templ error}.

Definition Out : Type := string * option error.

(** Write on, unless an error was returned. *)
Definition andthen (a b : Out) : Out :=
  match a with
  | (s, None) => (s +:+ b.1, b.2)
  | (s, Some e) => (s, Some e)
  end.
Infix "+>" := andthen (at level 60, right associativity).

Definition lit (s : string) : Out := (markup s, None).
Definition nothing : Out := ("", None).
Definition provided (b : bool) (o : Out) : Out := if b then o else nothing.

Definition write_result (f : string -> string) (r : result error string) : Out :=
  match r with
  | Ok v => (f v, None)
  | Err e => ("", Some e)
  end.
Definition write_text (s : string) : Out := write_result EscapeString (JoinStringErrs s).
Definition write_url (s : string) : Out := write_result EscapeString (JoinURLErrs s).
Definition write_attribute (s : string) : Out := write_result id (ResolveAttributeValue s).

(** A generated template returns at once when the context is done. *)
Definition GeneratedTemplate (ctx_Err : option error) (body : Out) : Out :=
  match ctx_Err with
  | Some e => ("", Some e)
  | None => body
  end.

Definition render_slot (c : option (Component (error := error))) (ctx : Context) : Out :=
  match c with
  | Some c => c ctx
  | None => nothing
  end.

(** ** The navigation pill *)

Definition navPillClass (active : bool) : string :=
  if active then "bg-primary-tint text-primary-deep" else "text-text-secondary hover:bg-sidebar-accent".

Definition NavPill (ctx_Err : option error) (label href : string) (active : bool) : Out :=
  GeneratedTemplate ctx_Err (
  let classes := ["block rounded-control px-3 py-2 font-medium transition-colors"; navPillClass active] in
  RenderCSSItems classes +>
  lit "<a href=`" +> write_url href +>
  lit "` class=`" +> write_attribute (CSSClasses_String classes) +>
  lit "`" +>
  provided active (lit " aria-current=`page`") +>
  lit ">" +> write_text label +>
  lit "</a>").

(** ** The shell *)

Record NavItem := mkNavItem { Label : string; Href : string; Active : bool }.

Record ShellProps := mkShellProps {
  AppName : string; FaviconHref : string; ThemeColor : string; StylesheetHref : string;
  HeadExtras : option (Component (error := error)); SidebarBrand : option (Component (error := error));
  SidebarExtra : option (Component (error := error)); SidebarFooter : option (Component (error := error))
}.

(** What [ctx.Err] answers the shell's components, in the order they start: the layout, the
    sidebar, then the pills. *)
Context (ctx_Err : nat -> option error).

Fixpoint pills (n : nat) (nav : list NavItem) : Out :=
  match nav with
  | [] => nothing
  | item :: nav => NavPill (ctx_Err n) (Label item) (Href item) (Active item) +> pills (S n) nav
  end.

Definition sidebar (props : ShellProps) (nav : list NavItem) : Component := fun ctx =>
  GeneratedTemplate (ctx_Err 1) (
  lit ("<aside id=`sidebar` x-ref=`navPanel` tabindex=`-1` class=`fixed inset-y-0 left-0 z-40 flex " +:+
       "w-[var(--hearth-sidebar-width)] -translate-x-full flex-col gap-4 overflow-y-auto border-r " +:+
       "border-border-strong bg-sidebar p-4 transition-transform outline-none md:translate-x-0` :class=`open " +:+
       "? 'translate-x-0' : ''`>") +>
  match SidebarBrand props with
  | Some brand => brand ctx
  | None =>
    lit "<div class=`flex items-center gap-2 px-1`><span class=`text-lg font-semibold`>" +> write_text (AppName props) +> lit "</span></div>"
  end +>
  lit "<nav class=`flex flex-col gap-1` aria-label=`Primary`>" +>
  pills 2 nav +>
  lit "</nav>" +>
  render_slot (SidebarExtra props) ctx +>
  lit ("<!-- mt-auto pins the footer slot to the sidebar's bottom cluster~^^     regardless of how much the " +:+
       "sections above grow. -->") +>
  match SidebarFooter props with
  | Some footer =>
    lit "<div class=`mt-auto flex flex-col gap-2`>" +> footer ctx +> lit "</div>"
  | None => nothing
  end +>
  lit "</aside>").

Definition htmx_config : string :=
  markup ("{`responseHandling`:[{`code`:`204`,`swap`:false},{`code`:`[23]..`,`swap`:true}," +:+
          "{`code`:`422`,`swap`:true},{`code`:`[45]..`,`swap`:false,`error`:true},{`code`:`...`,`swap`:false}]}").

Definition layout_head (props : ShellProps) (ctx : Context) : Out :=
  lit ("<!doctype html><html lang=`en`><head><meta charset=`utf-8`><meta name=`viewport` " +:+
       "content=`width=device-width, initial-scale=1`><title>") +>
  write_text (AppName props) +> lit "</title>" +>
  provided (negb (bool_decide (FaviconHref props = "")))
    (lit "<link rel=`icon` href=`" +> write_url (FaviconHref props) +> lit "`>") +>
  provided (negb (bool_decide (ThemeColor props = "")))
    (lit "<meta name=`theme-color` content=`" +> write_attribute (ThemeColor props) +> lit "`>") +>
  provided (negb (bool_decide (StylesheetHref props = "")))
    (lit "<link rel=`stylesheet` href=`" +> write_url (StylesheetHref props) +> lit "`>") +>
  lit ("<!-- htmx by default never swaps a 4xx/5xx response into the DOM (see~^^^     htmx's own QUIRKS.md, " +:+
       "`By Default 4xx & 5xx Responses Do Not~^^^     Swap`). This shell configures htmx to swap 422 too, " +:+
       "since a~^^^     validation-style rejection at 422 is a common pattern across~^^^     both apps for " +:+
       "re-rendering a fragment with an inline error~^^^     message; every other status keeps its default " +:+
       "(no-swap-on-error)~^^^     behavior. --><meta name=`htmx-config` content=`") +>
  write_attribute htmx_config +>
  lit "`><script src=`" +> write_attribute (MountPath +:+ "js/htmx.min.js") +> lit "` defer></script>" +>
  render_slot (HeadExtras props) ctx +>
  lit ("<!-- Alpine dispatches 'alpine:init' as soon as ITS OWN deferred script~^^^     runs — not on " +:+
       "DOMContentLoaded — so any extension script that~^^^     registers Alpine.data must load and run " +:+
       "before this tag (that's~^^^     why HeadExtras is positioned immediately above, not below). " +:+
       "--><script src=`") +>
  write_attribute (MountPath +:+ "js/alpine.min.js").

Definition layout_body (props : ShellProps) (nav : list NavItem) (content : Component) (ctx : Context) : Out :=
  lit ("` defer></script></head><body class=`bg-canvas font-sans text-text min-h-screen` x-data=`{ open: " +:+
       "false }` @keydown.escape.window=`if (open) { open = false; $refs.navToggle.focus() }` " +:+
       "@resize.window=`if (open && window.innerWidth >= 768) open = false`><a href=`#main-content` " +:+
       "class=`sr-only focus:not-sr-only focus:absolute focus:left-3 focus:top-3 focus:z-50 " +:+
       "focus:rounded-control focus:bg-primary focus:px-3 focus:py-2 focus:text-white`>Skip to " +:+
       "content</a><!-- Narrow-screen drawer toggle (hidden once the sidebar is fixed).~^^^     Opening moves " +:+
       "focus into the drawer; closing returns it here. --><button type=`button` x-ref=`navToggle` " +:+
       "class=`fixed left-3 top-3 z-40 inline-flex h-10 w-10 items-center justify-center rounded-control " +:+
       "bg-sidebar shadow-sm md:hidden` @click=`open = true; $nextTick(() => $refs.navPanel.focus())` " +:+
       "aria-label=`Open navigation` aria-controls=`sidebar` :aria-expanded=`open`><span " +:+
       "aria-hidden=`true`>&#9776;</span></button><!-- Click-away overlay shown with the drawer on narrow " +:+
       "screens. This is~^^^     a pointer-only convenience: it carries no accessible name and isn't~^^^     " +:+
       "reachable by keyboard, so it's marked aria-hidden to keep assistive~^^^     tech from exposing it as " +:+
       "an ambiguous interactive element. Keyboard~^^^     users close the drawer via the Escape handler on " +:+
       "<body> above. --><div x-show=`open` x-cloak @click=`open = false; $refs.navToggle.focus()` " +:+
       "class=`fixed inset-0 z-30 bg-text/30 md:hidden` aria-hidden=`true`></div>") +>
  sidebar props nav ctx +>
  lit ("<!-- inert disables the main content behind the open drawer so keyboard~^^^     focus cannot escape " +:+
       "the modal drawer (WCAG 2.4.3). --><main id=`main-content` class=`bg-surface min-h-screen " +:+
       "md:ml-[var(--hearth-sidebar-width)]` :inert=`open`>") +>
  content ctx +>
  lit "</main></body></html>".

Definition Layout (props : ShellProps) (nav : list NavItem) (content : Component) : Component := fun ctx =>
  GeneratedTemplate (ctx_Err 0) (layout_head props ctx +> layout_body props nav content ctx).
End components.
