(* ===== verification/ComponentsSpec.v ===== *)
(** Package components, proved: what a browser's tokenizer makes of a page.

    The tokenizer reads tags, attributes and comments as the HTML standard does in the
    states the shell's markup reaches; the content of script and style elements, which the
    shell leaves empty, is read as markup too.

    Results: no text, link or colour a page is given changes a tag, an attribute name or a
    comment of it; and the outline of the page, scripts and links in order, is the one the
    caller configured, with the extension scripts before Alpine. *)

From S2P Require Import Prelude GoStrings GoEncoding GoNet Config Http Web Components.
Local Open Scope Z_scope.

(** ** Tokens *)

Inductive token :=
| Char (c : Ascii.ascii)
| OpenTag (name : bytes) (attrs : list (bytes * bytes))
| CloseTag (name : bytes)
| Bang (text : bytes).

Inductive lex :=
| Data
| TagOpen
| EndTag (name : bytes)
| TagName (name : bytes)
| InTag (name : bytes) (attrs : list (bytes * bytes))
| AttrName (name : bytes) (attrs : list (bytes * bytes)) (attr : bytes)
| AfterName (name : bytes) (attrs : list (bytes * bytes)) (attr : bytes)
| BeforeValue (name : bytes) (attrs : list (bytes * bytes)) (attr : bytes)
| Value (q : Ascii.ascii) (name : bytes) (attrs : list (bytes * bytes)) (attr value : bytes)
| Unquoted (name : bytes) (attrs : list (bytes * bytes)) (attr value : bytes)
| InBang (text : bytes).

Definition html_space (c : Ascii.ascii) : bool :=
  let n := byte_val c in (n =? 32) || (n =? 9) || (n =? 10) || (n =? 12) || (n =? 13).
Definition tag_space (c : Ascii.ascii) : bool := html_space c || Ascii.eqb c "/".

Definition letter (c : Ascii.ascii) : bool :=
  let n := byte_val (lower_byte c) in (97 <=? n) && (n <=? 122).

(** The text of a comment ends with two dashes, or two dashes and an exclamation mark; other
    declarations end at the first bracket. Names and texts are kept reversed while they are
    read. *)
Definition bang_ends (text : bytes) : bool :=
  let t := rev text in
  if bool_decide (take 2 t = bytes_of "--") then
    bool_decide (t ∈ [bytes_of "--"; bytes_of "---"])
    || ((4 <=? length t)%nat && bool_decide (take 2 text = bytes_of "--"))
    || ((5 <=? length t)%nat && bool_decide (take 3 text = bytes_of "!--"))
  else true.

Definition open_tag (name : bytes) (attrs : list (bytes * bytes)) : token := OpenTag (rev name) (rev attrs).

Definition step (s : lex * list token) (c : Ascii.ascii) : lex * list token :=
  let '(m, acc) := s in
  let gt := Ascii.eqb c ">" in
  match m with
  | Data => if Ascii.eqb c "<" then (TagOpen, acc) else (Data, Char c :: acc)
  | TagOpen =>
    if Ascii.eqb c "!" then (InBang [], acc)
    else if Ascii.eqb c "/" then (EndTag [], acc)
    else if letter c then (TagName [lower_byte c], acc)
    else if Ascii.eqb c "<" then (TagOpen, Char "<" :: acc)
    else (Data, Char c :: Char "<" :: acc)
  | EndTag name => if gt then (Data, CloseTag (rev name) :: acc) else (EndTag (lower_byte c :: name), acc)
  | TagName name =>
    if gt then (Data, open_tag name [] :: acc)
    else if tag_space c then (InTag name [], acc)
    else (TagName (lower_byte c :: name), acc)
  | InTag name attrs =>
    if gt then (Data, open_tag name attrs :: acc)
    else if tag_space c then (InTag name attrs, acc)
    else (AttrName name attrs [c], acc)
  | AttrName name attrs a =>
    if gt then (Data, open_tag name ((rev a, []) :: attrs) :: acc)
    else if Ascii.eqb c "=" then (BeforeValue name attrs a, acc)
    else if Ascii.eqb c "/" then (InTag name ((rev a, []) :: attrs), acc)
    else if html_space c then (AfterName name attrs a, acc)
    else (AttrName name attrs (c :: a), acc)
  | AfterName name attrs a =>
    if gt then (Data, open_tag name ((rev a, []) :: attrs) :: acc)
    else if Ascii.eqb c "=" then (BeforeValue name attrs a, acc)
    else if html_space c then (AfterName name attrs a, acc)
    else if Ascii.eqb c "/" then (InTag name ((rev a, []) :: attrs), acc)
    else (AttrName name ((rev a, []) :: attrs) [c], acc)
  | BeforeValue name attrs a =>
    if gt then (Data, open_tag name ((rev a, []) :: attrs) :: acc)
    else if html_space c then (BeforeValue name attrs a, acc)
    else if Ascii.eqb c double_quote || Ascii.eqb c (chr 39) then (Value c name attrs a [], acc)
    else (Unquoted name attrs a [c], acc)
  | Value q name attrs a v =>
    if Ascii.eqb c q then (InTag name ((rev a, v) :: attrs), acc) else (Value q name attrs a (v ++ [c]), acc)
  | Unquoted name attrs a v =>
    if gt then (Data, open_tag name ((rev a, v) :: attrs) :: acc)
    else if html_space c then (InTag name ((rev a, v) :: attrs), acc)
    else (Unquoted name attrs a (v ++ [c]), acc)
  | InBang text => if gt && bang_ends text then (Data, Bang (rev text) :: acc) else (InBang (c :: text), acc)
  end.

Definition run (s : lex * list token) (b : bytes) : lex * list token := foldl step s b.

(** The tokens of a text that leaves no tag open. *)
Definition html (s : string) : option (list token) :=
  match run (Data, []) (bytes_of s) with
  | (Data, acc) => Some (rev acc)
  | _ => None
  end.

(** What a token is but for the texts in it. *)
Inductive shape := ShapeOpen (name : bytes) (attrs : list bytes) | ShapeClose (name : bytes) | ShapeBang (text : bytes).

Definition shape_of (t : token) : option shape :=
  match t with
  | Char _ => None
  | OpenTag name attrs => Some (ShapeOpen name (fst <$> attrs))
  | CloseTag name => Some (ShapeClose name)
  | Bang text => Some (ShapeBang text)
  end.

(** What a page asks a browser to load or offers to follow. *)
Inductive fact (A : Type) := Script (src : A) | LinkTo (rel : bytes) (href : A) | Anchor (href : A) (current : bool).
Arguments Script {A}. Arguments LinkTo {A}. Arguments Anchor {A}.

Definition fact_map {A B} (f : A -> B) (x : fact A) : fact B :=
  match x with
  | Script src => Script (f src)
  | LinkTo rel href => LinkTo rel (f href)
  | Anchor href current => Anchor (f href) current
  end.

Definition attr (name : string) (attrs : list (bytes * bytes)) : option bytes :=
  snd <$> find (fun a => bool_decide (a.1 = bytes_of name)) attrs.

(** With values as written. *)
Definition observe (t : token) : option (fact bytes) :=
  match t with
  | OpenTag name attrs =>
    if bool_decide (name = bytes_of "script") then Script <$> attr "src" attrs
    else if bool_decide (name = bytes_of "link") then
      rel ← attr "rel" attrs; href ← attr "href" attrs; Some (LinkTo rel href)
    else if bool_decide (name = bytes_of "a") then
      href ← attr "href" attrs; Some (Anchor href (bool_decide (is_Some (attr "aria-current" attrs))))
    else None
  | _ => None
  end.

Definition raw_outline {E} (o : string * option E) : list (fact bytes) := omap observe (default [] (html o.1)).

(** With their character references read. *)
Definition outline (toks : list token) : list (fact string) :=
  fact_map (fun v => read_refs (string_of v)) <$> omap observe toks.

(** From one state of the tokenizer to another, showing these. *)
Definition walks {E} (m : lex) (o : string * option E) (m' : lex) (fs : list (fact bytes)) : Prop :=
  o.2 = None -> exists acc, run (m, []) (bytes_of o.1) = (m', acc) /\ omap observe (rev acc) = fs.

(** ** Two runs over texts that differ in values only *)

Definition same_attrs (l l' : list (bytes * bytes)) : Prop := fst <$> l = fst <$> l'.

Definition same_mode (m m' : lex) : Prop :=
  match m, m' with
  | Data, Data | TagOpen, TagOpen => True
  | EndTag n, EndTag n' | TagName n, TagName n' | InBang n, InBang n' => n = n'
  | InTag n l, InTag n' l' => n = n' /\ same_attrs l l'
  | AttrName n l a, AttrName n' l' a' | AfterName n l a, AfterName n' l' a'
  | BeforeValue n l a, BeforeValue n' l' a' | Unquoted n l a _, Unquoted n' l' a' _ =>
    n = n' /\ same_attrs l l' /\ a = a'
  | Value q n l a _, Value q' n' l' a' _ => q = q' /\ n = n' /\ same_attrs l l' /\ a = a'
  | _, _ => False
  end.

Definition sim (s s' : lex * list token) : Prop :=
  same_mode s.1 s'.1 /\ omap shape_of s.2 = omap shape_of s'.2.

Lemma fmap_rev {A B} (f : A -> B) l : f <$> rev l = rev (f <$> l).
Proof. induction l as [|x l IH]; [done|]. cbn [rev]. by rewrite fmap_app, IH. Qed.

Lemma same_attrs_rev l l' : same_attrs l l' -> fst <$> rev l = fst <$> rev l'.
Proof. unfold same_attrs. rewrite !fmap_rev. by intros ->. Qed.

Lemma same_attrs_cons a v v' l l' : same_attrs l l' -> same_attrs ((a, v) :: l) ((a, v') :: l').
Proof. unfold same_attrs. cbn. by intros ->. Qed.

#[local] Hint Resolve same_attrs_rev same_attrs_cons : core.

Lemma shape_open n l l' acc acc' : same_attrs l l' -> omap shape_of acc = omap shape_of acc' ->
  omap shape_of (open_tag n l :: acc) = omap shape_of (open_tag n l' :: acc').
Proof. intros Hl Ha. cbn. by rewrite (same_attrs_rev _ _ Hl), Ha. Qed.

#[local] Hint Resolve shape_open : core.

Lemma step_sim s s' c : sim s s' -> sim (step s c) (step s' c).
Proof.
  destruct s as [m acc], s' as [m' acc']. intros [Hm Ha]. cbn [fst snd] in *.
  destruct m, m'; cbn [same_mode] in Hm; try done; destruct_and?; subst; cbn [step];
    repeat case_match; simplify_eq/=; split; cbn [fst snd same_mode]; auto 6; cbn; by rewrite ?Ha.
Qed.

Lemma run_app s b b' : run s (b ++ b') = run (run s b) b'.
Proof. apply foldl_app. Qed.

Lemma run_sim b s s' : sim s s' -> sim (run s b) (run s' b).
Proof. revert s s'. induction b as [|c b IH]; intros s s' Hs; [done|]. by apply IH, step_sim. Qed.

(** ** Where a run stands *)

Inductive place := InData | InQuotes | InElement.

Definition stands (k : place) (m : lex) : Prop :=
  match k with
  | InData => m = Data
  | InQuotes => exists name attrs a v, m = Value double_quote name attrs a v
  | InElement => exists name attrs, m = InTag name attrs
  end.

Lemma run_acc b m acc : run (m, acc) b = ((run (m, []) b).1, (run (m, []) b).2 ++ acc).
Proof.
  revert m acc. induction b as [|c b IH]; intros m acc; [done|]. cbn [run foldl].
  assert (exists m' new, forall acc, step (m, acc) c = (m', new ++ acc)) as (m' & new & Hstep).
  { destruct m; cbn [step]; repeat case_match;
      (eexists; first [by exists []|eexists [_]; reflexivity|eexists [_; _]; reflexivity]). }
  rewrite !Hstep. change (foldl step ?s b) with (run s b).
  rewrite (IH m' (new ++ acc)), (IH m' (new ++ [])). cbn [fst snd]. by rewrite app_nil_r, <- app_assoc.
Qed.

Lemma run_mode b m acc : (run (m, acc) b).1 = (run (m, []) b).1.
Proof. by rewrite run_acc. Qed.

(** Text without an opening bracket stays text; a value without its quote stays a value. *)
Lemma run_text b m acc : m = Data -> lacks "<" (string_of b) = true -> run (m, acc) b = (Data, rev (Char <$> b) ++ acc).
Proof.
  intros ->. unfold lacks. rewrite bytes_of_string_of. revert acc. induction b as [|c b IH]; intros acc Hb; [done|].
  cbn [forallb] in Hb. apply andb_prop in Hb as [Hc Hb]. cbn [run foldl step].
  assert (Ascii.eqb c "<" = false) as ->.
  { apply Ascii.eqb_neq. intros ->. by vm_compute in Hc. }
  change (foldl step ?s b) with (run s b). rewrite IH by done. cbn [fmap list_fmap rev]. by rewrite <- app_assoc.
Qed.

Lemma run_value b name attrs a v acc : lacks (markup "`") (string_of b) = true ->
  run (Value double_quote name attrs a v, acc) b = (Value double_quote name attrs a (v ++ b), acc).
Proof.
  unfold lacks. rewrite bytes_of_string_of. revert v. induction b as [|c b IH]; intros v Hb; [by rewrite app_nil_r|].
  cbn [forallb] in Hb. apply andb_prop in Hb as [Hc Hb]. cbn [run foldl step].
  assert (Ascii.eqb c double_quote = false) as ->.
  { apply Ascii.eqb_neq. intros ->. by vm_compute in Hc. }
  change (foldl step ?s b) with (run s b). rewrite IH by done. by rewrite <- app_assoc.
Qed.

Lemma lacks_fewer cs cs' s : (forall c, c ∈ bytes_of cs' -> c ∈ bytes_of cs) -> lacks cs s = true -> lacks cs' s = true.
Proof.
  unfold lacks. rewrite !forallb_forall. intros Hsub Hs c Hc. specialize (Hs c Hc).
  apply negb_true_iff, bool_decide_eq_false in Hs. apply negb_true_iff, bool_decide_eq_false. auto.
Qed.

Section pages.
Context {error : Type} `{Templ error}.
Local Infix "+>" := andthen (at level 60, right associativity).
Implicit Types (o : Out (error := error)) (content : Component (error := error)).

Lemma andthen_ok o o' : (o +> o').2 = None -> o.2 = None /\ o'.2 = None /\ (o +> o').1 = o.1 +:+ o'.1.
Proof. destruct o as [s [e|]]; [done|]. by destruct o'. Qed.

Lemma escaped_plain s : lacks "<" (EscapeString s) = true /\ lacks (markup "`") (EscapeString s) = true.
Proof.
  pose proof (escape_lacks s) as Hs. split; (eapply lacks_fewer; [|exact Hs]); intros c Hc;
    apply list_elem_of_singleton in Hc as ->; apply (bool_decide_unpack _); vm_compute; exact I.
Qed.

(** ** Nothing a page is given changes its markup *)

(** Two outputs that take equal runs to equal ones, from one place to another. *)
Definition alike (k k' : place) o o' : Prop := o.2 = None -> o'.2 = None -> forall s s',
  sim s s' -> stands k s.1 -> stands k s'.1 ->
  sim (run s (bytes_of o.1)) (run s' (bytes_of o'.1)) /\
  stands k' (run s (bytes_of o.1)).1 /\ stands k' (run s' (bytes_of o'.1)).1.

Lemma alike_andthen k1 k2 k3 a a' b b' : alike k1 k2 a a' -> alike k2 k3 b b' -> alike k1 k3 (a +> b) (a' +> b').
Proof.
  intros Ha Hb He He' s s' Hs Hk Hk'.
  apply andthen_ok in He as (Ea & Eb & ->). apply andthen_ok in He' as (Ea' & Eb' & ->).
  rewrite !bytes_of_app, !run_app. destruct (Ha Ea Ea' s s' Hs Hk Hk') as (H1 & H2 & H3). by apply Hb.
Qed.

Lemma alike_same k k' o : (o.2 = None -> forall m, stands k m -> stands k' (run (m, []) (bytes_of o.1)).1) -> alike k k' o o.
Proof.
  intros Ho He _ [m acc] [m' acc'] Hs Hk Hk'. split; [by apply run_sim|]. rewrite (run_mode _ m acc), (run_mode _ m' acc'). split; by apply Ho.
Qed.

Lemma alike_nothing k : alike k k nothing nothing.
Proof. by apply alike_same. Qed.

Lemma alike_provided k b o o' : alike k k o o' -> alike k k (provided b o) (provided b o').
Proof. intros Ho. destruct b; [done|apply alike_nothing]. Qed.

Lemma alike_template k k' e e' o o' : alike k k' o o' -> alike k k' (GeneratedTemplate e o) (GeneratedTemplate e' o').
Proof. intros Ho. destruct e; [done|]. by destruct e'. Qed.

Lemma text_shape b : omap shape_of (rev (Char <$> b)) = [].
Proof. rewrite <- fmap_rev. by induction (rev b). Qed.

Lemma alike_text s s' : alike InData InData (write_text s) (write_text s').
Proof.
  unfold write_text. rewrite !join_string. intros _ _ [m acc] [m' acc'] [Hm Ha] Hk Hk'. cbn [fst snd write_result] in *.
  destruct (escaped_plain s) as [Hl _], (escaped_plain s') as [Hl' _].
  rewrite !run_text by (rewrite ?string_of_bytes_of; done). split; [|done]. split; [done|]. cbn [snd].
  by rewrite !omap_app, Ha, !text_shape.
Qed.

(** Both write a value without a quote. *)
Lemma alike_value o o' : (o.2 = None -> lacks (markup "`") o.1 = true) -> (o'.2 = None -> lacks (markup "`") o'.1 = true) ->
  alike InQuotes InQuotes o o'.
Proof.
  intros Ho Ho' He He' [m acc] [m' acc'] [Hm Ha] (n & l & a & v & Hk) (n' & l' & a' & v' & Hk'). cbn [fst snd] in *. subst.
  rewrite !run_value by (rewrite string_of_bytes_of; auto). split; [by split|]. split; by repeat eexists.
Qed.

Lemma url_plain s : (write_url s).2 = None -> lacks (markup "`") (write_url s).1 = true.
Proof. unfold write_url. destruct (JoinURLErrs s); [|done]. intros _. apply escaped_plain. Qed.

Lemma attribute_plain s : (write_attribute s).2 = None -> lacks (markup "`") (write_attribute s).1 = true.
Proof. unfold write_attribute. destruct (ResolveAttributeValue s) eqn:Hv; [|done]. intros _. by eapply attribute_lacks. Qed.

Lemma alike_url s s' : alike InQuotes InQuotes (write_url s) (write_url s').
Proof. apply alike_value; apply url_plain. Qed.

Lemma alike_attribute s s' : alike InQuotes InQuotes (write_attribute s) (write_attribute s').
Proof. apply alike_value; apply attribute_plain. Qed.

(** A slot's markup leaves no tag open. *)
Definition closed o : Prop := o.2 = None -> is_Some (html o.1).

Lemma closed_alike o : closed o -> alike InData InData o o.
Proof.
  intros Ho. apply alike_same. intros He m ->. destruct (Ho He) as [toks Ht]. unfold html in Ht.
  by destruct (run (Data, []) (bytes_of o.1)) as [[] acc].
Qed.

(** The literals: where each leaves a run that starts in its place. *)
Ltac literal :=
  apply alike_same; intros _ ?m;
  lazymatch goal with
  | |- stands InData _ -> _ => intros ->
  | |- stands InQuotes _ -> _ => intros (?name & ?attrs & ?attr & ?value & ->)
  | |- stands InElement _ -> _ => intros (?name & ?attrs & ->)
  end;
  vm_compute; first [reflexivity | do 4 eexists; reflexivity | do 2 eexists; reflexivity].

(** One write after another; a literal is tried for every place it may lead to. *)
Ltac writes :=
  repeat lazymatch goal with
  | |- alike _ _ (write_text _ +> _) _ => apply (alike_andthen _ InData); [apply alike_text|]
  | |- alike _ _ (write_url _ +> _) _ => apply (alike_andthen _ InQuotes); [apply alike_url|]
  | |- alike _ _ (write_attribute _ +> _) _ => apply (alike_andthen _ InQuotes); [apply alike_attribute|]
  | |- alike _ _ (provided _ _ +> _) _ => eapply alike_andthen; [apply alike_provided|]
  | |- alike _ _ (lit _ +> _) _ => first [apply (alike_andthen _ InData); [literal|] | apply (alike_andthen _ InQuotes); [literal|]
           | apply (alike_andthen _ InElement); [literal|]]
  | |- alike _ _ (lit _) _ => literal
  | |- alike _ _ (write_attribute _) _ => apply alike_attribute
  end.

Lemma NavPill_alike e e' label label' href href' active :
  alike InData InData (NavPill e label href active) (NavPill e' label' href' active).
Proof.
  apply alike_template. cbv zeta. rewrite css_of_names.
  apply (alike_andthen _ InData); [apply alike_nothing|]. writes.
Qed.

(** Pages configured alike: the same optional parts, the same slots. *)
Record alike_props (props props' : ShellProps (error := error)) : Prop := {
  ap_favicon : bool_decide (FaviconHref props = ""%string) = bool_decide (FaviconHref props' = ""%string);
  ap_theme : bool_decide (ThemeColor props = ""%string) = bool_decide (ThemeColor props' = ""%string);
  ap_style : bool_decide (StylesheetHref props = ""%string) = bool_decide (StylesheetHref props' = ""%string);
  ap_head : HeadExtras props = HeadExtras props';
  ap_brand : SidebarBrand props = SidebarBrand props';
  ap_extra : SidebarExtra props = SidebarExtra props';
  ap_footer : SidebarFooter props = SidebarFooter props'
}.

(** The slots of a page, and its content. *)
Definition slots (props : ShellProps (error := error)) content : list Component :=
  option_list (HeadExtras props) ++ option_list (SidebarBrand props) ++ option_list (SidebarExtra props)
  ++ option_list (SidebarFooter props) ++ [content].

Definition slots_closed (props : ShellProps (error := error)) content (ctx : Context) : Prop :=
  forall c, c ∈ slots props content -> closed (c ctx).

Lemma slot_alike c ctx : (forall s, c = Some s -> closed (s ctx)) -> alike InData InData (render_slot c ctx) (render_slot c ctx).
Proof. intros Hc. destruct c; [by apply closed_alike, Hc|apply alike_nothing]. Qed.

Lemma pills_alike E E' n n' nav nav' : Active <$> nav = Active <$> nav' ->
  alike InData InData (pills (error := error) E n nav) (pills E' n' nav').
Proof.
  revert n n' nav'. induction nav as [|i nav IH]; intros n n' [|i' nav'] Hn; try done.
  injection Hn as Hi Hn. cbn [pills]. rewrite Hi. apply (alike_andthen _ InData); [apply NavPill_alike|by apply IH].
Qed.

Lemma member_closed props content ctx (c : option Component) s : slots_closed props content ctx ->
  c = Some s -> option_list c ⊆ slots props content -> closed (s ctx).
Proof. intros Hs -> Hin. apply Hs, Hin. cbn. set_solver. Qed.

Section two_pages.
Context (E E' : nat -> option error) (props props' : ShellProps (error := error)) (nav nav' : list NavItem)
  (content : Component (error := error)) (ctx : Context).
Context (Hprops : alike_props props props') (Hnav : Active <$> nav = Active <$> nav')
  (Hslots : slots_closed props content ctx).

Lemma sidebar_alike : alike InData InData (sidebar E props nav ctx) (sidebar E' props' nav' ctx).
Proof.
  destruct Hprops as [_ _ _ _ Hb He Hf]. apply alike_template. rewrite <- Hb, <- He, <- Hf. writes.
  apply (alike_andthen _ InData).
  { destruct (SidebarBrand props) as [b|] eqn:Hbr; [|by writes].
    apply closed_alike. apply (member_closed props content ctx (SidebarBrand props)); [done|done|]. unfold slots. set_solver. }
  writes. apply (alike_andthen _ InData); [by apply pills_alike|]. writes.
  apply (alike_andthen _ InData).
  { apply slot_alike. intros s Hs. eapply member_closed; [exact Hslots|exact Hs|]. unfold slots. set_solver. }
  writes. apply (alike_andthen _ InData); [|by writes].
  destruct (SidebarFooter props) as [f|] eqn:Hfo; [|apply alike_nothing]. writes.
  apply (alike_andthen _ InData); [|by writes].
  apply closed_alike. apply (member_closed props content ctx (SidebarFooter props)); [done|done|]. unfold slots. set_solver.
Qed.
Lemma head_alike : alike InData InQuotes (layout_head props ctx) (layout_head props' ctx).
Proof.
  destruct Hprops as [Hf Ht Hs Hh _ _ _]. unfold layout_head. rewrite <- Hf, <- Ht, <- Hs, <- Hh. writes.
  apply (alike_andthen _ InData); [|by writes].
  apply slot_alike. intros s Hsl. eapply member_closed; [exact Hslots|exact Hsl|]. unfold slots. set_solver.
Qed.

Lemma Layout_alike : alike InData InData (Layout E props nav content ctx) (Layout E' props' nav' content ctx).
Proof.
  apply alike_template. apply (alike_andthen _ InQuotes); [apply head_alike|]. unfold layout_body. writes.
  apply (alike_andthen _ InData); [apply sidebar_alike|]. writes.
  apply (alike_andthen _ InData); [|by writes].
  apply closed_alike, Hslots. unfold slots. set_solver.
Qed.
End two_pages.

(** C29. Nothing a page is given can change its markup. Two renderings of the shell with the
    same optional parts, the same slots (whose markup leaves no tag open) and as many
    navigation items, active alike, but with any other names, links, colours and labels,
    read by a browser's tokenizer, have the same tags, attribute names and comments in the
    same order, and neither leaves a tag or an attribute open. *)
Theorem Layout_no_injection (E E' : nat -> option error) (props props' : ShellProps (error := error))
    (nav nav' : list NavItem) (content : Component (error := error)) (ctx : Context) (page page' : string) :
  alike_props props props' -> Active <$> nav = Active <$> nav' -> slots_closed props content ctx ->
  Layout E props nav content ctx = (page, None) -> Layout E' props' nav' content ctx = (page', None) ->
  exists toks toks', html page = Some toks /\ html page' = Some toks' /\ omap shape_of toks = omap shape_of toks'.
Proof.
  intros Hp Hn Hc He He'. pose proof (Layout_alike E E' props props' nav nav' content ctx Hp Hn Hc) as Ha.
  unfold alike in Ha. rewrite He, He' in Ha.
  destruct (Ha eq_refl eq_refl (Data, []) (Data, []) (conj I eq_refl) eq_refl eq_refl) as ([_ Hs] & Hd & Hd').
  cbn [fst] in *. unfold html. destruct (run (Data, []) (bytes_of page)) as [m acc].
  destruct (run (Data, []) (bytes_of page')) as [m' acc']. cbn [stands fst snd] in *. subst.
  exists (rev acc), (rev acc'). split_and!; [done|done|].
  assert (forall l, omap shape_of (rev l) = rev (omap shape_of l)) as Hrev; [|by rewrite !Hrev, Hs].
  intros l. induction l as [|t l IH]; [done|]. cbn [rev]. rewrite omap_app, IH. cbn. by destruct (shape_of t); [|rewrite app_nil_r].
Qed.

(** ** The outline of a page *)

Lemma walks_andthen m1 m2 m3 (a b : Out (error := error)) fs gs : walks m1 a m2 fs -> walks m2 b m3 gs -> walks m1 (a +> b) m3 (fs ++ gs).
Proof.
  intros Ha Hb He. apply andthen_ok in He as (Ea & Eb & ->). destruct (Ha Ea) as (acc & Hr & Hfs).
  destruct (Hb Eb) as (acc' & Hr' & Hgs). exists (acc' ++ acc). rewrite bytes_of_app, run_app, Hr, run_acc, Hr'.
  split; [done|]. by rewrite rev_app_distr, omap_app, Hfs, Hgs.
Qed.

Lemma walks_lit m s m' acc fs : run (m, []) (bytes_of (markup s)) = (m', acc) -> omap observe (rev acc) = fs ->
  walks m (lit s : Out (error := error)) m' fs.
Proof. intros Hr Hfs _. by exists acc. Qed.

Lemma walks_quiet m1 m2 m3 s acc o fs : run (m1, []) (bytes_of (markup s)) = (m2, acc) -> omap observe (rev acc) = [] ->
  walks m2 o m3 fs -> walks m1 (lit s +> o) m3 fs.
Proof. intros Hr Hq Ho. change fs with ([] ++ fs). eapply walks_andthen; [by eapply walks_lit|done]. Qed.

Lemma walks_text s o m fs : walks Data o m fs -> walks Data (write_text s +> o) m fs.
Proof.
  intros Ho. change fs with ([] ++ fs). eapply walks_andthen; [|exact Ho]. intros _. unfold write_text.
  rewrite join_string. cbn [fst write_result]. eexists. rewrite run_text; [|done|rewrite string_of_bytes_of; apply escaped_plain].
  split; [done|]. rewrite app_nil_r, rev_involutive. by induction (bytes_of (EscapeString s)).
Qed.

(** A value is a variable to what follows it. *)
Lemma walks_value n l a o o' m fs : (o.2 = None -> lacks (markup "`") o.1 = true) ->
  (forall x, x = bytes_of o.1 -> walks (Value double_quote n l a x) o' m fs) ->
  walks (Value double_quote n l a []) (o +> o') m fs.
Proof.
  intros Hv Ho He. apply andthen_ok in He as (Ea & Eb & ->). destruct (Ho _ eq_refl Eb) as (acc & Hr & Hfs).
  exists acc. rewrite bytes_of_app, run_app, run_value by (rewrite string_of_bytes_of; auto). by split.
Qed.

Lemma walks_provided b o o' m fs gs : walks Data o Data fs -> walks Data o' m gs ->
  walks Data (provided b o +> o') m ((if b then fs else []) ++ gs).
Proof. intros Ho Ho'. eapply walks_andthen; [|exact Ho']. destruct b; [done|]. intros _. by exists []. Qed.

Lemma walks_template e m o m' fs : walks m o m' fs -> walks m (GeneratedTemplate e o) m' fs.
Proof. intros Ho. by destruct e. Qed.

Lemma walks_closed o : closed o -> walks Data o Data (raw_outline o).
Proof.
  intros Hc He. destruct (Hc He) as [toks Ht]. unfold raw_outline, html in *.
  destruct (run (Data, []) (bytes_of o.1)) as [[] acc]; try done. exists acc. by split.
Qed.

Lemma walks_slot c ctx : (forall s, c = Some s -> closed (s ctx)) ->
  walks Data (render_slot c ctx) Data (raw_outline (render_slot c ctx)).
Proof. intros Hc. apply walks_closed. destruct c; [by apply Hc|by eexists]. Qed.

(** A literal that shows nothing, evaluated where the run stands. *)
Ltac quiet :=
  lazymatch goal with |- walks ?m (lit ?s +> _) _ _ =>
    let r := eval vm_compute in (run (m, []) (bytes_of (markup s))) in
    lazymatch r with (?m', ?acc) => apply (walks_quiet m m' _ s acc); [vm_compute; reflexivity|reflexivity|] end
  end.
(** One that shows these. *)
Ltac shows fs :=
  lazymatch goal with
  | |- walks ?m (lit ?s +> _) _ _ =>
    let r := eval vm_compute in (run (m, []) (bytes_of (markup s))) in
    lazymatch r with (?m', ?acc) =>
      apply (walks_andthen m m' _ _ _ fs); [apply (walks_lit _ _ _ acc); vm_compute; reflexivity|] end
  | |- walks ?m (lit ?s) _ _ => eapply walks_lit; vm_compute; reflexivity
  end.

Lemma NavPill_walks e label href active :
  walks Data (NavPill e label href active) Data [Anchor (bytes_of (write_url href).1) active].
Proof.
  apply walks_template. cbv zeta. rewrite css_of_names.
  change [Anchor (bytes_of (write_url href).1) active] with ([] ++ [Anchor (bytes_of (write_url href).1) active]).
  apply (walks_andthen _ Data); [by exists []|]. quiet.
  apply walks_value; [apply url_plain|]. intros u <-. quiet.
  apply walks_value; [apply attribute_plain|]. intros c _. quiet.
  destruct active; cbn [provided].
  - quiet. apply (walks_andthen _ Data _ _ _ [Anchor u true] []); [shows tt|]. apply walks_text. shows tt.
  - change [Anchor u false] with ([] ++ [Anchor u false]). eapply walks_andthen; [by exists []|].
    apply (walks_andthen _ Data _ _ _ [Anchor u false] []); [shows tt|]. apply walks_text. shows tt.
Qed.

Lemma pills_walk E n nav : walks Data (pills E n nav) Data
  ((fun i => Anchor (bytes_of (write_url (Href i)).1) (Active i)) <$> nav).
Proof.
  revert n. induction nav as [|i nav IH]; intros n; [by exists []|]. cbn [pills fmap list_fmap].
  apply (walks_andthen _ Data _ _ _ [_]); [apply NavPill_walks|apply IH].
Qed.

(** What a link given by a caller points to: templ may replace it. *)
Definition sanitized (s : string) : string := match JoinURLErrs s with Ok u => u | Err _ => ""%string end.
Definition slot_outline (c : option (Component (error := error))) (ctx : Context) : list (fact string) :=
  match c with Some c => outline (default [] (html (c ctx).1)) | None => [] end.

Definition page_outline (props : ShellProps (error := error)) (nav : list NavItem) (content : Component (error := error))
    (ctx : Context) : list (fact string) :=
  (if bool_decide (FaviconHref props = ""%string) then [] else [LinkTo (bytes_of "icon") (sanitized (FaviconHref props))])
  ++ (if bool_decide (StylesheetHref props = ""%string) then []
      else [LinkTo (bytes_of "stylesheet") (sanitized (StylesheetHref props))])
  ++ [Script "/hearth-static/js/htmx.min.js"%string] ++ slot_outline (HeadExtras props) ctx
  ++ [Script "/hearth-static/js/alpine.min.js"; Anchor "#main-content" false]%string
  ++ slot_outline (SidebarBrand props) ctx
  ++ ((fun i => Anchor (sanitized (Href i)) (Active i)) <$> nav)
  ++ slot_outline (SidebarExtra props) ctx ++ slot_outline (SidebarFooter props) ctx ++ slot_outline (Some content) ctx.

Section one_page.
Context (E : nat -> option error) (props : ShellProps (error := error)) (nav : list NavItem)
  (content : Component (error := error)) (ctx : Context).
Context (Hslots : slots_closed props content ctx).

Lemma head_walk v : v = bytes_of (write_attribute (error := error) (MountPath +:+ "js/alpine.min.js")).1 ->
  walks Data (layout_head props ctx) (Value double_quote (rev (bytes_of "script")) [] (rev (bytes_of "src")) v)
    ((if negb (bool_decide (FaviconHref props = ""%string))
      then [LinkTo (bytes_of "icon") (bytes_of (write_url (FaviconHref props)).1)] else [])
     ++ (if negb (bool_decide (ThemeColor props = ""%string)) then [] else [])
     ++ (if negb (bool_decide (StylesheetHref props = ""%string))
         then [LinkTo (bytes_of "stylesheet") (bytes_of (write_url (StylesheetHref props)).1)] else [])
     ++ [Script (bytes_of (write_attribute (error := error) (MountPath +:+ "js/htmx.min.js")).1)]
     ++ raw_outline (render_slot (HeadExtras props) ctx)).
Proof.
  intros ->. unfold layout_head. quiet. apply walks_text. quiet.
  apply walks_provided.
  { quiet. apply walks_value; [apply url_plain|]. intros u <-. shows tt. }
  apply walks_provided.
  { quiet. apply walks_value; [apply attribute_plain|]. intros u _. shows tt. }
  apply walks_provided.
  { quiet. apply walks_value; [apply url_plain|]. intros u <-. shows tt. }
  quiet. apply walks_value; [apply attribute_plain|]. intros conf _. quiet.
  apply walks_value; [apply attribute_plain|]. intros src <-. shows [Script src].
  rewrite <- (app_nil_r (raw_outline _)). apply (walks_andthen _ Data).
  { apply walks_slot. intros s Hs. eapply member_closed; [exact Hslots|exact Hs|]. unfold slots. set_solver. }
  quiet. intros He. exists []. rewrite run_value by (rewrite string_of_bytes_of; by apply attribute_plain). done.
Qed.

Definition raw_slot (c : option (Component (error := error))) : list (fact bytes) := raw_outline (render_slot c ctx).

Lemma slot_in_walks c : option_list c ⊆ slots props content -> walks Data (render_slot c ctx) Data (raw_slot c).
Proof. intros Hin. apply walks_slot. intros s Hs. by eapply member_closed. Qed.

Lemma sidebar_walk : walks Data (sidebar E props nav ctx) Data
  (raw_slot (SidebarBrand props) ++ ((fun i => Anchor (bytes_of (write_url (error := error) (Href i)).1) (Active i)) <$> nav)
   ++ raw_slot (SidebarExtra props) ++ raw_slot (SidebarFooter props)).
Proof.
  apply walks_template. quiet. apply (walks_andthen _ Data).
  { destruct (SidebarBrand props) as [b|] eqn:Hb.
    - change (b ctx) with (render_slot (Some b) ctx). rewrite <- Hb. apply slot_in_walks. unfold slots. set_solver.
    - change (raw_slot None) with (@nil (fact bytes)). quiet. apply walks_text. shows tt. }
  quiet. apply (walks_andthen _ Data); [apply pills_walk|]. quiet.
  apply (walks_andthen _ Data); [apply slot_in_walks; unfold slots; set_solver|]. quiet.
  rewrite <- (app_nil_r (raw_slot (SidebarFooter props))). apply (walks_andthen _ Data); [|shows tt].
  destruct (SidebarFooter props) as [f|] eqn:Hf; [|by exists []]. quiet.
  rewrite <- (app_nil_r (raw_slot _)). apply (walks_andthen _ Data); [|shows tt].
  change (f ctx) with (render_slot (Some f) ctx). rewrite <- Hf. apply slot_in_walks. unfold slots. set_solver.
Qed.

Lemma body_walk v : walks (Value double_quote (rev (bytes_of "script")) [] (rev (bytes_of "src")) v)
  (layout_body E props nav content ctx) Data
  ([Script v; Anchor (bytes_of "#main-content") false]
   ++ (raw_slot (SidebarBrand props) ++ ((fun i => Anchor (bytes_of (write_url (error := error) (Href i)).1) (Active i)) <$> nav)
       ++ raw_slot (SidebarExtra props) ++ raw_slot (SidebarFooter props)) ++ raw_slot (Some content)).
Proof.
  unfold layout_body. shows [Script v; Anchor (bytes_of "#main-content") false].
  apply (walks_andthen _ Data); [apply sidebar_walk|]. quiet.
  rewrite <- (app_nil_r (raw_slot _)). apply (walks_andthen _ Data); [|shows tt].
  apply (slot_in_walks (Some content)). unfold slots. set_solver.
Qed.

(** Reading the references of what was written gives what was to be written. *)
Definition read (v : bytes) : string := read_refs (string_of v).

Lemma read_url s : read (bytes_of (write_url (error := error) s).1) = sanitized s.
Proof.
  unfold read, write_url, sanitized. rewrite string_of_bytes_of. by destruct (JoinURLErrs s); [apply escape_reads|].
Qed.

Lemma read_attribute s : (write_attribute (error := error) s).2 = None ->
  read (bytes_of (write_attribute (error := error) s).1) = s.
Proof.
  unfold read, write_attribute. rewrite string_of_bytes_of. destruct (ResolveAttributeValue s) eqn:Hv; [|done]. intros _.
  by eapply attribute_lacks.
Qed.

Lemma scripts_written : (Layout E props nav content ctx).2 = None ->
  (write_attribute (error := error) (MountPath +:+ "js/htmx.min.js")).2 = None /\
  (write_attribute (error := error) (MountPath +:+ "js/alpine.min.js")).2 = None.
Proof.
  unfold Layout, GeneratedTemplate. destruct (E 0%nat); [done|]. intros He. apply andthen_ok in He as (He & _ & _).
  unfold layout_head in He. repeat (apply andthen_ok in He as (?Hw & He & _)). done.
Qed.

Lemma read_slot c : fact_map read <$> raw_slot c = slot_outline c ctx.
Proof. destruct c; done. Qed.
End one_page.

(** The outline of a page is the caller's. A rendered shell, read by a browser's
    tokenizer, loads and links exactly this, in this order: the configured icon and style
    sheet, the embedded HTMX, what the head slot asks for, then Alpine (so extensions are
    registered before it runs), the skip link, and one link per navigation item to its own
    sanitised address, marked as current exactly when it is active, among what the slots
    and the content show. The shell itself names no other host. *)
Theorem Layout_outline (E : nat -> option error) (props : ShellProps (error := error)) (nav : list NavItem)
    (content : Component (error := error)) (ctx : Context) (page : string) :
  slots_closed props content ctx -> Layout E props nav content ctx = (page, None) ->
  exists toks, html page = Some toks /\ outline toks = page_outline props nav content ctx.
Proof.
  intros Hc Hpage. assert ((Layout E props nav content ctx).2 = None) as He by (by rewrite Hpage).
  destruct (scripts_written _ _ _ _ _ He) as [Hhtmx Halpine].
  pose proof (walks_template (E 0%nat) _ _ _ _
    (walks_andthen _ _ _ _ _ _ _ (head_walk _ _ _ Hc _ eq_refl) (body_walk E props nav content ctx Hc _))) as Hw.
  destruct (Hw He) as (acc & Hr & Hfs). change (GeneratedTemplate _ _) with (Layout E props nav content ctx) in Hr.
  rewrite Hpage in Hr. cbn [fst] in Hr. exists (rev acc). split; [unfold html; by rewrite Hr|].
  unfold outline. change (fun v => read_refs (string_of v)) with read. rewrite Hfs.
  change (raw_outline (render_slot (HeadExtras props) ctx)) with (raw_slot ctx (HeadExtras props)).
  rewrite !fmap_app, !read_slot.
  cbn [fmap list_fmap fact_map]. rewrite !read_attribute by done. unfold page_outline.
  assert (forall l : list NavItem,
    fact_map read <$> ((fun i => Anchor (bytes_of (write_url (error := error) (Href i)).1) (Active i)) <$> l)
    = (fun i => Anchor (sanitized (Href i)) (Active i)) <$> l) as ->.
  { intros l. rewrite <- list_fmap_compose. apply list_fmap_ext. intros _ i _. cbn. by rewrite read_url. }
  assert (read (bytes_of "#main-content") = "#main-content"%string) as -> by reflexivity.
  repeat case_bool_decide; cbn [negb app fmap list_fmap fact_map]; rewrite ?read_url, <- ?app_assoc; reflexivity.
Qed.
End pages.

Module ComponentsWitness.
(** Go's html.EscapeString. *)
Definition escape_byte (c : Ascii.ascii) : bytes :=
  match find (fun r => Ascii.eqb r.2 c) references with
  | Some r => r.1
  | None => [c]
  end.
Definition escape (b : bytes) : bytes := b ≫= escape_byte.

(** A byte that is escaped, or none of them. *)
Ltac each_special c tac :=
  repeat match goal with |- context [Ascii.eqb ?r c] => destruct (Ascii.eqb_spec r c) as [<-|?]; [tac|] end.

Lemma escape_byte_read c rest fuel :
  unescape_refs (S fuel) (escape_byte c ++ rest) = c :: unescape_refs fuel rest /\ escape_byte c <> [].
Proof.
  unfold escape_byte, references. cbn [find fst snd].
  each_special c ltac:(split; [reflexivity|done]).
  cbn [app unescape_refs]. split; [|done]. unfold references. cbn [find fst].
  repeat (rewrite bool_decide_false by (intros E; apply (f_equal head) in E; cbn in E; congruence)). done.
Qed.

Lemma escape_read b fuel : (length (escape b) <= fuel)%nat -> unescape_refs fuel (escape b) = b.
Proof.
  revert fuel. induction b as [|c b IH]; intros fuel Hf; [by destruct fuel|].
  unfold escape in *. cbn [mbind list_bind] in *. rewrite length_app in Hf.
  destruct fuel as [|fuel]; destruct (escape_byte_read c (b ≫= escape_byte) fuel) as [Hr Hne] || idtac.
  - destruct (escape_byte_read c [] 0) as [_ Hne]. destruct (escape_byte c); [done|cbn in Hf; lia].
  - rewrite Hr, IH; [done|]. destruct (escape_byte c); [done|cbn in Hf; lia].
Qed.

Lemma escape_plain b : forallb (fun c => negb (bool_decide (c ∈ bytes_of (markup "<>'`")))) (escape b) = true.
Proof.
  induction b as [|c b IH]; [done|]. unfold escape. cbn [mbind list_bind]. rewrite forallb_app. fold (escape b). rewrite IH, andb_true_r.
  unfold escape_byte, references. cbn [find fst snd].
  each_special c ltac:(by vm_compute). cbn [app forallb]. rewrite andb_true_r.
  apply negb_true_iff, bool_decide_eq_false. intros Hc. change (bytes_of (markup "<>'`")) with ["<"; ">"; chr 39; double_quote]%char in Hc.
  set_solver.
Qed.

Definition escape_string (s : string) : string := string_of (escape (bytes_of s)).

Lemma escape_string_reads s : read_refs (escape_string s) = s.
Proof. unfold read_refs, escape_string. by rewrite bytes_of_string_of, escape_read, string_of_bytes_of. Qed.

Lemma escape_string_lacks s : lacks (markup "<>'`") (escape_string s) = true.
Proof. unfold lacks, escape_string. rewrite bytes_of_string_of. apply escape_plain. Qed.

(** Links to scripts are refused, as templ's URL does. *)
Definition sanitize (s : string) : string :=
  if bool_decide (take 11 (bytes_of (ToLower s)) = bytes_of "javascript:")
  then "about:invalid#TemplFailedSanitizationURL" else s.

#[export] Program Instance html_templ : Templ string := {|
  EscapeString := escape_string;
  ResolveAttributeValue := fun s => Ok (escape_string s);
  JoinStringErrs := fun s => Ok s;
  JoinURLErrs := fun s => Ok (sanitize s);
  RenderCSSItems := fun _ => (""%string, None);
  CSSClasses_String := String.concat " "
|}.
Next Obligation. apply escape_string_lacks. Qed.
Next Obligation. apply escape_string_reads. Qed.
Next Obligation.
  intros s v [= <-]. split; [|apply escape_string_reads]. eapply lacks_fewer; [|apply escape_string_lacks].
  intros c Hc. apply list_elem_of_singleton in Hc as ->. apply (bool_decide_unpack _). vm_compute. exact I.
Qed.
Next Obligation. done. Qed.
Next Obligation. done. Qed.

Definition on_time : nat -> option string := fun _ => None.
Definition manifest : Component (error := string) := fun _ => (markup "<link rel=`manifest` href=`/static/m.json`>", None).
Definition paragraph : Component (error := string) := fun _ => ("<p>hello</p>"%string, None).
Definition shell (name : string) (favicon : string) : ShellProps (error := string) :=
  mkShellProps name favicon "" "/static/app.css" (Some manifest) None None None.
Definition here : Context := mkContext None None false None.

Definition plain_nav : list NavItem := [mkNavItem "Home" "/" true; mkNavItem "Bins" "/bins" false].
Definition hostile_nav : list NavItem :=
  [mkNavItem (markup "</a><script src=//evil>") "javascript:alert(1)" true; mkNavItem "x" (markup "/bins` onclick=`x") false].

Lemma slots_are_closed name favicon : slots_closed (shell name favicon) paragraph here.
Proof.
  intros c Hc. unfold slots in Hc. cbn in Hc. apply elem_of_cons in Hc as [->|Hc]; [by eexists; vm_compute|].
  apply list_elem_of_singleton in Hc as ->. by eexists; vm_compute.
Qed.

Lemma Layout_no_injection_witness : exists page page' toks toks',
  Layout on_time (shell "Nestova" "/icon.svg") plain_nav paragraph here = (page, None) /\
  Layout on_time (shell (markup "</title><script>") (markup "`><img src=x onerror=y>")) hostile_nav paragraph here = (page', None) /\
  html page = Some toks /\ html page' = Some toks' /\ omap shape_of toks = omap shape_of toks'.
Proof.
  destruct (Layout on_time (shell "Nestova" "/icon.svg") plain_nav paragraph here) as [page e] eqn:Hp.
  destruct (Layout on_time (shell (markup "</title><script>") (markup "`><img src=x onerror=y>")) hostile_nav paragraph here)
    as [page' e'] eqn:Hp'.
  assert (e = None) as -> by (apply (f_equal snd) in Hp; vm_compute in Hp; done).
  assert (e' = None) as -> by (apply (f_equal snd) in Hp'; vm_compute in Hp'; done).
  destruct (Layout_no_injection on_time on_time (shell "Nestova" "/icon.svg") (shell (markup "</title><script>") (markup "`><img src=x onerror=y>"))
    plain_nav hostile_nav paragraph here page page' ltac:(by constructor) eq_refl (slots_are_closed _ _) Hp Hp')
    as (toks & toks' & H1 & H2 & H3).
  exists page, page', toks, toks'. split; [exact eq_refl|]. split; [exact eq_refl|]. split; [exact H1|]. split; [exact H2|exact H3].
Defined.

Lemma Layout_outline_witness : exists page toks,
  Layout on_time (shell "Nestova" "/icon.svg") hostile_nav paragraph here = (page, None) /\ html page = Some toks /\
  outline toks =
    [LinkTo (bytes_of "icon") "/icon.svg"; LinkTo (bytes_of "stylesheet") "/static/app.css";
     Script "/hearth-static/js/htmx.min.js"; LinkTo (bytes_of "manifest") "/static/m.json";
     Script "/hearth-static/js/alpine.min.js"; Anchor "#main-content" false;
     Anchor "about:invalid#TemplFailedSanitizationURL" true; Anchor (markup "/bins` onclick=`x") false]%string.
Proof.
  destruct (Layout on_time (shell "Nestova" "/icon.svg") hostile_nav paragraph here) as [page e] eqn:Hp.
  assert (e = None) as -> by (apply (f_equal snd) in Hp; vm_compute in Hp; done).
  destruct (Layout_outline on_time _ _ _ _ _ (slots_are_closed "Nestova" "/icon.svg") Hp) as (toks & Ht & Ho).
  exists page, toks. split; [exact eq_refl|]. split; [exact Ht|]. rewrite Ho. vm_compute. reflexivity.
Defined.
End ComponentsWitness.
