(* ===== verification/Uuids.v ===== *)
(** Identifiers: the [github.com/google/uuid] values every part of the program
    uses, as an interface with the laws the program relies on, and the instances
    the witnesses run on. *)

From S2P Require Import Prelude GoStrings.
Local Open Scope Z_scope.

(** Ids are [github.com/google/uuid] values: third-party code, used through this
    interface. The laws are the documented ones: the canonical text form is 36
    characters of hex digits and dashes, and parsing inverts it. *)
Class UuidLib := {
  Uuid : Type;
  uuid_eq_dec :: EqDecision Uuid;
  uuid_countable :: Countable Uuid;
  uuid_string : Uuid -> string;
  uuid_parse : string -> option Uuid;
  uuid_parse_string : forall u, uuid_parse (uuid_string u) = Some u;
  uuid_length : forall u, length (bytes_of (uuid_string u)) = 36%nat;
  uuid_chars : forall u c, c ∈ bytes_of (uuid_string u) ->
    48 <= byte_val c <= 57 \/ 97 <= byte_val c <= 102 \/ byte_val c = 45
}.

Section uuid_facts.
Context `{UuidLib}.

Lemma uuid_string_inj u v : uuid_string u = uuid_string v -> u = v.
Proof. intros E. apply (f_equal uuid_parse) in E. rewrite !uuid_parse_string in E. by simplify_eq. Qed.

Lemma uuid_plain u : plain_part (bytes_of (uuid_string u)).
Proof.
  pose proof (uuid_length u) as Hl. unfold plain_part.
  split_and!; try (intros E; rewrite E in Hl; discriminate).
  intros Hs%uuid_chars. change (byte_val slash) with 47 in Hs. lia.
Qed.
End uuid_facts.

(** ** The identifiers of src/identity/domain/ids.go and src/media/domain/ids.go

    Each is a UUID under a type of its own; a new one is time-ordered, and [uuid.Must]
    panics when the random source fails ([None]). *)
Section ids.
Context `{UuidLib}.

Inductive id_error := BadHouseholdID | BadMemberID | BadRecoveryCodeID | BadWebAuthnCredentialID | BadPhotoID.

Definition HouseholdID := Uuid.
Definition MemberID := Uuid.
Definition RecoveryCodeID := Uuid.
Definition WebAuthnCredentialID := Uuid.
Definition PhotoID := Uuid.

Definition NewHouseholdID (newV7 : option Uuid) : option HouseholdID := newV7.
Definition NewMemberID (newV7 : option Uuid) : option MemberID := newV7.
Definition NewRecoveryCodeID (newV7 : option Uuid) : option RecoveryCodeID := newV7.
Definition NewWebAuthnCredentialID (newV7 : option Uuid) : option WebAuthnCredentialID := newV7.
Definition NewPhotoID (newV7 : option Uuid) : option PhotoID := newV7.

Definition HouseholdID_String (id : HouseholdID) : string := uuid_string id.
Definition MemberID_String (id : MemberID) : string := uuid_string id.
Definition RecoveryCodeID_String (id : RecoveryCodeID) : string := uuid_string id.
Definition WebAuthnCredentialID_String (id : WebAuthnCredentialID) : string := uuid_string id.
Definition PhotoID_String (id : PhotoID) : string := uuid_string id.

Definition ParseHouseholdID (s : string) : result id_error HouseholdID :=
  match uuid_parse s with None => Err BadHouseholdID | Some u => Ok u end.
Definition ParseMemberID (s : string) : result id_error MemberID :=
  match uuid_parse s with None => Err BadMemberID | Some u => Ok u end.
Definition ParseRecoveryCodeID (s : string) : result id_error RecoveryCodeID :=
  match uuid_parse s with None => Err BadRecoveryCodeID | Some u => Ok u end.
Definition ParseWebAuthnCredentialID (s : string) : result id_error WebAuthnCredentialID :=
  match uuid_parse s with None => Err BadWebAuthnCredentialID | Some u => Ok u end.
Definition ParsePhotoID (s : string) : result id_error PhotoID :=
  match uuid_parse s with None => Err BadPhotoID | Some u => Ok u end.

(** Every identifier is read back from its text. *)
Lemma ids_read_back (u : Uuid) :
  ParseHouseholdID (HouseholdID_String u) = Ok u /\ ParseMemberID (MemberID_String u) = Ok u /\
  ParseRecoveryCodeID (RecoveryCodeID_String u) = Ok u /\
  ParseWebAuthnCredentialID (WebAuthnCredentialID_String u) = Ok u /\ ParsePhotoID (PhotoID_String u) = Ok u.
Proof.
  unfold ParseHouseholdID, ParseMemberID, ParseRecoveryCodeID, ParseWebAuthnCredentialID, ParsePhotoID,
    HouseholdID_String, MemberID_String, RecoveryCodeID_String, WebAuthnCredentialID_String, PhotoID_String.
  by rewrite uuid_parse_string.
Qed.
End ids.

Module DemoUuid.
Definition text (b : bool) : string :=
  if b then "018f0000-0000-7000-8000-000000000001" else "018f0000-0000-7000-8000-000000000002".
Definition parse (s : string) : option bool :=
  if decide (s = text true) then Some true else if decide (s = text false) then Some false else None.

(** Two ids are enough to instantiate the interface. *)
#[export] Program Instance demo_uuid : UuidLib :=
  {| Uuid := bool; uuid_string := text; uuid_parse := parse |}.
Next Obligation. by intros []. Qed.
Next Obligation. by intros []. Qed.
Next Obligation.
  intros u c Hc.
  assert (forallb (fun c => let n := byte_val c in ((48 <=? n) && (n <=? 57)) || ((97 <=? n) && (n <=? 102)) || (n =? 45))
    (bytes_of (text u)) = true) as Hf by (by destruct u).
  rewrite forallb_forall in Hf. apply list_elem_of_In in Hc. apply Hf in Hc. cbv beta zeta in Hc. lia.
Qed.
End DemoUuid.

(** Sixteen ids, one per hex digit. *)
Module HexUuid.
Definition nibble := (bool * bool * (bool * bool))%type.
Definition digits : list nibble :=
  [false; true] ≫= fun a => [false; true] ≫= fun b =>
  [false; true] ≫= fun c => [false; true] ≫= fun d => [(a, b, (c, d))].
Definition bit (b : bool) (w : N) : N := if b then w else 0%N.
Definition value (n : nibble) : N :=
  let '(a, b, (c, d)) := n in (bit a 8 + bit b 4 + bit c 2 + bit d 1)%N.
Definition digit (n : nibble) : Ascii.ascii :=
  let v := value n in Ascii.ascii_of_N (if (v <? 10)%N then 48 + v else 87 + v)%N.
Definition text (n : nibble) : string :=
  "018f0000-0000-7000-8000-00000000000" +:+ String.String (digit n) "".
Definition parse (s : string) : option nibble := List.find (fun n => bool_decide (s = text n)) digits.

Definition checked (n : nibble) : bool :=
  bool_decide (parse (text n) = Some n) && bool_decide (length (bytes_of (text n)) = 36%nat)
  && forallb (fun c => let v := byte_val c in
       ((48 <=? v) && (v <=? 57)) || ((97 <=? v) && (v <=? 102)) || (v =? 45)) (bytes_of (text n)).

Lemma all_checked n : checked n = true.
Proof. destruct n as [[[] []] [[] []]]; vm_compute; reflexivity. Qed.

#[export] Program Instance hex_uuid : UuidLib :=
  {| Uuid := nibble; uuid_string := text; uuid_parse := parse |}.
Next Obligation.
  intros u. pose proof (all_checked u) as Hu. unfold checked in Hu. to_prop.
  by eapply bool_decide_eq_true_1.
Qed.
Next Obligation.
  intros u. pose proof (all_checked u) as Hu. unfold checked in Hu. to_prop.
  by eapply bool_decide_eq_true_1.
Qed.
Next Obligation.
  intros u c Hc. pose proof (all_checked u) as Hu. unfold checked in Hu. to_prop.
  match goal with H : forallb _ _ = true |- _ => rewrite forallb_forall in H; rename H into Hf end.
  apply list_elem_of_In in Hc. apply Hf in Hc. cbv beta zeta in Hc. lia.
Qed.
End HexUuid.
