(* ===== verification/RateLimit.v ===== *)
(** Package ratelimit: the keyed strike counter [AttemptLimiter]
    (src/ratelimit/attempt_limiter.go), whole.

    An entry is a Go pointer held by the map and by one of two linked lists at
    once. At most one live entry exists per key, so the key is its address: the
    map is the store, and the lists hold keys (most recently active first, as
    [PushFront] leaves them). Times are nanoseconds in [Z], the zero time being
    [0]; epochs are [uint64] and wrap. Every operation runs under one mutex, so
    a concurrent execution is a sequence of operations ([run], below). *)

From S2P Require Import Prelude.
Local Open Scope Z_scope.

(** ** Data *)

Record Policy := mkPolicy {
  Threshold : Z;
  LockoutWindow : Z;
  MaxTrackedKeys : Z
}.

Inductive Outcome := Denied | Allowed | AllowedLastAttempt.
#[export] Instance Outcome_eq_dec : EqDecision Outcome.
Proof. solve_decision. Defined.

Definition Permitted (o : Outcome) : bool := bool_decide (o <> Denied).

Record entry := mkEntry {
  key : string;
  epoch : Z;
  attempts : Z;
  locked : bool;
  lockedUntil : Z;
  lastActivity : Z
}.

Record AttemptLimiter := mkLimiter {
  policy : Policy;
  entries : gmap string entry;
  nextEpoch : Z;
  latest : Z;
  counting : list string;
  locks : list string
}.

Record Reservation := mkReservation {
  r_key : string;
  r_epoch : Z;
  r_engaged : bool
}.

Definition zeroReservation : Reservation := mkReservation "" 0 false.

(** The constructor's panics. *)
Inductive policy_panic := BadThreshold | BadLockoutWindow | BadMaxTrackedKeys.

Definition NewAttemptLimiter (p : Policy) : result policy_panic AttemptLimiter :=
  if Threshold p <? 1 then Err BadThreshold
  else if LockoutWindow p <=? 0 then Err BadLockoutWindow
  else if MaxTrackedKeys p <? 1 then Err BadMaxTrackedKeys
  else Ok (mkLimiter p ∅ 0 0 [] []).

(** Assignments through the entry pointer. *)
Definition set_attempts (n : Z) (e : entry) : entry :=
  mkEntry (key e) (epoch e) n (locked e) (lockedUntil e) (lastActivity e).
Definition set_lastActivity (t : Z) (e : entry) : entry :=
  mkEntry (key e) (epoch e) (attempts e) (locked e) (lockedUntil e) t.
Definition set_lock (b : bool) (until : Z) (e : entry) : entry :=
  mkEntry (key e) (epoch e) (attempts e) b until (lastActivity e).

Definition put (e : entry) (l : AttemptLimiter) : AttemptLimiter :=
  mkLimiter (policy l) (<[key e := e]> (entries l)) (nextEpoch l) (latest l)
    (counting l) (locks l).
Definition set_lists (c k : list string) (l : AttemptLimiter) : AttemptLimiter :=
  mkLimiter (policy l) (entries l) (nextEpoch l) (latest l) c k.

(** ** Internal operations, called with the mutex held *)

Definition removeLocked (e : entry) (l : AttemptLimiter) : AttemptLimiter :=
  let c := if locked e then counting l else list_remove_all (key e) (counting l) in
  let k := if locked e then list_remove_all (key e) (locks l) else locks l in
  mkLimiter (policy l) (delete (key e) (entries l)) (nextEpoch l) (latest l) c k.

Definition idleForAWindow (l : AttemptLimiter) (e : entry) (now : Z) : bool :=
  negb (now - LockoutWindow (policy l) <? lastActivity e).

(** [for back := L.Back(); back != nil; back = L.Back() { ... }]: drop entries
    from the back of list [L] until [stop] holds of the back entry. The fuel is
    the list's length; [sweep_exit] shows it is enough. *)
Fixpoint sweep (L : AttemptLimiter -> list string) (stop : entry -> bool)
    (fuel : nat) (l : AttemptLimiter) : AttemptLimiter :=
  match fuel with
  | O => l
  | S fuel =>
    match last (L l) with
    | None => l
    | Some back =>
      match entries l !! back with
      | None => l
      | Some e => if stop e then l else sweep L stop fuel (removeLocked e l)
      end
    end
  end.

Definition expireLocked (now : Z) (l : AttemptLimiter) : AttemptLimiter :=
  let l1 := sweep counting (fun e => negb (idleForAWindow l e now))
              (length (counting l)) l in
  sweep locks (fun e => now <? lockedUntil e) (length (locks l1)) l1.

Definition saturatedLocked (l : AttemptLimiter) : bool :=
  (MaxTrackedKeys (policy l) <=? Z.of_nat (size (entries l)))
  && (Z.of_nat (length (counting l)) =? 0).

Definition makeRoomLocked (l : AttemptLimiter) : bool * AttemptLimiter :=
  if Z.of_nat (size (entries l)) <? MaxTrackedKeys (policy l) then (true, l)
  else match last (counting l) with
       | None => (false, l)
       | Some back =>
         match entries l !! back with
         | None => (false, l)
         | Some e => (true, removeLocked e l)
         end
       end.

Definition lockLocked (e : entry) (now : Z) (l : AttemptLimiter) : AttemptLimiter :=
  let e' := set_lock true (now + LockoutWindow (policy l)) e in
  put e' (set_lists (list_remove_all (key e) (counting l)) (key e :: locks l) l).

Definition unlockLocked (e : entry) (l : AttemptLimiter) : AttemptLimiter :=
  let e' := set_lastActivity (latest l) (set_lock false 0 e) in
  put e' (set_lists (key e :: counting l) (list_remove_all (key e) (locks l)) l).

Definition observeLocked (now : Z) (l : AttemptLimiter) : AttemptLimiter :=
  let l1 := if latest l <? now
            then mkLimiter (policy l) (entries l) (nextEpoch l) now (counting l) (locks l)
            else l in
  expireLocked now l1.

(** ** Exported operations *)

Definition Locked (k : string) (now : Z) (l : AttemptLimiter) : bool * AttemptLimiter :=
  let l := observeLocked now l in
  match entries l !! k with
  | None => (saturatedLocked l, l)
  | Some e => (locked e && (now <? lockedUntil e), l)
  end.

(** The tail of [Reserve]: count one attempt on the tracked entry [e]. *)
Definition countAttempt (e : entry) (now : Z) (l : AttemptLimiter)
    : Outcome * Reservation * AttemptLimiter :=
  let e1 := set_lastActivity now (set_attempts (attempts e + 1) e) in
  let l1 := put e1 l in
  if attempts e1 <? Threshold (policy l)
  then (Allowed, mkReservation (key e) (epoch e) false,
        set_lists (if locked e then counting l1
                   else key e :: list_remove_all (key e) (counting l1))
                  (locks l1) l1)
  else (AllowedLastAttempt, mkReservation (key e) (epoch e) true,
        lockLocked e1 now l1).

Definition newEntry (k : string) (l : AttemptLimiter) : entry * AttemptLimiter :=
  let n := u64 (nextEpoch l + 1) in
  let e := mkEntry k n 0 false 0 0 in
  (e, mkLimiter (policy l) (<[k := e]> (entries l)) n (latest l)
        (k :: counting l) (locks l)).

Definition Reserve (k : string) (now : Z) (l : AttemptLimiter)
    : Outcome * Reservation * AttemptLimiter :=
  let l := observeLocked now l in
  match entries l !! k with
  | None =>
    match makeRoomLocked l with
    | (false, l) => (Denied, zeroReservation, l)
    | (true, l) => let '(e, l) := newEntry k l in countAttempt e now l
    end
  | Some e =>
    if locked e && (now <? lockedUntil e) then (Denied, zeroReservation, l)
    else countAttempt e now l
  end.

Definition Attempt (k : string) (now : Z) (l : AttemptLimiter) : Outcome * AttemptLimiter :=
  let '(o, _, l) := Reserve k now l in (o, l).

Definition Cancel (r : Reservation) (l : AttemptLimiter) : AttemptLimiter :=
  let l := expireLocked (latest l) l in
  match entries l !! r_key r with
  | None => l
  | Some e =>
    if (r_epoch r =? 0) || negb (epoch e =? r_epoch r) then l
    else
      let e := set_attempts (attempts e - 1) e in
      let l := put e l in
      if locked e && negb (r_engaged r) then l
      else if attempts e =? 0 then removeLocked e l
      else if locked e then unlockLocked e l
      else l
  end.

Definition Refund (k : string) (l : AttemptLimiter) : AttemptLimiter :=
  match entries l !! k with
  | None => l
  | Some e =>
    if locked e || (attempts e =? 0) then l
    else
      let e := set_attempts (attempts e - 1) e in
      let l := put e l in
      if attempts e =? 0 then removeLocked e l else l
  end.

Definition Reset (k : string) (l : AttemptLimiter) : AttemptLimiter :=
  match entries l !! k with
  | None => l
  | Some e => removeLocked e l
  end.

(** ** The representation invariant *)

(** The list holding unlocked ([false]) or locked ([true]) entries. *)
Definition lists (b : bool) (l : AttemptLimiter) : list string :=
  if b then locks l else counting l.

Definition activity (l : AttemptLimiter) (k : string) : Z :=
  from_option lastActivity 0 (entries l !! k).

Definition entry_ok (p : Policy) (now : Z) (e : entry) : Prop :=
  attempts e <= Threshold p /\
  (locked e = false -> attempts e < Threshold p) /\
  (locked e = true -> lockedUntil e = lastActivity e + LockoutWindow p) /\
  lastActivity e <= now.

Definition policy_ok (p : Policy) : Prop :=
  1 <= Threshold p /\ 0 < LockoutWindow p /\ 1 <= MaxTrackedKeys p.

(** Map and lists agree, each list is ordered by activity, no key is listed
    twice, and the table is within its cap. *)
Record WF (l : AttemptLimiter) : Prop := {
  wf_policy : policy_ok (policy l);
  wf_key : forall k e, entries l !! k = Some e -> key e = k;
  wf_lists : forall b k, k ∈ lists b l <-> exists e, entries l !! k = Some e /\ locked e = b;
  wf_nodup : forall b, NoDup (lists b l);
  wf_entry : forall k e, entries l !! k = Some e -> entry_ok (policy l) (latest l) e;
  wf_sorted : forall b, StronglySorted (fun x y => activity l y <= activity l x) (lists b l);
  wf_cap : Z.of_nat (size (entries l)) <= MaxTrackedKeys (policy l)
}.

(** Every operation is a composition of [detach] (forget a key), [attach] (put a
    freshly active entry in front of its list) and in-place updates. *)
Definition detach (k : string) (l : AttemptLimiter) : AttemptLimiter :=
  mkLimiter (policy l) (delete k (entries l)) (nextEpoch l) (latest l)
    (list_remove_all k (counting l)) (list_remove_all k (locks l)).

Definition attach (e : entry) (l : AttemptLimiter) : AttemptLimiter :=
  put e (set_lists (if locked e then counting l else key e :: counting l)
                   (if locked e then key e :: locks l else locks l) l).

Section wf_facts.
Implicit Types (l : AttemptLimiter) (e : entry) (k : string).

Lemma lists_detach b k l : lists b (detach k l) = list_remove_all k (lists b l).
Proof. by destruct b. Qed.

Lemma lists_attach b e l :
  lists b (attach e l) = if decide (locked e = b) then key e :: lists b l else lists b l.
Proof. unfold attach. by destruct b, (locked e). Qed.

Lemma activity_detach k k' l : k <> k' -> activity (detach k l) k' = activity l k'.
Proof. intros. unfold activity. simpl. by rewrite lookup_delete_ne. Qed.

Lemma activity_put e l k :
  activity (put e l) k = if decide (key e = k) then lastActivity e else activity l k.
Proof. unfold activity. simpl. rewrite lookup_insert. by case_decide. Qed.

Lemma activity_attach e l k :
  activity (attach e l) k = if decide (key e = k) then lastActivity e else activity l k.
Proof. unfold activity. simpl. rewrite lookup_insert. by case_decide. Qed.

Lemma activity_put_attempts n e l k :
  entries l !! key e = Some e ->
  activity (put (set_attempts n e) l) k = activity l k.
Proof.
  intros He. rewrite activity_put. simpl. case_decide as Hk; [|done].
  unfold activity. by rewrite <- Hk, He.
Qed.

Lemma wf_absent b k l : WF l -> entries l !! k = None -> k ∉ lists b l.
Proof. intros H Hk (e & ? & _)%(wf_lists l H). congruence. Qed.

Lemma wf_other_list b k e l :
  WF l -> entries l !! k = Some e -> locked e <> b -> k ∉ lists b l.
Proof. intros H Hk Hb (e' & ? & ?)%(wf_lists l H). congruence. Qed.

Lemma detach_WF k l : WF l -> WF (detach k l).
Proof.
  intros H. split; simpl.
  - apply H.
  - intros k' e [_ He]%lookup_delete_Some. by apply (wf_key l H).
  - intros b k'. rewrite lists_detach, elem_of_list_remove_all, (wf_lists l H).
    setoid_rewrite lookup_delete_Some. naive_solver.
  - intros b. rewrite lists_detach. apply NoDup_list_remove_all, H.
  - intros k' e [_ He]%lookup_delete_Some. by apply (wf_entry l H k').
  - intros b. rewrite lists_detach.
    eapply StronglySorted_ext, StronglySorted_filter, (wf_sorted l H).
    intros x y [? _]%elem_of_list_remove_all [? _]%elem_of_list_remove_all.
    by rewrite !activity_detach by congruence.
  - pose proof (wf_cap l H). pose proof (map_size_delete k (entries l)) as Hs.
    destruct (entries l !! k); simpl in Hs; lia.
Qed.

Lemma removeLocked_detach e l :
  WF l -> entries l !! key e = Some e -> removeLocked e l = detach (key e) l.
Proof.
  intros H He. unfold removeLocked, detach.
  assert (list_remove_all (key e) (lists (negb (locked e)) l) = lists (negb (locked e)) l) as Hr.
  { apply list_remove_all_absent. eapply wf_other_list; eauto. by destruct (locked e). }
  by destruct (locked e); simpl in Hr; rewrite Hr.
Qed.

Lemma attach_WF e l :
  WF l -> entries l !! key e = None ->
  entry_ok (policy l) (latest l) e -> lastActivity e = latest l ->
  Z.of_nat (size (entries l)) < MaxTrackedKeys (policy l) ->
  WF (attach e l).
Proof.
  intros H Hn Hok Hact Hcap. split; simpl.
  - apply H.
  - intros k e' [[<- <-]|[? ?]]%lookup_insert_Some; [done|by apply (wf_key l H)].
  - intros b k. rewrite lists_attach. setoid_rewrite lookup_insert_Some.
    pose proof (wf_lists l H b k) as Hl. pose proof (wf_absent b (key e) l H Hn).
    case_decide; [rewrite elem_of_cons|]; naive_solver.
  - intros b. rewrite lists_attach. case_decide; [|apply H].
    constructor; [by apply wf_absent|apply H].
  - intros k e' [[<- <-]|[? ?]]%lookup_insert_Some; [done|by apply (wf_entry l H k)].
  - intros b. rewrite lists_attach.
    assert (StronglySorted (fun x y => activity (attach e l) y <= activity (attach e l) x)
              (lists b l)) as Hs.
    { eapply StronglySorted_ext, (wf_sorted l H). intros x y Hx Hy ?.
      rewrite !activity_attach.
      rewrite !decide_False by (intros <-; by eapply wf_absent). done. }
    case_decide; [|done]. constructor; [done|]. apply Forall_forall. intros y Hy.
    rewrite !activity_attach.
    rewrite decide_False by (intros <-; by eapply wf_absent). rewrite decide_True by done.
    apply (wf_lists l H) in Hy as (e' & He' & _).
    unfold activity. simpl. rewrite He', Hact. simpl. by apply (wf_entry l H y).
  - rewrite map_size_insert_None by done. lia.
Qed.

(** Updating the attempt count of a tracked entry in place. *)
Lemma put_attempts_WF n e l :
  WF l -> entries l !! key e = Some e ->
  n <= attempts e -> WF (put (set_attempts n e) l).
Proof.
  intros H He Hn. split; simpl.
  - apply H.
  - intros k e' [[<- <-]|[? ?]]%lookup_insert_Some; [done|by apply (wf_key l H)].
  - intros b k. change (lists b (put _ l)) with (lists b l). rewrite (wf_lists l H).
    setoid_rewrite lookup_insert_Some. simpl. split.
    + intros (e' & ? & <-). destruct (decide (key e = k)) as [<-|]; naive_solver.
    + intros (e' & [[<- <-]|[? ?]] & <-); eauto.
  - intros b. apply (wf_nodup l H b).
  - intros k e' [[<- <-]|[? ?]]%lookup_insert_Some; [|by apply (wf_entry l H k)].
    pose proof (wf_entry l H _ _ He) as (? & ? & ? & ?). unfold entry_ok. simpl.
    repeat split; try done; [lia|]. intros. specialize (H1 ltac:(done)). lia.
  - intros b. change (lists b (put _ l)) with (lists b l).
    eapply StronglySorted_ext, (wf_sorted l H). intros x y _ _.
    by rewrite !(activity_put_attempts n e l).
  - rewrite map_size_insert_Some by eauto. apply H.
Qed.

(** Advancing the newest time and the epoch counter. *)
Lemma clock_WF n t l :
  WF l -> latest l <= t ->
  WF (mkLimiter (policy l) (entries l) n t (counting l) (locks l)).
Proof.
  intros H Ht. split; simpl; try apply H.
  intros k e He. destruct (wf_entry l H k e He) as (?&?&?&?). repeat split; eauto. lia.
Qed.
End wf_facts.

(** ** Expiry: the two back-to-front sweeps *)

(** What has aged out at [now]. *)
Definition expired (p : Policy) (now : Z) (e : entry) : bool :=
  if locked e then lockedUntil e <=? now
  else negb (now - LockoutWindow p <? lastActivity e).

(** [l'] is [l] with exactly the entries satisfying [drop] forgotten. *)
Record dropped (drop : entry -> bool) (l l' : AttemptLimiter) : Prop := {
  dr_wf : WF l';
  dr_policy : policy l' = policy l;
  dr_epoch : nextEpoch l' = nextEpoch l;
  dr_latest : latest l' = latest l;
  dr_entries : forall k, entries l' !! k =
    (e ← entries l !! k; if drop e then None else Some e)
}.

Section expiry_facts.
Implicit Types (l : AttemptLimiter) (e : entry) (k : string).

(** [stop] only gets truer along increasing activity, among entries of list [b]. *)
Definition stop_mono (b : bool) (stop : entry -> bool) (l : AttemptLimiter) : Prop :=
  forall k1 k2 e1 e2, entries l !! k1 = Some e1 -> entries l !! k2 = Some e2 ->
    locked e1 = b -> locked e2 = b -> lastActivity e1 <= lastActivity e2 ->
    stop e1 = true -> stop e2 = true.

Lemma stop_mono_detach b stop k l : stop_mono b stop l -> stop_mono b stop (detach k l).
Proof.
  intros Hm k1 k2 e1 e2; simpl. rewrite !lookup_delete_Some.
  intros [_ H1] [_ H2]. by apply (Hm k1 k2).
Qed.

(** The back entry of a list is its least recently active one. *)
Lemma wf_back b l back :
  WF l -> last (lists b l) = Some back ->
  exists e, entries l !! back = Some e /\ key e = back /\ locked e = b /\
    forall k e', entries l !! k = Some e' -> locked e' = b -> lastActivity e <= lastActivity e'.
Proof.
  intros H (l' & Hl)%last_Some. pose proof (wf_sorted l H b) as Hs. rewrite Hl in Hs.
  assert (back ∈ lists b l) as (e & He & Hb)%(wf_lists l H) by (rewrite Hl; set_solver).
  exists e. repeat split; [done|by apply (wf_key l H)|done|].
  intros k e' He' Hb'. assert (k ∈ lists b l) as Hk by (apply (wf_lists l H); eauto).
  rewrite Hl in Hk. apply elem_of_app in Hk as [Hk|Hk].
  - eapply StronglySorted_app_1_elem_of in Hs; [|exact Hk|by left].
    unfold activity in Hs. by rewrite He, He' in Hs.
  - apply list_elem_of_singleton in Hk as ->. simplify_eq. lia.
Qed.

Lemma sweep_dropped b stop n l :
  WF l -> stop_mono b stop l -> length (lists b l) = n ->
  dropped (fun e => eqb (locked e) b && negb (stop e)) l (sweep (lists b) stop n l).
Proof.
  revert l. induction n as [|n IH]; intros l H Hm Hn; simpl.
  { split; [done..|]. intros k. destruct (entries l !! k) as [e|] eqn:He; [|done]. simpl.
    destruct (eqb_spec (locked e) b) as [Hb|]; [|done].
    assert (k ∈ lists b l) as Hk by (apply (wf_lists l H); eauto).
    destruct (lists b l); set_solver. }
  destruct (last (lists b l)) as [back|] eqn:Hl; cycle 1.
  { apply last_None in Hl. by rewrite Hl in Hn. }
  destruct (wf_back b l back H Hl) as (e & He & <- & Hb & Hmin). rewrite He.
  destruct (stop e) eqn:Hstop.
  - split; [done..|]. intros k. destruct (entries l !! k) as [e'|] eqn:He'; [|done]. simpl.
    destruct (eqb_spec (locked e') b) as [Hb'|]; [|done].
    rewrite (Hm _ _ e e' He He'); eauto.
  - rewrite removeLocked_detach by done.
    destruct (IH (detach (key e) l)) as [W P E T M].
    + by apply detach_WF.
    + by apply stop_mono_detach.
    + rewrite lists_detach. apply last_Some in Hl as (l' & Hl).
      pose proof (wf_nodup l H b) as Hnd. rewrite Hl in Hnd, Hn |- *.
      rewrite list_remove_all_snoc by done. rewrite length_app in Hn. simpl in Hn. lia.
    + split; try done. intros k. rewrite M. simpl.
      destruct (decide (key e = k)) as [<-|].
      * rewrite lookup_delete_eq, He. simpl. by rewrite Hb, eqb_reflx, Hstop.
      * by rewrite lookup_delete_ne.
Qed.

Lemma expireLocked_dropped now l :
  WF l -> dropped (expired (policy l) now) l (expireLocked now l).
Proof.
  intros H. unfold expireLocked.
  destruct (sweep_dropped false (fun e => negb (idleForAWindow l e now))
              (length (counting l)) l H) as [W1 P1 E1 T1 M1]; [|reflexivity|].
  { intros ???? _ _ _ _ ?. unfold idleForAWindow. rewrite !negb_involutive.
    intros ?%Z.ltb_lt. apply Z.ltb_lt. lia. }
  set (l1 := sweep _ _ _ l) in *. fold (lists false) in l1.
  destruct (sweep_dropped true (fun e => now <? lockedUntil e) (length (locks l1)) l1 W1)
    as [W2 P2 E2 T2 M2]; [|reflexivity|].
  { intros k1 k2 e1 e2 H1 H2 L1 L2 Hle Hs. apply Z.ltb_lt in Hs. apply Z.ltb_lt.
    apply (wf_entry l1 W1) in H1 as (_ & _ & U1 & _), H2 as (_ & _ & U2 & _).
    rewrite U1 in Hs by done. rewrite U2 by done. lia. }
  split; [done|by etransitivity; [apply P2|]|by etransitivity; [apply E2|]
         |by etransitivity; [apply T2|]|].
  intros k. etransitivity; [apply M2|]. rewrite M1.
  destruct (entries l !! k) as [e|]; [|done]. simpl. unfold expired, idleForAWindow.
  destruct (locked e) eqn:He; simpl.
  - rewrite He. simpl. by rewrite Z.ltb_antisym, negb_involutive.
  - destruct (_ <? lastActivity e); simpl; by rewrite ?He.
Qed.

Lemma observeLocked_dropped now l :
  WF l -> latest l <= now ->
  exists l0, dropped (expired (policy l) now) l0 (observeLocked now l) /\
    l0 = mkLimiter (policy l) (entries l) (nextEpoch l) now (counting l) (locks l).
Proof.
  intros H Ht. eexists. split; [|reflexivity]. unfold observeLocked.
  assert (WF (mkLimiter (policy l) (entries l) (nextEpoch l) now (counting l) (locks l)))
    as H0 by by apply clock_WF.
  pose proof (expireLocked_dropped now _ H0) as Hd. simpl in Hd.
  destruct (latest l <? now) eqn:E; [done|]. to_prop.
  replace now with (latest l) in * by lia. by destruct l.
Qed.
End expiry_facts.

(** ** What each operation does to a well-formed limiter *)

(** The entry after one more counted attempt at [now]. *)
Definition counted (p : Policy) (now : Z) (e : entry) : entry :=
  let e1 := set_lastActivity now (set_attempts (attempts e + 1) e) in
  if attempts e + 1 <? Threshold p then e1
  else set_lock true (now + LockoutWindow p) e1.

Definition verdict (p : Policy) (e : entry) : Outcome :=
  if attempts e + 1 <? Threshold p then Allowed else AllowedLastAttempt.

Definition fresh (k : string) (n : Z) : entry := mkEntry k n 0 false 0 0.

Definition with_epoch (n : Z) (l : AttemptLimiter) : AttemptLimiter :=
  mkLimiter (policy l) (entries l) n (latest l) (counting l) (locks l).

Section operation_facts.
Implicit Types (l : AttemptLimiter) (e : entry) (k : string).

Lemma observe_spec now l :
  WF l -> latest l <= now ->
  let l' := observeLocked now l in
  WF l' /\ policy l' = policy l /\ nextEpoch l' = nextEpoch l /\ latest l' = now /\
  (forall k, entries l' !! k =
     (e ← entries l !! k; if expired (policy l) now e then None else Some e)).
Proof.
  intros H Ht l'. destruct (observeLocked_dropped now l H Ht) as (l0 & [W P E T M] & ->).
  by split_and!.
Qed.

Lemma observe_live now l k e :
  WF l -> latest l <= now -> entries (observeLocked now l) !! k = Some e ->
  entries l !! k = Some e /\ expired (policy l) now e = false.
Proof.
  intros H Ht. destruct (observe_spec now l H Ht) as (_ & _ & _ & _ & ->).
  destruct (entries l !! k) as [e'|]; [|done]. simpl. by destruct (expired _ _ e') eqn:?; intros; simplify_eq.
Qed.

Lemma countAttempt_attach e now l :
  entries l !! key e = Some e -> locked e = false -> key e ∉ locks l ->
  countAttempt e now l =
    (verdict (policy l) e,
     mkReservation (key e) (epoch e) (bool_decide (verdict (policy l) e = AllowedLastAttempt)),
     attach (counted (policy l) now e) (detach (key e) l)).
Proof.
  intros He Hl Hk. unfold countAttempt, counted, verdict, attach, lockLocked. simpl.
  destruct (_ <? _); simpl; rewrite ?Hl; unfold put, set_lists; simpl;
    by rewrite ?insert_insert_eq, insert_delete_eq, (list_remove_all_absent _ (locks l)) by done.
Qed.

Lemma detach_absent k l : WF l -> entries l !! k = None -> detach k l = l.
Proof.
  intros H Hk. unfold detach. rewrite delete_id by done.
  pose proof (wf_absent false k l H Hk). pose proof (wf_absent true k l H Hk).
  rewrite !list_remove_all_absent by done. by destruct l.
Qed.

Lemma makeRoom_spec l :
  WF l ->
  (Z.of_nat (size (entries l)) < MaxTrackedKeys (policy l) /\ makeRoomLocked l = (true, l)) \/
  (counting l = [] /\ saturatedLocked l = true /\ makeRoomLocked l = (false, l)) \/
  exists v e, entries l !! v = Some e /\ locked e = false /\
    (forall k e', entries l !! k = Some e' -> locked e' = false ->
       lastActivity e <= lastActivity e') /\
    Z.of_nat (size (entries l)) = MaxTrackedKeys (policy l) /\
    makeRoomLocked l = (true, detach v l).
Proof.
  intros H. pose proof (wf_cap l H). unfold makeRoomLocked, saturatedLocked.
  destruct (_ <? _) eqn:Hs; to_prop; [by left|]. right.
  destruct (last (counting l)) as [v|] eqn:Hl; [right|left].
  - destruct (wf_back false l v H Hl) as (e & He & <- & Hb & Hmin). rewrite He.
    exists (key e), e. rewrite removeLocked_detach by done. repeat split; eauto. lia.
  - apply last_None in Hl. rewrite Hl. repeat split.
    apply andb_true_iff. split; [apply Z.leb_le; lia|done].
Qed.

Lemma counted_ok now e p t :
  policy_ok p -> attempts e < Threshold p -> now = t -> locked e = false ->
  entry_ok p t (counted p now e) /\ lastActivity (counted p now e) = t /\
  key (counted p now e) = key e.
Proof.
  intros [? ?] ? -> Hl. unfold counted, entry_ok.
  destruct (_ <? _) eqn:?; to_prop; simpl; rewrite ?Hl; repeat split; intros; try done; lia.
Qed.

(** The state of [Reserve] on an untracked key that has room in [l]. *)
Lemma newEntry_count k now l :
  WF l -> entries l !! k = None ->
  let n := u64 (nextEpoch l + 1) in
  let '(e, l1) := newEntry k l in
  countAttempt e now l1 =
    (verdict (policy l) (fresh k n),
     mkReservation k n (bool_decide (verdict (policy l) (fresh k n) = AllowedLastAttempt)),
     attach (counted (policy l) now (fresh k n)) (with_epoch n l)).
Proof.
  intros H Hk n. unfold newEntry.
  rewrite countAttempt_attach; simpl; [|by rewrite lookup_insert_eq|done|by apply (wf_absent true k l)].
  fold n (fresh k n). do 2 f_equal. unfold with_epoch, detach. simpl.
  rewrite delete_insert_id by done. unfold list_remove_all at 1.
  rewrite filter_cons_False by auto. fold (list_remove_all k (counting l)).
  pose proof (wf_absent false k l H Hk). pose proof (wf_absent true k l H Hk).
  by rewrite !list_remove_all_absent by done.
Qed.

(** All cases of [Reserve] on a well-formed limiter, in one statement. *)
Inductive reserve_case (k : string) (now : Z) (l : AttemptLimiter) :
    Outcome * Reservation * AttemptLimiter -> Prop :=
| rc_locked e : entries l !! k = Some e -> locked e = true -> now < lockedUntil e ->
    reserve_case k now l (Denied, zeroReservation, l)
| rc_count e : entries l !! k = Some e -> locked e = false ->
    reserve_case k now l
      (verdict (policy l) e,
       mkReservation k (epoch e) (bool_decide (verdict (policy l) e = AllowedLastAttempt)),
       attach (counted (policy l) now e) (detach k l))
| rc_full : entries l !! k = None -> saturatedLocked l = true -> counting l = [] ->
    reserve_case k now l (Denied, zeroReservation, l)
| rc_new n : entries l !! k = None -> n = u64 (nextEpoch l + 1) ->
    Z.of_nat (size (entries l)) < MaxTrackedKeys (policy l) ->
    reserve_case k now l
      (verdict (policy l) (fresh k n),
       mkReservation k n (bool_decide (verdict (policy l) (fresh k n) = AllowedLastAttempt)),
       attach (counted (policy l) now (fresh k n)) (with_epoch n l))
| rc_evict n v e : entries l !! k = None -> n = u64 (nextEpoch l + 1) ->
    entries l !! v = Some e -> locked e = false ->
    (forall k' e', entries l !! k' = Some e' -> locked e' = false ->
       lastActivity e <= lastActivity e') ->
    Z.of_nat (size (entries l)) = MaxTrackedKeys (policy l) ->
    reserve_case k now l
      (verdict (policy l) (fresh k n),
       mkReservation k n (bool_decide (verdict (policy l) (fresh k n) = AllowedLastAttempt)),
       attach (counted (policy l) now (fresh k n)) (with_epoch n (detach v l))).

Lemma Reserve_cases k now l :
  WF l -> latest l <= now ->
  reserve_case k now (observeLocked now l) (Reserve k now l).
Proof.
  intros H Ht. unfold Reserve.
  destruct (observe_spec now l H Ht) as (H1 & P1 & N1 & T1 & M1).
  set (l1 := observeLocked now l) in *. destruct (entries l1 !! k) as [e|] eqn:He.
  - pose proof (wf_key l1 H1 k e He) as <-.
    pose proof (observe_live now l _ e H Ht He) as [_ Hx]. unfold expired in Hx.
    destruct (locked e) eqn:Hl; simpl; to_prop.
    + rewrite (proj2 (Z.ltb_lt _ _)) by done. by eapply rc_locked.
    + rewrite countAttempt_attach by (eauto; eapply (wf_other_list true); eauto; congruence).
      by apply rc_count.
  - destruct (makeRoom_spec l1 H1) as [[Hs ->]|[(Hc & Hs & ->)|(v & e & Hv & Hl & Hm & Hs & ->)]].
    + pose proof (newEntry_count k now l1 H1 He) as Hn. simpl in Hn |- *. rewrite Hn.
      by apply rc_new.
    + by apply rc_full.
    + assert (entries (detach v l1) !! k = None) as He' by (simpl; rewrite lookup_delete_None; auto).
      pose proof (newEntry_count k now _ (detach_WF v l1 H1) He') as Hn. simpl in Hn |- *.
      rewrite Hn. by eapply rc_evict.
Qed.
End operation_facts.

(** ** Preservation, for every exported operation *)

Section preservation.
Implicit Types (l : AttemptLimiter) (e : entry) (k : string).

Lemma attach_fresh_WF e now l :
  WF l -> latest l = now -> entries l !! key e = None -> locked e = false ->
  attempts e < Threshold (policy l) ->
  Z.of_nat (size (entries l)) < MaxTrackedKeys (policy l) ->
  WF (attach (counted (policy l) now e) l).
Proof.
  intros H Ht Hn Hl Ha Hs.
  destruct (counted_ok now e (policy l) (latest l)) as (Hok & Hact & Hk); auto; [apply H|].
  apply attach_WF; auto. by rewrite Hk.
Qed.

Lemma with_epoch_WF n l : WF l -> WF (with_epoch n l).
Proof. intros H. by apply (clock_WF n (latest l) l). Qed.

Lemma size_detach k e l :
  entries l !! k = Some e -> S (size (entries (detach k l))) = size (entries l).
Proof. intros He. simpl. by rewrite <- (map_size_insert_None k e), insert_delete_id by
  (done || apply lookup_delete_eq). Qed.

Lemma Reserve_WF k now l :
  WF l -> latest l <= now -> WF (Reserve k now l).2.
Proof.
  intros H Ht. destruct (observe_spec now l H Ht) as (H1 & P1 & _ & T1 & _).
  pose proof (Reserve_cases k now l H Ht) as Hc.
  set (l1 := observeLocked now l) in *. assert (1 <= Threshold (policy l1)) by apply H1.
  destruct Hc as [e ? ?|e He Hl|? ?|n Hk -> Hs|n v e Hk -> Hv Hl _ Hs]; simpl; try done.
  - pose proof (wf_key l1 H1 k e He) as <-. pose proof (size_detach _ e l1 He).
    pose proof (wf_cap l1 H1).
    apply (attach_fresh_WF e now (detach (key e) l1)); simpl in *; try done;
      [by apply detach_WF|by apply lookup_delete_eq|by apply (wf_entry l1 H1 (key e))|lia].
  - apply (attach_fresh_WF (fresh k _) now (with_epoch _ l1)); simpl; try done; [|lia].
    by apply with_epoch_WF.
  - pose proof (size_detach _ e l1 Hv). simpl in *.
    apply (attach_fresh_WF (fresh k _) now (with_epoch _ (detach v l1))); simpl; try done; try lia.
    + by apply with_epoch_WF, detach_WF.
    + by apply lookup_delete_None; right.
Qed.

Lemma unlockLocked_attach e l :
  WF l -> entries l !! key e = Some e -> locked e = true ->
  unlockLocked e l =
    attach (set_lastActivity (latest l) (set_lock false 0 e)) (detach (key e) l).
Proof.
  intros H He Hl. unfold unlockLocked, attach, detach, put, set_lists. simpl.
  rewrite insert_delete_eq, (list_remove_all_absent (key e) (counting l)); [done|].
  by eapply (wf_other_list false); eauto; congruence.
Qed.

(** What [Cancel] does once it has found the attempt's entry. *)
Inductive cancel_case (r : Reservation) (l : AttemptLimiter) : AttemptLimiter -> Prop :=
| cc_stale : (forall e, entries l !! r_key r = Some e -> r_epoch r = 0 \/ epoch e <> r_epoch r) ->
    cancel_case r l l
| cc_lower e : entries l !! r_key r = Some e -> epoch e = r_epoch r -> r_epoch r <> 0 ->
    (locked e = true /\ r_engaged r = false) \/ (locked e = false /\ attempts e <> 1) ->
    cancel_case r l (put (set_attempts (attempts e - 1) e) l)
| cc_forget e : entries l !! r_key r = Some e -> epoch e = r_epoch r -> r_epoch r <> 0 ->
    attempts e = 1 -> (locked e = true -> r_engaged r = true) ->
    cancel_case r l (detach (r_key r) l)
| cc_unlock e : entries l !! r_key r = Some e -> epoch e = r_epoch r -> r_epoch r <> 0 ->
    attempts e <> 1 -> locked e = true -> r_engaged r = true ->
    cancel_case r l
      (attach (set_lastActivity (latest l) (set_lock false 0 (set_attempts (attempts e - 1) e)))
              (detach (r_key r) l)).

Lemma detach_put e l : detach (key e) (put e l) = detach (key e) l.
Proof. unfold detach, put. simpl. by rewrite delete_insert_eq. Qed.

Lemma Cancel_cases r l :
  WF l -> cancel_case r (expireLocked (latest l) l) (Cancel r l).
Proof.
  intros H. unfold Cancel.
  destruct (expireLocked_dropped (latest l) l H) as [H1 _ _ _ _].
  set (l1 := expireLocked (latest l) l) in *.
  destruct (entries l1 !! r_key r) as [e|] eqn:He; [|apply cc_stale; congruence].
  pose proof (wf_key l1 H1 _ e He) as Hk.
  destruct (_ || _) eqn:Hs.
  { apply cc_stale. intros e0 He0. replace e0 with e by congruence.
    apply orb_true_iff in Hs as [?|?]; to_prop; auto. }
  apply orb_false_iff in Hs as [Hr Hep%negb_false_iff]. to_prop.
  simpl. set (e' := set_attempts (attempts e - 1) e).
  change (key e = r_key r) with (key e' = r_key r) in Hk.
  assert (WF (put e' l1)) as Hw by (apply put_attempts_WF; [done|by rewrite <- Hk in He|lia]).
  assert (entries (put e' l1) !! key e' = Some e') as He' by apply lookup_insert_eq.
  destruct (locked e && negb (r_engaged r)) eqn:Hg.
  { apply andb_true_iff in Hg as [? ?]; to_prop. eapply cc_lower; eauto. }
  apply andb_false_iff in Hg. rewrite negb_false_iff in Hg.
  destruct (_ =? 0) eqn:Ha; to_prop.
  - rewrite removeLocked_detach, detach_put, Hk by done.
    eapply cc_forget; eauto; [lia|]. destruct Hg; congruence.
  - destruct (locked e) eqn:Hl.
    + rewrite unlockLocked_attach, detach_put, Hk by done.
      change (latest (put e' l1)) with (latest l1).
      eapply cc_unlock; eauto; [lia|by destruct Hg].
    + eapply cc_lower; eauto. right. split; [done|lia].
Qed.

Lemma Cancel_WF r l : WF l -> WF (Cancel r l).
Proof.
  intros H. destruct (expireLocked_dropped (latest l) l H) as [H1 _ _ _ _].
  pose proof (Cancel_cases r l H) as Hc. set (l1 := expireLocked (latest l) l) in *.
  destruct Hc as [?|e He|e He|e He ? ? ? Hl].
  - done.
  - pose proof (wf_key l1 H1 _ e He) as Hk. apply put_attempts_WF; [done| |lia]. by rewrite Hk.
  - by apply detach_WF.
  - pose proof (wf_key l1 H1 _ e He) as Hk. pose proof (size_detach _ e l1 He).
    pose proof (wf_cap l1 H1). pose proof (wf_entry l1 H1 _ e He) as (? & _).
    apply attach_WF; simpl in *; try done; [by apply detach_WF| | |lia].
    + rewrite Hk. apply lookup_delete_eq.
    + unfold entry_ok. simpl. repeat split; intros; try done; lia.
Qed.

Lemma Refund_WF k l : WF l -> WF (Refund k l).
Proof.
  intros H. unfold Refund. destruct (entries l !! k) as [e|] eqn:He; [|done].
  pose proof (wf_key l H k e He) as <-. destruct (_ || _); [done|]. simpl.
  assert (WF (put (set_attempts (attempts e - 1) e) l)) as H2
    by (apply put_attempts_WF; auto; lia).
  destruct (_ =? 0); [|done]. rewrite removeLocked_detach by (done || apply lookup_insert_eq).
  by apply detach_WF.
Qed.

Lemma Reset_WF k l : WF l -> WF (Reset k l).
Proof.
  intros H. unfold Reset. destruct (entries l !! k) as [e|] eqn:He; [|done].
  pose proof (wf_key l H k e He) as <-. rewrite removeLocked_detach by done. by apply detach_WF.
Qed.

Lemma Locked_snd k now l : (Locked k now l).2 = observeLocked now l.
Proof. unfold Locked. by destruct (_ !! k). Qed.
End preservation.
#[export] Hint Resolve Reserve_WF Cancel_WF Refund_WF Reset_WF detach_WF : nest.
