(* ===== verification/RateLimitSpec.v ===== *)
(** Package ratelimit, what it promises: an abstract per-key state, the
    refinement of it by [Reserve] and [Cancel], and the guarantees over whole
    histories of calls (bounded memory, lockouts that stand, exact budgets). *)

From S2P Require Import Prelude RateLimit.
Local Open Scope Z_scope.

(** ** The abstract state of one key *)

Inductive kstate :=
| Fresh
| Striking (n last : Z)
| LockedOut (n until : Z).
#[export] Instance kstate_eq_dec : EqDecision kstate.
Proof. solve_decision. Defined.

Definition view_entry (p : Policy) (now : Z) (e : entry) : kstate :=
  if expired p now e then Fresh
  else if locked e then LockedOut (attempts e) (lockedUntil e)
  else Striking (attempts e) (lastActivity e).

Definition view (l : AttemptLimiter) (now : Z) (k : string) : kstate :=
  from_option (view_entry (policy l) now) Fresh (entries l !! k).

Definition strike (p : Policy) (now n : Z) : Outcome * kstate :=
  if n + 1 <? Threshold p then (Allowed, Striking (n + 1) now)
  else (AllowedLastAttempt, LockedOut (n + 1) (now + LockoutWindow p)).

(** What an attempt does to its key when the table has room for it. *)
Definition spec_attempt (p : Policy) (now : Z) (s : kstate) : Outcome * kstate :=
  match s with
  | Fresh => strike p now 0
  | Striking n _ => strike p now n
  | LockedOut _ _ => (Denied, s)
  end.

(** What giving back an attempt does; [engaged] says it engaged the lockout. *)
Definition spec_cancel (newest : Z) (engaged : bool) (s : kstate) : kstate :=
  match s with
  | Fresh => Fresh
  | Striking n t => if n =? 1 then Fresh else Striking (n - 1) t
  | LockedOut n u =>
    if negb engaged then LockedOut (n - 1) u
    else if n =? 1 then Fresh else Striking (n - 1) newest
  end.

(** ** Histories: the operations in the order the mutex admits them *)

Inductive op :=
| OLocked (k : string) (now : Z)
| OReserve (k : string) (now : Z)
| OCancel (r : Reservation)
| ORefund (k : string)
| OReset (k : string).

Definition exec (l : AttemptLimiter) (o : op) : AttemptLimiter :=
  match o with
  | OLocked k now => (Locked k now l).2
  | OReserve k now => (Reserve k now l).2
  | OCancel r => Cancel r l
  | ORefund k => Refund k l
  | OReset k => Reset k l
  end.

Definition run (l : AttemptLimiter) (ops : list op) : AttemptLimiter := foldl exec l ops.

Definition op_time (o : op) (t : Z) : Z :=
  match o with OLocked _ now | OReserve _ now => now | _ => t end.

(** Callers pass non-decreasing times, starting from [t]. *)
Fixpoint clocked (t : Z) (ops : list op) : Prop :=
  match ops with
  | [] => True
  | o :: ops => t <= op_time o t /\ clocked (op_time o t) ops
  end.

Section views.
Implicit Types (l : AttemptLimiter) (e : entry) (k : string).

Lemma New_WF p l : NewAttemptLimiter p = Ok l -> WF l /\ latest l = 0 /\ policy l = p.
Proof.
  unfold NewAttemptLimiter. intros H.
  repeat (case_match; [done|]). injection H as <-. to_prop. split; [|done].
  split; simpl; try (unfold policy_ok; lia).
  - by intros ?? ?%lookup_empty_Some.
  - intros [] k; split; [set_solver| |set_solver|]; by intros (? & ?%lookup_empty_Some & _).
  - intros []; constructor.
  - by intros ?? ?%lookup_empty_Some.
  - intros []; constructor.
  - rewrite map_size_empty. lia.
Qed.

Lemma New_empty p l : NewAttemptLimiter p = Ok l -> entries l = ∅.
Proof. unfold NewAttemptLimiter. intros H. repeat (case_match; [done|]). by injection H as <-. Qed.

Lemma view_observe l now k :
  WF l -> latest l <= now -> view (observeLocked now l) now k = view l now k.
Proof.
  intros H Ht. destruct (observe_spec now l H Ht) as (_ & HP & _ & _ & HM).
  unfold view. rewrite HP, HM. destruct (entries l !! k) as [e|]; [|done]. simpl.
  unfold view_entry. destruct (expired _ _ e) eqn:He; simpl; by rewrite ?He.
Qed.

Lemma view_live l now k e :
  WF l -> latest l <= now -> entries (observeLocked now l) !! k = Some e ->
  view l now k =
    if locked e then LockedOut (attempts e) (lockedUntil e)
    else Striking (attempts e) (lastActivity e).
Proof.
  intros H Ht He. destruct (observe_live now l k e H Ht He) as [He' Hx].
  unfold view. rewrite He'. simpl. unfold view_entry. by rewrite Hx.
Qed.

Lemma view_absent l now k :
  WF l -> latest l <= now -> entries (observeLocked now l) !! k = None -> view l now k = Fresh.
Proof. intros H Ht He. rewrite <- view_observe by done. unfold view. by rewrite He. Qed.

Lemma view_attach_eq e l now :
  view (attach e l) now (key e) = view_entry (policy l) now e.
Proof. unfold view. simpl. by rewrite lookup_insert_eq. Qed.

Lemma view_attach_ne e l now k : key e <> k -> view (attach e l) now k = view l now k.
Proof. intros. unfold view. simpl. by rewrite lookup_insert_ne. Qed.

Lemma view_detach_ne k' l now k : k' <> k -> view (detach k' l) now k = view l now k.
Proof. intros. unfold view. simpl. by rewrite lookup_delete_ne. Qed.

Lemma view_detach_eq l now k : view (detach k l) now k = Fresh.
Proof. unfold view. simpl. by rewrite lookup_delete_eq. Qed.

Lemma key_counted p now e : key (counted p now e) = key e.
Proof. unfold counted. by case_match. Qed.

(** An attempt on an unlocked entry is one [strike]. *)
Lemma strike_counted p now e :
  0 < LockoutWindow p -> locked e = false ->
  (verdict p e, view_entry p now (counted p now e)) = strike p now (attempts e).
Proof.
  intros Hw Hl. unfold verdict, counted, strike, view_entry, expired.
  destruct (_ <? _); simpl; rewrite ?Hl.
  - by rewrite (proj2 (Z.ltb_lt (now - LockoutWindow p) now)) by lia.
  - by rewrite (proj2 (Z.leb_gt (now + LockoutWindow p) now)) by lia.
Qed.

Lemma exec_WF l o :
  WF l -> latest l <= op_time o (latest l) ->
  WF (exec l o) /\ latest (exec l o) = op_time o (latest l) /\ policy (exec l o) = policy l.
Proof.
  intros H Ht. destruct o as [k now|k now|r|k|k]; simpl in *.
  - rewrite Locked_snd. destruct (observe_spec now l H Ht) as (? & ? & _ & ? & _). done.
  - split; [by apply Reserve_WF|].
    destruct (observe_spec now l H Ht) as (_ & HP & _ & HT & _).
    pose proof (Reserve_cases k now l H Ht) as Hc.
    set (l1 := observeLocked now l) in *. by destruct Hc.
  - split; [by apply Cancel_WF|].
    destruct (expireLocked_dropped (latest l) l H) as [_ HP _ HT _].
    pose proof (Cancel_cases r l H) as Hc.
    set (l1 := expireLocked (latest l) l) in *. by destruct Hc.
  - split; [by apply Refund_WF|]. unfold Refund.
    destruct (_ !! k); [|done]. destruct (_ || _); [done|]. simpl. by destruct (_ =? 0).
  - split; [by apply Reset_WF|]. unfold Reset. by destruct (_ !! k).
Qed.

Lemma run_facts l ops :
  WF l -> clocked (latest l) ops -> WF (run l ops) /\ policy (run l ops) = policy l.
Proof.
  revert l. induction ops as [|o ops IH]; intros l H; simpl; [done|]. intros [Ht Hc].
  destruct (exec_WF l o H Ht) as (? & HL & <-). apply IH; [done|]. by rewrite HL.
Qed.
End views.

(** ** Lockouts stand *)

(** [k] is locked until [u], by the entry of epoch [n]. *)
Definition locked_at (l : AttemptLimiter) (k : string) (u n : Z) : Prop :=
  exists e, entries l !! k = Some e /\ locked e = true /\ lockedUntil e = u /\ epoch e = n.

(** The operations that may lift the lockout of [k] early: resetting the key,
    and cancelling the attempt that engaged it. *)
Definition may_unlock (k : string) (n : Z) (o : op) : bool :=
  match o with
  | OReset k' => bool_decide (k' = k)
  | OCancel r => bool_decide (r_key r = k) && (r_epoch r =? n) && r_engaged r
  | _ => false
  end.

Section lockouts.
Implicit Types (l : AttemptLimiter) (k : string).

Lemma locked_at_observe l now k u n :
  WF l -> latest l <= now -> now < u -> locked_at l k u n -> locked_at (observeLocked now l) k u n.
Proof.
  intros H Ht Hu (e & He & Hl & <- & <-).
  destruct (observe_spec now l H Ht) as (_ & _ & _ & _ & HM).
  exists e. rewrite HM, He. simpl. unfold expired. rewrite Hl.
  by rewrite (proj2 (Z.leb_gt _ _)) by done.
Qed.

Lemma locked_at_detach l k k' u n : k' <> k -> locked_at l k u n -> locked_at (detach k' l) k u n.
Proof. intros Hk (e & ? & ?). exists e. simpl. by rewrite lookup_delete_ne. Qed.

Lemma locked_at_attach l e k u n : key e <> k -> locked_at l k u n -> locked_at (attach e l) k u n.
Proof. intros Hk (e' & ? & ?). exists e'. simpl. by rewrite lookup_insert_ne. Qed.

Lemma locked_at_put l e m k u n :
  entries l !! key e = Some e -> locked_at l k u n -> locked_at (put (set_attempts m e) l) k u n.
Proof.
  intros He (e' & He' & Hx). destruct (decide (key e = k)) as [<-|].
  - exists (set_attempts m e). simpl. rewrite lookup_insert_eq.
    assert (e' = e) as -> by congruence. done.
  - exists e'. simpl. by rewrite lookup_insert_ne.
Qed.

Lemma locked_at_Reserve l k k' now u n :
  WF l -> latest l <= now -> now < u -> locked_at l k u n -> locked_at (Reserve k' now l).2 k u n.
Proof.
  intros H Ht Hu Hk. destruct (observe_spec now l H Ht) as (H1 & _).
  pose proof (locked_at_observe l now k u n H Ht Hu Hk) as Hk1.
  pose proof (Reserve_cases k' now l H Ht) as Hc. set (l1 := observeLocked now l) in *.
  pose proof Hk1 as (e & He & Hl & _).
  destruct Hc as [e' ? ?|e' He' Hl'|? ?|n' Hk' -> Hs|n' v e' Hk' -> Hv Hl' _ Hs]; simpl; try done.
  - assert (k' <> k) by congruence. pose proof (wf_key l1 H1 k' e' He').
    apply locked_at_attach; [rewrite key_counted; congruence|]. by apply locked_at_detach.
  - apply locked_at_attach; [rewrite key_counted; simpl; congruence|done].
  - apply locked_at_attach; [rewrite key_counted; simpl; congruence|].
    assert (v <> k) by congruence. by apply (locked_at_detach l1).
Qed.

Lemma locked_at_Cancel l k r u n :
  WF l -> latest l < u -> may_unlock k n (OCancel r) = false ->
  locked_at l k u n -> locked_at (Cancel r l) k u n.
Proof.
  intros H Hu Hr Hk. pose proof (Cancel_cases r l H) as Hc.
  assert (expireLocked (latest l) l = observeLocked (latest l) l) as HE
    by (unfold observeLocked; by rewrite Z.ltb_irrefl).
  rewrite HE in Hc. destruct (observe_spec (latest l) l H) as (H1 & _); [lia|].
  pose proof (locked_at_observe l (latest l) k u n H ltac:(lia) Hu Hk) as Hk1.
  set (l1 := observeLocked _ l) in *. pose proof Hk1 as (e & He & Hl & Hu' & Hn).
  assert (forall e', entries l1 !! r_key r = Some e' -> epoch e' = r_epoch r ->
            (locked e' = true -> r_engaged r = true) -> r_key r <> k) as Hne.
  { intros e' He' Hep Hen Heq. simpl in Hr. rewrite Heq in *. simplify_eq.
    rewrite bool_decide_true, Hep, Z.eqb_refl, Hen in Hr by done. done. }
  destruct Hc as [?|e' He' ? ? ?|e' He' ? ? ? ?|e' He' ? ? ? ? ?]; [done| | |].
  - apply locked_at_put; [|done]. by rewrite (wf_key l1 H1 _ e' He').
  - apply locked_at_detach; eauto.
  - apply locked_at_attach; [|apply locked_at_detach; eauto].
    simpl. rewrite (wf_key l1 H1 _ e' He'). eauto.
Qed.

Lemma locked_at_Refund l k k' u n : WF l -> locked_at l k u n -> locked_at (Refund k' l) k u n.
Proof.
  intros H Hk. unfold Refund. destruct (entries l !! k') as [e|] eqn:He; [|done].
  pose proof (wf_key l H k' e He) as <-. destruct (locked e) eqn:Hl; [done|]. simpl.
  destruct (attempts e =? 0); [done|].
  assert (WF (put (set_attempts (attempts e - 1) e) l)) as H2
    by (apply put_attempts_WF; auto; lia).
  pose proof (locked_at_put l e (attempts e - 1) k u n He Hk) as Hk2.
  destruct (_ =? 0); [|done]. rewrite removeLocked_detach by (done || apply lookup_insert_eq).
  apply locked_at_detach; [|done]. destruct Hk as (e' & ? & ? & _). simpl. congruence.
Qed.

Lemma locked_at_Reset l k k' u n :
  WF l -> k' <> k -> locked_at l k u n -> locked_at (Reset k' l) k u n.
Proof.
  intros H Hne Hk. unfold Reset. destruct (entries l !! k') as [e|] eqn:He; [|done].
  pose proof (wf_key l H k' e He) as <-. rewrite removeLocked_detach by done.
  by apply locked_at_detach.
Qed.

Lemma locked_at_exec l o k u n :
  WF l -> latest l <= op_time o (latest l) -> op_time o (latest l) < u ->
  may_unlock k n o = false -> locked_at l k u n -> locked_at (exec l o) k u n.
Proof.
  intros H Ht Hu Hm Hk. destruct o as [k' now|k' now|r|k'|k']; cbn [exec op_time] in *.
  - rewrite Locked_snd. by apply locked_at_observe.
  - by apply locked_at_Reserve.
  - by apply locked_at_Cancel.
  - by apply locked_at_Refund.
  - apply bool_decide_eq_false in Hm. by apply locked_at_Reset.
Qed.

Lemma locked_at_run l ops k u n :
  WF l -> clocked (latest l) ops ->
  Forall (fun o => may_unlock k n o = false /\ op_time o (latest l) < u) ops ->
  latest l < u -> locked_at l k u n ->
  locked_at (run l ops) k u n /\ latest l <= latest (run l ops) < u.
Proof.
  revert l. induction ops as [|o ops IH]; intros l H; simpl; [intros; split; [done|lia]|].
  intros [Ht Hc] [[Hm Hu] Hf]%Forall_cons Hlu Hk.
  destruct (exec_WF l o H Ht) as (H1 & HL & _).
  destruct (IH (exec l o) H1) as [? ?]; rewrite ?HL; [done| |done| |].
  - eapply Forall_impl; [exact Hf|]. intros o' [? Ho']. split; [done|].
    destruct o'; simpl in *; lia.
  - by apply locked_at_exec.
  - split; [done|]. lia.
Qed.
End lockouts.

(** ** A burst of attempts within one window *)

(** The outcomes of a sequence of attempts, each with its key. *)
Fixpoint attempt_all (l : AttemptLimiter) (as_ : list (string * Z)) : list (string * Outcome) :=
  match as_ with
  | [] => []
  | (k, now) :: as_ =>
    let '(o, l') := Attempt k now l in (k, o) :: attempt_all l' as_
  end.

Definition occurrences (k : string) (as_ : list (string * Z)) : Z :=
  Z.of_nat (length (filter (fun a => a.1 = k) as_)).

Definition permitted (k : string) (os : list (string * Outcome)) : Z :=
  Z.of_nat (length (filter (fun a => a.1 = k /\ Permitted a.2 = true) os)).

(** The attempts are presented in order, all within [t0, t1). *)
Fixpoint in_window (t0 t1 : Z) (as_ : list (string * Z)) : Prop :=
  match as_ with
  | [] => True
  | (_, now) :: as_ => t0 <= now < t1 /\ in_window now t1 as_
  end.

(** The limiter after a burst that started at [t0] and gave key [k] a count of [cnt k]. *)
Record burst (t0 : Z) (S : gset string) (cnt : string -> Z) (l : AttemptLimiter) : Prop := {
  bu_wf : WF l;
  bu_dom : forall k e, entries l !! k = Some e -> k ∈ S /\ 0 < cnt k /\
             attempts e = Z.min (cnt k) (Threshold (policy l)) /\
             locked e = (Threshold (policy l) <=? cnt k) /\ t0 <= lastActivity e;
  bu_absent : forall k, entries l !! k = None -> cnt k = 0
}.

Definition bump (k : string) (cnt : string -> Z) : string -> Z :=
  fun k' => if decide (k' = k) then cnt k' + 1 else cnt k'.

Section bursts.
Implicit Types (l : AttemptLimiter) (k : string).

Lemma burst_observe t0 S cnt l now :
  burst t0 S cnt l -> latest l <= now -> now < t0 + LockoutWindow (policy l) ->
  burst t0 S cnt (observeLocked now l) /\ latest (observeLocked now l) = now /\
  policy (observeLocked now l) = policy l.
Proof.
  intros [H HD HA] Ht Hn. destruct (observe_spec now l H Ht) as (H1 & HP & _ & HT & HM).
  assert (forall k, entries (observeLocked now l) !! k = entries l !! k) as HE.
  { intros k. rewrite HM. destruct (entries l !! k) as [e|] eqn:He; [|done]. simpl.
    destruct (HD k e He) as (_ & _ & _ & _ & Ha).
    destruct (wf_entry l H k e He) as (_ & _ & Hu & _). unfold expired.
    destruct (locked e); [rewrite Hu by done|]; case_match eqn:Hx; try done; to_prop; lia. }
  split; [|done]. split; [done| |].
  - intros k e. rewrite HE, HP. apply HD.
  - intros k. rewrite HE. apply HA.
Qed.

Lemma burst_size t0 S cnt l k :
  burst t0 S cnt l -> entries l !! k = None -> k ∈ S ->
  Z.of_nat (size (entries l)) < Z.of_nat (size S).
Proof.
  intros [H HD HA] Hk HS. rewrite <- (size_dom (D := gset string)).
  assert (dom (entries l) ⊂ S) as Hsub.
  { split; [|intros Hx; specialize (Hx k HS); by apply elem_of_dom in Hx as [? ?]; simplify_eq].
    intros k' [e He]%elem_of_dom. by apply HD in He as [? _]. }
  apply subset_size in Hsub. lia.
Qed.

Lemma burst_attach t0 S cnt l e now :
  burst t0 S cnt l -> WF (attach (counted (policy l) now e) l) ->
  entries l !! key e = None -> key e ∈ S -> t0 <= now -> locked e = false ->
  attempts e < Threshold (policy l) ->
  (0 <= attempts e) ->
  burst t0 S (fun k' => if decide (k' = key e) then attempts e + 1 else cnt k')
    (attach (counted (policy l) now e) l).
Proof.
  intros [H HD HA] HW Hk HS Ht Hl Ha H0. split; [done| |]; simpl.
  - intros k' e'. rewrite key_counted, lookup_insert. case_decide as Heq.
    + intros [= <-]. rewrite decide_True by done. unfold counted.
      split_and!; [by rewrite <- Heq|lia| | |]; destruct (_ <? _) eqn:Hc; to_prop; simpl; rewrite ?Hl; lia.
    + rewrite decide_False by auto. apply HD.
  - intros k'. rewrite key_counted, lookup_insert. case_decide; [done|].
    rewrite decide_False by auto. apply HA.
Qed.

Lemma burst_ext t0 S cnt cnt' l : (forall k, cnt k = cnt' k) -> burst t0 S cnt l -> burst t0 S cnt' l.
Proof.
  intros Hc [H HD HA]. split; [done| |].
  - intros k e. rewrite <- Hc. apply HD.
  - intros k. rewrite <- Hc. apply HA.
Qed.

Lemma burst_detach t0 S cnt l k :
  burst t0 S cnt l -> burst t0 S (fun k' => if decide (k' = k) then 0 else cnt k') (detach k l).
Proof.
  intros [H HD HA]. split; [by apply detach_WF| |]; simpl; intros k'.
  - intros e [? He]%lookup_delete_Some. rewrite decide_False by auto. by apply HD.
  - rewrite lookup_delete. case_decide; [by rewrite decide_True|].
    rewrite decide_False by auto. apply HA.
Qed.

Lemma burst_with_epoch t0 S cnt l n : burst t0 S cnt l -> burst t0 S cnt (with_epoch n l).
Proof. intros [H HD HA]. split; [by apply with_epoch_WF|done..]. Qed.

Lemma verdict_permitted p e : Permitted (verdict p e) = true.
Proof. unfold verdict. by case_match. Qed.

(** One attempt of a burst: admitted exactly while the key's budget lasts. *)
Lemma burst_step t0 S cnt l k now :
  burst t0 S cnt l -> latest l <= now -> t0 <= now < t0 + LockoutWindow (policy l) ->
  k ∈ S -> Z.of_nat (size S) <= MaxTrackedKeys (policy l) -> (forall k, 0 <= cnt k) ->
  exists o l', Attempt k now l = (o, l') /\
    Permitted o = (cnt k <? Threshold (policy l)) /\
    burst t0 S (bump k cnt) l' /\ latest l' = now /\ policy l' = policy l.
Proof.
  intros Hb Ht Hn HS Hcap Hpos. pose proof (bu_wf _ _ _ _ Hb) as H.
  destruct (burst_observe t0 S cnt l now Hb Ht) as (Hb1 & HT1 & HP1); [lia|].
  pose proof (Reserve_cases k now l H Ht) as Hc. pose proof (Reserve_WF k now l H Ht) as HW.
  set (l1 := observeLocked now l) in *. unfold Attempt. rewrite <- HP1 in *. clearbody l1.
  destruct Hb1 as [H1 HD HA]. pose proof (wf_policy l1 H1) as (HTh & _).
  destruct Hc as [e He Hl|e He Hl|Hk Hsat Hcnt|n Hk -> Hs|n v e Hk -> Hv Hl _ Hs].
  - eexists _, _. split; [done|]. destruct (HD k e He) as (_ & ? & Ha & Hlk & ?).
    rewrite Hl in Hlk. symmetry in Hlk. to_prop. split; [|split_and!; [|done..]].
    { symmetry. by apply Z.ltb_ge. }
    split; [done| |].
    + intros k' e' He'. destruct (HD k' e' He') as (? & ? & ? & Hlk' & ?).
      unfold bump. case_decide as Heq; [|done]. subst k'. simplify_eq.
      rewrite Hl. split_and!; try done; try lia.
    + intros k' He'. unfold bump. case_decide; [congruence|]. by apply HA.
  - destruct (HD k e He) as (_ & ? & Ha & Hlk & ?). rewrite Hl in Hlk. symmetry in Hlk. to_prop.
    pose proof (wf_key l1 H1 k e He) as <-.
    eexists _, _. split; [done|]. rewrite verdict_permitted.
    split; [symmetry; apply Z.ltb_lt; lia|]. split; [|done].
    pose proof (burst_detach t0 S cnt l1 (key e) (Build_burst _ _ _ _ H1 HD HA)) as Hd.
    eapply burst_ext; [|eapply (burst_attach _ _ _ _ _ now Hd); simpl;
      [exact HW|apply lookup_delete_eq|done|lia|done|lia|lia]].
    intros k'. unfold bump. simpl. destruct (decide (k' = key e)) as [->|]; [lia|done].
  - pose proof (burst_size t0 S cnt l1 k (Build_burst _ _ _ _ H1 HD HA) Hk HS).
    exfalso. unfold saturatedLocked in Hsat. to_prop. lia.
  - eexists _, _. split; [done|]. rewrite verdict_permitted, (HA k Hk).
    split; [symmetry; apply Z.ltb_lt; lia|]. split; [|done].
    pose proof (burst_with_epoch t0 S cnt l1 (u64 (nextEpoch l1 + 1))
      (Build_burst _ _ _ _ H1 HD HA)) as Hd.
    eapply burst_ext; [|eapply (burst_attach _ _ _ _ (fresh k _) now Hd); simpl;
      [exact HW|done|done|lia|done|lia|lia]].
    intros k'. unfold bump. simpl. destruct (decide (k' = k)) as [->|]; [by rewrite HA|done].
  - pose proof (burst_size t0 S cnt l1 k (Build_burst _ _ _ _ H1 HD HA) Hk HS). lia.
Qed.

Lemma burst_run t0 S as_ : forall cnt l s,
  burst t0 S cnt l -> in_window s (t0 + LockoutWindow (policy l)) as_ ->
  t0 <= s -> latest l <= s -> (forall a, a ∈ as_ -> a.1 ∈ S) ->
  Z.of_nat (size S) <= MaxTrackedKeys (policy l) -> (forall k, 0 <= cnt k) ->
  forall k, permitted k (attempt_all l as_) =
    Z.min (cnt k + occurrences k as_) (Threshold (policy l)) - Z.min (cnt k) (Threshold (policy l)).
Proof.
  unfold permitted, occurrences.
  induction as_ as [|[k0 now] as_ IH]; intros cnt l s Hb Hw Ht HL HS Hcap Hpos k; simpl; [lia|].
  destruct Hw as [Hn Hw].
  destruct (burst_step t0 S cnt l k0 now) as (o & l' & -> & Ho & Hb' & HT & HP); try done; try lia.
  { apply (HS (k0, now)). by left. }
  rewrite !filter_cons. simpl.
  specialize (IH (bump k0 cnt) l' now Hb'). rewrite HP, HT in IH.
  specialize (IH Hw ltac:(lia) ltac:(lia) ltac:(intros; apply HS; by right) Hcap).
  specialize (IH ltac:(intros k'; unfold bump; case_decide; specialize (Hpos k'); lia) k).
  rewrite Ho. unfold bump in IH.
  destruct (decide (k0 = k)) as [->|Hne].
  - rewrite decide_True in IH by done. specialize (Hpos k).
    destruct (_ <? _) eqn:Hc; [rewrite decide_True by done|rewrite decide_False by naive_solver];
      to_prop; simpl; lia.
  - rewrite decide_False in IH by auto. rewrite decide_False by naive_solver. lia.
Qed.
End bursts.

(** ** One call, seen through the views *)

(** Whether [r] still names the tracked entry of its key. *)
Definition holds (l : AttemptLimiter) (r : Reservation) : bool :=
  match entries l !! r_key r with
  | Some e => negb (r_epoch r =? 0) && (epoch e =? r_epoch r)
  | None => false
  end.

(** Epochs have not wrapped: no tracked entry carries the zero epoch, and the
    next one issued is not zero either. *)
Definition epochs_ok (l : AttemptLimiter) : Prop :=
  0 <= nextEpoch l < two64 - 1 /\ forall k e, entries l !! k = Some e -> epoch e <> 0.

Section calls.
Implicit Types (l : AttemptLimiter) (k : string).

Lemma reserve_view k now l :
  WF l -> latest l <= now -> view l now k <> Fresh \/ saturatedLocked (observeLocked now l) = false ->
  ((Reserve k now l).1.1, view (Reserve k now l).2 now k) = spec_attempt (policy l) now (view l now k).
Proof.
  intros H Ht Hroom. destruct (observe_spec now l H Ht) as (H1 & HP & _).
  pose proof (view_live l now k) as Hlive. pose proof (view_absent l now k H Ht) as Habs.
  pose proof (Reserve_cases k now l H Ht) as Hc. pose proof (view_observe l now k H Ht) as HV.
  set (l1 := observeLocked now l) in *. rewrite <- HP. pose proof (wf_policy l1 H1) as (_ & Hw & _).
  destruct Hc as [e He Hl|e He Hl|Hk Hsat Hcnt|n Hk -> Hs|n v e Hk -> Hv Hl _ Hs]; simpl.
  - by rewrite (Hlive e H Ht He), HV, (Hlive e H Ht He), Hl.
  - rewrite (Hlive e H Ht He), Hl. pose proof (wf_key l1 H1 k e He) as <-.
    rewrite <- (key_counted (policy l1) now e), view_attach_eq. simpl.
    by apply strike_counted.
  - rewrite Habs in Hroom by done. destruct Hroom; congruence.
  - rewrite Habs by done. change k with (key (fresh k (u64 (nextEpoch l1 + 1)))) at 3.
    rewrite <- (key_counted (policy l1) now), view_attach_eq. by apply strike_counted.
  - rewrite Habs by done. change k with (key (fresh k (u64 (nextEpoch l1 + 1)))) at 3.
    rewrite <- (key_counted (policy l1) now), view_attach_eq. by apply strike_counted.
Qed.

Lemma counting_evictable l v e :
  WF l -> entries l !! v = Some e -> locked e = false -> saturatedLocked l = false.
Proof.
  intros H Hv Hl. assert (v ∈ counting l) as Hin by (apply (wf_lists _ H false); eauto).
  unfold saturatedLocked. destruct (counting _); [set_solver|by rewrite andb_false_r].
Qed.

Lemma permitted_room k now l :
  WF l -> latest l <= now -> Permitted (Reserve k now l).1.1 = true ->
  view l now k <> Fresh \/ saturatedLocked (observeLocked now l) = false.
Proof.
  intros H Ht Ho. pose proof (Reserve_cases k now l H Ht) as Hc.
  pose proof (view_live l now k) as Hlive. destruct (observe_spec now l H Ht) as (Hw & _).
  destruct (Reserve k now l) as [[o r] l']. simpl in Ho.
  inversion Hc as [e He Hl Hu|e He Hl|He Hs Hcn|n He ? Hs|n v e He ? Hv' Hl Hm Hs]; subst; try done.
  - left. rewrite (Hlive e H Ht He). by rewrite Hl.
  - right. unfold saturatedLocked. by rewrite (proj2 (Z.leb_gt _ _)).
  - right. by eapply counting_evictable.
Qed.

Lemma view_put_attempts l e n now k :
  key e = k -> view (put (set_attempts n e) l) now k =
    match view_entry (policy l) now e with
    | Fresh => Fresh | Striking _ t => Striking n t | LockedOut _ u => LockedOut n u
    end.
Proof.
  intros <-. unfold view. simpl. rewrite lookup_insert_eq. simpl. unfold view_entry, expired.
  simpl. by repeat case_match.
Qed.

Lemma view_put_ne l e now k : key e <> k -> view (put e l) now k = view l now k.
Proof. intros. unfold view. simpl. by rewrite lookup_insert_ne. Qed.

Lemma cancel_view r l k :
  WF l -> view (Cancel r l) (latest l) k =
    if decide (k = r_key r /\ holds l r = true)
    then spec_cancel (latest l) (r_engaged r) (view l (latest l) k)
    else view l (latest l) k.
Proof.
  intros H. pose proof (Cancel_cases r l H) as Hc.
  assert (expireLocked (latest l) l = observeLocked (latest l) l) as HE
    by (unfold observeLocked; by rewrite Z.ltb_irrefl).
  rewrite HE in Hc. destruct (observe_spec (latest l) l H) as (H1 & HP & _ & HT & HM); [lia|].
  pose proof (fun k => view_observe l (latest l) k H ltac:(lia)) as HV.
  pose proof (view_live l (latest l) (r_key r)) as Hlive.
  assert (forall e, entries (observeLocked (latest l) l) !! r_key r = Some e ->
    entries l !! r_key r = Some e) as Hent by (intros e He; eapply observe_live in He as [? _]; eauto; lia).
  set (l1 := observeLocked _ l) in *. set (now := latest l) in *.
  assert (forall e, entries l1 !! r_key r = Some e -> epoch e = r_epoch r -> r_epoch r <> 0 ->
    holds l r = true) as Hh.
  { intros e He%Hent Hep H0. unfold holds. by rewrite He, Hep, Z.eqb_refl, (proj2 (Z.eqb_neq _ _)). }
  pose proof (wf_policy l1 H1) as (_ & Hw & _).
  destruct (decide (k = r_key r)) as [->|Hne]; cycle 1.
  { rewrite decide_False by naive_solver. rewrite <- HV.
    destruct Hc as [?|e He|e He|e He]; [done|..|by apply view_detach_ne|];
      pose proof (wf_key l1 H1 _ e He) as Hk.
    - apply view_put_ne. simpl. congruence.
    - rewrite view_attach_ne by (simpl; congruence). by apply view_detach_ne. }
  destruct Hc as [Hst|e He Hep H0 Hx|e He Hep H0 Ha Hx|e He Hep H0 Ha Hl Hg];
    [|rewrite decide_True by eauto; rewrite (Hlive e H) by done..].
  - rewrite HV. case_decide as Hd; [|done]. destruct Hd as [_ Hd]. unfold holds in Hd.
    destruct (entries l !! r_key r) as [e|] eqn:He; [|done]. to_prop.
    assert (entries l1 !! r_key r = None) as Hn.
    { destruct (entries l1 !! r_key r) as [e'|] eqn:He'; [|done].
      destruct (Hst e' eq_refl); [done|]. pose proof (Hent e' eq_refl). congruence. }
    rewrite <- HV. unfold view. by rewrite Hn.
  - pose proof (wf_key l1 H1 _ e He) as Hk. rewrite view_put_attempts by done.
    assert (view_entry (policy l1) now e = view l now (r_key r)) as Hve by
      (rewrite <- HV; unfold view; by rewrite He).
    rewrite Hve, (Hlive e H) by done.
    destruct Hx as [[-> ->]|[-> Ha]]; simpl; [done|]. by rewrite (proj2 (Z.eqb_neq _ _)).
  - rewrite view_detach_eq, Ha. destruct (locked e); simpl; [|done]. by rewrite Hx.
  - rewrite Hl, Hg. pose proof (wf_key l1 H1 _ e He) as Hk. rewrite <- Hk.
    change (key e) with (key (set_lastActivity (latest l1) (set_lock false 0 (set_attempts (attempts e - 1) e)))) at 2.
    rewrite view_attach_eq. simpl. rewrite (proj2 (Z.eqb_neq _ _)) by done.
    unfold view_entry, expired. simpl. rewrite HT.
    by rewrite (proj2 (Z.ltb_lt (now - LockoutWindow (policy l1)) now)) by lia.
Qed.

Lemma reserve_holds k now l :
  WF l -> latest l <= now -> epochs_ok l -> Permitted (Reserve k now l).1.1 = true ->
  r_key (Reserve k now l).1.2 = k /\ holds (Reserve k now l).2 (Reserve k now l).1.2 = true /\
  r_engaged (Reserve k now l).1.2 = bool_decide ((Reserve k now l).1.1 = AllowedLastAttempt).
Proof.
  intros H Ht [Hn He0]. destruct (observe_spec now l H Ht) as (H1 & _ & HN & _).
  pose proof (fun e => observe_live now l k e H Ht) as Hlive.
  pose proof (Reserve_cases k now l H Ht) as Hc. set (l1 := observeLocked now l) in *.
  assert (forall e, epoch (counted (policy l1) now e) = epoch e) as Hce
    by (intros; unfold counted; by case_match).
  assert (u64 (nextEpoch l1 + 1) <> 0) as Hu by (rewrite u64_small by (rewrite HN; lia); lia).
  destruct Hc as [e He Hl|e He Hl|Hk Hsat Hcnt|n Hk -> Hs|n v e Hk -> Hv Hl _ Hs]; simpl;
    try done; intros _; (split_and!; [done| |done]); unfold holds; simpl; rewrite key_counted;
    simpl.
  - pose proof (wf_key l1 H1 k e He) as <-. rewrite lookup_insert_eq, Hce, Z.eqb_refl.
    destruct (Hlive e He) as [He' _]. by rewrite (proj2 (Z.eqb_neq _ _)) by eauto.
  - rewrite lookup_insert_eq, Hce, Z.eqb_refl. by rewrite (proj2 (Z.eqb_neq _ _)).
  - rewrite lookup_insert_eq, Hce, Z.eqb_refl. by rewrite (proj2 (Z.eqb_neq _ _)).
Qed.
End calls.

(** ** The properties *)

(** C24. After any sequence of calls with non-decreasing times, starting from a
    new limiter, the map and the two recency lists agree, each list is ordered
    by activity, every entry respects the threshold, and the table never holds
    more than [MaxTrackedKeys] keys, however many keys were presented. *)
Theorem limiter_invariant (p : Policy) (l : AttemptLimiter) (ops : list op) :
  NewAttemptLimiter p = Ok l -> clocked 0 ops ->
  WF (run l ops) /\ Z.of_nat (size (entries (run l ops))) <= MaxTrackedKeys p.
Proof.
  intros (H & HT & <-)%New_WF Hc. rewrite <- HT in Hc.
  destruct (run_facts l ops H Hc) as [HW <-]. split; [done|]. apply HW.
Qed.

(** C5. [Reserve] implements the abstract per-key attempt: outcome and new state
    are those of the specification whenever the key is tracked or the table has
    room; otherwise (all slots hold live lockouts) the attempt is denied and the
    key stays untracked; and [Locked] announces the denial exactly. *)
Theorem Reserve_refines (k : string) (now : Z) (l : AttemptLimiter) :
  WF l -> latest l <= now ->
  let '(o, _, l') := Reserve k now l in
  let s := view l now k in
  (if bool_decide (s = Fresh) && saturatedLocked (observeLocked now l)
   then o = Denied /\ view l' now k = Fresh
   else (o, view l' now k) = spec_attempt (policy l) now s) /\
  (Locked k now l).1 = negb (Permitted o).
Proof.
  intros H Ht. pose proof (reserve_view k now l H Ht) as Hv.
  pose proof (Reserve_cases k now l H Ht) as Hc.
  pose proof (view_absent l now k H Ht) as Ha. pose proof (view_live l now k) as Hlive.
  destruct (observe_spec now l H Ht) as (Hw & _). pose proof (fun v e => counting_evictable _ v e Hw) as Hev.
  unfold Locked. destruct (Reserve k now l) as [[o r] l']. simpl in Hv |- *.
  split.
  - destruct (bool_decide_reflect (view l now k = Fresh)) as [Hf|Hf]; simpl; [|by apply Hv; left].
    destruct (saturatedLocked _) eqn:Hs; [|by apply Hv; right].
    inversion Hc; subst; try (rewrite (Hlive e H Ht) in Hf by done; by destruct (locked e)).
    + split; [done|]. by rewrite view_observe, Ha.
    + unfold saturatedLocked in Hs. to_prop. lia.
    + assert (saturatedLocked (observeLocked now l) = false) by eauto. congruence.
  - inversion Hc as [e He Hl Hu| e He Hl|He Hs Hcn|n He ? Hs|n v e He ? Hv' Hl Hm Hs]; subst;
      rewrite He; simpl; rewrite ?verdict_permitted.
    + by rewrite Hl, (proj2 (Z.ltb_lt _ _)).
    + by rewrite Hl.
    + done.
    + unfold saturatedLocked. by rewrite (proj2 (Z.leb_gt _ _)).
    + by rewrite (Hev v e).
Qed.

(** An attempt on one key leaves every other key's state as it was, with one
    exception: to make room for a new key in a full table it forgets a single
    key, which is still counting and is the least recently active of those. A
    lockout is never the victim. *)
Theorem Reserve_other_keys (k : string) (now : Z) (l : AttemptLimiter) :
  WF l -> latest l <= now ->
  let l' := (Reserve k now l).2 in
  (forall k', k' <> k -> view l' now k' = view l now k') \/
  (view l now k = Fresh /\
   exists v n t, view l now v = Striking n t /\ view l' now v = Fresh /\
     (forall k' n' t', view l now k' = Striking n' t' -> t <= t') /\
     (forall k', k' <> k -> k' <> v -> view l' now k' = view l now k')).
Proof.
  intros H Ht l'. subst l'. pose proof (Reserve_cases k now l H Ht) as Hc.
  pose proof (view_absent l now k H Ht) as Ha. pose proof (view_live l now) as Hlive.
  pose proof (fun k => view_observe l now k H Ht) as HV.
  destruct (observe_spec now l H Ht) as (H1 & _). set (l1 := observeLocked now l) in *.
  assert (forall k' n' t', view l now k' = Striking n' t' -> exists e', entries l1 !! k' = Some e' /\
    locked e' = false /\ lastActivity e' = t') as Hst.
  { intros k' n' t' Hk'. rewrite <- HV in Hk'. destruct (entries l1 !! k') as [e'|] eqn:He'.
    - rewrite HV, (Hlive k' e' H Ht He') in Hk'. exists e'. by destruct (locked e'); simplify_eq.
    - unfold view in Hk'. by rewrite He' in Hk'. }
  destruct Hc as [e He Hl|e He Hl|Hk Hsat Hcnt|n Hk -> Hs|n v e Hk -> Hv Hl Hm Hs]; simpl.
  - left. intros. apply HV.
  - left. intros k' Hne. pose proof (wf_key l1 H1 k e He) as <-.
    rewrite view_attach_ne by (rewrite key_counted; auto). rewrite <- HV. by apply view_detach_ne.
  - left. intros. apply HV.
  - left. intros k' Hne. rewrite view_attach_ne by (rewrite key_counted; simpl; auto).
    rewrite <- HV. done.
  - right. split; [by apply Ha|]. exists v, (attempts e), (lastActivity e). split_and!.
    + rewrite (Hlive v e H Ht Hv). by rewrite Hl.
    + rewrite view_attach_ne by (rewrite key_counted; simpl; congruence). apply (view_detach_eq l1).
    + intros k' n' t' (e' & He' & Hl' & <-)%Hst. eauto.
    + intros k' Hne Hnv. rewrite view_attach_ne by (rewrite key_counted; simpl; auto).
      rewrite <- HV. by apply (view_detach_ne v l1).
Qed.

(** C6. A lockout stands for its whole window: whatever calls follow, on this or
    other keys and with any interleaving, short of resetting the key or
    cancelling the very attempt that engaged the lockout, every attempt on the
    key before [lockedUntil] is denied. *)
Theorem lockout_stands (l : AttemptLimiter) (k : string) (u n : Z) (ops : list op) (now : Z) :
  WF l -> locked_at l k u n -> latest l < u -> clocked (latest l) ops ->
  Forall (fun o => may_unlock k n o = false /\ op_time o (latest l) < u) ops ->
  latest (run l ops) <= now -> now < u ->
  (Attempt k now (run l ops)).1 = Denied.
Proof.
  intros H Hk Hu Hc Hf Ht Hn. destruct (locked_at_run l ops k u n H Hc Hf Hu Hk) as [Hk' _].
  destruct (run_facts l ops H Hc) as [HW _]. set (l' := run l ops) in *.
  pose proof (Reserve_cases k now l' HW Ht) as Hcs.
  destruct (locked_at_observe l' now k u n HW Ht Hn Hk') as (e & He & Hl & _).
  unfold Attempt. destruct (Reserve k now l') as [[o r] l2]. simpl.
  inversion Hcs; congruence.
Qed.

(** Once a window has passed since the last call, nothing is left in the table. *)
Lemma all_expired l now :
  WF l -> latest l + LockoutWindow (policy l) <= now -> entries (observeLocked now l) = ∅.
Proof.
  intros H Hn. pose proof (wf_policy l H) as (_ & Hw & _).
  destruct (observe_spec now l H ltac:(lia)) as (_ & _ & _ & _ & HM).
  apply map_empty. intros k. rewrite HM. destruct (entries l !! k) as [e|] eqn:He; [|done]. simpl.
  destruct (wf_entry l H k e He) as (_ & _ & Hl & Ha). unfold expired.
  destruct (locked e); [rewrite (proj2 (Z.leb_le _ _)) by (rewrite Hl by done; lia); done|].
  by rewrite (proj2 (Z.ltb_ge _ _)) by lia.
Qed.

Lemma locked_at_expired l k u n now :
  WF l -> latest l <= now -> locked_at l k u n -> u <= now -> view l now k = Fresh.
Proof.
  intros H Ht (e & He & Hl & Hu & _) Hn. unfold view. rewrite He. simpl.
  unfold view_entry, expired. by rewrite Hl, Hu, (proj2 (Z.leb_le _ _)).
Qed.

(** C7. Every lockout lifts: whatever calls were made meanwhile on this or other keys,
    among them any number of denied attempts, the first attempt at or after
    [lockedUntil] is admitted and counted as a first strike, unless the whole table is
    live lockouts of other keys; and that too ends, at the latest a lockout window after
    the last call. *)
Theorem lockout_lifts (l : AttemptLimiter) (k : string) (u n : Z) (ops : list op) (now : Z) :
  WF l -> locked_at l k u n -> latest l < u -> clocked (latest l) ops ->
  Forall (fun o => may_unlock k n o = false /\ op_time o (latest l) < u) ops ->
  u <= now ->
  let l' := run l ops in
  saturatedLocked (observeLocked now l') = false \/ latest l' + LockoutWindow (policy l) <= now ->
  let '(o, l'') := Attempt k now l' in
  (o, view l'' now k) = strike (policy l) now 0 /\ Permitted o = true.
Proof.
  intros H Hk Hu Hc Hf Hn l' Hs. destruct (locked_at_run l ops k u n H Hc Hf Hu Hk) as [Hk' Hl].
  destruct (run_facts l ops H Hc) as [HW HP]. fold l' in Hk', Hl, HW, HP.
  pose proof (wf_policy l H) as (Hth & _ & Hmax).
  assert (view l' now k = Fresh) as Hv by (eapply locked_at_expired; [done|lia|done|done]).
  assert (saturatedLocked (observeLocked now l') = false) as Hroom.
  { destruct Hs as [|Hs]; [done|]. unfold saturatedLocked. rewrite all_expired by (rewrite ?HP; done).
    destruct (observe_spec now l' HW ltac:(lia)) as (_ & HP' & _). rewrite HP', HP.
    rewrite map_size_empty. by rewrite (proj2 (Z.leb_gt _ _)) by lia. }
  pose proof (reserve_view k now l' HW ltac:(lia) (or_intror Hroom)) as Hr. rewrite Hv, HP in Hr.
  unfold Attempt. destruct (Reserve k now l') as [[o r] l2]. simpl in Hr |- *. split; [done|].
  unfold strike in Hr. destruct (_ <? _); by injection Hr as -> _.
Qed.

(** [Cancel] takes back exactly the attempt its reservation names: it lowers
    that key's count by one (forgetting the key at zero) and lifts a lockout
    only when the reservation is the one that engaged it; a reservation that
    outlived its entry, and every other key, see no change. *)
Theorem Cancel_refines (r : Reservation) (l : AttemptLimiter) :
  WF l ->
  let l' := Cancel r l in
  WF l' /\ latest l' = latest l /\
  forall k, view l' (latest l) k =
    if decide (k = r_key r /\ holds l r = true)
    then spec_cancel (latest l) (r_engaged r) (view l (latest l) k)
    else view l (latest l) k.
Proof.
  intros H. destruct (exec_WF l (OCancel r) H) as (HW & HL & _); [simpl; lia|].
  simpl in HW, HL. split_and!; [done..|]. intros k. by apply cancel_view.
Qed.

(** Cancelling an attempt right after it was admitted gives it back: a key
    that was untracked is untracked again, and a counting key has the count it
    had, even when the attempt was the one that engaged the lockout. *)
Theorem Reserve_Cancel (k : string) (now : Z) (l : AttemptLimiter) :
  WF l -> latest l <= now -> epochs_ok l ->
  let '(o, r, l') := Reserve k now l in
  Permitted o = true ->
  view (Cancel r l') now k =
    match view l now k with
    | Striking n _ => if n =? 0 then Fresh else Striking n now
    | s => s
    end.
Proof.
  intros H Ht He. pose proof (reserve_view k now l H Ht) as Hv.
  pose proof (reserve_holds k now l H Ht He) as Hh.
  destruct (exec_WF l (OReserve k now) H Ht) as (HW & HL & _). simpl in HW, HL.
  pose proof (permitted_room k now l H Ht) as Hd.
  destruct (Reserve k now l) as [[o r] l']. simpl in *. intros Ho.
  destruct (Hh Ho) as (Hk & Hh' & Hen). rewrite <- HL, cancel_view, Hk, decide_True by done.
  rewrite HL, Hen. specialize (Hv (Hd Ho)). clear -Hv Ho.
  destruct (view l now k) as [|n t|n u]; simpl in Hv; [..|by simplify_eq];
    unfold strike in Hv; case_match; injection Hv as -> ->; cbn -[Z.add Z.sub];
    [done|done|..]; rewrite Z.add_simpl_r;
    destruct (Z.eqb_spec (n + 1) 1), (Z.eqb_spec n 0); lia || done.
Qed.

(** A burst within one window over no more distinct keys than the table holds
    is accounted exactly: each key gets its [Threshold] attempts, no more and no
    fewer, whatever the interleaving of the keys. *)
Theorem burst_budget (p : Policy) (l : AttemptLimiter) (t0 : Z) (as_ : list (string * Z))
    (S : gset string) (k : string) :
  NewAttemptLimiter p = Ok l -> 0 <= t0 -> in_window t0 (t0 + LockoutWindow p) as_ ->
  (forall a, a ∈ as_ -> a.1 ∈ S) -> Z.of_nat (size S) <= MaxTrackedKeys p ->
  permitted k (attempt_all l as_) = Z.min (occurrences k as_) (Threshold p).
Proof.
  intros Hl Ht Hw HS Hcap. pose proof (New_empty p l Hl) as Hem. apply New_WF in Hl as (H & HT & <-).
  pose proof (wf_policy l H) as (? & _).
  rewrite (burst_run t0 S as_ (fun _ => 0) l t0); simpl; try done; try lia.
  split; [done|by intros ? ?; rewrite Hem|done].
Qed.

(** ** Witnesses: the properties at a concrete limiter *)

Definition demo_policy : Policy := mkPolicy 2 10 2.
Definition demo_new : AttemptLimiter := mkLimiter demo_policy ∅ 0 0 [] [].
Definition demo_ops : list op := [OReserve "a" 1; OReserve "a" 2; OReserve "b" 3].
(** [a] locked until 12, [b] with one strike, the table full. *)
Definition demo : AttemptLimiter := run demo_new demo_ops.

Lemma demo_new_ok : NewAttemptLimiter demo_policy = Ok demo_new.
Proof. reflexivity. Qed.

Lemma demo_WF : WF demo.
Proof.
  apply (run_facts demo_new demo_ops); [apply (New_WF _ _ demo_new_ok)|].
  simpl. lia.
Qed.

Lemma demo_latest : latest demo <= 4.
Proof. vm_compute. congruence. Qed.

Lemma demo_epochs : epochs_ok demo.
Proof.
  split; [vm_compute; split; congruence|].
  assert (map_Forall (fun _ e => epoch e <> 0) (entries demo)) as Hm; [|exact Hm].
  refine (bool_decide_unpack _ _). vm_compute. exact I.
Qed.

Lemma limiter_invariant_witness :
  WF (run demo_new demo_ops) /\ Z.of_nat (size (entries (run demo_new demo_ops))) <= 2.
Proof. apply (limiter_invariant demo_policy); [reflexivity|simpl; lia]. Defined.

Lemma Reserve_refines_witness :
  (Reserve "b" 4 demo).1.1 = AllowedLastAttempt /\ view (Reserve "b" 4 demo).2 4 "b" = LockedOut 2 14.
Proof.
  generalize (Reserve_refines "b" 4 demo demo_WF). vm_compute. intros H.
  destruct H as [H _]; [congruence|]. by simplify_eq.
Defined.

Lemma Reserve_other_keys_witness :
  exists v n t, view demo 4 v = Striking n t /\ view (Reserve "c" 4 demo).2 4 v = Fresh.
Proof.
  generalize (Reserve_other_keys "c" 4 demo demo_WF). intros H.
  pose proof demo_latest as Ht.
  destruct (H Ht) as [Hs|(_ & v & n & t & Hv & Hf & _)]; [|exists v, n, t; split; [exact Hv|exact Hf]].
  specialize (Hs "b"%string ltac:(done)). vm_compute in Hs. done.
Defined.

Lemma lockout_stands_witness :
  (Attempt "a" 11 (run demo [ORefund "a"; OReserve "d" 5; OCancel (mkReservation "a" 1 false)])).1 = Denied.
Proof.
  apply (lockout_stands demo "a" 12 1); try (vm_compute; congruence); [apply demo_WF|..].
  - eexists. by split_and!; [vm_compute; reflexivity|..].
  - repeat split; vm_compute; congruence.
  - repeat constructor; vm_compute; congruence.
Defined.

Lemma lockout_lifts_witness :
  let '(o, l) := Attempt "a" 12 (run demo [OReserve "a" 5; OReserve "a" 11]) in
  (o, view l 12 "a") = (Allowed, Striking 1 12) /\ Permitted o = true.
Proof.
  apply (lockout_lifts demo "a" 12 1 [OReserve "a" 5; OReserve "a" 11] 12);
    try (vm_compute; congruence); [apply demo_WF|..].
  - eexists. by split_and!; [vm_compute; reflexivity|..].
  - repeat split; vm_compute; congruence.
  - repeat constructor; vm_compute; congruence.
  - left. vm_compute. reflexivity.
Defined.

Lemma Cancel_refines_witness :
  view (Cancel (mkReservation "a" 1 true) demo) 3 "a" = Striking 1 3 /\
  view (Cancel (mkReservation "a" 1 false) demo) 3 "a" = LockedOut 1 12.
Proof.
  generalize (Cancel_refines (mkReservation "a" 1 true) demo demo_WF).
  generalize (Cancel_refines (mkReservation "a" 1 false) demo demo_WF).
  intros (_ & _ & H1) (_ & _ & H2). specialize (H1 "a"%string). specialize (H2 "a"%string).
  vm_compute in H1, H2 |- *. by split.
Defined.

Lemma Reserve_Cancel_witness :
  let '(o, r, l') := Reserve "b" 4 demo in
  Permitted o = true /\ view (Cancel r l') 4 "b" = Striking 1 4.
Proof.
  generalize (Reserve_Cancel "b" 4 demo demo_WF). intros H.
  pose proof demo_latest as Ht.
  generalize (H Ht demo_epochs). vm_compute. intros Hc. split; [done|]. by apply Hc.
Defined.

Lemma burst_budget_witness :
  let as_ := [("a", 1); ("b", 1); ("a", 2); ("a", 3)]%string in
  permitted "a" (attempt_all demo_new as_) = 2 /\ permitted "b" (attempt_all demo_new as_) = 1.
Proof.
  split; (etransitivity; [apply (burst_budget demo_policy demo_new 0 _ {["a"%string; "b"%string]})|reflexivity]);
    try reflexivity; try lia; try (simpl; lia); try (vm_compute; congruence); set_solver.
Defined.
