(* ===== verification/Exif.v ===== *)
(** The EXIF reader (src/media/adapter/exif.go, and the read side of exif_scrub.go):
    the capture time and orientation of a photo, from a parser that may fail or panic
    on any input. *)

From S2P Require Import Prelude.
Local Open Scope Z_scope.

(** A call into the parser. *)
Inductive parsed (A : Type) := Got (a : A) | Failed | Panics.
Arguments Got {A} a.
Arguments Failed {A}.
Arguments Panics {A}.

Definition and_then {A B} (p : parsed A) (on_error : parsed B) (f : A -> parsed B) : parsed B :=
  match p with Got a => f a | Failed => on_error | Panics => Panics end.

(** The goexif2 parser: an image's tags, if it has any, and the tags read from them.
    Times are in UTC; [ParseInLocation] is [time.ParseInLocation] with the EXIF layout,
    [Local] the server's zone. *)
Class ExifLib := {
  exif : Type; location : Type;
  Decode : list Z -> parsed exif;
  DateTime : exif -> parsed Z;
  TimeZone : exif -> parsed (option location);
  Get_DateTimeOriginal : exif -> parsed string;
  Get_Orientation : exif -> parsed Z;
  Local_ : location;
  ParseInLocation : string -> location -> option Z
}.

Section exif.
Context `{ExifLib}.

(** The deferred [recover]: the zero results. *)
Definition with_recover {A} (zero : A) (p : parsed A) : A := match p with Got a => a | _ => zero end.

Definition TakenAt (data : list Z) : option Z :=
  with_recover None
    (and_then (Decode data) (Got None) (fun x =>
     and_then (DateTime x) (Got None) (fun t => Got (Some t)))).

Definition dateTimeOriginal (x : exif) : parsed (option Z) :=
  and_then (and_then (TimeZone x) (Got Local_) (fun tz => Got (default Local_ tz))) (Got None) (fun loc =>
  and_then (Get_DateTimeOriginal x) (Got None) (fun raw => Got (ParseInLocation raw loc))).

Definition orientationFromTags (x : exif) : parsed Z :=
  and_then (Get_Orientation x) (Got 0) (fun v => Got (if (v <? 1) || (8 <? v) then 0 else v)).

Definition TakenAtAndOrientation (data : list Z) : option Z * Z :=
  with_recover (None, 0)
    (and_then (Decode data) (Got (None, 0)) (fun x =>
     and_then (dateTimeOriginal x) (Got (None, 0)) (fun taken =>
     and_then (orientationFromTags x) (Got (None, 0)) (fun o => Got (taken, o))))).

(** Whatever the parser answers, the orientation is one the pixel transform knows. *)
Lemma orientation_range data : 0 <= (TakenAtAndOrientation data).2 <= 8.
Proof.
  unfold TakenAtAndOrientation. destruct (Decode data) as [x| |]; simpl; [|lia..].
  destruct (dateTimeOriginal x) as [t| |]; simpl; [|lia..].
  unfold orientationFromTags. destruct (Get_Orientation x) as [v| |]; simpl; [|lia..].
  destruct ((v <? 1) || (8 <? v)) eqn:Hv; simpl; [lia|]. to_prop. lia.
Qed.

(** A panic anywhere in the parser leaves no trace: neither time nor orientation. *)
Lemma panic_is_absence data x :
  Decode data = Got x ->
  TimeZone x = Panics \/ Get_DateTimeOriginal x = Panics \/ Get_Orientation x = Panics ->
  TakenAtAndOrientation data = (None, 0).
Proof.
  intros Hd Hp. unfold TakenAtAndOrientation, dateTimeOriginal, orientationFromTags. rewrite Hd. simpl.
  destruct (TimeZone x) as [tz| |]; simpl; [| |done];
    (destruct (Get_DateTimeOriginal x) as [raw| |]; simpl; [| |done]);
    (destruct (Get_Orientation x) as [v| |]; simpl; [| |done]); by destruct Hp as [|[|]].
Qed.
End exif.
