(* ===== verification/Jpeg.v ===== *)
(** The EXIF scrubber (src/media/adapter/exif_scrub.go): the byte-level segment
    walk [stripJPEGExif] and the pixel transform [applyOrientation], with the
    dispatch [Scrub] between them. Bytes are [Z]; slices are lists and the
    walk's indices are [nat], as the code's [i] and [j]. *)

From S2P Require Import Prelude.
Local Open Scope Z_scope.

(** ** The segment walk *)

Definition jpegMarkerByte : Z := 0xFF.
Definition jpegSOIMarker : Z := 0xD8.
Definition jpegEOIMarker : Z := 0xD9.
Definition jpegSOSMarker : Z := 0xDA.
Definition jpegTEMMarker : Z := 0x01.
Definition jpegRestart0 : Z := 0xD0.
Definition jpegRestart7 : Z := 0xD7.
Definition jpegAPP1Marker : Z := 0xE1.
Definition jpegLengthBytes : nat := 2.

(** "Exif\0\0" *)
Definition exifAPP1Signature : list Z := [0x45; 0x78; 0x69; 0x66; 0; 0].

Definition isExifAPP1 (marker : Z) (payload : list Z) : bool :=
  (marker =? jpegAPP1Marker)
  && (length exifAPP1Signature <=? length payload)%nat
  && bool_decide (take (length exifAPP1Signature) payload = exifAPP1Signature).

(** Every rejection wraps [ErrInvalidPhoto]; the constructors are its messages. *)
Inductive scrub_error :=
| NotAMarker          (* expected a marker byte *)
| DanglingFill        (* dangling fill bytes with no marker code *)
| TruncatedLength     (* truncated segment length field *)
| BadSegmentLength    (* malformed or truncated segment length *)
| BadImageConfig | TooManyPixels | BadImage | EncodeFailed
| OutOfFuel.          (* not an outcome of the code: see [strip_total] *)
#[export] Instance scrub_error_eq_dec : EqDecision scrub_error.
Proof. solve_decision. Defined.

(** [data[i:e]] *)
Definition slice (data : list Z) (i e : nat) : list Z := take (e - i) (drop i data).

(** [for j < len(data) && data[j] == jpegMarkerByte { j++ }] *)
Fixpoint skip_fill (data : list Z) (fuel j : nat) : nat :=
  match fuel with
  | O => j
  | S fuel =>
    match data !! j with
    | Some b => if b =? jpegMarkerByte then skip_fill data fuel (S j) else j
    | None => j
    end
  end.

Definition segment_length (hi lo : Z) : Z := Z.lor (Z.shiftl hi 8) lo.

Fixpoint strip_loop (data : list Z) (fuel i : nat) (out : list Z) : result scrub_error (list Z) :=
  match data !! i with
  | None => Ok out                                   (* i >= len(data) *)
  | Some b =>
    match fuel with
    | O => Err OutOfFuel
    | S fuel =>
      if negb (b =? jpegMarkerByte) then Err NotAMarker
      else
        let j := skip_fill data (length data) (i + 1) in
        match data !! j with
        | None => Err DanglingFill
        | Some marker =>
          if (marker =? jpegSOSMarker) || (marker =? jpegEOIMarker)
          then Ok (out ++ drop i data)
          else if (marker =? jpegTEMMarker)
                  || ((jpegRestart0 <=? marker) && (marker <=? jpegRestart7))
          then strip_loop data fuel (j + 1) (out ++ slice data i (j + 1))
          else
            match data !! (j + 1)%nat, data !! (j + 2)%nat with
            | Some hi, Some lo =>
              let segLen := segment_length hi lo in
              if (segLen <? Z.of_nat jpegLengthBytes)
                 || (Z.of_nat (length data) <? Z.of_nat (j + 1) + segLen)
              then Err BadSegmentLength
              else
                let segEnd := (j + 1 + Z.to_nat segLen)%nat in
                strip_loop data fuel segEnd
                  (if isExifAPP1 marker (slice data (j + 3) segEnd) then out
                   else out ++ slice data i segEnd)
            | _, _ => Err TruncatedLength
            end
        end
    end
  end.

Definition stripJPEGExif (data : list Z) : result scrub_error (list Z) :=
  match data with
  | b0 :: b1 :: _ =>
    if (b0 =? jpegMarkerByte) && (b1 =? jpegSOIMarker)
    then strip_loop data (length data) 2 [b0; b1]
    else Ok data
  | _ => Ok data
  end.

(** ** Specification: a JPEG header as a list of segments *)

(** A segment with the [fill]+1 marker bytes in front of its code. *)
Inductive segment :=
| Standalone (fill : nat) (marker : Z)
| Sized (fill : nat) (marker hi lo : Z) (payload : list Z).

Definition seg_bytes (s : segment) : list Z :=
  match s with
  | Standalone n m => replicate (S n) jpegMarkerByte ++ [m]
  | Sized n m hi lo p => replicate (S n) jpegMarkerByte ++ m :: hi :: lo :: p
  end.

Definition standalone_marker (m : Z) : bool :=
  (m =? jpegTEMMarker) || ((jpegRestart0 <=? m) && (m <=? jpegRestart7)).

Definition final_marker (m : Z) : bool := (m =? jpegSOSMarker) || (m =? jpegEOIMarker).

Definition seg_ok (s : segment) : Prop :=
  match s with
  | Standalone _ m => standalone_marker m = true
  | Sized _ m hi lo p =>
    m <> jpegMarkerByte /\ standalone_marker m = false /\ final_marker m = false /\
    segment_length hi lo = Z.of_nat (length p) + 2
  end.

(** An APP1 segment whose payload starts with "Exif" and two zero bytes. *)
Definition is_exif (s : segment) : bool :=
  match s with
  | Standalone _ _ => false
  | Sized _ m _ _ p => bool_decide (m = 0xE1 /\ [0x45; 0x78; 0x69; 0x66; 0; 0] `prefix_of` p)
  end.

Lemma isExifAPP1_spec n m hi lo p : isExifAPP1 m p = is_exif (Sized n m hi lo p).
Proof.
  apply eq_true_iff_eq. unfold isExifAPP1, is_exif.
  rewrite !andb_true_iff, !bool_decide_eq_true, Z.eqb_eq, Nat.leb_le. split.
  - intros [[? Hl] Ht]. split; [done|]. exists (drop 6 p). change [69; 120; 105; 102; 0; 0] with exifAPP1Signature.
    rewrite <- Ht at 1. by rewrite take_drop.
  - intros [? [q ->]]. split_and!; [done| |done]. rewrite length_app. simpl. lia.
Qed.

(** What may follow the header: nothing, or a scan/end marker and anything. *)
Inductive tail_ok : list Z -> Prop :=
| tail_nil : tail_ok []
| tail_scan n m rest : final_marker m = true ->
    tail_ok (replicate (S n) jpegMarkerByte ++ m :: rest).

Definition jpeg_bytes (segs : list segment) (tl : list Z) : list Z :=
  jpegMarkerByte :: jpegSOIMarker :: concat (seg_bytes <$> segs) ++ tl.

Definition drop_exif (segs : list segment) : list segment :=
  filter (fun s => is_exif s = false) segs.

Section walk.
Implicit Types (data out tl : list Z) (segs : list segment) (i n fuel : nat).

Lemma slice_prefix data i s r :
  drop i data = s ++ r -> slice data i (i + length s) = s.
Proof.
  intros Hd. unfold slice. rewrite Hd. replace (i + length s - i)%nat with (length s) by lia.
  by rewrite take_app_length.
Qed.

Lemma drop_prefix data i s r : drop i data = s ++ r -> drop (i + length s) data = r.
Proof. intros Hd. rewrite <- drop_drop, Hd. by rewrite drop_app_length. Qed.

Lemma drop_tail data i x r : drop i data = x :: r -> drop (S i) data = r.
Proof. intros Hd. rewrite <- Nat.add_1_r. by apply (drop_prefix data i [x]). Qed.

Lemma seg_length s :
  length (seg_bytes s) =
    match s with Standalone n _ => n + 2 | Sized n _ _ _ p => n + 4 + length p end%nat.
Proof. destruct s; simpl; rewrite length_app, length_replicate; simpl; lia. Qed.

Lemma seg_next data i s r k :
  drop i data = seg_bytes s ++ r -> k = (i + length (seg_bytes s))%nat -> drop k data = r.
Proof. intros Hd ->. by apply drop_prefix. Qed.

Lemma drop_length_eq data i s : drop i data = s -> s <> [] -> (length data = i + length s)%nat.
Proof.
  intros <- Hne. rewrite length_drop. destruct (decide (i <= length data)%nat); [lia|].
  by rewrite drop_ge in Hne by lia.
Qed.

Lemma skip_fill_all data fuel n j :
  drop j data = replicate n jpegMarkerByte -> (n <= fuel)%nat -> skip_fill data fuel j = (j + n)%nat.
Proof.
  revert j n. induction fuel as [|fuel IH]; intros j n Hd Hf; simpl; [lia|].
  pose proof (lookup_drop data j 0) as Hl. rewrite Hd, Nat.add_0_r in Hl.
  destruct n as [|n]; simpl in *; rewrite <- Hl; [lia|].
  rewrite Z.eqb_refl. rewrite (IH (S j) n); [lia|by eapply drop_tail|lia].
Qed.

Lemma skip_fill_code data fuel n j m r :
  drop j data = replicate n jpegMarkerByte ++ m :: r -> m <> jpegMarkerByte ->
  (n <= fuel)%nat -> skip_fill data fuel j = (j + n)%nat.
Proof.
  intros Hd Hm. revert j n Hd. induction fuel as [|fuel IH]; intros j n Hd Hf; simpl; [lia|].
  pose proof (lookup_drop data j 0) as Hl. rewrite Hd, Nat.add_0_r in Hl.
  destruct n as [|n]; simpl in *; rewrite <- Hl.
  - rewrite (proj2 (Z.eqb_neq _ _)) by done. lia.
  - rewrite Z.eqb_refl. rewrite (IH (S j) n); [lia|by eapply drop_tail|lia].
Qed.

(** A byte string starts with a non-marker byte, is all fill, or has a code. *)
Lemma fill_cases b r :
  b <> jpegMarkerByte \/
  (exists n, b :: r = replicate (S n) jpegMarkerByte) \/
  (exists n m r', b :: r = replicate (S n) jpegMarkerByte ++ m :: r' /\ m <> jpegMarkerByte).
Proof.
  revert b. induction r as [|c r IH]; intros b;
    (destruct (decide (b = jpegMarkerByte)) as [->|]; [right|by left]).
  - left. by exists O.
  - destruct (IH c) as [Hc|[(n & ->)|(n & m & r' & -> & ?)]].
    + right. by exists O, c, r.
    + left. by exists (S n).
    + right. by exists (S n), m, r'.
Qed.

(** One iteration of the walk, at a marker code [m] after [S n] marker bytes. *)
Lemma strip_step data fuel i out n m r :
  drop i data = replicate (S n) jpegMarkerByte ++ m :: r -> m <> jpegMarkerByte ->
  strip_loop data (S fuel) i out =
    if final_marker m then Ok (out ++ drop i data)
    else if standalone_marker m
    then strip_loop data fuel (i + n + 2) (out ++ seg_bytes (Standalone n m))
    else match r with
         | hi :: lo :: p =>
           let len := segment_length hi lo in
           if (len <? 2) || (Z.of_nat (length p) + 2 <? len) then Err BadSegmentLength
           else
             let p' := take (Z.to_nat len - 2) p in
             strip_loop data fuel (i + n + 2 + Z.to_nat len)
               (if isExifAPP1 m p' then out else out ++ seg_bytes (Sized n m hi lo p'))
         | _ => Err TruncatedLength
         end.
Proof.
  intros Hd Hm. pose proof (drop_length_eq _ _ _ Hd ltac:(done)) as Hlen.
  rewrite length_app, length_replicate in Hlen. simpl in Hlen.
  assert (forall k, data !! (i + k)%nat = (replicate (S n) jpegMarkerByte ++ m :: r) !! k) as Hl
    by (intros; by rewrite <- Hd, lookup_drop).
  assert (skip_fill data (length data) (i + 1) = (i + 1 + n)%nat) as Hj.
  { eapply skip_fill_code; [|done|lia]. rewrite Nat.add_1_r. apply (drop_tail _ _ jpegMarkerByte _ Hd). }
  assert (forall k, data !! (i + 1 + n + k)%nat = (m :: r) !! k) as Hr.
  { intros k. replace (i + 1 + n + k)%nat with (i + (S n + k))%nat by lia.
    rewrite Hl. rewrite lookup_app_r by (rewrite length_replicate; lia).
    f_equal. rewrite length_replicate. lia. }
  cbn [strip_loop]. pose proof (Hl O) as H0. rewrite Nat.add_0_r in H0. rewrite H0.
  cbn [replicate app lookup list_lookup]. rewrite Z.eqb_refl. cbn [negb]. cbv zeta. rewrite Hj.
  pose proof (Hr O) as H1. rewrite Nat.add_0_r in H1. rewrite H1. cbn [lookup list_lookup].
  fold (final_marker m) (standalone_marker m). destruct (final_marker m); [done|].
  destruct (standalone_marker m).
  { replace (i + 1 + n + 1)%nat with (i + n + 2)%nat by lia. f_equal. f_equal.
    change (replicate (S n) jpegMarkerByte ++ [m]) with (seg_bytes (Standalone n m)).
    replace (i + n + 2)%nat with (i + length (seg_bytes (Standalone n m)))%nat
      by (simpl; rewrite length_app, length_replicate; simpl; lia).
    apply (slice_prefix _ _ _ r). rewrite Hd. simpl. by rewrite <- app_assoc. }
  replace (i + 1 + n + 2)%nat with (i + 1 + n + 2)%nat by lia.
  rewrite (Hr 1%nat), (Hr 2%nat). destruct r as [|hi [|lo p]]; [done..|]. cbn [lookup list_lookup].
  simpl in Hlen. set (len := segment_length hi lo).
  change (Z.of_nat jpegLengthBytes) with 2.
  replace (Z.of_nat (length data) <? Z.of_nat (i + 1 + n + 1) + len)
    with (Z.of_nat (length p) + 2 <? len) by (apply Bool.eq_iff_eq_true; rewrite !Z.ltb_lt; lia).
  destruct ((len <? 2) || _) eqn:Hb; [done|]. apply orb_false_iff in Hb as [Hb1 Hb2]; to_prop.
  set (p' := take (Z.to_nat len - 2) p).
  assert (length p' = (Z.to_nat len - 2)%nat) as Hp' by (unfold p'; rewrite length_take; lia).
  assert (slice data i (i + n + 2 + Z.to_nat len) = seg_bytes (Sized n m hi lo p')) as Hs.
  { replace (i + n + 2 + Z.to_nat len)%nat with (i + length (seg_bytes (Sized n m hi lo p')))%nat
      by (simpl; rewrite length_app, length_replicate; simpl; lia).
    apply (slice_prefix _ _ _ (drop (Z.to_nat len - 2) p)). rewrite Hd. simpl.
    rewrite <- app_assoc. simpl. unfold p'. by rewrite take_drop. }
  assert (slice data (i + 1 + n + 3) (i + n + 2 + Z.to_nat len) = p') as Hpl.
  { replace (i + n + 2 + Z.to_nat len)%nat with (i + 1 + n + 3 + length p')%nat by lia.
    apply (slice_prefix _ _ _ (drop (Z.to_nat len - 2) p)). unfold p'. rewrite take_drop.
    replace (i + 1 + n + 3)%nat with (i + length (replicate (S n) jpegMarkerByte ++ [m; hi; lo]))%nat
      by (rewrite length_app, length_replicate; simpl; lia).
    apply drop_prefix. by rewrite Hd, <- app_assoc. }
  replace (i + 1 + n + 1 + Z.to_nat len)%nat with (i + n + 2 + Z.to_nat len)%nat by lia.
  by rewrite Hs, Hpl.
Qed.

Lemma standalone_not_fill m : standalone_marker m = true -> m <> jpegMarkerByte.
Proof. by intros H ->. Qed.

Lemma final_not_fill m : final_marker m = true -> m <> jpegMarkerByte.
Proof. by intros H ->. Qed.

Lemma final_not_standalone m : final_marker m = true -> standalone_marker m = false.
Proof.
  unfold final_marker, standalone_marker, jpegSOSMarker, jpegEOIMarker, jpegTEMMarker,
    jpegRestart0, jpegRestart7. lia.
Qed.

Lemma strip_end data fuel i out : drop i data = [] -> strip_loop data fuel i out = Ok out.
Proof.
  intros Hd. pose proof (lookup_drop data i 0) as Hl. rewrite Hd, Nat.add_0_r in Hl.
  simpl in Hl. destruct fuel; cbn [strip_loop]; by rewrite <- Hl.
Qed.

Lemma strip_zero data i out x r : drop i data = x :: r -> strip_loop data 0 i out = Err OutOfFuel.
Proof.
  intros Hd. pose proof (lookup_drop data i 0) as Hl. rewrite Hd, Nat.add_0_r in Hl.
  simpl in Hl. cbn [strip_loop]. by rewrite <- Hl.
Qed.

Lemma strip_bad_start data fuel i out x r :
  drop i data = x :: r -> x <> jpegMarkerByte -> strip_loop data (S fuel) i out = Err NotAMarker.
Proof.
  intros Hd Hx. pose proof (lookup_drop data i 0) as Hl. rewrite Hd, Nat.add_0_r in Hl.
  simpl in Hl. cbn [strip_loop]. rewrite <- Hl. by rewrite (proj2 (Z.eqb_neq _ _)).
Qed.

Lemma strip_dangling data fuel i out n :
  drop i data = replicate (S n) jpegMarkerByte -> strip_loop data (S fuel) i out = Err DanglingFill.
Proof.
  intros Hd. pose proof (drop_length_eq _ _ _ Hd ltac:(done)) as Hlen.
  rewrite length_replicate in Hlen.
  pose proof (lookup_drop data i 0) as Hl. rewrite Hd, Nat.add_0_r in Hl. simpl in Hl.
  cbn [strip_loop]. rewrite <- Hl, Z.eqb_refl. cbn [negb]. cbv zeta.
  rewrite (skip_fill_all _ _ n); [|rewrite Nat.add_1_r; apply (drop_tail _ _ _ _ Hd)|lia].
  by rewrite lookup_ge_None_2 by lia.
Qed.

(** What the walk does to a suffix, whichever way it ends. *)
Lemma strip_loop_sound data fuel : forall i out res,
  strip_loop data fuel i out = Ok res ->
  exists segs tl, Forall seg_ok segs /\ tail_ok tl /\
    drop i data = concat (seg_bytes <$> segs) ++ tl /\
    res = out ++ concat (seg_bytes <$> drop_exif segs) ++ tl.
Proof.
  induction fuel as [|fuel IH]; intros i out res Hr;
    (destruct (drop i data) as [|b r] eqn:Hd;
     [rewrite strip_end in Hr by done; injection Hr as <-; exists [], [];
      split_and!; [constructor|constructor|done|by rewrite app_nil_r]|]).
  { by rewrite (strip_zero _ _ _ _ _ Hd) in Hr. }
  destruct (fill_cases b r) as [Hb|[(n & Hn)|(n & m & r' & Hn & Hm)]].
  { by rewrite (strip_bad_start _ _ _ _ _ _ Hd Hb) in Hr. }
  { rewrite Hn in Hd. by rewrite (strip_dangling _ _ _ _ _ Hd) in Hr. }
  rewrite Hn in Hd |- *. rewrite (strip_step _ _ _ _ _ _ _ Hd Hm) in Hr.
  destruct (final_marker m) eqn:Hf.
  { injection Hr as <-. exists [], (drop i data). rewrite Hd. split_and!; [constructor| |done|done].
    by constructor. }
  destruct (standalone_marker m) eqn:Hs.
  { apply IH in Hr as (segs & tl & Hok & Htl & Hd' & ->).
    rewrite (seg_next _ _ (Standalone n m) r') in Hd'
      by (rewrite ?seg_length; simpl; rewrite ?Hd, <- ?app_assoc; simpl; done || lia).
    exists (Standalone n m :: segs), tl. rewrite Hd'.
    split_and!; [by constructor|done|simpl; by rewrite <- !app_assoc|].
    unfold drop_exif. by rewrite filter_cons_True, fmap_cons, concat_cons, <- !app_assoc. }
  destruct r' as [|hi [|lo p]]; [done..|]. cbv zeta in Hr. set (len := segment_length hi lo) in *.
  destruct ((len <? 2) || _) eqn:Hb; [done|]. apply orb_false_iff in Hb as [Hb1 Hb2]; to_prop.
  set (p' := take (Z.to_nat len - 2) p) in *. set (s := Sized n m hi lo p') in *.
  assert (length p' = (Z.to_nat len - 2)%nat) as Hp' by (unfold p'; rewrite length_take; lia).
  apply IH in Hr as (segs & tl & Hok & Htl & Hd' & ->).
  assert (drop i data = seg_bytes s ++ drop (Z.to_nat len - 2) p) as Hd1
    by (simpl; rewrite Hd, <- app_assoc; simpl; unfold p'; by rewrite take_drop).
  rewrite (seg_next _ i s _ _ Hd1) in Hd' by (rewrite seg_length; simpl; lia).
  exists (s :: segs), tl.
  split_and!; [constructor; [|done]; simpl; split_and!; try done; fold len; lia|done| |].
  - rewrite fmap_cons, concat_cons, <- app_assoc, <- Hd'. simpl. rewrite <- app_assoc. simpl.
    unfold p'. by rewrite take_drop.
  - unfold drop_exif. rewrite filter_cons. pose proof (isExifAPP1_spec n m hi lo p') as Hspec.
    fold s in Hspec. rewrite Hspec. destruct (is_exif s) eqn:He; [by rewrite decide_False by congruence|].
    by rewrite decide_True, fmap_cons, concat_cons, <- !app_assoc by done.
Qed.

Lemma strip_loop_complete data segs tl fuel i out :
  Forall seg_ok segs -> tail_ok tl -> drop i data = concat (seg_bytes <$> segs) ++ tl ->
  (length (drop i data) <= fuel)%nat ->
  strip_loop data fuel i out = Ok (out ++ concat (seg_bytes <$> drop_exif segs) ++ tl).
Proof.
  intros Hok Htl. revert fuel i out. induction Hok as [|s segs Hs Hok IH]; intros fuel i out Hd Hf.
  - simpl in Hd |- *. destruct Htl as [|n m rest Hm]; [by rewrite strip_end, app_nil_r|].
    rewrite Hd, length_app in Hf. simpl in Hf. destruct fuel as [|fuel]; [lia|].
    rewrite (strip_step _ _ _ _ _ _ _ Hd) by (by apply final_not_fill). by rewrite Hm, Hd.
  - rewrite fmap_cons, concat_cons, <- app_assoc in Hd.
    pose proof (drop_prefix _ _ _ _ Hd) as Hd'. rewrite seg_length in Hd'.
    pose proof Hf as Hf'. rewrite Hd, length_app, seg_length in Hf'. rewrite <- Hd' in Hf'.
    destruct fuel as [|fuel]; [destruct s; simpl in *; lia|].
    unfold drop_exif. rewrite filter_cons. destruct s as [n m|n m hi lo p]; simpl in Hd, Hs, Hd', Hf'.
    + rewrite <- app_assoc in Hd. simpl in Hd.
      rewrite (strip_step _ _ _ _ _ _ _ Hd) by (by apply standalone_not_fill).
      destruct (final_marker m) eqn:Hfm; [apply final_not_standalone in Hfm; congruence|].
      rewrite Hs, decide_True by done. rewrite (IH fuel (i + n + 2)%nat);
        [by rewrite fmap_cons, concat_cons, <- !app_assoc|by rewrite <- Hd'; f_equal; lia|].
      replace (i + n + 2)%nat with (i + (n + 2))%nat by lia. lia.
    + destruct Hs as (Hm & Hst & Hfm & Hlen). rewrite <- app_assoc in Hd. simpl in Hd.
      rewrite (strip_step _ _ _ _ _ _ _ Hd Hm), Hfm, Hst. cbv zeta. rewrite Hlen.
      rewrite (proj2 (Z.ltb_ge _ 2)) by lia. rewrite length_app, (proj2 (Z.ltb_ge _ _)) by lia.
      cbn [orb]. replace (Z.to_nat (Z.of_nat (length p) + 2) - 2)%nat with (length p) by lia.
      rewrite take_app_length.
      rewrite (IH fuel (i + n + 2 + Z.to_nat (Z.of_nat (length p) + 2))%nat).
      * rewrite (isExifAPP1_spec n m hi lo).
        destruct (is_exif _) eqn:He; [by rewrite decide_False by congruence|].
        by rewrite decide_True, fmap_cons, concat_cons, <- !app_assoc by done.
      * rewrite <- Hd'. f_equal. lia.
      * replace (i + n + 2 + Z.to_nat (Z.of_nat (length p) + 2))%nat
          with (i + (n + 4 + length p))%nat by lia. lia.
Qed.

Lemma strip_loop_total data fuel : forall i out,
  (length data - i <= fuel)%nat -> strip_loop data fuel i out <> Err OutOfFuel.
Proof.
  induction fuel as [|fuel IH]; intros i out Hf;
    (destruct (drop i data) as [|b r] eqn:Hd; [by rewrite strip_end|]).
  { pose proof (drop_length_eq _ _ _ Hd ltac:(done)) as Hl. simpl in Hl. lia. }
  destruct (fill_cases b r) as [Hb|[(n & Hn)|(n & m & r' & Hn & Hm)]].
  { by rewrite (strip_bad_start _ _ _ _ _ _ Hd Hb). }
  { rewrite Hn in Hd. by rewrite (strip_dangling _ _ _ _ _ Hd). }
  rewrite Hn in Hd. rewrite (strip_step _ _ _ _ _ _ _ Hd Hm). cbv zeta.
  repeat case_match; try done; apply IH; lia.
Qed.
End walk.

(** ** Pixels: baking the orientation in *)

Section orientation.
Context {C : Type}.

(** [src.At(b.Min.X+x, b.Min.Y+y)] as a function of [(x, y)]; [dst] as the
    map of the pixels set so far. *)
Definition oriented (o w h x y : Z) : Z * Z :=
  if o =? 2 then (w - 1 - x, y)
  else if o =? 3 then (w - 1 - x, h - 1 - y)
  else if o =? 4 then (x, h - 1 - y)
  else if o =? 5 then (y, x)
  else if o =? 6 then (h - 1 - y, x)
  else if o =? 7 then (h - 1 - y, w - 1 - x)
  else if o =? 8 then (y, w - 1 - x)
  else (x, y).

Definition orientedBounds (o w h : Z) : Z * Z := if 5 <=? o then (h, w) else (w, h).

(** The two nested loops, row by row. *)
Definition applyOrientation (src : Z -> Z -> C) (w h o : Z) : gmap (Z * Z) C :=
  foldl (fun dst y =>
    foldl (fun dst x => <[oriented o w h x y := src x y]> dst) dst (seqZ 0 w)) ∅ (seqZ 0 h).
End orientation.

(** The documented transforms: a horizontal flip and clockwise quarter turns of
    a [w] by [h] image. *)
Definition flip_h (w : Z) (p : Z * Z) : Z * Z := (w - 1 - p.1, p.2).
Definition flip_v (h : Z) (p : Z * Z) : Z * Z := (p.1, h - 1 - p.2).
Definition rot90 (h : Z) (p : Z * Z) : Z * Z := (h - 1 - p.2, p.1).
Definition rot180 (w h : Z) (p : Z * Z) : Z * Z := rot90 w (rot90 h p).
Definition rot270 (w h : Z) (p : Z * Z) : Z * Z := rot90 h (rot180 w h p).

Definition documented (o w h : Z) (p : Z * Z) : Z * Z :=
  if o =? 2 then flip_h w p
  else if o =? 3 then rot180 w h p
  else if o =? 4 then flip_v h p
  else if o =? 5 then rot270 w h (flip_h w p)
  else if o =? 6 then rot90 h p
  else if o =? 7 then rot90 h (flip_h w p)
  else if o =? 8 then rot270 w h p
  else p.

Definition in_rect (w h : Z) (p : Z * Z) : Prop := 0 <= p.1 < w /\ 0 <= p.2 < h.

Section insert_all.
Context {P K V : Type} `{Countable K} (f : P -> K) (g : P -> V).

Lemma foldl_insert_lookup (l : list P) (d : gmap K V) p :
  (forall q q', q ∈ l -> q' ∈ l -> f q = f q' -> g q = g q') -> p ∈ l ->
  foldl (fun d q => <[f q := g q]> d) d l !! f p = Some (g p).
Proof.
  induction l as [|q l IH] using rev_ind; intros Hinj Hp; [set_solver|].
  rewrite foldl_snoc, lookup_insert. case_decide as Hf.
  - f_equal. apply Hinj; [set_solver..|done].
  - apply IH; [intros; apply Hinj; set_solver|]. set_solver.
Qed.

Lemma foldl_insert_dom (l : list P) (d : gmap K V) k :
  is_Some (foldl (fun d q => <[f q := g q]> d) d l !! k) <->
  is_Some (d !! k) \/ exists q, q ∈ l /\ f q = k.
Proof.
  revert d. induction l as [|q l IH]; intros d; simpl; [set_solver|].
  rewrite IH, lookup_insert_is_Some. set_unfold. split.
  - intros [[?|[? ?]]|(q' & ? & ?)]; eauto.
  - intros [?|(q' & [->|?] & ?)]; eauto. destruct (decide (f q = k)); eauto.
Qed.
End insert_all.

Section orientation_facts.
Context {C : Type} (src : Z -> Z -> C) (w h o : Z).

(** The pixels in the order the loops visit them. *)
Definition pixels : list (Z * Z) :=
  seqZ 0 h ≫= (fun y => (fun x => (x, y)) <$> seqZ 0 w).

Lemma elem_of_pixels p : p ∈ pixels <-> in_rect w h p.
Proof.
  destruct p as [x y]. unfold pixels, in_rect. rewrite list_elem_of_bind. simpl.
  split.
  - intros (y' & (x' & [= -> ->] & ?%elem_of_seqZ)%list_elem_of_fmap & ?%elem_of_seqZ). lia.
  - intros [? ?]. exists y. rewrite list_elem_of_fmap. split; [|apply elem_of_seqZ; lia].
    exists x. split; [done|]. apply elem_of_seqZ. lia.
Qed.

Lemma applyOrientation_pixels :
  applyOrientation src w h o =
  foldl (fun dst p => <[oriented o w h p.1 p.2 := src p.1 p.2]> dst) ∅ pixels.
Proof.
  unfold applyOrientation, pixels. generalize (∅ : gmap (Z * Z) C).
  induction (seqZ 0 h) as [|y ys IH]; intros d; [done|]. simpl. rewrite foldl_app, <- IH. f_equal.
  clear IH. revert d. induction (seqZ 0 w) as [|x xs IH]; intros d; [done|]. simpl. apply IH.
Qed.

Lemma oriented_inj p q :
  oriented o w h p.1 p.2 = oriented o w h q.1 q.2 -> p = q.
Proof.
  destruct p as [x y], q as [x' y']. unfold oriented. simpl.
  repeat case_match; intros [=]; f_equal; lia.
Qed.

Lemma oriented_bounds x y :
  o <= 8 -> in_rect w h (x, y) ->
  in_rect (orientedBounds o w h).1 (orientedBounds o w h).2 (oriented o w h x y).
Proof.
  unfold in_rect, oriented, orientedBounds. simpl. intros ? [? ?].
  destruct (Z.leb_spec 5 o); simpl; repeat case_match; to_prop; simpl; lia.
Qed.

Lemma oriented_documented p :
  2 <= o <= 8 -> oriented o w h p.1 p.2 = documented o w h p.
Proof.
  destruct p as [x y]. intros Ho.
  unfold oriented, documented, rot270, rot180, rot90, flip_h, flip_v. simpl.
  repeat case_match; f_equal; lia.
Qed.

Lemma oriented_surj p :
  o <= 8 -> in_rect (orientedBounds o w h).1 (orientedBounds o w h).2 p ->
  exists q, in_rect w h q /\ oriented o w h q.1 q.2 = p.
Proof.
  destruct p as [x y]. unfold in_rect, oriented, orientedBounds. simpl. intros Ho Hr.
  destruct (Z.leb_spec 5 o); simpl in Hr; repeat case_match; to_prop; simpl; try lia.
  all: first
    [ exists (x, y); simpl; split; [lia|f_equal; lia]
    | exists (w - 1 - x, y); simpl; split; [lia|f_equal; lia]
    | exists (w - 1 - x, h - 1 - y); simpl; split; [lia|f_equal; lia]
    | exists (x, h - 1 - y); simpl; split; [lia|f_equal; lia]
    | exists (y, x); simpl; split; [lia|f_equal; lia]
    | exists (y, h - 1 - x); simpl; split; [lia|f_equal; lia]
    | exists (w - 1 - y, h - 1 - x); simpl; split; [lia|f_equal; lia]
    | exists (w - 1 - y, x); simpl; split; [lia|f_equal; lia] ].
Qed.
End orientation_facts.

(** ** The scrubber *)

Section Scrub.
(** The image codecs, standard-library and third-party code: header and full
    decoding (dimensions, then pixels), and JPEG encoding at a quality. *)
Context {C : Type}.
Context (decodeConfig : list Z -> option (Z * Z)).
Context (decode : list Z -> option (Z * Z * (Z -> Z -> C))).
Context (encode : Z -> Z -> gmap (Z * Z) C -> option (list Z)).

Definition maxDecodePixels : Z := 50000000.

Definition reencodeUpright (data : list Z) (o : Z) : result scrub_error (list Z) :=
  match decodeConfig data with
  | None => Err BadImageConfig
  | Some (cw, ch) =>
    if maxDecodePixels <? i64 (cw * ch) then Err TooManyPixels
    else match decode data with
         | None => Err BadImage
         | Some (w, h, src) =>
           let '(dw, dh) := orientedBounds o w h in
           match encode dw dh (applyOrientation src w h o) with
           | None => Err EncodeFailed
           | Some out => Ok out
           end
         end
  end.

Definition Scrub (data : list Z) (orientation : Z) : result scrub_error (list Z) :=
  if (1 <? orientation) && (orientation <=? 8)
  then reencodeUpright data orientation
  else stripJPEGExif data.
End Scrub.

(** ** The properties *)

Lemma strip_jpeg data :
  stripJPEGExif (jpegMarkerByte :: jpegSOIMarker :: data) =
  strip_loop (jpegMarkerByte :: jpegSOIMarker :: data) (S (S (length data))) 2
    [jpegMarkerByte; jpegSOIMarker].
Proof. reflexivity. Qed.

Lemma stripJPEGExif_bytes segs tl :
  Forall seg_ok segs -> tail_ok tl ->
  stripJPEGExif (jpeg_bytes segs tl) = Ok (jpeg_bytes (drop_exif segs) tl).
Proof.
  intros Hs Ht. unfold jpeg_bytes at 1. rewrite strip_jpeg.
  by rewrite (strip_loop_complete _ segs tl) by (done || simpl; rewrite ?drop_0; done || lia).
Qed.

Lemma stripJPEGExif_sound data out :
  stripJPEGExif data = Ok out -> take 2 data = [jpegMarkerByte; jpegSOIMarker] ->
  exists segs tl, Forall seg_ok segs /\ tail_ok tl /\ data = jpeg_bytes segs tl /\
    out = jpeg_bytes (drop_exif segs) tl.
Proof.
  intros Hr Hd. destruct data as [|b0 [|b1 data]]; [done..|]. simpl in Hd. simplify_eq.
  rewrite strip_jpeg in Hr.
  apply strip_loop_sound in Hr as (segs & tl & ? & ? & Hd & ->).
  exists segs, tl. split_and!; [done..| |done]. simpl in Hd. by rewrite drop_0 in Hd; subst.
Qed.

Lemma drop_exif_ok segs : Forall seg_ok segs -> Forall seg_ok (drop_exif segs).
Proof. rewrite !Forall_forall. intros H s [_ ?]%list_elem_of_filter. auto. Qed.

Lemma drop_exif_idem segs : drop_exif (drop_exif segs) = drop_exif segs.
Proof.
  unfold drop_exif. induction segs as [|s segs IH]; [done|].
  rewrite filter_cons. case_decide; [|done]. by rewrite filter_cons_True, IH.
Qed.

Lemma drop_exif_length segs :
  (length (concat (seg_bytes <$> drop_exif segs)) <= length (concat (seg_bytes <$> segs)))%nat.
Proof.
  unfold drop_exif. induction segs as [|s segs IH]; [done|]. rewrite filter_cons.
  case_decide; rewrite !fmap_cons, !concat_cons, !length_app || rewrite fmap_cons, concat_cons, length_app; lia.
Qed.

Lemma drop_exif_same segs :
  concat (seg_bytes <$> drop_exif segs) = concat (seg_bytes <$> segs) ->
  Forall (fun s => is_exif s = false) segs.
Proof.
  induction segs as [|s segs IH]; [constructor|]. unfold drop_exif. rewrite filter_cons.
  fold (drop_exif segs). case_decide as He.
  - rewrite !fmap_cons, !concat_cons. intros Heq%app_inv_head. constructor; auto.
  - intros Heq. exfalso. pose proof (drop_exif_length segs) as Hl. rewrite Heq in Hl.
    rewrite fmap_cons, concat_cons, length_app, seg_length in Hl. destruct s; lia.
Qed.


(** However [data] is read as a header, no segment of it is an EXIF one. *)
Definition exif_free (data : list Z) : Prop :=
  forall segs tl, Forall seg_ok segs -> tail_ok tl -> data = jpeg_bytes segs tl ->
    Forall (fun s => is_exif s = false) segs.

Lemma strip_exif_free data out :
  stripJPEGExif data = Ok out -> take 2 data = [jpegMarkerByte; jpegSOIMarker] ->
  stripJPEGExif out = Ok out /\ exif_free out.
Proof.
  intros Hr Hd. destruct (stripJPEGExif_sound _ _ Hr Hd) as (segs & tl & Hs & Ht & -> & ->).
  assert (stripJPEGExif (jpeg_bytes (drop_exif segs) tl) = Ok (jpeg_bytes (drop_exif segs) tl)) as Hi
    by (rewrite stripJPEGExif_bytes, drop_exif_idem; [done|by apply drop_exif_ok|done]).
  split; [done|]. intros segs' tl' Hs' Ht' Heq. rewrite Heq, stripJPEGExif_bytes in Hi by done.
  injection Hi as Hi. apply app_inv_tail in Hi. by apply drop_exif_same.
Qed.

(** No EXIF survives [Scrub], whichever path it takes: however its output is
    read as a JPEG header, no segment is an EXIF one (given, for the re-encoding
    path, that the encoder writes none itself); on the byte-level path scrubbing
    again changes nothing; and a decompression bomb is rejected on its header
    alone, whatever decoding it would have done. *)
Theorem Scrub_no_exif {C : Type} (decodeConfig : list Z -> option (Z * Z))
    (decode : list Z -> option (Z * Z * (Z -> Z -> C)))
    (encode : Z -> Z -> gmap (Z * Z) C -> option (list Z)) (data : list Z) (o : Z) :
  (forall w h img out, encode w h img = Some out -> exif_free out) ->
  take 2 data = [jpegMarkerByte; jpegSOIMarker] ->
  (forall out, Scrub decodeConfig decode encode data o = Ok out -> exif_free out) /\
  (forall out, ~ 2 <= o <= 8 -> Scrub decodeConfig decode encode data o = Ok out ->
     Scrub decodeConfig decode encode out o = Ok out) /\
  (forall cw ch, 2 <= o <= 8 -> decodeConfig data = Some (cw, ch) -> maxDecodePixels < i64 (cw * ch) ->
     Scrub decodeConfig decode encode data o = Err TooManyPixels).
Proof.
  intros Henc Hd. unfold Scrub, reencodeUpright. split_and!.
  - intros out. destruct (_ && _).
    + repeat case_match; try done. intros [= <-]. eauto.
    + intros Hr. by destruct (strip_exif_free _ _ Hr Hd).
  - intros out Ho. replace ((1 <? o) && (o <=? 8)) with false by lia.
    intros Hr. by destruct (strip_exif_free _ _ Hr Hd).
  - intros cw ch Ho -> Hp. replace ((1 <? o) && (o <=? 8)) with true by lia.
    by rewrite (proj2 (Z.ltb_lt _ _)).
Qed.

(** C40. The segment walk always finishes: the fuel it is given (the input's
    length) never runs out, so every input is either scrubbed or rejected. *)
Theorem strip_total (data : list Z) : stripJPEGExif data <> Err OutOfFuel.
Proof.
  unfold stripJPEGExif. destruct data as [|b0 [|b1 data]]; [done..|].
  destruct (_ && _); [|done]. apply strip_loop_total. simpl. lia.
Qed.

(** Baking an orientation in is the documented rigid transform (flips and
    clockwise quarter turns): every pixel of the source appears at its
    transformed place, and the result has exactly the pixels of the (possibly
    transposed) destination rectangle, none missing and none outside it. *)
Theorem applyOrientation_correct {C : Type} (src : Z -> Z -> C) (w h o : Z) :
  2 <= o <= 8 ->
  let dst := applyOrientation src w h o in
  (forall p, in_rect w h p -> dst !! documented o w h p = Some (src p.1 p.2)) /\
  (forall q, is_Some (dst !! q) <-> in_rect (orientedBounds o w h).1 (orientedBounds o w h).2 q).
Proof.
  intros Ho. cbv zeta. rewrite applyOrientation_pixels. split.
  - intros p Hp. rewrite <- (oriented_documented w h o p Ho).
    rewrite (foldl_insert_lookup (fun p => oriented o w h p.1 p.2) (fun p => src p.1 p.2)); [done| |].
    + intros q q' _ _ Hq. by rewrite (oriented_inj w h o q q' Hq).
    + by apply elem_of_pixels.
  - intros q. rewrite (foldl_insert_dom (fun p => oriented o w h p.1 p.2)). rewrite lookup_empty. split.
    + intros [[? [=]]|([x y] & Hp%elem_of_pixels & <-)]. apply oriented_bounds; [lia|done].
    + intros (p & Hp & <-)%oriented_surj; [|lia]. right. exists p. by rewrite elem_of_pixels.
Qed.

(** ** Witnesses *)

(** SOI, an EXIF APP1 behind one fill byte, a COM segment, then the scan. *)
Definition demo_jpeg : list Z :=
  [0xFF; 0xD8; 0xFF; 0xFF; 0xE1; 0; 10; 0x45; 0x78; 0x69; 0x66; 0; 0; 7; 7;
   0xFF; 0xFE; 0; 3; 9; 0xFF; 0xDA; 0xFF; 0xE1; 1].
Definition demo_scrubbed : list Z := [0xFF; 0xD8; 0xFF; 0xFE; 0; 3; 9; 0xFF; 0xDA; 0xFF; 0xE1; 1].


Lemma Scrub_no_exif_witness :
  stripJPEGExif demo_jpeg = Ok demo_scrubbed /\ exif_free demo_scrubbed.
Proof.
  split; [reflexivity|].
  apply (Scrub_no_exif (C := Z) (fun _ => Some (1, 1)) (fun _ => None) (fun _ _ _ => None)
           demo_jpeg 1); [done|reflexivity..].
Defined.

Lemma applyOrientation_correct_witness :
  applyOrientation (fun x y => 10 * y + x) 3 2 6 !! (1, 0) = Some 0 /\
  is_Some (applyOrientation (fun x y => 10 * y + x) 3 2 6 !! (0, 2)).
Proof.
  destruct (applyOrientation_correct (fun x y => 10 * y + x) 3 2 6) as [H1 H2]; [lia|].
  split; [exact (H1 (0, 0) ltac:(unfold in_rect; simpl; lia))|].
  apply H2. unfold in_rect. simpl. lia.
Defined.
