(* ===== verification/MediaDomain.v ===== *)
(** The media domain (src/media/domain) and the storage-key formulas of its
    adapters (src/media/adapter/photo_validation.go, photo_store.go,
    photo_store_s3.go): content types, photo validation, storage backends, the
    photo-class registry, storage keys and the path-traversal guard. *)

From S2P Require Import Prelude GoStrings.
From S2P Require Export Uuids.
Local Open Scope Z_scope.

(** ** Content types and photos *)

Definition ContentTypeJPEG : string := "image/jpeg".
Definition ContentTypePNG : string := "image/png".
Definition ContentTypeWebP : string := "image/webp".

Definition acceptedContentType (t : string) : bool :=
  bool_decide (t ∈ [ContentTypeJPEG; ContentTypePNG; ContentTypeWebP]).

Definition is_lower_hex (c : Ascii.ascii) : bool :=
  let n := byte_val c in
  ((48 <=? n) && (n <=? 57)) || ((97 <=? n) && (n <=? 102)).

(** [^[0-9a-f]{64}$] *)
Definition ValidContentHash (hash : string) : bool :=
  (Z.of_nat (length (bytes_of hash)) =? 64) && forallb is_lower_hex (bytes_of hash).

Inductive StorageBackend := BackendLocal | BackendS3 | BackendOther (s : string).
#[export] Instance StorageBackend_eq_dec : EqDecision StorageBackend.
Proof. solve_decision. Defined.

Definition backend_string (b : StorageBackend) : string :=
  match b with BackendLocal => "local" | BackendS3 => "s3" | BackendOther s => s end.

(** [StorageBackend(s)]: the named constants, or any other string. *)
Definition as_backend (s : string) : StorageBackend :=
  if decide (s = "local"%string) then BackendLocal
  else if decide (s = "s3"%string) then BackendS3 else BackendOther s.

Definition backend_valid (b : StorageBackend) : bool :=
  match b with BackendLocal | BackendS3 => true | BackendOther _ => false end.

Definition ParseStorageBackend (s : string) : option StorageBackend :=
  let b := as_backend (ToLower (TrimSpace s)) in
  if backend_valid b then Some b else None.

Section photo.
Context `{UuidLib}.

Record Photo := mkPhoto {
  p_id : Uuid;
  p_household : Uuid;
  p_ref : string;
  p_hash : string;
  p_size : Z;
  p_type : string;
  p_taken : option Z;
  p_uploader : option Uuid;
  p_created : Z;
  p_backend : StorageBackend
}.

(** The four ways [Photo.Validate] wraps [ErrInvalidPhoto]. *)
Inductive invalid_photo := BlankRef | BadHash | BadSize | BadContentType.

Definition Validate (p : Photo) : option invalid_photo :=
  if decide (TrimSpace (p_ref p) = "") then Some BlankRef
  else if negb (ValidContentHash (p_hash p)) then Some BadHash
  else if p_size p <=? 0 then Some BadSize
  else if negb (acceptedContentType (p_type p)) then Some BadContentType
  else None.
End photo.

(** ** The photo-class registry *)

(** [PhotoClass{name}]; the zero value has the empty name. *)
Definition PhotoClass := string.

Definition is_lower (c : Ascii.ascii) : bool := (97 <=? byte_val c) && (byte_val c <=? 122).
Definition is_digit (c : Ascii.ascii) : bool := (48 <=? byte_val c) && (byte_val c <=? 57).
Definition is_ident (c : Ascii.ascii) : bool := is_lower c || is_digit c || (byte_val c =? 95).

(** [^[a-z][a-z0-9_]*$] *)
Definition classIdentifier (name : string) : bool :=
  match bytes_of name with
  | [] => false
  | c :: cs => is_lower c && forallb is_ident cs
  end.

Inductive class_panic := MalformedClass | DuplicateClass.

Definition RegisterPhotoClass (name : string) (registered : gset string)
    : result class_panic (PhotoClass * gset string) :=
  if negb (classIdentifier name) then Err MalformedClass
  else if decide (name ∈ registered) then Err DuplicateClass
  else Ok (name, {[name]} ∪ registered).

Definition class_valid (registered : gset string) (c : PhotoClass) : bool :=
  negb (bool_decide (c = "")) && bool_decide (c ∈ registered).

Definition class_string (c : PhotoClass) : string :=
  if decide (c = "") then "unspecified" else c.

(** ** Storage keys *)

(** The [acceptedTypes] map. *)
Definition ExtensionForContentType (t : string) : option string :=
  if decide (t = ContentTypeJPEG) then Some "jpg"%string
  else if decide (t = ContentTypePNG) then Some "png"%string
  else if decide (t = ContentTypeWebP) then Some "webp"%string
  else None.

Definition validExtension (ext : string) : bool :=
  bool_decide (ext ∈ ["jpg"; "png"; "webp"]%string).

Inductive key_error := UnregisteredClass | BadSum | BadExtension.

Definition classKeyPrefix (registered : gset string) (c : PhotoClass) : result key_error string :=
  if class_valid registered c then Ok (class_string c) else Err UnregisteredClass.

Section keys.
Context `{UuidLib}.
Local Open Scope nest_scope.

Definition buildStorageKey (registered : gset string) (household : Uuid) (class : PhotoClass)
    (sum ext : string) : result key_error string :=
  let! classPrefix := classKeyPrefix registered class in
  if negb (ValidContentHash sum) then Err BadSum
  else if negb (validExtension ext) then Err BadExtension
  else Ok (path_join ["households"; uuid_string household; classPrefix;
                      String.substring 0 2 sum; sum +:+ ("." +:+ ext)]%string).

(** For a storage migrator: the key [Put] would have used. *)
Definition BuildStorageKey (registered : gset string) (household : Uuid) (class : PhotoClass) (sum ext : string)
    : result key_error string := buildStorageKey registered household class sum ext.
End keys.

(** [strings.SplitN(key, "/", 4)] *)
Definition SplitN4 (key : string) : list bytes :=
  let ps := split_bytes slash (bytes_of key) in
  if (length ps <=? 4)%nat then ps
  else take 3 ps ++ [join_bytes slash (drop 3 ps)].

Definition keyBelongsToClass (key classPrefix : string) : bool :=
  match SplitN4 key with
  | p0 :: _ :: p2 :: _ =>
    bool_decide (p0 = bytes_of "households") && bool_decide (p2 = bytes_of classPrefix)
  | _ => false
  end.

(** [contentTypeForRef] of src/media/app/photo_service.go *)
Definition contentTypeForRef (ref : string) : string :=
  let e := ToLower (Ext ref) in
  if decide (e = ".jpg" \/ e = ".jpeg")%string then "image/jpeg"
  else if decide (e = ".png")%string then "image/png"
  else if decide (e = ".webp")%string then "image/webp"
  else "application/octet-stream".

(** ** The local store's path guard *)

(** [filepath.Abs] in a process whose working directory is [cwd]. *)
Definition Abs (cwd p : string) : bytes :=
  if is_rooted (bytes_of p) then clean_bytes (bytes_of p)
  else bytes_of (path_join [cwd; p]).

Definition has_prefix (b p : bytes) : bool := bool_decide (take (length p) b = p).

(** [None] is the rejection of a ref that escapes the store root. *)
Definition resolve (cwd root ref : string) : option string :=
  let full := path_join [root; ref] in
  let rootAbs := Abs cwd root in
  let fullAbs := Abs cwd full in
  if negb (bool_decide (fullAbs = rootAbs)) && negb (has_prefix fullAbs (rootAbs ++ [slash]))
  then None else Some full.

(** ** Facts *)

(** The registry after a sequence of registrations, the panicking ones caught. *)
Definition register_all (names : list string) : gset string :=
  foldl (fun reg n => match RegisterPhotoClass n reg with Ok (_, reg') => reg' | Err _ => reg end)
    ∅ names.

Lemma RegisterPhotoClass_ok name reg c reg' :
  RegisterPhotoClass name reg = Ok (c, reg') ->
  c = name /\ reg' = {[name]} ∪ reg /\ (name ∉ reg) /\ classIdentifier name = true.
Proof.
  unfold RegisterPhotoClass. destruct (classIdentifier name) eqn:Hc; [|done]. simpl.
  case_decide; intros; by simplify_eq.
Qed.

Lemma register_all_ident names c : c ∈ register_all names -> classIdentifier c = true.
Proof.
  unfold register_all.
  assert (forall reg, (forall d, d ∈ reg -> classIdentifier d = true) -> forall c,
    c ∈ foldl (fun reg n => match RegisterPhotoClass n reg with Ok (_, reg') => reg' | Err _ => reg end)
      reg names -> classIdentifier c = true) as Hg; [|apply Hg; set_solver].
  induction names as [|n names IH]; intros reg Hreg; [done|]. simpl. apply IH.
  destruct (RegisterPhotoClass n reg) as [[c' reg']|] eqn:Hr; [|done].
  apply RegisterPhotoClass_ok in Hr as (-> & -> & _ & Hn). set_solver.
Qed.

Lemma ident_chars c name : classIdentifier name = true -> c ∈ bytes_of name -> is_ident c = true.
Proof.
  unfold classIdentifier. destruct (bytes_of name) as [|d ds]; [done|].
  intros [Hd Hds]%andb_true_iff Hc. apply elem_of_cons in Hc as [->|Hc].
  - unfold is_ident. by rewrite Hd.
  - rewrite forallb_forall in Hds. apply Hds. by apply list_elem_of_In.
Qed.

Lemma ident_plain name : classIdentifier name = true -> plain_part (bytes_of name).
Proof.
  intros Hn. unfold plain_part. split_and!.
  - intros E. unfold classIdentifier in Hn. by rewrite E in Hn.
  - intros E. assert (is_ident dot = true) as Hd by (eapply ident_chars; [done|rewrite E; set_solver]). done.
  - intros E. assert (is_ident dot = true) as Hd by (eapply ident_chars; [done|rewrite E; set_solver]). done.
  - intros Hs. by eapply ident_chars in Hs.
Qed.

Lemma hash_chars hash c :
  ValidContentHash hash = true -> c ∈ bytes_of hash -> is_lower_hex c = true.
Proof.
  unfold ValidContentHash. intros [_ Hf]%andb_true_iff Hc. rewrite forallb_forall in Hf.
  apply Hf. by apply list_elem_of_In.
Qed.

Lemma hash_length hash : ValidContentHash hash = true -> length (bytes_of hash) = 64%nat.
Proof. unfold ValidContentHash. intros [Hl%Z.eqb_eq _]%andb_true_iff. lia. Qed.

Lemma bytes_of_substring n s : bytes_of (String.substring 0 n s) = take n (bytes_of s).
Proof.
  revert s. induction n as [|n IH]; intros [|c s]; try done. simpl. unfold bytes_of in *. simpl.
  by rewrite IH.
Qed.

Lemma hash_no c hash : ValidContentHash hash = true -> is_lower_hex c = false -> c ∉ bytes_of hash.
Proof. intros Hh Hc Hin. pose proof (hash_chars hash c Hh Hin). congruence. Qed.

Lemma validExtension_cases ext :
  validExtension ext = true -> ext = "jpg"%string \/ ext = "png"%string \/ ext = "webp"%string.
Proof. unfold validExtension. rewrite bool_decide_eq_true. set_solver. Qed.

Lemma ext_plain_chars ext : validExtension ext = true -> (dot ∉ bytes_of ext) /\ (slash ∉ bytes_of ext).
Proof.
  intros [-> | [-> | ->]]%validExtension_cases;
    by split; apply (bool_decide_eq_false_1 (_ ∈ _)); vm_compute.
Qed.

Section key_facts.
Context `{UuidLib}.

Lemma buildStorageKey_ok reg h c sum ext key :
  buildStorageKey reg h c sum ext = Ok key ->
  c <> "" /\ c ∈ reg /\ ValidContentHash sum = true /\ validExtension ext = true /\
  key = path_join ["households"; uuid_string h; c; String.substring 0 2 sum;
                   sum +:+ ("." +:+ ext)]%string.
Proof.
  unfold buildStorageKey, classKeyPrefix, class_valid, class_string.
  destruct (bool_decide_reflect (c = "")) as [|Hc]; [done|]. simpl.
  destruct (bool_decide_reflect (c ∈ reg)) as [Hr|]; [|done]. simpl. rewrite decide_False by done.
  destruct (ValidContentHash sum) eqn:Hs; [|done]. simpl.
  destruct (validExtension ext) eqn:He; [|done]. simpl. by intros [= <-].
Qed.

(** The five components of a storage key, none of which holds a slash. *)
Lemma buildStorageKey_parts names h c sum ext key :
  buildStorageKey (register_all names) h c sum ext = Ok key ->
  let ps := [bytes_of "households"; bytes_of (uuid_string h); bytes_of c;
             take 2 (bytes_of sum); bytes_of sum ++ dot :: bytes_of ext] in
  Forall plain_part ps /\ bytes_of key = join_bytes slash ps /\
  split_bytes slash (bytes_of key) = ps.
Proof.
  intros Hk. apply buildStorageKey_ok in Hk as (Hc & Hreg & Hs & He & ->).
  set (elems := ["households"; uuid_string h; c; String.substring 0 2 sum; sum +:+ ("." +:+ ext)]%string).
  assert (bytes_of <$> elems =
    [bytes_of "households"; bytes_of (uuid_string h); bytes_of c;
     take 2 (bytes_of sum); bytes_of sum ++ dot :: bytes_of ext]) as Hmap.
  { unfold elems. simpl. by rewrite bytes_of_substring, bytes_of_app. }
  pose proof (hash_length sum Hs) as Hlen. pose proof (hash_no dot sum Hs eq_refl) as Hdot.
  pose proof (hash_no slash sum Hs eq_refl) as Hslash.
  destruct (bytes_of sum) as [|x [|y sum']] eqn:Hsum; [done..|].
  pose proof (ext_plain_chars ext He) as [_ Hes].
  cbv zeta. rewrite <- Hmap. assert (Forall plain_part (bytes_of <$> elems)) as Hp.
  { rewrite Hmap. repeat apply Forall_cons_2; [..|apply Forall_nil_2].
    - unfold plain_part; split_and!; [done..|]. by apply (bool_decide_eq_false_1 (_ ∈ _)); vm_compute.
    - apply uuid_plain.
    - apply ident_plain. by eapply register_all_ident.
    - unfold plain_part; split_and!; [done|done|intros [= -> _]; set_solver|set_solver].
    - unfold plain_part; split_and!; [done|done|intros [= -> _]; set_solver|set_solver]. }
  split; [done|]. pose proof (path_join_plain elems ltac:(done) Hp) as Hj. split; [done|].
  rewrite Hj. destruct (bytes_of <$> elems) as [|p ps] eqn:E; [discriminate|].
  apply split_join. eapply Forall_impl; [exact Hp|]. by intros ? (? & ? & ? & ?).
Qed.
End key_facts.

(** ** Paths *)

Lemma split_bytes_app_sep c a b : split_bytes c (a ++ c :: b) = split_bytes c a ++ split_bytes c b.
Proof.
  induction a as [|x a IH]; simpl.
  - destruct (split_bytes_cons c b) as (q & qs & ->). by rewrite Ascii.eqb_refl.
  - rewrite IH. destruct (split_bytes_cons c a) as (p & ps & ->). simpl.
    by destruct (Ascii.eqb x c).
Qed.

Lemma split_bytes_no_sep c b : Forall (fun p => c ∉ p) (split_bytes c b).
Proof.
  induction b as [|x b IH]; simpl; [repeat constructor; set_solver|].
  destruct (split_bytes_cons c b) as (p & ps & Hs). rewrite Hs in *. apply Forall_cons in IH as [Hp Hps].
  destruct (Ascii.eqb_spec x c); repeat constructor; set_solver.
Qed.

(** Cleaning a rooted path leaves only plain components. *)
Lemma clean_parts_rooted ps out :
  Forall (fun p => slash ∉ p) ps -> Forall plain_part out -> Forall plain_part (clean_parts true ps out).
Proof.
  intros Hps. revert out. induction Hps as [|p ps Hp Hps IH]; intros out Ho; simpl.
  - by apply Forall_rev.
  - destruct (bool_decide_reflect (p = [])), (bool_decide_reflect (p = [dot])); simpl; auto.
    destruct (bool_decide_reflect (p = [dot; dot])).
    + destruct Ho as [|q out (? & ? & Hq & ?) Ho]; [by apply IH|]. by rewrite bool_decide_false; auto.
    + apply IH. by constructor.
Qed.

Lemma clean_parts_app rooted ps qs out :
  clean_parts rooted (ps ++ qs) out = clean_parts rooted qs (rev (clean_parts rooted ps out)).
Proof.
  revert out. induction ps as [|p ps IH]; intros out; simpl; [by rewrite rev_involutive|].
  repeat case_match; rewrite ?IH; try done.
Qed.

(** The components of a clean absolute path. *)
Definition abs_path (ps : list bytes) : bytes := slash :: join_bytes slash ps.

Lemma clean_rooted b : is_rooted b = true ->
  Forall plain_part (clean_parts true (split_bytes slash b) []) /\
  clean_bytes b = abs_path (clean_parts true (split_bytes slash b) []).
Proof.
  intros Hr. split; [|unfold clean_bytes, abs_path; by rewrite Hr].
  apply clean_parts_rooted; [apply split_bytes_no_sep|constructor].
Qed.

Lemma abs_path_prefix rs fs :
  Forall plain_part rs -> Forall plain_part fs ->
  has_prefix (abs_path fs) (abs_path rs ++ [slash]) = true -> exists rel, fs = rs ++ rel.
Proof.
  intros Hr Hf Hp. unfold has_prefix in Hp. apply bool_decide_eq_true in Hp.
  assert (abs_path fs = (abs_path rs ++ [slash]) ++ drop (length (abs_path rs ++ [slash])) (abs_path fs)) as E
    by (by rewrite <- Hp at 1; rewrite take_drop).
  set (tl := drop _ (abs_path fs)) in E. clearbody tl. rewrite <- app_assoc in E.
  unfold abs_path in E. simpl in E. injection E as E.
  apply (f_equal (split_bytes slash)) in E. rewrite split_bytes_app_sep in E.
  destruct fs as [|f fs]; [simpl in E; destruct (split_bytes_cons slash (join_bytes slash rs)) as (p & ps & Hs);
    destruct (split_bytes_cons slash tl) as (q & qs & Ht); rewrite Hs, Ht in E; by destruct ps|].
  rewrite split_join in E by (eapply Forall_impl; [exact Hf|]; by intros ? (? & ? & ? & ?)).
  destruct rs as [|r rs]; [by eexists|].
  rewrite split_join in E by (eapply Forall_impl; [exact Hr|]; by intros ? (? & ? & ? & ?)).
  by eexists.
Qed.

Lemma Abs_rooted cwd p : is_rooted (bytes_of cwd) = true ->
  exists ps, Forall plain_part ps /\ Abs cwd p = abs_path ps.
Proof.
  intros Hc. unfold Abs. destruct (is_rooted (bytes_of p)) eqn:Hp.
  - pose proof (clean_rooted _ Hp) as [? ->]. by eexists.
  - unfold path_join. simpl. destruct (bytes_of cwd) as [|x cwd'] eqn:E; [done|].
    rewrite filter_cons_True by done.
    set (bs := filter _ _). rewrite bytes_of_string_of.
    assert (is_rooted (join_bytes slash ((x :: cwd') :: bs)) = true) as Hj by (destruct bs; simpl; done).
    pose proof (clean_rooted _ Hj) as [? ->]. by eexists.
Qed.

Lemma has_prefix_app a b : has_prefix (a ++ b) a = true.
Proof. unfold has_prefix. rewrite take_app_length. by apply bool_decide_eq_true. Qed.

Lemma join_app_cons ps qs q :
  ps <> [] -> join_bytes slash (ps ++ q :: qs) = join_bytes slash ps ++ slash :: join_bytes slash (q :: qs).
Proof.
  intros Hne. induction ps as [|p ps IH]; [done|]. destruct ps as [|p' ps]; [done|].
  change (join_bytes slash ((p :: p' :: ps) ++ q :: qs))
    with (p ++ slash :: join_bytes slash ((p' :: ps) ++ q :: qs)).
  rewrite IH by done. simpl. by rewrite <- app_assoc.
Qed.

(** An absolute root and a ref of plain components: no cleaning is needed. *)
Lemma resolve_plain cwd root ref rs qs :
  Forall plain_part rs -> rs <> [] -> Forall plain_part qs -> qs <> [] ->
  bytes_of root = abs_path rs -> bytes_of ref = join_bytes slash qs ->
  exists full, resolve cwd root ref = Some full /\ bytes_of full = abs_path (rs ++ qs).
Proof.
  intros Hrs Hrne Hqs Hqne Hroot Href.
  assert (forall ps, Forall plain_part ps -> ps <> [] -> clean_bytes (abs_path ps) = abs_path ps) as Hcl.
  { intros ps Hps Hne. destruct (clean_rooted (abs_path ps) eq_refl) as [_ ->]. f_equal.
    destruct ps as [|p ps]; [done|].
    change (abs_path (p :: ps)) with ([] ++ slash :: join_bytes slash (p :: ps)).
    rewrite split_bytes_app_sep, split_join by (eapply Forall_impl; [exact Hps|]; by intros ? (? & ? & ? & ?)).
    change (split_bytes slash [] ++ p :: ps) with ([] :: p :: ps). 
    change (clean_parts true ([] :: p :: ps) []) with (clean_parts true (p :: ps) []).
    by rewrite clean_parts_plain. }
  assert (Forall plain_part (rs ++ qs)) as Hall by (by apply Forall_app).
  destruct qs as [|q qs]; [done|].
  assert (rs ++ q :: qs <> []) as Hane by (intros [? _]%app_nil; done).
  assert (bytes_of (path_join [root; ref]) = abs_path (rs ++ q :: qs)) as Hfull.
  { unfold path_join. simpl. rewrite Hroot, Href.
    assert (join_bytes slash (q :: qs) <> []) as Hn.
    { apply Forall_cons in Hqs as [(Hq & _) _]. by destruct qs, q. }
    rewrite filter_cons_True by done. rewrite filter_cons_True by done. simpl.
    rewrite bytes_of_string_of, <- (Hcl (rs ++ q :: qs)) by done. f_equal.
    unfold abs_path. by rewrite join_app_cons. }
  exists (path_join [root; ref]). split; [|done]. unfold resolve, Abs. rewrite Hfull, Hroot.
  change (is_rooted (abs_path rs)) with true. change (is_rooted (abs_path (rs ++ q :: qs))) with true.
  cbv iota. rewrite !Hcl by done.
  assert (has_prefix (abs_path (rs ++ q :: qs)) (abs_path rs ++ [slash]) = true) as ->.
  { unfold abs_path. rewrite join_app_cons by done.
    change (slash :: join_bytes slash rs ++ slash :: join_bytes slash (q :: qs))
      with ((slash :: join_bytes slash rs) ++ [slash] ++ join_bytes slash (q :: qs)).
    rewrite app_assoc. apply has_prefix_app. }
  by rewrite andb_false_r.
Qed.

(** ** The properties *)

Lemma SplitN4_parts key ps : split_bytes slash (bytes_of key) = ps -> length ps = 5%nat ->
  exists p0 p1 p2 rest, ps = p0 :: p1 :: p2 :: rest /\ SplitN4 key = [p0; p1; p2; join_bytes slash rest].
Proof.
  intros Hs Hl. unfold SplitN4. rewrite Hs, Hl. simpl.
  destruct ps as [|p0 [|p1 [|p2 rest]]]; [done..|]. eexists p0, p1, p2, rest. split; [done|]. done.
Qed.

Lemma app_dot_inj a b e f : dot ∉ a -> dot ∉ b -> a ++ dot :: e = b ++ dot :: f -> a = b /\ e = f.
Proof.
  revert b. induction a as [|x a IH]; intros [|y b] Ha Hb E; simpl in E; simplify_eq; [done|set_solver|set_solver|].
  destruct (IH b) as [-> ->]; [set_solver|set_solver|done|done].
Qed.

(** A key determines what it was built from. *)
Lemma buildStorageKey_inj `{UuidLib} names h c sum ext h' c' sum' ext' key :
  buildStorageKey (register_all names) h c sum ext = Ok key ->
  buildStorageKey (register_all names) h' c' sum' ext' = Ok key ->
  h' = h /\ c' = c /\ sum' = sum /\ ext' = ext.
Proof.
  intros Hk Hk'. pose proof (buildStorageKey_parts names h c sum ext key Hk) as (_ & _ & Hs).
  pose proof (buildStorageKey_parts names h' c' sum' ext' key Hk') as (_ & _ & Hs').
  pose proof (buildStorageKey_ok _ _ _ _ _ _ Hk) as (_ & _ & Hv & _).
  pose proof (buildStorageKey_ok _ _ _ _ _ _ Hk') as (_ & _ & Hv' & _).
  rewrite Hs in Hs'. injection Hs' as Hh Hc _ Hse.
  apply app_dot_inj in Hse as [Hsum Hext]; [|by apply hash_no..].
  split_and!; [by apply uuid_string_inj, bytes_of_inj|by apply bytes_of_inj..].
Qed.

(** C36. A storage key can be read back: it determines the household, class, hash
    and extension it was built from, so objects of different households,
    classes or contents never collide; and the lister's class filter accepts it
    for exactly the class it was built for. *)
Theorem storage_key_roundtrip `{UuidLib} (names : list string) (h : Uuid) (c : PhotoClass)
    (sum ext key : string) :
  buildStorageKey (register_all names) h c sum ext = Ok key ->
  (forall c', keyBelongsToClass key c' = bool_decide (c' = c)) /\
  (forall h' c' sum' ext', buildStorageKey (register_all names) h' c' sum' ext' = Ok key ->
     h' = h /\ c' = c /\ sum' = sum /\ ext' = ext).
Proof.
  intros Hk. pose proof (buildStorageKey_parts names h c sum ext key Hk) as (_ & _ & Hs). split.
  - intros c'. destruct (SplitN4_parts key _ Hs eq_refl) as (p0 & p1 & p2 & rest & E & Hn).
    injection E as <- <- <- _. unfold keyBelongsToClass. rewrite Hn, bool_decide_true by done. simpl.
    apply bool_decide_ext. split; [intros ?; by apply bytes_of_inj|by intros ->].
  - intros h' c' sum' ext'. by apply buildStorageKey_inj.
Qed.

(** Reading the type off a stored key inverts choosing the extension for it. *)
Lemma ref_content_type `{UuidLib} (names : list string) (h : Uuid) (c : PhotoClass)
    (t sum ext key : string) :
  ExtensionForContentType t = Some ext -> buildStorageKey (register_all names) h c sum ext = Ok key ->
  contentTypeForRef key = t.
Proof.
  intros Ht Hk. pose proof (buildStorageKey_parts names h c sum ext key Hk) as (_ & Hj & _).
  pose proof (buildStorageKey_ok _ _ _ _ _ _ Hk) as (_ & _ & _ & He & _).
  destruct (ext_plain_chars ext He) as [Hd Hsl].
  set (front := [bytes_of "households"; bytes_of (uuid_string h); bytes_of c; take 2 (bytes_of sum)]) in *.
  change [_; _; _; _; _] with (front ++ [bytes_of sum ++ dot :: bytes_of ext]) in Hj.
  rewrite join_app_cons in Hj by done. cbn [join_bytes] in Hj.
  rewrite app_comm_cons, app_assoc in Hj.
  unfold contentTypeForRef. rewrite (Ext_app _ key (bytes_of ext) Hd Hsl Hj).
  unfold ExtensionForContentType in Ht.
  repeat (case_decide; [simplify_eq; vm_compute; reflexivity|]). done.
Qed.

(** The path guard of the local store is sound and not over-strict: whatever
    the ref, an accepted path lies inside the store root, with only plain
    components (no [..]) below it; and every key [buildStorageKey] produces is
    accepted, at the root followed by the key's own components. *)
Theorem resolve_contained `{UuidLib} (cwd root ref : string) :
  is_rooted (bytes_of cwd) = true ->
  (forall full, resolve cwd root ref = Some full ->
     exists rs rel, Forall plain_part rel /\ Abs cwd root = abs_path rs /\
       Abs cwd full = abs_path (rs ++ rel)) /\
  (forall names h c sum ext rs, buildStorageKey (register_all names) h c sum ext = Ok ref ->
     Forall plain_part rs -> rs <> [] -> bytes_of root = abs_path rs ->
     exists full, resolve cwd root ref = Some full /\
       bytes_of full = abs_path (rs ++ split_bytes slash (bytes_of ref))).
Proof.
  intros Hc. split.
  - intros full Hr. unfold resolve in Hr.
    destruct (Abs_rooted cwd root Hc) as (rs & Hrs & HR). rewrite HR in Hr.
    destruct (Abs_rooted cwd (path_join [root; ref]) Hc) as (fs & Hfs & HF). rewrite HF in Hr.
    destruct (bool_decide_reflect (abs_path fs = abs_path rs)) as [E|E]; cbn [negb andb] in Hr.
    + injection Hr as <-. exists rs, []. rewrite app_nil_r, HF, E. split; [constructor|done].
    + destruct (has_prefix _ _) eqn:Hp in Hr; [|done].
      injection Hr as <-.
      destruct (abs_path_prefix rs fs Hrs Hfs Hp) as (rel & ->). exists rs, rel.
      by apply Forall_app in Hfs as [_ ?].
  - intros names h c sum ext rs Hk Hrs Hne Hroot.
    pose proof (buildStorageKey_parts names h c sum ext ref Hk) as (Hp & Hj & Hs). rewrite Hs.
    by apply resolve_plain.
Qed.

(** ** Witnesses *)

Module MediaWitness.
Import DemoUuid.

Definition demo_sum : string := "00112233445566778899aabbccddeeff00112233445566778899aabbccddeeff".
Definition demo_key : string :=
  "households/018f0000-0000-7000-8000-000000000001/album/00/00112233445566778899aabbccddeeff00112233445566778899aabbccddeeff.png".

Lemma demo_key_ok : buildStorageKey (H := demo_uuid) (register_all ["album"; "proof"]) true "album" demo_sum "png" = Ok demo_key.
Proof. vm_compute. reflexivity. Qed.

Lemma storage_key_roundtrip_witness :
  keyBelongsToClass demo_key "album" = true /\ keyBelongsToClass demo_key "proof" = false.
Proof.
  destruct (storage_key_roundtrip (H := demo_uuid) ["album"; "proof"] true "album" demo_sum "png" demo_key demo_key_ok)
    as [H _].
  split; [by rewrite (H "album"%string)|by rewrite (H "proof"%string)].
Defined.

Lemma resolve_contained_witness :
  resolve "/srv" "media" "../../etc/passwd" = None /\
  exists rs rel, Forall plain_part rel /\ Abs "/srv" "media" = abs_path rs /\
    Abs "/srv" "media/a" = abs_path (rs ++ rel).
Proof.
  split; [vm_compute; reflexivity|].
  apply (resolve_contained (H := demo_uuid) "/srv" "media" "a" eq_refl). vm_compute. reflexivity.
Defined.
End MediaWitness.
