(* ===== verification/MediaWorld.v ===== *)
(** The world the media services run in: the "photo" table behind
    [PhotoRepository] (src/media/adapter/photo_postgres.go, constraints.go, with
    the table shape of its doc.go), the objects behind the two photo stores, the
    staging files, and an environment that may act or fail at every I/O call.

    Operations are functions [World -> result error A * World]. Before each
    database, file-system or object-store call the environment takes its next
    move: do nothing, make the call fail (before or after its effect), or let
    other processes act first. A theorem that quantifies over the environment
    covers every interleaving of other processes with the calls. *)

From S2P Require Import Prelude GoStrings MediaDomain.
Local Open Scope Z_scope.

Inductive media_error :=
| ErrPhotoNotFound | ErrInvalidPhoto | ErrUnsupportedMediaType | ErrPhotoTooLarge
| ErrDuplicatePhoto | ErrHouseholdNotFound | ErrMemberNotFound | ErrStoreNotConfigured
| ErrKey (e : key_error) | ErrArgument | ErrScan | ErrInfra.
#[export] Instance media_error_eq_dec : EqDecision media_error.
Proof. unfold EqDecision, Decision. decide equality. decide equality. Defined.

(** ** Postgres errors *)

Record PgError := mkPgError { pg_code : string; pg_constraint : string }.

Definition foreignKeyViolation : string := "23503".
Definition uniqueViolation : string := "23505".
Definition checkViolation : string := "23514".
Definition photoHouseholdFK : string := "photo_household_id_fkey".
Definition photoUploaderFK : string := "photo_uploaded_by_fkey".
Definition photoHouseholdContentHashUniq : string := "photo_household_content_hash_uniq".

Definition isUniqueViolation (e : PgError) (constraint : string) : bool :=
  bool_decide (pg_code e = uniqueViolation) && bool_decide (pg_constraint e = constraint).

Definition mapFKViolation (e : PgError) : option media_error :=
  if negb (bool_decide (pg_code e = foreignKeyViolation)) then None
  else if decide (pg_constraint e = photoHouseholdFK) then Some ErrHouseholdNotFound
  else if decide (pg_constraint e = photoUploaderFK) then Some ErrMemberNotFound
  else None.

Definition nullableText (s : string) : option string :=
  let trimmed := TrimSpace s in if decide (trimmed = "") then None else Some trimmed.

Section world.
Context `{UuidLib}.

(** One row of the canonical table; the columns are as the DDL types them. *)
Record photo_row := mkRow {
  pr_household : Uuid;
  pr_ref : string;
  pr_backend : string;
  pr_hash : option string;
  pr_size : Z;
  pr_type : string;
  pr_taken : option Z;
  pr_uploader : option Uuid;
  pr_created : Z
}.

Record DB := mkDB {
  photos : gmap Uuid photo_row;
  households : gset Uuid;
  members : gmap Uuid Uuid       (* member -> household *)
}.

Record blob := mkBlob { b_bytes : list Z; b_modified : Z }.

(** What other processes may do between two of our calls. *)
Inductive ext_op :=
| XInsert (id : Uuid) (r : photo_row)
| XDelete (id : Uuid)
| XPut (b : StorageBackend) (key : string) (data : list Z)
| XRemove (b : StorageBackend) (key : string)
| XWait (d : Z).

Inductive act := Quiet | Fail | Lost | Others (ops : list ext_op).

(** The staging files, and what becomes of the coming removals of one: [os.Remove]
    may fail and leave the file ([false]); past the end of the list they succeed. *)
Record Staging := mkStaging { sg_files : gmap Z (list Z); sg_unlink : list bool }.

#[global] Instance staging_empty : Empty Staging := mkStaging ∅ [].

Definition set_files (files : gmap Z (list Z)) (s : Staging) : Staging := mkStaging files (sg_unlink s).

Definition unlinked (path : Z) (s : Staging) : Staging :=
  match sg_unlink s with
  | false :: l => mkStaging (sg_files s) l
  | l => mkStaging (delete path (sg_files s)) (tail l)
  end.

Record World := mkWorld {
  w_db : DB;
  w_local : gmap string blob;
  w_s3 : gmap string blob;
  w_staged : Staging;
  w_now : Z;
  w_env : list act
}.

Definition set_db (d : DB) (w : World) : World :=
  mkWorld d (w_local w) (w_s3 w) (w_staged w) (w_now w) (w_env w).
Definition set_staged (s : Staging) (w : World) : World :=
  mkWorld (w_db w) (w_local w) (w_s3 w) s (w_now w) (w_env w).
Definition set_env (e : list act) (w : World) : World :=
  mkWorld (w_db w) (w_local w) (w_s3 w) (w_staged w) (w_now w) e.
Definition blobs (b : StorageBackend) (w : World) : gmap string blob :=
  match b with BackendLocal => w_local w | BackendS3 => w_s3 w | BackendOther _ => ∅ end.
Definition set_blobs (b : StorageBackend) (m : gmap string blob) (w : World) : World :=
  match b with
  | BackendLocal => mkWorld (w_db w) m (w_s3 w) (w_staged w) (w_now w) (w_env w)
  | BackendS3 => mkWorld (w_db w) (w_local w) m (w_staged w) (w_now w) (w_env w)
  | BackendOther _ => w
  end.

(** ** The table's constraints *)

Definition row_checks (r : photo_row) : bool :=
  bool_decide (pr_backend r = "local" \/ pr_backend r = "s3")%string
  && match pr_hash r with None => true | Some h => ValidContentHash h end.

(** Some row of [household] carries [hash]. *)
Definition hash_taken (d : DB) (household : Uuid) (hash : string) : Prop :=
  exists id r, photos d !! id = Some r /\ pr_household r = household /\ pr_hash r = Some hash.

Definition hash_match (household : Uuid) (hash : string) (kv : Uuid * photo_row) : Prop :=
  pr_household kv.2 = household /\ pr_hash kv.2 = Some hash.
#[global] Instance hash_match_dec household hash kv : Decision (hash_match household hash kv).
Proof. unfold hash_match. apply _. Defined.

(** [SELECT ... WHERE household_id = $1 AND content_sha256 = $2], first row. *)
Definition select_hash (d : DB) (household : Uuid) (hash : string) : option (Uuid * photo_row) :=
  head (filter (hash_match household hash) (map_to_list (photos d))).

Definition uploader_ok (d : DB) (r : photo_row) : bool :=
  match pr_uploader r with
  | None => true
  | Some m => bool_decide (members d !! m = Some (pr_household r))
  end.

(** [INSERT INTO photo]: CHECKs first, then the unique indexes, then the
    foreign keys in declaration order. *)
Definition insert_photo (id : Uuid) (r : photo_row) (d : DB) : result PgError DB :=
  if negb (row_checks r) then Err (mkPgError checkViolation "photo_check")
  else if decide (is_Some (photos d !! id)) then Err (mkPgError uniqueViolation "photo_pkey")
  else if match pr_hash r with
          | None => false
          | Some hash => match select_hash d (pr_household r) hash with Some _ => true | None => false end
          end
  then Err (mkPgError uniqueViolation photoHouseholdContentHashUniq)
  else if negb (bool_decide (pr_household r ∈ households d))
  then Err (mkPgError foreignKeyViolation photoHouseholdFK)
  else if negb (uploader_ok d r) then Err (mkPgError foreignKeyViolation photoUploaderFK)
  else Ok (mkDB (<[id := r]> (photos d)) (households d) (members d)).

Definition with_photos (m : gmap Uuid photo_row) (d : DB) : DB :=
  mkDB m (households d) (members d).

(** ** The environment's moves *)

Definition ext (o : ext_op) (w : World) : World :=
  match o with
  | XInsert id r => match insert_photo id r (w_db w) with Ok d => set_db d w | Err _ => w end
  | XDelete id => set_db (with_photos (delete id (photos (w_db w))) (w_db w)) w
  | XPut b key data => set_blobs b (<[key := mkBlob data (w_now w)]> (blobs b w)) w
  | XRemove b key => set_blobs b (delete key (blobs b w)) w
  | XWait d => mkWorld (w_db w) (w_local w) (w_s3 w) (w_staged w) (w_now w + Z.max 0 d) (w_env w)
  end.

Definition exts (ops : list ext_op) (w : World) : World := foldl (fun w o => ext o w) w ops.

(** ** The effect *)

Definition M (A : Type) := World -> result media_error A * World.

Definition ret {A} (a : A) : M A := fun w => (Ok a, w).
Definition fail {A} (e : media_error) : M A := fun w => (Err e, w).
Definition bind {A B} (m : M A) (f : A -> M B) : M B := fun w =>
  match m w with
  | (Ok a, w) => f a w
  | (Err e, w) => (Err e, w)
  end.
(** Run [m] and hand its outcome, error included, to [f]. *)
Definition outcome {A B} (m : M A) (f : result media_error A -> M B) : M B := fun w =>
  let '(r, w) := m w in f r w.
Definition lift {A} (r : result media_error A) : M A := fun w => (r, w).
Definition get : M World := fun w => (Ok w, w).
Definition modify (f : World -> World) : M unit := fun w => (Ok tt, f w).

(** One I/O call: the environment moves first. *)
Definition io {A} (m : M A) : M A := fun w =>
  match w_env w with
  | [] => m w
  | a :: env =>
    let w := set_env env w in
    match a with
    | Quiet => m w
    | Fail => (Err ErrInfra, w)
    | Lost => (Err ErrInfra, (m w).2)
    | Others ops => m (exts ops w)
    end
  end.

(** A file-system call that either happens or, failing, has no effect. *)
Definition io_file {A} (m : M A) : M A := fun w =>
  match w_env w with
  | Lost :: env => (Err ErrInfra, set_env env w)
  | _ => io m w
  end.
End world.

Notation "'do!' x ':=' m 'in' k" := (bind m (fun x => k))
  (at level 10, x pattern, m at level 100, k at level 200) : nest_scope.
Notation "'try!' x ':=' m 'in' k" := (outcome m (fun x => k))
  (at level 10, x pattern, m at level 100, k at level 200) : nest_scope.

(** ** PhotoRepository *)

Section repository.
Context `{UuidLib}.
Local Open Scope nest_scope.

(** [scanPhoto]: the ids go through their text form, the backend through
    [ParseStorageBackend]. *)
Definition scanPhoto (kv : Uuid * photo_row) : option Photo :=
  let '(id, r) := kv in
  id' ← uuid_parse (uuid_string id);
  hh ← uuid_parse (uuid_string (pr_household r));
  backend ← ParseStorageBackend (pr_backend r);
  uploader ← match pr_uploader r with
             | None => Some None
             | Some m => m' ← uuid_parse (uuid_string m); Some (Some m')
             end;
  Some (mkPhoto id' hh (pr_ref r) (default "" (pr_hash r)) (pr_size r) (pr_type r)
          (pr_taken r) uploader (pr_created r) backend).

Fixpoint scanPhotos (rows : list (Uuid * photo_row)) : option (list Photo) :=
  match rows with
  | [] => Some []
  | kv :: rows => p ← scanPhoto kv; ps ← scanPhotos rows; Some (p :: ps)
  end.

Definition row_of (backend : StorageBackend) (now : Z) (p : Photo) : photo_row :=
  mkRow (p_household p) (p_ref p) (backend_string backend) (nullableText (p_hash p))
    (p_size p) (p_type p) (p_taken p) (p_uploader p) now.

Definition pg {A} (m : World -> result PgError A * World) (map_err : PgError -> media_error) : M A :=
  io (fun w => let '(r, w) := m w in (res_map_err map_err r, w)).

Definition create_error (e : PgError) : media_error :=
  if isUniqueViolation e photoHouseholdContentHashUniq then ErrDuplicatePhoto
  else default ErrInfra (mapFKViolation e).

(** [Create]: returns the photo with its created_at and backend stamped. *)
Definition Create (backend : StorageBackend) (p : Photo) : M Photo :=
  pg (fun w =>
        match insert_photo (p_id p) (row_of backend (w_now w) p) (w_db w) with
        | Ok d => (Ok (mkPhoto (p_id p) (p_household p) (p_ref p) (p_hash p) (p_size p) (p_type p)
                         (p_taken p) (p_uploader p) (w_now w) backend), set_db d w)
        | Err e => (Err e, w)
        end) create_error.

Definition scan_one (kv : option (Uuid * photo_row)) : result media_error Photo :=
  match kv with
  | None => Err ErrPhotoNotFound
  | Some kv => match scanPhoto kv with Some p => Ok p | None => Err ErrScan end
  end.

Definition Get (id : Uuid) : M Photo :=
  io (fun w => (scan_one (r ← photos (w_db w) !! id; Some (id, r)), w)).

Definition FindByContentHash (household : Uuid) (hash : string) : M Photo :=
  if decide (TrimSpace hash = "") then fail ErrPhotoNotFound
  else io (fun w => (scan_one (select_hash (w_db w) household hash), w)).

(** ORDER BY created_at, id: uuids order as their canonical text. *)
Definition created_order (x y : Uuid * photo_row) : Prop :=
  pr_created x.2 < pr_created y.2 \/
  (pr_created x.2 = pr_created y.2 /\ String.leb (uuid_string x.1) (uuid_string y.1) = true).
#[global] Instance created_order_dec x y : Decision (created_order x y).
Proof. unfold created_order. apply _. Defined.
Definition id_order (x y : Uuid * photo_row) : Prop :=
  String.leb (uuid_string x.1) (uuid_string y.1) = true.
#[global] Instance id_order_dec x y : Decision (id_order x y).
Proof. unfold id_order. apply _. Defined.

Definition rows_scanned (rows : list (Uuid * photo_row)) : result media_error (list Photo) :=
  match scanPhotos rows with Some ps => Ok ps | None => Err ErrScan end.

Definition ListByHousehold (household : Uuid) : M (list Photo) :=
  io (fun w => (rows_scanned (merge_sort created_order
    (filter (fun kv => pr_household kv.2 = household) (map_to_list (photos (w_db w))))), w)).

Definition DeletePhoto (id : Uuid) : M unit :=
  io (fun w =>
    if decide (is_Some (photos (w_db w) !! id))
    then (Ok tt, set_db (with_photos (delete id (photos (w_db w))) (w_db w)) w)
    else (Err ErrPhotoNotFound, w)).

Definition ListAllStorageRefs (backend : StorageBackend) : M (list string) :=
  io (fun w => (Ok ((fun kv => pr_ref kv.2) <$>
    filter (fun kv => pr_backend kv.2 = backend_string backend) (map_to_list (photos (w_db w)))), w)).

Definition ref_exists (d : DB) (ref : string) (backend : StorageBackend) : bool :=
  bool_decide (filter (fun kv => pr_ref kv.2 = ref /\ pr_backend kv.2 = backend_string backend)
                 (map_to_list (photos d)) <> []).

Definition ExistsByStorageRef (ref : string) (backend : StorageBackend) : M bool :=
  io (fun w => (Ok (ref_exists (w_db w) ref backend), w)).

Definition ListByBackend (backend : StorageBackend) (afterID : Uuid) (limit : Z) : M (list Photo) :=
  if limit <=? 0 then fail ErrArgument
  else io (fun w => (rows_scanned (take (Z.to_nat limit) (merge_sort id_order
    (filter (fun kv => pr_backend kv.2 = backend_string backend /\
                       String.ltb (uuid_string afterID) (uuid_string kv.1) = true)
       (map_to_list (photos (w_db w)))))), w)).

(** COALESCE keeps a hash the row already has; the unique index and the CHECKs
    still apply to the updated row. *)
Definition MigrateStorageBackend (id : Uuid) (newRef : string) (newBackend : StorageBackend)
    (contentHash : string) : M bool :=
  if negb (backend_valid newBackend) then fail ErrArgument
  else if negb (bool_decide (contentHash = "")) && negb (ValidContentHash contentHash)
  then fail ErrArgument
  else io (fun w =>
    match photos (w_db w) !! id with
    | None => (Ok false, w)
    | Some r =>
      if negb (bool_decide (pr_backend r = backend_string BackendLocal)) then (Ok false, w)
      else
        let hash := match pr_hash r with Some h => Some h | None => nullableText contentHash end in
        let r' := mkRow (pr_household r) newRef (backend_string newBackend) hash (pr_size r)
                    (pr_type r) (pr_taken r) (pr_uploader r) (pr_created r) in
        let others := with_photos (delete id (photos (w_db w))) (w_db w) in
        if match hash with
           | Some h => match select_hash others (pr_household r) h with Some _ => true | None => false end
           | None => false
           end
        then (Err ErrInfra, w)
        else (Ok true, set_db (with_photos (<[id := r']> (photos (w_db w))) (w_db w)) w)
    end).
End repository.
