(* ===== verification/Photos.v ===== *)
(** Uploading, serving and deleting photos: the staged-upload pipeline
    (src/media/adapter/photo_validation.go), the two photo stores
    (photo_store.go, photo_store_s3.go), the store resolver
    (store_resolver.go, src/media/bootstrap/store_resolver.go) and
    [PhotoService] (src/media/app/photo_service.go), over [MediaWorld]. *)

From S2P Require Import Prelude GoStrings MediaDomain MediaWorld.
Local Open Scope Z_scope.
Local Open Scope nest_scope.

(** The codecs the pipeline calls: the image decoders (header, then pixels; the
    format name comes with the header), the EXIF reader and sha256 in hex. The
    law is the shape of a hex sha256. *)
Class Codecs := {
  decodeConfig : list Z -> option (Z * Z * string);
  decodes : list Z -> bool;
  exif_taken : list Z -> option Z;
  sha256_hex : list Z -> string;
  sha256_hex_valid : forall b, ValidContentHash (sha256_hex b) = true
}.

(** ** Validation *)

Definition sniffLen : nat := 512.
Definition maxDecodePixels : Z := 50000000.

Definition starts_with (p b : list Z) : bool := bool_decide (take (length p) b = p).

(** [http.DetectContentType], as far as the accept-list can tell: its signatures
    for the three accepted types (none of the others shares their first bytes),
    and [None] for every other answer. *)
Definition detectContentType (b : list Z) : option string :=
  if starts_with [0xFF; 0xD8; 0xFF] b then Some ContentTypeJPEG
  else if starts_with [0x89; 0x50; 0x4E; 0x47; 0x0D; 0x0A; 0x1A; 0x0A] b then Some ContentTypePNG
  else if starts_with [0x52; 0x49; 0x46; 0x46] b
          && starts_with [0x57; 0x45; 0x42; 0x50; 0x56; 0x50] (drop 8 b)
  then Some ContentTypeWebP
  else None.

Definition formatToType (format : string) : string :=
  if decide (format = "jpeg"%string) then ContentTypeJPEG
  else if decide (format = "png"%string) then ContentTypePNG
  else if decide (format = "webp"%string) then ContentTypeWebP
  else "".

Record stagedUpload := mkStaged {
  s_path : Z;
  s_type : string;
  s_hash : string;
  s_size : Z
}.

Record PutResult := mkPut {
  put_ref : string;
  put_hash : string;
  put_size : Z;
  put_type : string
}.

Section photos.
Context `{UuidLib, Codecs}.

Definition write_staged (path : Z) (data : list Z) (w : World) : World :=
  set_staged (set_files (<[path := data]> (sg_files (w_staged w))) (w_staged w)) w.

(** [os.Remove] of a staging file: it may fail, and then the file stays. *)
Definition os_Remove (path : Z) : M unit := fun w =>
  let s := w_staged w in
  (if bool_decide (head (sg_unlink s) = Some false \/ sg_files s !! path = None)
   then Err ErrInfra else Ok tt, set_staged (unlinked path s) w).

(** Its error is dropped. *)
Definition removeStaged (path : Z) : M unit := try! _ := os_Remove path in ret tt.

(** [defer]: run [cleanup] whatever [m] returns. *)
Definition deferred {A} (cleanup : result media_error A -> M unit) (m : M A) : M A :=
  fun w => let '(r, w) := m w in (r, (cleanup r w).2).

(** A read whose failure is reported as [e]. *)
Definition io_as {A} (e : media_error) (m : M A) : M A :=
  try! r := io m in match r with Ok a => ret a | Err _ => fail e end.

(** The limit of [io.LimitReader(r, maxUploadBytes+1)]: an int64 sum, which wraps at
    the largest one; a negative limit reads nothing. *)
Definition read_limit (maxUploadBytes : Z) : Z :=
  if maxUploadBytes =? 2 ^ 63 - 1 then - 2 ^ 63 else maxUploadBytes + 1.

(** The upload is the reader's whole content; reading it may fail as any I/O. A
    failure to read the staged file back inside a decoder is a decoding failure. *)
Definition validateAndStage (maxUploadBytes : Z) (upload : list Z) : M stagedUpload :=
  let limited := take (Z.to_nat (read_limit maxUploadBytes)) upload in
  do! sniff := io (ret (take sniffLen limited)) in
  match detectContentType sniff with
  | None => fail ErrUnsupportedMediaType
  | Some sniffedType =>
    do! path := io_file (fun w => let files := sg_files (w_staged w) in
                             let p := fresh (dom files) in
                             (Ok p, set_staged (set_files (<[p := []]> files) (w_staged w)) w)) in
    deferred (fun r => if is_ok r then ret tt else removeStaged path)
      (do! _ := io (modify (write_staged path limited)) in
       let written := Z.of_nat (length limited) in
       if maxUploadBytes <? written then fail ErrPhotoTooLarge
       else
         do! _ := io (ret tt) in                          (* Seek *)
         do! cfg := io_as ErrInvalidPhoto (ret (decodeConfig limited)) in
         match cfg with
         | None => fail ErrInvalidPhoto
         | Some (cw, ch, format) =>
           if negb (bool_decide (formatToType format = sniffedType)) then fail ErrInvalidPhoto
           else if maxDecodePixels <? i64 (cw * ch) then fail ErrInvalidPhoto
           else
             do! _ := io (ret tt) in                      (* Seek *)
             do! ok := io_as ErrInvalidPhoto (ret (decodes limited)) in
             if negb ok then fail ErrInvalidPhoto
             else ret (mkStaged path sniffedType (sha256_hex limited) written)
         end)
  end.

(** ** The stores *)

Record Store := mkStore {
  st_backend : StorageBackend;
  st_max : Z;
  st_cwd : string;              (* of the process, for a relative local root *)
  st_root : string              (* local store only *)
}.

#[export] Instance Store_eq_dec : EqDecision Store.
Proof. solve_decision. Defined.

(** [NewLocalPhotoStore]: the root is created, an I/O call, after the checks. *)
Definition NewLocalPhotoStore (cwd root : string) (maxUploadBytes : Z) : M Store :=
  if bool_decide (TrimSpace root = "") then fail ErrArgument
  else if maxUploadBytes <=? 0 then fail ErrArgument
  else
    do! _ := io (ret tt) in
    ret (mkStore BackendLocal maxUploadBytes cwd root).

(** The paths of the local store, through its guard. *)
Definition local_key (s : Store) (ref : string) : M unit :=
  match resolve (st_cwd s) (st_root s) ref with
  | None => fail ErrInvalidPhoto
  | Some _ => ret tt
  end.

Definition put_key (registered : gset string) (h : Uuid) (class : PhotoClass) (st : stagedUpload)
    : M string :=
  lift (res_map_err ErrKey (buildStorageKey registered h class (s_hash st)
          (default "" (ExtensionForContentType (s_type st))))).

Definition store_blob (b : StorageBackend) (key : string) (data : list Z) (w : World) : World :=
  set_blobs b (<[key := mkBlob data (w_now w)]> (blobs b w)) w.

(** [os.Rename] of a staged file to its key: atomic, and the staged file is gone. *)
Definition rename_staged (path : Z) (ref : string) : M unit := fun w =>
  match sg_files (w_staged w) !! path with
  | None => (Err ErrInfra, w)
  | Some data =>
    let w := store_blob BackendLocal ref data w in
    (Ok tt, set_staged (set_files (delete path (sg_files (w_staged w))) (w_staged w)) w)
  end.

(** [LocalPhotoStore.Put]: the staged file is renamed, or else removed. *)
Definition LocalPut (s : Store) (registered : gset string) (h : Uuid) (class : PhotoClass)
    (upload : list Z) : M PutResult :=
  do! st := validateAndStage (st_max s) upload in
  deferred (fun r => if is_ok r then ret tt else removeStaged (s_path st))
    (do! ref := put_key registered h class st in
     do! _ := local_key s ref in
     do! _ := io (ret tt) in                      (* MkdirAll *)
     do! _ := io (rename_staged (s_path st) ref) in
     ret (mkPut ref (s_hash st) (s_size st) (s_type st))).

(** [S3PhotoStore.Put]: the staged file is uploaded, then always removed. *)
Definition S3Put (s : Store) (registered : gset string) (h : Uuid) (class : PhotoClass)
    (upload : list Z) : M PutResult :=
  do! st := validateAndStage (st_max s) upload in
  deferred (fun _ => removeStaged (s_path st))
    (do! key := put_key registered h class st in
     do! data := io (fun w => match sg_files (w_staged w) !! s_path st with
                              | None => (Err ErrInfra, w)
                              | Some data => (Ok data, w)
                              end) in
     do! _ := io (modify (store_blob BackendS3 key data)) in
     ret (mkPut key (s_hash st) (s_size st) (s_type st))).

Definition Put (s : Store) (registered : gset string) (h : Uuid) (class : PhotoClass)
    (upload : list Z) : M PutResult :=
  match st_backend s with
  | BackendLocal => LocalPut s registered h class upload
  | _ => S3Put s registered h class upload
  end.

Definition LocalOpen (s : Store) (ref : string) : M (list Z) :=
  do! _ := local_key s ref in
  io (fun w => match w_local w !! ref with
               | None => (Err ErrPhotoNotFound, w)
               | Some b => (Ok (b_bytes b), w)
               end).

Definition S3Open (s : Store) (ref : string) : M (list Z) :=
  io (fun w => match w_s3 w !! ref with
               | None => (Err ErrPhotoNotFound, w)
               | Some b =>
                 let data := take (Z.to_nat (read_limit (st_max s))) (b_bytes b) in
                 if st_max s <? Z.of_nat (length data) then (Err ErrInfra, w) else (Ok data, w)
               end).

Definition Open (s : Store) (ref : string) : M (list Z) :=
  match st_backend s with BackendLocal => LocalOpen s ref | _ => S3Open s ref end.

(** Removing an object that is not there is not an error. *)
Definition LocalDelete (s : Store) (ref : string) : M unit :=
  do! _ := local_key s ref in
  io (modify (fun w => set_blobs BackendLocal (delete ref (w_local w)) w)).

Definition S3Delete (s : Store) (ref : string) : M unit :=
  io (modify (fun w => set_blobs BackendS3 (delete ref (w_s3 w)) w)).

Definition DeleteObject (s : Store) (ref : string) : M unit :=
  match st_backend s with BackendLocal => LocalDelete s ref | _ => S3Delete s ref end.

(** A locator: the ref itself (local), or a presigned URL, which names the ref
    and its lifetime (S3; the signing itself is the SDK's). *)
Inductive locator := LocalRef (ref : string) | Presigned (ref : string) (ttl : Z).

Definition LocalURL (presignTTL : Z) (s : Store) (ref : string) (ttl : Z) : M locator :=
  do! _ := local_key s ref in
  io (fun w => match w_local w !! ref with
               | None => (Err ErrPhotoNotFound, w)
               | Some _ => (Ok (LocalRef ref), w)
               end).

Definition S3URL (presignTTL : Z) (s : Store) (ref : string) (ttl : Z) : M locator :=
  do! _ := io (fun w => match w_s3 w !! ref with
                        | None => (Err ErrPhotoNotFound, w)
                        | Some _ => (Ok tt, w)
                        end) in
  ret (Presigned ref (if ttl <=? 0 then presignTTL else ttl)).

Definition URL (presignTTL : Z) (s : Store) (ref : string) (ttl : Z) : M locator :=
  match st_backend s with BackendLocal => LocalURL presignTTL s ref ttl | _ => S3URL presignTTL s ref ttl end.

Definition LocalSupportsDirectURL : bool := false.
Definition S3SupportsDirectURL : bool := true.

Definition SupportsDirectURL (s : Store) : bool :=
  match st_backend s with BackendLocal => LocalSupportsDirectURL | _ => S3SupportsDirectURL end.

(** [S3PhotoStore.ObjectExists] and [PutAt], for a storage migrator: a HEAD, and an
    upload of bytes that were validated before, to the key as given. *)
Definition ObjectExists (ref : string) : M bool :=
  io (fun w => (Ok (bool_decide (is_Some (w_s3 w !! ref))), w)).

Definition PutAt (ref : string) (data : list Z) : M unit := io (modify (store_blob BackendS3 ref data)).

(** The parameters of [NewS3PhotoStore], and its checks in order; [true] is accepted. *)
Record S3Params := mkS3Params {
  Bucket : string; Region : string; Endpoint : string; AccessKeyID : string; SecretAccessKey : string;
  MaxUploadBytes : Z; PresignTTL : Z
}.

Definition s3_params_ok (p : S3Params) : bool :=
  negb (bool_decide (TrimSpace (Bucket p) = ""%string))
  && negb (bool_decide (TrimSpace (Region p) = ""%string))
  && (0 <? MaxUploadBytes p) && (0 <? PresignTTL p)
  && Bool.eqb (bool_decide (AccessKeyID p = ""%string)) (bool_decide (SecretAccessKey p = ""%string)).

(** The store, after the checks and a HEAD of the bucket; only AWS itself (no custom
    endpoint) is asked for server-side encryption. *)
Definition NewS3PhotoStore (cwd : string) (p : S3Params) : M (Store * Z * bool) :=
  if negb (s3_params_ok p) then fail ErrArgument
  else
    do! _ := io (ret tt) in                       (* LoadDefaultConfig *)
    do! _ := io (ret tt) in                       (* HeadBucket *)
    ret (mkStore BackendS3 (MaxUploadBytes p) cwd "", PresignTTL p, bool_decide (Endpoint p = ""%string)).

(** ** The resolver *)

Definition Resolver := StorageBackend -> option Store.

Definition Resolve (r : Resolver) (b : StorageBackend) : result media_error Store :=
  match r b with Some s => Ok s | None => Err ErrStoreNotConfigured end.

(** [NewStoreResolver]: [None] for its panics, on an empty map, an invalid key or a nil
    store; the map is copied. *)
Definition NewStoreResolver (stores : list (StorageBackend * option Store)) : option Resolver :=
  if bool_decide (stores = []) then None
  else if existsb (fun e => negb (backend_valid e.1) || bool_decide (e.2 = None)) stores then None
  else Some (fun b => s ← snd <$> find (fun e => bool_decide (e.1 = b)) stores; s).

Record ResolverConfig := mkResolverConfig {
  rc_backend : StorageBackend;
  rc_cwd : string;
  rc_root : string;
  rc_localMax : Z;
  rc_S3 : S3Params
}.

(** [bootstrap.NewPhotoStoreResolver]: the local store always, the S3 store only when it
    is selected. *)
Definition NewPhotoStoreResolver (cfg : ResolverConfig) : M (Resolver * StorageBackend) :=
  if negb (backend_valid (rc_backend cfg)) then fail ErrArgument
  else
    do! localStore := NewLocalPhotoStore (rc_cwd cfg) (rc_root cfg) (rc_localMax cfg) in
    do! s3 := (if bool_decide (rc_backend cfg = BackendS3)
               then do! s := NewS3PhotoStore (rc_cwd cfg) (rc_S3 cfg) in ret [(BackendS3, Some s.1.1)]
               else ret []) in
    match NewStoreResolver ((BackendLocal, Some localStore) :: s3) with
    | Some r => ret (r, rc_backend cfg)
    | None => fail ErrArgument
    end.

(** ** PhotoService *)

Record PhotoService := mkService {
  sv_class : PhotoClass;
  sv_resolver : Resolver;
  sv_write : StorageBackend;
  sv_presignTTL : Z
}.

Definition NewPhotoService (registered : gset string) (class : PhotoClass) (r : Resolver)
    (writeBackend : StorageBackend) (presignTTL : Z) : result media_error PhotoService :=
  if negb (class_valid registered class) then Err ErrArgument
  else if negb (backend_valid writeBackend) then Err ErrArgument
  else Ok (mkService class r writeBackend presignTTL).

Definition writeStore (s : PhotoService) : M Store := lift (Resolve (sv_resolver s) (sv_write s)).
Definition readStore (s : PhotoService) (p : Photo) : M Store :=
  lift (Resolve (sv_resolver s) (p_backend p)).

Definition takenAt (store : Store) (ref : string) : M (option Z) :=
  do! data := Open store ref in ret (exif_taken data).

Record UploadResult := mkUpload { u_photo : Photo; u_duplicate : bool }.

(** [id] is the fresh [NewPhotoID]. The repository is bound to the write
    backend, as the composition root binds it. *)
Definition Upload (s : PhotoService) (registered : gset string) (id household uploader : Uuid)
    (upload : list Z) : M UploadResult :=
  do! store := writeStore s in
  do! stored := Put store registered household (sv_class s) upload in
  try! found := FindByContentHash household (put_hash stored) in
  match found with
  | Ok existing => ret (mkUpload existing true)
  | Err ErrPhotoNotFound =>
    do! taken := takenAt store (put_ref stored) in
    let photo := mkPhoto id household (put_ref stored) (put_hash stored) (put_size stored)
                   (put_type stored) taken (Some uploader) 0 (BackendOther "") in
    match Validate photo with
    | Some _ => fail ErrInvalidPhoto
    | None =>
      try! created := Create (sv_write s) photo in
      match created with
      | Ok p => ret (mkUpload p false)
      | Err ErrDuplicatePhoto =>
        do! existing := FindByContentHash household (put_hash stored) in
        ret (mkUpload existing true)
      | Err e => fail e
      end
    end
  | Err e => fail e
  end.

Definition ownedPhoto (household id : Uuid) : M Photo :=
  do! p := Get id in
  if decide (p_household p = household) then ret p else fail ErrPhotoNotFound.

Definition Delete (household id : Uuid) : M unit :=
  do! _ := ownedPhoto household id in DeletePhoto id.

Definition List_ (household : Uuid) : M (list Photo) := ListByHousehold household.

Definition OpenBytes (s : PhotoService) (household id : Uuid) : M (list Z * string) :=
  do! p := ownedPhoto household id in
  do! store := readStore s p in
  do! data := Open store (p_ref p) in
  ret (data, contentTypeForRef (p_ref p)).

Inductive RawServeResult :=
| RedirectURL (l : locator)
| Body (data : list Z) (contentType : string).

Definition RawServe (s : PhotoService) (household id : Uuid) : M RawServeResult :=
  do! p := ownedPhoto household id in
  do! store := readStore s p in
  if SupportsDirectURL store
  then do! l := URL (sv_presignTTL s) store (p_ref p) 0 in ret (RedirectURL l)
  else do! data := Open store (p_ref p) in ret (Body data (contentTypeForRef (p_ref p))).
End photos.
