(* ===== verification/PhotosSpec.v ===== *)
(** What the photo pipeline promises: the table's invariant under every call and
    every move of the environment, staging files that outlive a call only when
    removing one failed, the outcome of an upload, deduplication under races, tenant isolation, and reads
    that follow the row's own backend. *)

From S2P Require Import Prelude GoStrings MediaDomain MediaWorld Photos.
Local Open Scope Z_scope.
Local Open Scope nest_scope.

(** ** The table invariant *)

Section table.
Context `{UuidLib}.
Implicit Types (d : DB) (r : photo_row) (w : World).

Record db_ok d : Prop := {
  ok_checks : forall id r, photos d !! id = Some r -> row_checks r = true;
  ok_unique : forall id1 id2 r1 r2 h, photos d !! id1 = Some r1 -> photos d !! id2 = Some r2 ->
    pr_household r1 = pr_household r2 -> pr_hash r1 = Some h -> pr_hash r2 = Some h -> id1 = id2;
  ok_fk : forall id r, photos d !! id = Some r ->
    pr_household r ∈ households d /\ uploader_ok d r = true
}.

Lemma select_hash_Some d hh h id r :
  select_hash d hh h = Some (id, r) ->
  photos d !! id = Some r /\ pr_household r = hh /\ pr_hash r = Some h.
Proof.
  unfold select_hash. intros Hs. apply head_Some_elem_of in Hs.
  by apply list_elem_of_filter in Hs as [Hm Hin%elem_of_map_to_list].
Qed.

Lemma select_hash_None d hh h id r :
  select_hash d hh h = None -> photos d !! id = Some r -> pr_household r = hh -> pr_hash r <> Some h.
Proof.
  unfold select_hash. intros Hs%head_None Hr Hh Hp.
  assert ((id, r) ∈ filter (hash_match hh h) (map_to_list (photos d))) as Hin
    by (apply list_elem_of_filter; split; [done|by apply elem_of_map_to_list]).
  rewrite Hs in Hin. set_solver.
Qed.

Lemma select_hash_unique d hh h id r :
  db_ok d -> photos d !! id = Some r -> pr_household r = hh -> pr_hash r = Some h ->
  select_hash d hh h = Some (id, r).
Proof.
  intros Hd Hr Hh Hp. destruct (select_hash d hh h) as [[id' r']|] eqn:Hs.
  - apply select_hash_Some in Hs as (Hr' & Hh' & Hp').
    assert (id' = id) as -> by (eapply (ok_unique d Hd); eauto; congruence). by simplify_eq.
  - by eapply select_hash_None in Hs.
Qed.

Lemma insert_photo_ok id r d d' :
  insert_photo id r d = Ok d' ->
  row_checks r = true /\ photos d !! id = None /\
  (forall h, pr_hash r = Some h -> select_hash d (pr_household r) h = None) /\
  pr_household r ∈ households d /\ uploader_ok d r = true /\
  d' = with_photos (<[id := r]> (photos d)) d.
Proof.
  unfold insert_photo. intros Hi. destruct (row_checks r); [|done]. simpl in Hi.
  case_decide as Hn; [done|]. apply eq_None_not_Some in Hn.
  destruct (match pr_hash r with Some _ => _ | None => false end) eqn:Hh; [done|].
  destruct (bool_decide_reflect (pr_household r ∈ households d)); [|done]. simpl in Hi.
  destruct (uploader_ok d r); [|done]. injection Hi as <-. split_and!; try done.
  intros h Hp. rewrite Hp in Hh. by destruct (select_hash _ _ _).
Qed.

Lemma db_ok_insert id r d d' : db_ok d -> insert_photo id r d = Ok d' -> db_ok d'.
Proof.
  intros Hd Hi. apply insert_photo_ok in Hi as (Hc & Hn & Hu & Hf & Hup & ->).
  split; simpl.
  - intros id' r' [[<- <-]|[? ?]]%lookup_insert_Some; [done|by apply (ok_checks d Hd id')].
  - intros id1 id2 r1 r2 h H1 H2 Hh Hp1 Hp2.
    apply lookup_insert_Some in H1 as [[<- <-]|[? H1]], H2 as [[<- <-]|[? H2]].
    + done.
    + exfalso. by eapply (select_hash_None d _ h id2 r2 (Hu h Hp1)).
    + exfalso. by eapply (select_hash_None d _ h id1 r1 (Hu h Hp2)).
    + by eapply (ok_unique d Hd).
  - intros id' r' [[<- <-]|[? ?]]%lookup_insert_Some; [done|by apply (ok_fk d Hd id')].
Qed.

Lemma db_ok_delete id d : db_ok d -> db_ok (with_photos (delete id (photos d)) d).
Proof.
  intros Hd. split; simpl.
  - intros id' r' [_ ?]%lookup_delete_Some. by apply (ok_checks d Hd id').
  - intros id1 id2 r1 r2 h [_ ?]%lookup_delete_Some [_ ?]%lookup_delete_Some. by apply (ok_unique d Hd).
  - intros id' r' [_ ?]%lookup_delete_Some. by apply (ok_fk d Hd id').
Qed.
End table.

(** ** Predicates a computation preserves *)

Section preserve.
Context `{UuidLib}.
Implicit Types (P : World -> Prop).

Definition preserves P {A} (m : M A) : Prop := forall w, P w -> P (m w).2.

(** Closed under the environment's moves. *)
Definition closed P : Prop :=
  (forall e w, P w -> P (set_env e w)) /\ (forall o w, P w -> P (ext o w)).

Lemma preserves_ret P {A} (a : A) : preserves P (ret a).
Proof. by intros w. Qed.
Lemma preserves_fail P {A} e : preserves P (fail (A := A) e).
Proof. by intros w. Qed.
Lemma preserves_lift P {A} (r : result media_error A) : preserves P (lift r).
Proof. by intros w. Qed.

Lemma preserves_bind P {A B} (m : M A) (f : A -> M B) :
  preserves P m -> (forall a, preserves P (f a)) -> preserves P (bind m f).
Proof.
  intros Hm Hf w Hw. unfold bind. specialize (Hm w Hw).
  destruct (m w) as [[a|e] w']; [by apply Hf|done].
Qed.

Lemma preserves_outcome P {A B} (m : M A) (f : result media_error A -> M B) :
  preserves P m -> (forall r, preserves P (f r)) -> preserves P (outcome m f).
Proof.
  intros Hm Hf w Hw. unfold outcome. specialize (Hm w Hw).
  destruct (m w) as [r w']. by apply Hf.
Qed.

Lemma preserves_deferred P {A} cl (m : M A) :
  preserves P m -> (forall r, preserves P (cl r)) -> preserves P (deferred cl m).
Proof.
  intros Hm Hc w Hw. unfold deferred. specialize (Hm w Hw).
  destruct (m w) as [r w']. by apply Hc.
Qed.

Lemma closed_exts P ops w : closed P -> P w -> P (exts ops w).
Proof.
  intros [_ Hx]. unfold exts. revert w. induction ops as [|o ops IH]; intros w Hw; simpl; auto.
Qed.

Lemma preserves_io P {A} (m : M A) : closed P -> preserves P m -> preserves P (io m).
Proof.
  intros Hc Hm w Hw. unfold io. destruct (w_env w) as [|a env]; [by apply Hm|].
  pose proof (proj1 Hc env w Hw) as Hw'.
  destruct a as [| | |ops]; [by apply Hm|done|by apply Hm|]. by apply Hm, closed_exts.
Qed.

Lemma preserves_io_file P {A} (m : M A) : closed P -> preserves P m -> preserves P (io_file m).
Proof.
  intros Hc Hm w Hw. pose proof (preserves_io P m Hc Hm w Hw) as Hio. unfold io_file.
  destruct (w_env w) as [|[] env]; try done. by apply Hc.
Qed.

Lemma preserves_io_as P {A} e (m : M A) : closed P -> preserves P m -> preserves P (io_as e m).
Proof.
  intros Hc Hm. apply preserves_outcome; [by apply preserves_io|]. intros [a|e']; by intros w.
Qed.

(** A removal touches the staging directory only. *)
Lemma removeStaged_run p w : removeStaged p w = (Ok tt, set_staged (unlinked p (w_staged w)) w).
Proof. done. Qed.

Lemma preserves_removeStaged P p : (forall st w, P w -> P (set_staged st w)) -> preserves P (removeStaged p).
Proof. intros HP w Hw. rewrite removeStaged_run. by apply HP. Qed.

Lemma closed_db (Q : DB -> Prop) :
  (forall id r d d', Q d -> insert_photo id r d = Ok d' -> Q d') ->
  (forall id d, Q d -> Q (with_photos (delete id (photos d)) d)) ->
  closed (fun w => Q (w_db w)).
Proof.
  intros Hi Hd. split; [done|]. intros o w Hw. destruct o as [id r|id|b k data|b k|t]; simpl.
  - destruct (insert_photo id r (w_db w)) eqn:E; simpl; eauto.
  - by apply Hd.
  - by destruct b.
  - by destruct b.
  - done.
Qed.

Definition DBOK (w : World) : Prop := db_ok (w_db w).

Lemma closed_db_ok : closed DBOK.
Proof. apply closed_db; [apply db_ok_insert|apply db_ok_delete]. Qed.
End preserve.

Create HintDb photos.
#[export] Hint Extern 1 (preserves _ (removeStaged _)) => by apply preserves_removeStaged : photos.
#[export] Hint Resolve preserves_ret preserves_fail preserves_lift preserves_io closed_db_ok : photos.

Ltac preserve_step :=
  match goal with
  | |- preserves _ (bind _ _) => apply preserves_bind; [|intros ?]
  | |- preserves _ (outcome _ _) => apply preserves_outcome; [|intros ?]
  | |- preserves _ (deferred _ _) => apply preserves_deferred; [|intros ?]
  | |- preserves _ (io _) => apply preserves_io; [solve [auto with photos]|]
  | |- preserves _ (io_file _) => apply preserves_io_file; [solve [auto with photos]|]
  | |- preserves _ (io_as _ _) => apply preserves_io_as; [solve [auto with photos]|]
  | |- preserves _ (match ?x with _ => _ end) => destruct x
  | |- preserves _ _ => solve [auto with photos]
  end.

(** Hex digits are not white space, from either end. *)
Lemma hex_not_space_prefix c b : is_lower_hex c = true -> space_prefix (map byte_val (c :: b)) = None.
Proof.
  unfold is_lower_hex. set (n := byte_val c). intros Hc. cbn [map space_prefix].
  fold n. repeat case_match; try done; exfalso; lia.
Qed.

Lemma hex_not_space_suffix c b : is_lower_hex c = true -> space_suffix (map byte_val (c :: b)) = None.
Proof.
  unfold is_lower_hex. set (n := byte_val c). intros Hc. unfold space_suffix. cbv zeta.
  rewrite !bool_decide_false; [done|..]; destruct b as [|c1 [|c2 b]];
    cbn [map take rev app space_prefix]; fold n; try change (take 0 _) with (@nil Z); cbn [rev app space_prefix]; intros Hs; repeat case_match; try done; lia.
Qed.

(** The database, through every call that can change it. *)
Section db_preserved.
Context `{UuidLib, Codecs}.

Lemma db_put_free {A} (f : World -> result media_error A * World) :
  (forall w, w_db (f w).2 = w_db w) -> preserves DBOK f.
Proof. intros Hf w Hw. unfold DBOK. by rewrite Hf. Qed.

Lemma Create_preserves b p : preserves DBOK (Create b p).
Proof.
  apply preserves_io; [auto with photos|]. intros w Hw.
  destruct (insert_photo _ _ _) eqn:E; simpl; [by eapply db_ok_insert|done].
Qed.

Lemma DeletePhoto_preserves id : preserves DBOK (DeletePhoto id).
Proof.
  apply preserves_io; [auto with photos|]. intros w Hw. case_decide; [|done]. by apply db_ok_delete.
Qed.

Lemma Get_preserves id : preserves DBOK (Get id).
Proof. apply preserves_io; [auto with photos|]. by intros w. Qed.

Lemma Find_preserves hh h : preserves DBOK (FindByContentHash hh h).
Proof. unfold FindByContentHash. case_decide; repeat preserve_step. by intros w. Qed.

Lemma validate_preserves n up : preserves DBOK (validateAndStage n up).
Proof. unfold validateAndStage. repeat (preserve_step || (by intros w) || by case_match). Qed.

Lemma Put_preserves s reg h c up : preserves DBOK (Put s reg h c up).
Proof.
  unfold Put, LocalPut, S3Put, local_key, put_key.
  repeat (preserve_step || (by intros w) || (apply validate_preserves) || by case_match).
  all: first [done | apply db_put_free; intros w; unfold rename_staged; by destruct (sg_files (w_staged w) !! _)].
Qed.

Lemma Open_preserves s ref : preserves DBOK (Open s ref).
Proof.
  unfold Open, LocalOpen, S3Open, local_key. repeat (preserve_step || (by intros w)).
  all: apply db_put_free; intros w; by repeat case_match.
Qed.

Lemma URL_preserves n s ref ttl : preserves DBOK (URL n s ref ttl).
Proof.
  unfold URL, LocalURL, S3URL, local_key. repeat (preserve_step || (by intros w)).
  all: apply db_put_free; intros w; by repeat case_match.
Qed.

Lemma trim_hex_with space b :
  (forall c b, is_lower_hex c = true -> space (map byte_val (c :: b)) = None) ->
  space [] = None -> forallb is_lower_hex b = true -> forall n, trim_with space n b = b.
Proof.
  intros Hs Hz Hb [|n]; [done|]. simpl. destruct b as [|c b]; simpl; [by rewrite Hz|].
  simpl in Hb. apply andb_true_iff in Hb as [Hc _]. specialize (Hs c b Hc). simpl in Hs. by rewrite Hs.
Qed.

Lemma hash_trim hash : ValidContentHash hash = true -> TrimSpace hash = hash.
Proof.
  unfold ValidContentHash. intros [_ Hf]%andb_true_iff. unfold TrimSpace.
  rewrite (trim_hex_with space_prefix); [|apply hex_not_space_prefix|done|done].
  rewrite (trim_hex_with space_suffix); [|apply hex_not_space_suffix|done|].
  - rewrite rev_involutive. apply string_of_bytes_of.
  - rewrite forallb_forall in Hf |- *. intros c Hc. apply Hf. by apply in_rev.
Qed.

Lemma Migrate_preserves id ref b hash : preserves DBOK (MigrateStorageBackend id ref b hash).
Proof.
  unfold MigrateStorageBackend. destruct (backend_valid b) eqn:Hb; simpl; [|repeat preserve_step].
  destruct (negb _ && negb _) eqn:Hv; [repeat preserve_step|].
  apply preserves_io; [auto with photos|]. intros w Hw. destruct (photos (w_db w) !! id) as [r|] eqn:Hr; [|done].
  destruct (negb (bool_decide (pr_backend r = _))) eqn:Hl; [exact Hw|]. set (hash' := match pr_hash r with Some h => Some h | None => _ end).
  destruct (match hash' with Some _ => _ | None => false end) eqn:Hu; [exact Hw|]. simpl.
  destruct Hw as [HC HU HF]. split; simpl.
  - intros id' r' [[<- <-]|[? ?]]%lookup_insert_Some; [|by apply (HC id')].
    specialize (HC _ _ Hr). unfold row_checks in *. simpl. apply andb_true_iff in HC as [_ HC].
    apply andb_true_iff. split; [destruct b; [by rewrite bool_decide_true; [|left]|by rewrite bool_decide_true; [|right]|done]|].
    unfold hash'. destruct (pr_hash r); [done|].
    apply andb_false_iff in Hv. unfold nullableText. cbv zeta. destruct (decide (TrimSpace hash = "")) as [|Ht]; [done|].
    destruct Hv as [Hv|Hv]; to_prop.
    + apply bool_decide_eq_true in Hv as ->. by destruct Ht.
    + by rewrite (hash_trim hash).
  - intros id1 id2 r1 r2 h H1 H2 Hh Hp1 Hp2.
    apply lookup_insert_Some in H1 as [[<- <-]|[? H1]], H2 as [[<- <-]|[? H2]]; simpl in *.
    + done.
    + rewrite Hp1 in Hu. destruct (select_hash _ _ _) eqn:Es; [done|].
      eapply (select_hash_None _ _ _ id2 r2) in Es; [done|by apply lookup_delete_Some|done].
    + rewrite Hp2 in Hu. destruct (select_hash _ _ _) eqn:Es; [done|].
      eapply (select_hash_None _ _ _ id1 r1) in Es; [done|by apply lookup_delete_Some|done].
    + by eapply HU.
  - intros id' r' [[<- <-]|[? ?]]%lookup_insert_Some; [|by apply (HF id')].
    exact (HF id r Hr).
Qed.
End db_preserved.

(** ** Staging files *)

Section staged.
Context `{UuidLib, Codecs}.

Definition staged_is (st : Staging) (w : World) : Prop := w_staged w = st.

Lemma closed_staged st : closed (staged_is st).
Proof.
  split; [done|]. intros o w Hw. destruct o as [id r|id|b k data|b k|t]; simpl; try done.
  - by destruct (insert_photo id r (w_db w)).
  - by destruct b.
  - by destruct b.
Qed.

Lemma staged_free {A} st (f : World -> result media_error A * World) :
  (forall w, w_staged (f w).2 = w_staged w) -> preserves (staged_is st) f.
Proof. intros Hf w Hw. unfold staged_is. by rewrite Hf. Qed.
End staged.
#[export] Hint Resolve closed_staged : photos.

Section staging.
Context `{UuidLib, Codecs}.

(** Every other call leaves the staging files alone. *)
Lemma Create_staged st b p : preserves (staged_is st) (Create b p).
Proof. apply preserves_io; [auto with photos|]. apply staged_free. intros w. by destruct (insert_photo _ _ _). Qed.
Lemma Find_staged st hh h : preserves (staged_is st) (FindByContentHash hh h).
Proof. unfold FindByContentHash. case_decide; repeat preserve_step. by intros w. Qed.
Lemma Open_staged st s ref : preserves (staged_is st) (Open s ref).
Proof.
  unfold Open, LocalOpen, S3Open, local_key. repeat (preserve_step || (by intros w)).
  all: apply staged_free; intros w; by repeat case_match.
Qed.

(** Within the size limit: a reader limited to one byte more reaches the end. *)
Definition fits (max : Z) (data : list Z) : Prop := Z.of_nat (length data) < read_limit max.

(** The facts an accepted upload was checked for. *)
Definition acceptable (max : Z) (upload : list Z) (t : string) : Prop :=
  detectContentType (take sniffLen upload) = Some t /\ fits max upload /\
  exists w h format, decodeConfig upload = Some (w, h, format) /\ formatToType format = t /\
    i64 (w * h) <= maxDecodePixels /\ decodes upload = true.

(** What a step with an environment can come out as. *)
Lemma io_inv {A} (m : M A) w :
  exists w1, (forall P, closed P -> P w -> P w1) /\
    (io m w = m w1 \/ (exists w2, io m w = (Err ErrInfra, w2) /\ (w2 = w1 \/ w2 = (m w1).2))).
Proof.
  unfold io. destruct (w_env w) as [|a env]; [exists w; split; [done|by left]|].
  destruct a as [| | |ops].
  - exists (set_env env w). split; [by intros P [? _]; auto|by left].
  - exists (set_env env w). split; [by intros P [? _]; auto|]. right. eauto.
  - exists (set_env env w). split; [by intros P [? _]; auto|]. right. eauto.
  - exists (exts ops (set_env env w)). split; [|by left].
    intros P Hc Hw. apply closed_exts; [done|]. by apply Hc.
Qed.

Lemma io_ret_inv {A} (a : A) w :
  exists w1, (forall P, closed P -> P w -> P w1) /\
    (io (ret a) w = (Ok a, w1) \/ io (ret a) w = (Err ErrInfra, w1)).
Proof.
  destruct (io_inv (ret a) w) as (w1 & Hp & [->|(w2 & -> & [->| ->])]); exists w1; simpl; eauto.
Qed.

Lemma io_file_inv {A} (m : M A) w :
  exists w1, (forall P, closed P -> P w -> P w1) /\
    (io_file m w = m w1 \/ io_file m w = (Err ErrInfra, w1)).
Proof.
  unfold io_file, io. destruct (w_env w) as [|a env] eqn:E; [exists w; split; [done|by left]|].
  destruct a as [| | |ops].
  1,2,3: exists (set_env env w); (split; [by intros P [? _]; auto|]); eauto.
  exists (exts ops (set_env env w)). split; [|by left].
  intros P Hc Hw. apply closed_exts; [done|]. by apply Hc.
Qed.

Lemma fits_le max data : fits max data -> Z.of_nat (length data) <= max.
Proof. unfold fits, read_limit. destruct (Z.eqb_spec max (2 ^ 63 - 1)); lia. Qed.

Lemma fits_take max data : fits max data -> take (Z.to_nat (read_limit max)) data = data.
Proof. unfold fits. intros. apply take_ge. lia. Qed.

Lemma detect_nil : detectContentType [] = None.
Proof. reflexivity. Qed.

Lemma take_limit (max : Z) (l : list Z) :
  Z.of_nat (length (take (Z.to_nat (read_limit max)) l)) <= max ->
  detectContentType (take sniffLen (take (Z.to_nat (read_limit max)) l)) <> None -> fits max l.
Proof.
  unfold fits, read_limit. rewrite length_take. intros Hl Hd.
  destruct (Z.eqb_spec max (2 ^ 63 - 1)) as [->|Hne]; [destruct Hd; apply detect_nil|].
  destruct (decide (max < 0)) as [Hneg|]; [|lia].
  replace (Z.to_nat (max + 1)) with 0%nat in Hd by lia. destruct Hd. apply detect_nil.
Qed.

(** What a call may leave of its own staging file: nothing, unless the one removal it
    asked for failed. *)
Definition tidied (s s' : Staging) : Prop :=
  sg_files s' = sg_files s \/
  exists l p data, sg_unlink s = false :: l /\ sg_files s !! p = None /\
    s' = mkStaging (<[p := data]> (sg_files s)) l.

Definition add_file (p : Z) (data : list Z) (s : Staging) : Staging := set_files (<[p := data]> (sg_files s)) s.

Lemma tidied_add s p data : sg_files s !! p = None -> tidied s (unlinked p (add_file p data s)).
Proof.
  intros Hp. unfold tidied, unlinked, add_file, set_files. simpl. destruct (sg_unlink s) as [|[] l] eqn:E; simpl.
  - left. by apply delete_insert_id.
  - left. by apply delete_insert_id.
  - right. eauto 7.
Qed.

Lemma tidied_gone s p : sg_files s !! p = None -> tidied s (unlinked p s).
Proof.
  intros Hp. left. unfold unlinked. destruct (sg_unlink s) as [|[] l]; simpl; try done; by apply delete_id.
Qed.

Lemma drop_added s p data : sg_files s !! p = None ->
  set_files (delete p (sg_files (add_file p data s))) (add_file p data s) = s.
Proof. intros Hp. destruct s as [f l]. unfold add_file, set_files. simpl in *. by rewrite delete_insert_id. Qed.

(** A read that fails as [e]. *)
Lemma io_as_ret_inv {A} e (a : A) w :
  exists w1, (forall P, closed P -> P w -> P w1) /\
    (io_as e (ret a) w = (Ok a, w1) \/ io_as e (ret a) w = (Err e, w1)).
Proof.
  unfold io_as, outcome. destruct (io_ret_inv a w) as (w1 & Hp & [-> | ->]); exists w1; eauto.
Qed.

(** A rejected upload leaves no staging file, or the one whose removal failed; an
    accepted one leaves exactly its own, whole, with the facts that were checked. *)
Lemma validate_staged max up w st :
  w_staged w = st ->
  match validateAndStage max up w with
  | (Ok s, w') => sg_files st !! s_path s = None /\ w_staged w' = add_file (s_path s) up st /\
                  s_hash s = sha256_hex up /\ s_size s = Z.of_nat (length up) /\
                  acceptable max up (s_type s)
  | (Err _, w') => tidied st (w_staged w')
  end.
Proof.
  intros Hst. unfold validateAndStage. set (lim := take _ up). unfold bind at 1.
  destruct (io_ret_inv (take sniffLen lim) w) as (w1 & Hp1 & [-> | ->]);
    (assert (staged_is st w1) as Hs1 by (by apply Hp1; [apply closed_staged|])); [|left; by rewrite Hs1].
  destruct (detectContentType (take sniffLen lim)) as [t|] eqn:Ht; [|left; cbn; by rewrite Hs1].
  unfold bind at 1.
  match goal with |- context [io_file ?m w1] => destruct (io_file_inv m w1) as (w2 & Hp2 & [-> | ->]) end;
    (assert (staged_is st w2) as Hs2 by (by apply Hp2; [apply closed_staged|])); [|left; cbn; by rewrite Hs2].
  rewrite Hs2. cbv zeta. set (p := fresh (dom (sg_files st))). set (w3 := set_staged _ w2).
  assert (sg_files st !! p = None) as Hfresh by (apply not_elem_of_dom, is_fresh).
  assert (staged_is (add_file p [] st) w3) as Hs3 by done. clearbody w3.
  unfold deferred.
  match goal with |- match (let '(r, w0) := ?m w3 in _) with _ => _ end => set (body := m) end.
  assert (match body w3 with
          | (Ok s, w') => staged_is (add_file p up st) w' /\ s_path s = p /\
              s_hash s = sha256_hex up /\ s_size s = Z.of_nat (length up) /\ acceptable max up (s_type s)
          | (Err _, w') => exists data, staged_is (add_file p data st) w' end) as Hbody.
  { unfold body. clear body. unfold bind at 1.
    destruct (io_inv (modify (write_staged p lim)) w3)
      as (w4 & Hp4 & Hio); (assert (staged_is (add_file p [] st) w4) as Hs4 by (by apply Hp4; [apply closed_staged|])).
    assert (staged_is (add_file p lim st) (write_staged p lim w4)) as Hs5.
    { unfold staged_is, write_staged, add_file, set_files. simpl. rewrite Hs4. simpl. by rewrite insert_insert_eq. }
    destruct Hio as [->|(wx & -> & [->| ->])]; [|by eexists; exact Hs4|by eexists; exact Hs5].
    cbn [modify]. set (w5 := write_staged p lim w4) in *. clearbody w5.
    destruct (Z.ltb_spec max (Z.of_nat (length lim))) as [|Hmax]; [by eexists; eassumption|].
    assert (fits max up) as Hfit by (apply take_limit; [done|by fold lim; rewrite Ht]).
    assert (lim = up) as Hlim by (by apply fits_take). rewrite Hlim in *.
    unfold bind at 1. destruct (io_ret_inv tt w5) as (w6 & Hp6 & [-> | ->]);
      (assert (staged_is (add_file p up st) w6) as Hs6 by (by apply Hp6; [apply closed_staged|])); [|by eexists; eassumption].
    unfold bind at 1. destruct (io_as_ret_inv ErrInvalidPhoto (decodeConfig up) w6) as (w7 & Hp7 & [-> | ->]);
      (assert (staged_is (add_file p up st) w7) as Hs7 by (by apply Hp7; [apply closed_staged|])); [|by eexists; eassumption].
    destruct (decodeConfig up) as [[[cw ch] format]|] eqn:Hcfg; [|by eexists; eassumption].
    destruct (bool_decide_reflect (formatToType format = t)) as [Hf|]; [|by eexists; eassumption]. cbn [negb].
    destruct (Z.ltb_spec maxDecodePixels (i64 (cw * ch))) as [|Hpx]; [by eexists; eassumption|].
    unfold bind at 1. destruct (io_ret_inv tt w7) as (w8 & Hp8 & [-> | ->]);
      (assert (staged_is (add_file p up st) w8) as Hs8 by (by apply Hp8; [apply closed_staged|])); [|by eexists; eassumption].
    unfold bind at 1. destruct (io_as_ret_inv ErrInvalidPhoto (decodes up) w8) as (w9 & Hp9 & [-> | ->]);
      (assert (staged_is (add_file p up st) w9) as Hs9 by (by apply Hp9; [apply closed_staged|])); [|by eexists; eassumption].
    destruct (decodes up) eqn:Hdec; [|by eexists; eassumption]. cbn. split; [done|]. split_and!; try done.
    split_and!; [done..|]. by exists cw, ch, format. }
  destruct (body w3) as [[s|e] w']; simpl.
  - destruct Hbody as (Hs' & -> & ? & ? & ?). by split_and!.
  - destruct Hbody as (data & Hs'). rewrite Hs'. by apply tidied_add.
Qed.

(** What a completed [Put] established. *)
Definition put_ok (reg : gset string) (max : Z) (h : Uuid) (c : PhotoClass) (up : list Z)
    (res : PutResult) : Prop :=
  put_hash res = sha256_hex up /\ put_size res = Z.of_nat (length up) /\
  acceptable max up (put_type res) /\
  exists ext, ExtensionForContentType (put_type res) = Some ext /\
    buildStorageKey reg h c (sha256_hex up) ext = Ok (put_ref res).

Lemma acceptable_ext max up t : acceptable max up t -> exists ext, ExtensionForContentType t = Some ext.
Proof.
  intros (Hd & _). unfold detectContentType in Hd.
  repeat case_match; simplify_eq; eexists; reflexivity.
Qed.

Lemma put_key_ok reg max h c up st w key w' :
  s_hash st = sha256_hex up -> acceptable max up (s_type st) ->
  put_key reg h c st w = (Ok key, w') ->
  w' = w /\ exists ext, ExtensionForContentType (s_type st) = Some ext /\
    buildStorageKey reg h c (sha256_hex up) ext = Ok key.
Proof.
  intros Hh Ha. destruct (acceptable_ext _ _ _ Ha) as (ext & He). unfold put_key, lift.
  rewrite Hh, He. simpl. destruct (buildStorageKey _ _ _ _ _) eqn:Hk; intros [= <- <-]. eauto.
Qed.

Lemma rename_staged_run st p up ref w :
  staged_is (add_file p up st) w -> sg_files st !! p = None ->
  rename_staged p ref w = (Ok tt, set_staged st (store_blob BackendLocal ref up w)).
Proof.
  intros Hw Hp. unfold rename_staged. rewrite Hw. cbn [sg_files add_file set_files].
  rewrite lookup_insert_eq. cbn [w_staged store_blob set_blobs]. rewrite Hw. by rewrite drop_added.
Qed.

Lemma LocalPut_rename st p up ref w :
  staged_is (add_file p up st) w -> sg_files st !! p = None ->
  (exists w', io (rename_staged p ref) w = (Ok tt, w') /\ staged_is st w') \/
  (exists w', io (rename_staged p ref) w = (Err ErrInfra, w') /\ tidied st (unlinked p (w_staged w'))).
Proof.
  intros Hw Hp. destruct (io_inv (rename_staged p ref) w) as (w1 & H1 & Hio).
  assert (staged_is (add_file p up st) w1) as Hs1 by (by apply H1; [apply closed_staged|]).
  rewrite (rename_staged_run st p up ref w1) in Hio by done.
  destruct Hio as [->|(w2 & -> & [->| ->])]; [left|right..]; eexists; (split; [done|]).
  - done.
  - rewrite Hs1. by apply tidied_add.
  - by apply tidied_gone.
Qed.

Lemma LocalPut_facts s reg h c up w :
  let '(r, w') := LocalPut s reg h c up w in
  tidied (w_staged w) (w_staged w') /\ forall res, r = Ok res -> put_ok reg (st_max s) h c up res.
Proof.
  unfold LocalPut, bind at 1. pose proof (validate_staged (st_max s) up w _ eq_refl) as Hv.
  destruct (validateAndStage _ _ _) as [[sg|e] w1]; [|by split].
  destruct Hv as (Hp & Hs & Hh & Hz & Ha).
  assert (forall w', staged_is (add_file (s_path sg) up (w_staged w)) w' ->
    tidied (w_staged w) (unlinked (s_path sg) (w_staged w'))) as Hrm
    by (intros w' ->; by apply tidied_add).
  unfold deferred, bind at 1.
  destruct (put_key reg h c sg w1) as [[ref|e] w2] eqn:Hk; cycle 1.
  { unfold put_key, lift in Hk. injection Hk as Hk <-. split; [by apply Hrm|done]. }
  apply (put_key_ok reg _ h c up _ _ _ _ Hh Ha) in Hk as (-> & ext & Hext & Hkey). unfold local_key.
  destruct (resolve _ _ _); [|split; [by apply Hrm|done]].
  unfold bind at 1, ret at 1. unfold bind at 1.
  destruct (io_ret_inv tt w1) as (w2 & H2 & [-> | ->]);
    (assert (staged_is (add_file (s_path sg) up (w_staged w)) w2) as Hs2
       by (by apply H2; [apply closed_staged|])); [|split; [by apply Hrm|done]].
  unfold bind at 1.
  destruct (LocalPut_rename (w_staged w) (s_path sg) up ref w2 Hs2 Hp) as [(w3 & -> & Hs3)|(w3 & -> & Hs3)].
  - split; [left; cbn; by rewrite Hs3|]. intros res [= <-]. unfold put_ok. simpl. eauto 6.
  - by split.
Qed.

Lemma S3Put_facts s reg h c up w :
  let '(r, w') := S3Put s reg h c up w in
  tidied (w_staged w) (w_staged w') /\ forall res, r = Ok res -> put_ok reg (st_max s) h c up res.
Proof.
  unfold S3Put, bind at 1. pose proof (validate_staged (st_max s) up w _ eq_refl) as Hv.
  destruct (validateAndStage _ _ _) as [[sg|e] w1]; [|by split].
  destruct Hv as (Hp & Hs & Hh & Hz & Ha). unfold deferred.
  match goal with |- let '(_, _) := let '(_, _) := ?m w1 in _ in _ => set (body := m) end.
  assert (staged_is (add_file (s_path sg) up (w_staged w)) (body w1).2) as Hst.
  { assert (preserves (staged_is (add_file (s_path sg) up (w_staged w))) body) as Hb; [|by apply Hb].
    unfold body, put_key. repeat preserve_step; apply staged_free; intros w'; by repeat case_match. }
  destruct (body w1) as [r w'] eqn:E. rewrite removeStaged_run. simpl in Hst.
  split; [cbn; rewrite Hst; by apply tidied_add|]. intros res ->. revert E.
  unfold body, bind at 1. destruct (put_key reg h c sg w1) as [[ref|e] w2] eqn:Hk; [|done].
  apply (put_key_ok reg _ h c up _ _ _ _ Hh Ha) in Hk as (-> & ext & Hext & Hkey).
  unfold bind. destruct (io _ w1) as [[data|] w3]; [|done].
  destruct (io _ w3) as [[[]|] w4]; [|done]. cbn. intros [= <- _]. unfold put_ok. simpl. eauto 6.
Qed.

Lemma Put_facts s reg h c up w :
  let '(r, w') := Put s reg h c up w in
  tidied (w_staged w) (w_staged w') /\ forall res, r = Ok res -> put_ok reg (st_max s) h c up res.
Proof. unfold Put. destruct (st_backend s); first [apply LocalPut_facts|apply S3Put_facts]. Qed.
End staging.

(** ** Errors a computation never returns *)

Section never.
Context `{UuidLib}.

Definition never (e : media_error) {A} (m : M A) : Prop := forall w, (m w).1 <> Err e.

Lemma never_ret e {A} (a : A) : never e (ret a).
Proof. by intros w. Qed.
Lemma never_fail e e' {A} : e <> e' -> never e (fail (A := A) e').
Proof. intros He w [=]. congruence. Qed.
Lemma never_lift e {A} (r : result media_error A) : r <> Err e -> never e (lift r).
Proof. by intros Hr w. Qed.

Lemma never_bind e {A B} (m : M A) (f : A -> M B) :
  never e m -> (forall a, never e (f a)) -> never e (bind m f).
Proof.
  intros Hm Hf w. unfold bind. specialize (Hm w).
  destruct (m w) as [[a|e'] w']; [apply Hf|]. simpl in *. congruence.
Qed.

Lemma never_deferred e {A} cl (m : M A) : never e m -> never e (deferred cl m).
Proof. intros Hm w. unfold deferred. specialize (Hm w). by destruct (m w). Qed.

Lemma never_io e {A} (m : M A) : e <> ErrInfra -> never e m -> never e (io m).
Proof.
  intros He Hm w. unfold io. destruct (w_env w) as [|[] env]; try apply Hm; simpl; congruence.
Qed.

Lemma never_io_file e {A} (m : M A) : e <> ErrInfra -> never e m -> never e (io_file m).
Proof.
  intros He Hm w. pose proof (never_io e m He Hm w). unfold io_file.
  destruct (w_env w) as [|[] env]; try done. simpl. congruence.
Qed.

Lemma never_io_as e e' {A} (m : M A) : e <> e' -> never e (io_as e' m).
Proof.
  intros He w. unfold io_as, outcome. destruct (io m w) as [[a|x] w']; simpl; congruence.
Qed.
End never.

Ltac never_step :=
  match goal with
  | |- never _ (bind _ _) => apply never_bind; [|intros ?]
  | |- never _ (deferred _ _) => apply never_deferred
  | |- never _ (io _) => apply never_io; [done|]
  | |- never _ (io_file _) => apply never_io_file; [done|]
  | |- never _ (io_as _ _) => by apply never_io_as
  | |- never _ (ret _) => apply never_ret
  | |- never _ (fail _) => by apply never_fail
  | |- never _ (match ?x with _ => _ end) => destruct x
  end.

Section upload.
Context `{UuidLib, Codecs}.

Lemma Put_never e s reg h c up : e = ErrDuplicatePhoto \/ e = ErrPhotoNotFound -> never e (Put s reg h c up).
Proof.
  intros He. assert (forall max, never e (validateAndStage max up)) as Hv.
  { intros max. unfold validateAndStage. destruct He as [-> | ->]; repeat never_step; by intros w. }
  unfold Put, LocalPut, S3Put, put_key, local_key.
  destruct He as [-> | ->];
    repeat (never_step || apply Hv || (apply never_lift; by destruct (buildStorageKey _ _ _ _ _))).
  all: intros w; unfold rename_staged; cbn; by repeat case_match.
Qed.

Lemma Create_never_missing b p : never ErrPhotoNotFound (Create b p).
Proof.
  unfold Create, pg. never_step. intros w. destruct (insert_photo _ _ _); [done|].
  cbn. unfold create_error, mapFKViolation. by repeat case_match.
Qed.

Lemma Open_never_dup s ref : never ErrDuplicatePhoto (Open s ref).
Proof. unfold Open, LocalOpen, S3Open, local_key. repeat never_step; intros w; by repeat case_match. Qed.

Lemma scan_one_errors kv e : scan_one kv = Err e -> e = ErrPhotoNotFound \/ e = ErrScan.
Proof. unfold scan_one. repeat case_match; intros [= <-]; auto. Qed.

Lemma Find_never_dup hh h : never ErrDuplicatePhoto (FindByContentHash hh h).
Proof.
  unfold FindByContentHash. case_decide; repeat never_step. intros w. simpl.
  intros [?|?]%scan_one_errors; done.
Qed.

Lemma scanPhoto_facts id r p : scanPhoto (id, r) = Some p ->
  p_id p = id /\ p_household p = pr_household r /\ p_hash p = default "" (pr_hash r) /\
  p_ref p = pr_ref r.
Proof.
  unfold scanPhoto. rewrite !uuid_parse_string. simpl.
  destruct (ParseStorageBackend _); [|done]. simpl.
  destruct (pr_uploader r) as [m|]; simpl; [rewrite uuid_parse_string; simpl|]; by intros [= <-].
Qed.

Lemma Find_facts hh h w p w' : FindByContentHash hh h w = (Ok p, w') ->
  p_household p = hh /\ p_hash p = h.
Proof.
  unfold FindByContentHash. case_decide; [done|].
  destruct (io_inv (fun w0 => (scan_one (select_hash (w_db w0) hh h), w0)) w)
    as (w1 & _ & [->|(w2 & -> & _)]); [|done]. intros [= Hs _].
  destruct (select_hash (w_db w1) hh h) as [[id r]|] eqn:E; [|done]. cbn [scan_one] in Hs.
  destruct (scanPhoto (id, r)) eqn:Hp; [|done]. injection Hs as ->.
  apply select_hash_Some in E as (_ & <- & Hh). apply scanPhoto_facts in Hp as (_ & -> & -> & _).
  by rewrite Hh.
Qed.

Lemma Create_facts b p w p' w' : Create b p w = (Ok p', w') ->
  p_household p' = p_household p /\ p_hash p' = p_hash p /\ p_id p' = p_id p.
Proof.
  unfold Create, pg.
  match goal with |- context [io ?f w] => destruct (io_inv f w) as (w1 & _ & [->|(w2 & -> & _)]) end; [|done].
  destruct (insert_photo _ _ _); [|done]. simpl. by intros [= <- _].
Qed.

Lemma Upload_preserves s reg id hh uploader up : preserves DBOK (Upload s reg id hh uploader up).
Proof.
  unfold Upload, writeStore, takenAt.
  repeat (preserve_step || apply Put_preserves || apply Find_preserves || apply Open_preserves
          || apply Create_preserves).
Qed.

Lemma Upload_staged s reg id hh uploader up w :
  tidied (w_staged w) (w_staged (Upload s reg id hh uploader up w).2).
Proof.
  unfold Upload, writeStore. unfold bind at 1. destruct (lift _ w) as [[store|e] w0] eqn:E0;
    unfold lift in E0; injection E0 as _ <-; [|by left].
  unfold bind at 1. pose proof (Put_facts store reg hh (sv_class s) up w) as Hf.
  destruct (Put store reg hh (sv_class s) up w) as [[stored|e] w1]; destruct Hf as [Hf _]; [|done].
  match goal with |- tidied _ (w_staged (?m w1).2) => assert (preserves (staged_is (w_staged w1)) m) as Hp end.
  { unfold takenAt. repeat (preserve_step || apply Find_staged || apply Open_staged || apply Create_staged). }
  specialize (Hp w1 eq_refl). unfold staged_is in Hp. by rewrite Hp.
Qed.

Lemma Upload_never_dup s reg id hh uploader up : never ErrDuplicatePhoto (Upload s reg id hh uploader up).
Proof.
  unfold Upload, writeStore, takenAt. apply never_bind.
  { apply never_lift. unfold Resolve. by destruct (sv_resolver s _). }
  intros store. apply never_bind; [by apply Put_never; left|]. intros stored w. unfold outcome.
  pose proof (Find_never_dup hh (put_hash stored) w) as Hf.
  destruct (FindByContentHash _ _ w) as [[p|e] w1]; [done|]. destruct e; try done. clear Hf. revert w1.
  change (never ErrDuplicatePhoto (do! taken := do! data := Open store (put_ref stored) in ret (exif_taken data) in
    let photo := mkPhoto id hh (put_ref stored) (put_hash stored) (put_size stored)
                   (put_type stored) taken (Some uploader) 0 (BackendOther "") in
    match Validate photo with
    | Some _ => fail ErrInvalidPhoto
    | None =>
      try! created := Create (sv_write s) photo in
      match created with
      | Ok p => ret (mkUpload p false)
      | Err ErrDuplicatePhoto =>
        do! existing := FindByContentHash hh (put_hash stored) in ret (mkUpload existing true)
      | Err e => fail e
      end
    end)).
  repeat (never_step || (apply Open_never_dup) || (progress cbv zeta)). intros w1. unfold outcome.
  match goal with |- context [Create ?b ?p w1] => destruct (Create b p w1) as [[p'|e] w2] end; [done|]. destruct e; try done.
  revert w2. change (never ErrDuplicatePhoto (do! existing := FindByContentHash hh (put_hash stored) in
    ret (mkUpload existing true))).
  repeat (never_step || apply Find_never_dup).
Qed.

Lemma Upload_facts s reg id hh uploader up w u w' :
  Upload s reg id hh uploader up w = (Ok u, w') ->
  p_household (u_photo u) = hh /\ p_hash (u_photo u) = sha256_hex up /\
  exists store t, Resolve (sv_resolver s) (sv_write s) = Ok store /\ acceptable (st_max store) up t.
Proof.
  unfold Upload, writeStore, lift, bind at 1. destruct (Resolve _ _) as [store|]; [|done].
  unfold bind at 1. pose proof (Put_facts store reg hh (sv_class s) up w) as Hp.
  destruct (Put store reg hh (sv_class s) up w) as [[stored|] w1]; [|done].
  destruct Hp as [_ Hp]. destruct (Hp stored eq_refl) as (Hh & _ & Ha & _). clear Hp.
  assert (exists store0 t, @Ok media_error _ store = Ok store0 /\ acceptable (st_max store0) up t) as Hex by eauto.
  unfold outcome at 1. destruct (FindByContentHash _ _ w1) as [[p|e] w2] eqn:Hf.
  { intros [= <- _]. apply Find_facts in Hf as [? ?]. simpl. split_and!; congruence || done. }
  destruct e; try done. unfold bind at 1. destruct (takenAt _ _ w2) as [[taken|] w3]; [|done].
  cbv zeta. destruct (Validate _); [done|]. unfold outcome.
  match goal with |- context [Create ?b ?p w3] => destruct (Create b p w3) as [[p'|e] w4] eqn:Hc end.
  { intros [= <- _]. apply Create_facts in Hc as (? & ? & _). simpl in *. split_and!; congruence || done. }
  destruct e; try done. unfold bind. destruct (FindByContentHash _ _ w4) as [[p|e] w5] eqn:Hf2; [|done].
  intros [= <- _]. apply Find_facts in Hf2 as [? ?]. simpl. split_and!; congruence || done.
Qed.

(** ** When nothing is deleted meanwhile *)

(** A move of the environment that deletes no row and no object. *)
Definition keeps_op (o : ext_op) : Prop := match o with XDelete _ | XRemove _ _ => False | _ => True end.
Definition keeps_act (a : act) : Prop := match a with Others ops => Forall keeps_op ops | _ => True end.

Definition kept (Q : World -> Prop) (w : World) : Prop := Forall keeps_act (w_env w) /\ Q w.
Definition lasting (Q : World -> Prop) : Prop :=
  (forall e w, Q w -> Q (set_env e w)) /\ (forall o w, keeps_op o -> Q w -> Q (ext o w)).

Lemma ext_env o w : w_env (ext o w) = w_env w.
Proof. destruct o as [id r|id|b k data|b k|t]; simpl; [by destruct (insert_photo _ _ _)|done|by destruct b..|done]. Qed.

Lemma kept_exts Q ops w : lasting Q -> Forall keeps_op ops -> kept Q w -> kept Q (exts ops w).
Proof.
  intros [_ HQ] Hops. unfold exts. revert w. induction Hops as [|o ops Ho _ IH]; intros w [He Hw]; [done|].
  apply IH. split; [by rewrite ext_env|by apply HQ].
Qed.

Lemma io_kept {A} Q (m : M A) w : lasting Q -> kept Q w ->
  exists w1, kept Q w1 /\
    (io m w = m w1 \/ io m w = (Err ErrInfra, w1) \/ io m w = (Err ErrInfra, (m w1).2)).
Proof.
  intros HQ [He Hw]. unfold io. destruct (w_env w) as [|a env] eqn:E.
  { exists w. split; [by split; rewrite ?E|by left]. }
  apply Forall_cons in He as [Ha He].
  assert (kept Q (set_env env w)) as Hk by (split; [done|by apply HQ]).
  destruct a as [| | |ops]; [exists (set_env env w); auto..|].
  exists (exts ops (set_env env w)). split; [by apply kept_exts|by left].
Qed.

Lemma preserves_io_kept {A} Q (m : M A) : lasting Q -> preserves (kept Q) m -> preserves (kept Q) (io m).
Proof.
  intros HQ Hm w Hw. destruct (io_kept Q m w HQ Hw) as (w1 & Hw1 & [->|[->| ->]]); [by apply Hm|done|by apply Hm].
Qed.

Lemma preserves_io_file_kept {A} Q (m : M A) :
  lasting Q -> preserves (kept Q) m -> preserves (kept Q) (io_file m).
Proof.
  intros HQ Hm w Hw. pose proof (preserves_io_kept Q m HQ Hm w Hw) as Hio. unfold io_file.
  destruct (w_env w) as [|[] env] eqn:E; try done. destruct Hw as [He Hw]. rewrite E in He.
  apply Forall_cons in He as [_ He]. split; [done|by apply HQ].
Qed.

Definition calm : World -> Prop := kept (fun _ => True).

Lemma lasting_true : lasting (fun _ => True).
Proof. by split. Qed.

Lemma calm_free {A} (f : M A) : (forall w, w_env (f w).2 = w_env w) -> preserves calm f.
Proof. intros Hf w [He _]. split; [by rewrite Hf|done]. Qed.

Ltac calm_step :=
  match goal with
  | |- preserves _ (io _) => apply preserves_io_kept; [apply lasting_true|]
  | |- preserves _ (io_file _) => apply preserves_io_file_kept; [apply lasting_true|]
  | |- preserves _ (io_as _ _) => unfold io_as
  | |- preserves _ (bind _ _) => apply preserves_bind; [|intros ?]
  | |- preserves _ (outcome _ _) => apply preserves_outcome; [|intros ?]
  | |- preserves _ (deferred _ _) => apply preserves_deferred; [|intros ?]
  | |- preserves _ (match ?x with _ => _ end) => destruct x
  | |- preserves _ _ => solve [auto with photos]
  | |- preserves _ _ => apply calm_free; intros w; unfold rename_staged; cbn; by repeat case_match
  end.

Lemma Put_calm s reg h c up : preserves calm (Put s reg h c up).
Proof. unfold Put, LocalPut, S3Put, local_key, put_key, validateAndStage. repeat calm_step. Qed.

Lemma Open_calm s ref : preserves calm (Open s ref).
Proof. unfold Open, LocalOpen, S3Open, local_key. repeat calm_step. Qed.

Lemma Find_calm hh h : preserves calm (FindByContentHash hh h).
Proof. unfold FindByContentHash. repeat calm_step. Qed.

Lemma Create_calm b p : preserves calm (Create b p).
Proof.
  unfold Create, pg. calm_step. apply calm_free. intros w. by destruct (insert_photo _ _ _).
Qed.

(** The object a [Put] answered for is there, and stays. *)
Definition there (s : Store) (ref : string) (w : World) : Prop :=
  is_Some ((match st_backend s with BackendLocal => w_local w | _ => w_s3 w end) !! ref).

Lemma lasting_there s ref : lasting (there s ref).
Proof.
  split; [done|]. unfold there. intros [id r|id|b k data|b k|t] w Ho Hw; simpl; try done.
  - by destruct (insert_photo _ _ _).
  - destruct b; simpl; destruct (st_backend s); try done; apply lookup_insert_is_Some'; auto.
Qed.

Lemma Put_there s reg h c up w res w' :
  Put s reg h c up w = (Ok res, w') -> there s (put_ref res) w'.
Proof.
  assert (forall sg w0 w1 ref, io (rename_staged (s_path sg) ref) w0 = (Ok tt, w1) ->
    is_Some (w_local w1 !! ref)) as Hren.
  { intros sg w0 w1 ref. destruct (io_inv (rename_staged (s_path sg) ref) w0) as (w2 & _ & [->|(wx & -> & _)]); [|done].
    unfold rename_staged. destruct (sg_files _ !! _); [|done]. intros [= <-]. cbn. rewrite lookup_insert_eq. eauto. }
  assert (forall data w0 w1 ref, io (modify (store_blob BackendS3 ref data)) w0 = (Ok tt, w1) ->
    is_Some (w_s3 w1 !! ref)) as Hst.
  { intros data w0 w1 ref. destruct (io_inv (modify (store_blob BackendS3 ref data)) w0) as (w2 & _ & [->|(wx & -> & _)]); [|done].
    intros [= <-]. cbn. rewrite lookup_insert_eq. eauto. }
  unfold Put, there. destruct (st_backend s); unfold LocalPut, S3Put; unfold bind at 1;
    (destruct (validateAndStage _ _ _) as [[sg|] w1]; [|done]); unfold deferred; unfold bind;
    (destruct (put_key _ _ _ _ _) as [[key|] w2]; [|done]).
  - destruct (local_key _ _ _) as [[]w3]; [|done]. destruct (io (ret tt) w3) as [[]w4]; [|done].
    destruct (io _ w4) as [[[]|] w5] eqn:E; [|done]. cbn. intros [= <- <-]. by eapply Hren.
  - destruct (io _ w2) as [[data|] w3]; [|done]. destruct (io _ w3) as [[[]|] w4] eqn:E; [|done].
    intros [= <- <-]. exact (Hst _ _ _ _ E).
  - destruct (io _ w2) as [[data|] w3]; [|done]. destruct (io _ w3) as [[[]|] w4] eqn:E; [|done].
    intros [= <- <-]. exact (Hst _ _ _ _ E).
Qed.

Lemma Open_there s ref w : kept (there s ref) w -> (Open s ref w).1 <> Err ErrPhotoNotFound.
Proof.
  intros Hw. unfold Open, LocalOpen, S3Open, local_key, bind.
  pose proof (lasting_there s ref) as HL. revert HL Hw. unfold there. destruct (st_backend s); intros HL Hw.
  - destruct (resolve _ _ _); [|done]. cbn [ret].
    match goal with |- context [io ?m w] => destruct (io_kept _ m w HL Hw) as (w1 & [_ [b Hb]] & [->|[->| ->]]) end; try done.
    by rewrite Hb.
  - match goal with |- context [io ?m w] => destruct (io_kept _ m w HL Hw) as (w1 & [_ [b Hb]] & [->|[->| ->]]) end; try done.
    rewrite Hb. by case_match.
  - match goal with |- context [io ?m w] => destruct (io_kept _ m w HL Hw) as (w1 & [_ [b Hb]] & [->|[->| ->]]) end; try done.
    rewrite Hb. by case_match.
Qed.

(** The row a lost race ran into is there, and stays. *)
Definition taken_hash (hh : Uuid) (hash : string) (w : World) : Prop := select_hash (w_db w) hh hash <> None.

Lemma select_hash_grows hh hash d id r : photos d !! id = None ->
  select_hash d hh hash <> None -> select_hash (with_photos (<[id := r]> (photos d)) d) hh hash <> None.
Proof.
  intros Hid Hs Hn. destruct (select_hash d hh hash) as [[id' r']|] eqn:E; [|done].
  apply select_hash_Some in E as (Hr & Hh & Hp).
  eapply (select_hash_None _ _ _ id' r') in Hn; [done| |done]. simpl. apply lookup_insert_Some. right.
  split; [congruence|done].
Qed.

Lemma lasting_taken hh hash : lasting (taken_hash hh hash).
Proof.
  split; [done|]. unfold taken_hash. intros [id r|id|b k data|b k|t] w Ho Hw; simpl; try done.
  - destruct (insert_photo id r (w_db w)) as [d|] eqn:E; [|done]. simpl.
    apply insert_photo_ok in E as (_ & Hid & _ & _ & _ & ->). by apply select_hash_grows.
  - by destruct b.
Qed.

Lemma Create_lost b p w w' : Create b p w = (Err ErrDuplicatePhoto, w') ->
  match nullableText (p_hash p) with Some h => taken_hash (p_household p) h w' | None => False end.
Proof.
  unfold Create, pg.
  match goal with |- context [io ?f w] => destruct (io_inv f w) as (w1 & _ & [->|(w2 & -> & _)]) end; [|done].
  unfold insert_photo. destruct (negb (row_checks _)); [done|]. case_decide; [done|].
  cbn [row_of pr_hash pr_household]. unfold taken_hash. destruct (nullableText (p_hash p)) as [h|].
  - destruct (select_hash (w_db w1) (p_household p) h) eqn:E; [intros [= <-]; by rewrite E|].
    destruct (negb _); [done|]. by destruct (negb _).
  - destruct (negb _); [done|]. by destruct (negb _).
Qed.

Lemma Find_taken hh h w : kept (taken_hash hh h) w -> TrimSpace h <> "" ->
  (FindByContentHash hh h w).1 <> Err ErrPhotoNotFound.
Proof.
  intros Hw Ht. unfold FindByContentHash. rewrite decide_False by done.
  match goal with |- context [io ?m w] =>
    destruct (io_kept _ m w (lasting_taken hh h) Hw) as (w1 & [_ Hs] & [->|[->| ->]]) end; try done.
  unfold taken_hash in Hs. destruct (select_hash _ _ _) as [kv|]; [|done]. cbn [scan_one fst]. by destruct (scanPhoto kv).
Qed.

Lemma Upload_not_missing s reg id hh uploader up w :
  Forall keeps_act (w_env w) -> (Upload s reg id hh uploader up w).1 <> Err ErrPhotoNotFound.
Proof.
  intros He. assert (calm w) as Hw by done. unfold Upload, writeStore, lift, bind at 1.
  destruct (Resolve _ _) as [store|e] eqn:ER; cycle 1.
  { unfold Resolve in ER. destruct (sv_resolver s _); [done|]. by injection ER as <-. }
  unfold bind at 1. pose proof (Put_never ErrPhotoNotFound store reg hh (sv_class s) up (or_intror eq_refl) w) as Hn.
  pose proof (Put_calm store reg hh (sv_class s) up w Hw) as Hw1.
  pose proof (Put_facts store reg hh (sv_class s) up w) as Hf.
  destruct (Put store reg hh (sv_class s) up w) as [[stored|e] w1] eqn:EP; simpl in Hn; [|cbn; intros [= ->]; by apply Hn].
  apply Put_there in EP. destruct Hf as [_ Hf]. destruct (Hf stored eq_refl) as (Hh & _). clear Hf Hn Hw.
  unfold outcome at 1. assert (kept (there store (put_ref stored)) w1) as Hk by (by destruct Hw1).
  assert (preserves (kept (there store (put_ref stored))) (FindByContentHash hh (put_hash stored))) as Hpf.
  { unfold FindByContentHash. case_decide; [apply preserves_fail|]. apply preserves_io_kept; [apply lasting_there|]. by intros w0. }
  specialize (Hpf w1 Hk). destruct (FindByContentHash _ _ w1) as [[p|e] w2]; [done|]. simpl in Hpf. destruct e; try done.
  unfold bind at 1, takenAt, bind at 1. pose proof (Open_there _ _ _ Hpf) as Ho.
  pose proof (Open_calm store (put_ref stored) w2 (conj (proj1 Hpf) I)) as Hw3.
  destruct (Open _ _ w2) as [[data|e] w3]; [|simpl in *; congruence]. cbn [ret]. simpl in Hw3.
  cbv zeta. destruct (Validate _); [done|]. unfold outcome.
  match goal with |- context [Create ?b ?p w3] =>
    pose proof (Create_never_missing b p w3) as Hn; pose proof (Create_calm b p w3 Hw3) as Hw4;
    destruct (Create b p w3) as [[p'|e] w4] eqn:Hc end; [done|].
  simpl in Hn, Hw4. destruct e; try done. apply Create_lost in Hc. cbn [p_hash p_household] in Hc.
  unfold nullableText in Hc. cbv zeta in Hc. rewrite Hh, (hash_trim (sha256_hex up)) in * by apply sha256_hex_valid.
  case_decide as Hne; [done|]. unfold bind.
  pose proof (Find_taken hh (sha256_hex up) w4 (conj (proj1 Hw4) Hc)) as Hfin.
  rewrite hash_trim in Hfin by apply sha256_hex_valid. specialize (Hfin Hne).
  destruct (FindByContentHash _ _ w4) as [[p|e] w5]; [done|]. cbn in *. intros [= ->]. by apply Hfin.
Qed.

(** C8. Whatever other processes do between its calls, and wherever a call
    fails: [Upload] keeps the table's constraints (each household's content
    hashes unique) and leaves the staging files as they were, but for one file of its
    own when the one removal it asked for failed; a lost race is not reported as a
    duplicate, and, unless somebody deletes a row or an object meanwhile, not as a
    missing photo either; and any photo it returns, new or existing, belongs to the
    household and carries the sha256 of exactly the bytes uploaded, within the
    size limit and of an accepted type. *)
Theorem Upload_sound (s : PhotoService) (reg : gset string) (id hh uploader : Uuid)
    (up : list Z) (w : World) :
  db_ok (w_db w) ->
  let '(r, w') := Upload s reg id hh uploader up w in
  db_ok (w_db w') /\
  tidied (w_staged w) (w_staged w') /\
  r <> Err ErrDuplicatePhoto /\
  (Forall keeps_act (w_env w) -> r <> Err ErrPhotoNotFound) /\
  forall u, r = Ok u ->
    p_household (u_photo u) = hh /\ p_hash (u_photo u) = sha256_hex up /\
    exists store t, Resolve (sv_resolver s) (sv_write s) = Ok store /\ acceptable (st_max store) up t.
Proof.
  intros Hw. destruct (Upload s reg id hh uploader up w) as [r w'] eqn:E. split_and!.
  - change w' with (r, w').2. rewrite <- E. by apply Upload_preserves.
  - change w' with (r, w').2. rewrite <- E. by apply Upload_staged.
  - change r with (r, w').1. rewrite <- E. apply Upload_never_dup.
  - change r with (r, w').1. rewrite <- E. apply Upload_not_missing.
  - intros u ->. by eapply Upload_facts.
Qed.
End upload.

(** ** Without interference: what each call does, exactly *)

Section quiet.
Context `{UuidLib, Codecs}.

Lemma io_quiet {A} (m : M A) w : w_env w = [] -> io m w = m w.
Proof. intros E. unfold io. by rewrite E. Qed.

Lemma io_file_quiet {A} (m : M A) w : w_env w = [] -> io_file m w = m w.
Proof. intros E. unfold io_file. rewrite E. by apply io_quiet. Qed.

Lemma io_as_quiet {A} e (m : M A) w : w_env w = [] ->
  io_as e m w = match m w with (Ok a, w) => (Ok a, w) | (Err _, w) => (Err e, w) end.
Proof. intros E. unfold io_as, outcome. rewrite io_quiet by done. by destruct (m w) as [[]]. Qed.

Lemma write_added p data st w : w_staged w = add_file p [] st ->
  write_staged p data w = set_staged (add_file p data st) w.
Proof.
  intros E. unfold write_staged, add_file, set_files. rewrite E. simpl. by rewrite insert_insert_eq.
Qed.

Lemma validate_quiet max up w sg w' :
  w_env w = [] -> validateAndStage max up w = (Ok sg, w') ->
  w' = set_staged (add_file (s_path sg) up (w_staged w)) w.
Proof.
  intros Hq. unfold validateAndStage. set (lim := take _ up).
  unfold bind at 1. rewrite io_quiet by done. cbn [ret].
  destruct (detectContentType (take sniffLen lim)) as [t|] eqn:Ht; [|done].
  unfold bind at 1. rewrite io_file_quiet by done.
  unfold deferred, bind at 1. rewrite io_quiet by done. cbn [modify].
  rewrite (write_added _ _ (w_staged w)) by done.
  destruct (Z.ltb_spec max (Z.of_nat (length lim))) as [|Hmax]; [done|].
  assert (fits max up) as Hfit by (apply take_limit; [done|by fold lim; rewrite Ht]).
  assert (lim = up) as Hlim by (by apply fits_take). rewrite Hlim. clear lim Hlim Hmax Ht Hfit.
  unfold bind at 1. rewrite io_quiet by done. cbn [ret]. unfold bind at 1. rewrite io_as_quiet by done. cbn [ret].
  destruct (decodeConfig up) as [[[cw ch] format]|]; [|done].
  destruct (negb (bool_decide _)); [done|]. destruct (_ <? _); [done|].
  unfold bind at 1. rewrite io_quiet by done. cbn [ret]. unfold bind at 1. rewrite io_as_quiet by done. cbn [ret].
  destruct (decodes up); [|done]. cbn. by intros [= <- <-].
Qed.

Lemma LocalPut_quiet s reg h c up w res w' :
  w_env w = [] -> LocalPut s reg h c up w = (Ok res, w') ->
  w' = set_staged (w_staged w) (store_blob BackendLocal (put_ref res) up w) /\
  resolve (st_cwd s) (st_root s) (put_ref res) <> None.
Proof.
  intros Hq. unfold LocalPut, bind at 1. pose proof (validate_staged (st_max s) up w _ eq_refl) as Hv.
  destruct (validateAndStage _ _ _) as [[sg|] w1] eqn:E; [|done].
  apply validate_quiet in E as ->; [|done]. destruct Hv as (Hp & _).
  unfold deferred, bind at 1. unfold put_key, lift at 1.
  destruct (buildStorageKey _ _ _ _ _) as [key|]; [|done]. cbn [res_map_err].
  unfold bind at 1, local_key. destruct (resolve _ _ key) eqn:Hr; [|done]. cbn [ret].
  unfold bind at 1. rewrite io_quiet by done. cbn [ret]. unfold bind at 1. rewrite io_quiet by done.
  rewrite (rename_staged_run (w_staged w) _ up) by done. cbn. intros [= <- <-]. simpl.
  by rewrite Hr.
Qed.

Lemma S3Put_quiet s reg h c up w res w' :
  w_env w = [] -> S3Put s reg h c up w = (Ok res, w') ->
  exists st, w' = set_staged st (store_blob BackendS3 (put_ref res) up w).
Proof.
  intros Hq. unfold S3Put, bind at 1. pose proof (validate_staged (st_max s) up w _ eq_refl) as Hv.
  destruct (validateAndStage _ _ _) as [[sg|] w1] eqn:E; [|done].
  apply validate_quiet in E as ->; [|done]. destruct Hv as (Hp & _).
  unfold deferred, bind at 1. unfold put_key, lift at 1.
  destruct (buildStorageKey _ _ _ _ _) as [key|]; [|done]. cbn [res_map_err].
  unfold bind at 1. rewrite io_quiet by done. cbn [w_staged set_staged sg_files add_file set_files]. rewrite lookup_insert_eq.
  unfold bind at 1. rewrite io_quiet by done. cbn [modify ret]. rewrite removeStaged_run.
  intros [= <- <-]. eexists. reflexivity.
Qed.

(** A store as the resolver hands it out: for a backend it knows. *)
Definition store_wf (s : Store) : Prop := backend_valid (st_backend s) = true.

Lemma Put_quiet s reg h c up w res w' :
  w_env w = [] -> store_wf s -> Put s reg h c up w = (Ok res, w') ->
  (exists st, w' = set_staged st (store_blob (st_backend s) (put_ref res) up w)) /\
  (st_backend s = BackendLocal -> resolve (st_cwd s) (st_root s) (put_ref res) <> None).
Proof.
  intros Hq Hs. unfold Put, store_wf in *. destruct (st_backend s); [..|done].
  - intros [-> ?]%LocalPut_quiet; [|done]. eauto.
  - intros ?%S3Put_quiet; [|done]. by split.
Qed.

Lemma blobs_store b key up w : backend_valid b = true ->
  blobs b (store_blob b key up w) !! key = Some (mkBlob up (w_now w)).
Proof. intros Hb. unfold store_blob. destruct b; [..|done]; simpl; apply lookup_insert_eq. Qed.

Lemma Open_blob s ref w b :
  w_env w = [] -> store_wf s -> blobs (st_backend s) w !! ref = Some b ->
  fits (st_max s) (b_bytes b) ->
  (st_backend s = BackendLocal -> resolve (st_cwd s) (st_root s) ref <> None) ->
  Open s ref w = (Ok (b_bytes b), w).
Proof.
  intros Hq Hs Hb Hlen Hr. unfold Open, LocalOpen, S3Open, store_wf in *. destruct (st_backend s); [..|done].
  - unfold local_key, bind. destruct (resolve _ _ _); [|by destruct Hr]. cbn [ret].
    rewrite io_quiet by done. simpl in Hb. by rewrite Hb.
  - rewrite io_quiet by done. simpl in Hb. rewrite Hb.
    rewrite fits_take by done. cbv zeta. by rewrite (proj2 (Z.ltb_ge _ _)) by (by apply fits_le).
Qed.

Lemma db_store b key up w : w_db (store_blob b key up w) = w_db w.
Proof. by destruct b. Qed.
Lemma env_store b key up w : w_env (store_blob b key up w) = w_env w.
Proof. by destruct b. Qed.

(** What a migrator writes is there, and reads back through an S3 store large enough. *)
Lemma PutAt_reads_back s ref data w :
  w_env w = [] -> st_backend s = BackendS3 -> fits (st_max s) data ->
  let '(r, w') := PutAt ref data w in
  r = Ok tt /\ ObjectExists ref w' = (Ok true, w') /\ Open s ref w' = (Ok data, w').
Proof.
  intros Hq Hs Hlen. unfold PutAt. rewrite io_quiet by done. cbn [modify].
  set (w' := store_blob _ _ _ _). assert (w_env w' = []) as Hq' by (subst w'; by rewrite env_store).
  assert (w_s3 w' !! ref = Some (mkBlob data (w_now w))) as Hb by apply lookup_insert_eq.
  split_and!; [done| |].
  - unfold ObjectExists. rewrite io_quiet by done. by rewrite Hb.
  - apply (Open_blob s ref w' (mkBlob data (w_now w))); rewrite ?Hs; try done. unfold store_wf. by rewrite Hs.
Qed.
Lemma now_store b key up w : w_now (store_blob b key up w) = w_now w.
Proof. by destruct b. Qed.

Lemma ParseStorageBackend_string b : backend_valid b = true -> ParseStorageBackend (backend_string b) = Some b.
Proof. by destruct b. Qed.

(** The Get of a row, scanned. *)
Lemma Get_quiet id w : w_env w = [] ->
  Get id w = (scan_one (r ← photos (w_db w) !! id; Some (id, r)), w).
Proof. intros Hq. unfold Get. by rewrite io_quiet. Qed.

(** A new (not duplicate) upload, taken apart. *)
Lemma Upload_new_quiet s reg id hh uploader up w store u w' :
  w_env w = [] -> Resolve (sv_resolver s) (sv_write s) = Ok store -> store_wf store ->
  Upload s reg id hh uploader up w = (Ok u, w') -> u_duplicate u = false ->
  exists key t d row, put_ok reg (st_max store) hh (sv_class s) up
      (mkPut key (sha256_hex up) (Z.of_nat (length up)) t) /\
    row = mkRow hh key (backend_string (sv_write s)) (nullableText (sha256_hex up))
            (Z.of_nat (length up)) t (exif_taken up) (Some uploader) (w_now w) /\
    insert_photo id row (w_db w) = Ok d /\ p_id (u_photo u) = id /\
    p_backend (u_photo u) = sv_write s /\ p_type (u_photo u) = t /\
    (exists st, w' = set_db d (set_staged st (store_blob (st_backend store) key up w))) /\
    (st_backend store = BackendLocal -> resolve (st_cwd store) (st_root store) key <> None).
Proof.
  intros Hq Hst Hwf. unfold Upload, writeStore. rewrite Hst. unfold lift, bind at 1. unfold bind at 1.
  pose proof (Put_facts store reg hh (sv_class s) up w) as Hp.
  destruct (Put store reg hh (sv_class s) up w) as [[res|] w1] eqn:EP; [|done].
  destruct Hp as [_ Hp]. specialize (Hp res eq_refl). apply Put_quiet in EP as [[st ->] Hres]; [|done..].
  destruct res as [key h z t]. destruct Hp as (Hh & Hz & Ha & Hk). simpl in Hh, Hz, Ha, Hk, Hres. subst h z.
  unfold outcome at 1. cbn [put_hash put_ref put_size put_type].
  set (w1 := set_staged st _). assert (w_env w1 = []) as Hq1 by (unfold w1; simpl; by rewrite env_store).
  destruct (FindByContentHash _ _ w1) as [[p|e] w2] eqn:Hf; [by intros [= <- _]|].
  assert (w2 = w1 /\ (e = ErrPhotoNotFound -> True)) as [-> _].
  { revert Hf. unfold FindByContentHash. case_decide; [by intros [= _ <-]|].
    rewrite io_quiet by done. by intros [= _ <-]. }
  destruct e; try done. unfold bind at 1. unfold takenAt, bind at 1.
  rewrite (Open_blob store key w1 (mkBlob up (w_now w))); simpl; try done.
  2: rewrite <- (blobs_store (st_backend store) key up w) by done; by destruct (st_backend store).
  2: by destruct Ha as (_ & ? & _).
  destruct (Validate _); [done|]. unfold outcome, Create, pg. rewrite io_quiet by done. cbn [p_id].
  replace (w_now w1) with (w_now w) by (unfold w1; simpl; by rewrite now_store).
  replace (w_db w1) with (w_db w) by (unfold w1; simpl; by rewrite db_store).
  destruct (insert_photo id _ (w_db w)) as [d|e] eqn:Hi; simpl.
  - intros [= <- <-] _. eexists key, t, d, _. split_and!; try done. by exists st.
  - unfold create_error, mapFKViolation. repeat case_match; simpl in *; try done.
    all: unfold bind; destruct (FindByContentHash _ _ _) as [[?|?] ?]; [|done]; intros [= <- _]; done.
Qed.

Lemma validate_forward max up w t :
  w_env w = [] -> acceptable max up t ->
  exists p, validateAndStage max up w =
    (Ok (mkStaged p t (sha256_hex up) (Z.of_nat (length up))), set_staged (add_file p up (w_staged w)) w) /\
    sg_files (w_staged w) !! p = None.
Proof.
  intros Hq (Hd & Hmax & cw & ch & f & Hc & Hf & Hpx & Hdec). unfold validateAndStage.
  rewrite fits_take by done.
  unfold bind at 1. rewrite io_quiet by done. cbn [ret]. rewrite Hd.
  unfold bind at 1. rewrite io_file_quiet by done. unfold deferred, bind at 1.
  rewrite io_quiet by done. cbn [modify]. rewrite (write_added _ _ (w_staged w)) by done.
  rewrite (proj2 (Z.ltb_ge _ _)) by (by apply fits_le).
  unfold bind at 1. rewrite io_quiet by done. cbn [ret]. unfold bind at 1. rewrite io_as_quiet by done. cbn [ret].
  rewrite Hc, bool_decide_true by done. cbn [negb]. rewrite (proj2 (Z.ltb_ge _ _)) by done.
  unfold bind at 1. rewrite io_quiet by done. cbn [ret]. unfold bind at 1. rewrite io_as_quiet by done. cbn [ret].
  rewrite Hdec. cbn. eexists. split; [done|apply not_elem_of_dom, is_fresh].
Qed.

Lemma Put_forward s reg h c up w t key :
  w_env w = [] -> store_wf s ->
  put_ok reg (st_max s) h c up (mkPut key (sha256_hex up) (Z.of_nat (length up)) t) ->
  (st_backend s = BackendLocal -> resolve (st_cwd s) (st_root s) key <> None) ->
  exists st, Put s reg h c up w =
    (Ok (mkPut key (sha256_hex up) (Z.of_nat (length up)) t), set_staged st (store_blob (st_backend s) key up w)).
Proof.
  intros Hq Hs (_ & _ & Ha & ext & He & Hk) Hr. simpl in Ha, He, Hk.
  destruct (validate_forward (st_max s) up w t Hq Ha) as (p & Hv & Hp).
  assert (forall w', put_key reg h c (mkStaged p t (sha256_hex up) (Z.of_nat (length up))) w' = (Ok key, w')) as Hpk
    by (intros w'; unfold put_key, lift; cbn [s_hash s_type]; rewrite He; change (default _ (Some ext)) with ext; by rewrite Hk).
  unfold Put, store_wf in *. destruct (st_backend s); [..|done].
  - unfold LocalPut, bind at 1. rewrite Hv. unfold deferred, bind at 1. rewrite Hpk.
    unfold bind at 1, local_key. destruct (resolve _ _ key) eqn:E; [|by destruct Hr]. cbn [ret].
    unfold bind at 1. rewrite io_quiet by done. cbn [ret]. unfold bind at 1. rewrite io_quiet by done.
    rewrite (rename_staged_run (w_staged w) _ up) by done. eexists. reflexivity.
  - unfold S3Put, bind at 1. rewrite Hv. unfold deferred, bind at 1. rewrite Hpk.
    unfold bind at 1. rewrite io_quiet by done. cbn [w_staged set_staged sg_files add_file set_files s_path]. rewrite lookup_insert_eq.
    unfold bind at 1. rewrite io_quiet by done. cbn [modify ret]. rewrite removeStaged_run. eexists. reflexivity.
Qed.

Lemma nullableText_hash up : nullableText (sha256_hex up) = Some (sha256_hex up).
Proof.
  pose proof (sha256_hex_valid up) as Hv. unfold nullableText. rewrite hash_trim by done.
  cbv zeta. rewrite decide_False; [done|]. intros E. by rewrite E in Hv.
Qed.

Lemma scan_row id hh key b h z t taken m now : backend_valid b = true ->
  scanPhoto (id, mkRow hh key (backend_string b) (Some h) z t taken (Some m) now) =
    Some (mkPhoto id hh key h z t taken (Some m) now b).
Proof.
  intros Hb. unfold scanPhoto. cbn [pr_household pr_backend pr_uploader pr_hash pr_ref].
  rewrite !uuid_parse_string, ParseStorageBackend_string by done. done.
Qed.

Lemma key_type names h c max up key t :
  put_ok (register_all names) max h c up (mkPut key (sha256_hex up) (Z.of_nat (length up)) t) ->
  contentTypeForRef key = t.
Proof. intros (_ & _ & _ & ext & He & Hk). simpl in *. by eapply ref_content_type. Qed.

(** C37. A stored photo reads back: the bytes of a new upload are what
    [OpenBytes] later returns, with the type verified at upload, through any
    service whose resolver still maps the row's backend to the same store, even
    when that service now writes to another backend. Uploading the same bytes
    again for the household is answered with the existing photo, marked as a
    duplicate, and changes no row. *)
Theorem upload_read_back (names : list string) (s s2 : PhotoService) (id id2 hh uploader uploader2 : Uuid)
    (up : list Z) (w w' : World) (store : Store) (u : UploadResult) :
  db_ok (w_db w) -> w_env w = [] ->
  Resolve (sv_resolver s) (sv_write s) = Ok store -> st_backend store = sv_write s ->
  backend_valid (sv_write s) = true ->
  Resolve (sv_resolver s2) (sv_write s) = Ok store ->
  Upload s (register_all names) id hh uploader up w = (Ok u, w') -> u_duplicate u = false ->
  OpenBytes s2 hh (p_id (u_photo u)) w' = (Ok (up, p_type (u_photo u)), w') /\
  (exists u2 w2, Upload s (register_all names) id2 hh uploader2 up w' = (Ok u2, w2) /\
     u_duplicate u2 = true /\ p_id (u_photo u2) = p_id (u_photo u) /\ w_db w2 = w_db w').
Proof.
  intros Hdb Hq Hs1 Hsb Hv Hs2 HU Hdup. assert (store_wf store) as Hwf by (unfold store_wf; by rewrite Hsb).
  destruct (Upload_new_quiet _ _ _ _ _ _ _ _ _ _ Hq Hs1 Hwf HU Hdup)
    as (key & t & d & row & Hput & Hrow & Hins & Hid & Hbk & Htype & [st ->] & Hres).
  rewrite nullableText_hash in Hrow. rewrite Hid, Htype.
  pose proof (db_ok_insert _ _ _ _ Hdb Hins) as Hdb'.
  assert (photos d !! id = Some row) as Hlook.
  { apply insert_photo_ok in Hins as (_ & _ & _ & _ & _ & ->). apply lookup_insert_eq. }
  set (w1 := set_db d _). assert (w_env w1 = []) as Hq1 by (simpl; by rewrite env_store).
  assert (scanPhoto (id, row) = Some (mkPhoto id hh key (sha256_hex up) (Z.of_nat (length up)) t
    (exif_taken up) (Some uploader) (w_now w) (sv_write s))) as Hscan by (rewrite Hrow; by apply scan_row).
  split.
  - unfold OpenBytes, ownedPhoto, bind. rewrite Get_quiet by done. cbn [w_db set_db w1].
    rewrite Hlook. cbn [mbind option_bind scan_one]. rewrite Hscan. cbn [p_household].
    rewrite decide_True by done. cbn [ret]. unfold readStore, lift. cbn [p_backend]. rewrite Hs2.
    cbn [p_ref]. rewrite (Open_blob store key w1 (mkBlob up (w_now w))); try done.
    + cbn. by rewrite (key_type _ _ _ _ _ _ _ Hput).
    + rewrite <- (blobs_store (st_backend store) key up w Hwf). subst w1. by destruct (st_backend store).
    + by destruct Hput as (_ & _ & (_ & ? & _) & _).
  - destruct (Put_forward store (register_all names) hh (sv_class s) up w1 t key) as [st2 HP]; [done..|].
    eexists _, _. unfold Upload, writeStore. rewrite Hs1. unfold lift, bind at 1. unfold bind at 1. rewrite HP. unfold outcome at 1.
    cbn [put_hash]. unfold FindByContentHash at 1.
    rewrite decide_False by (rewrite hash_trim by apply sha256_hex_valid; intros E;
      pose proof (sha256_hex_valid up) as Hx; by rewrite E in Hx).
    rewrite io_quiet by (cbn [w_env set_staged]; by rewrite env_store).
    cbn [w_db set_staged]. rewrite db_store. cbn [w_db set_db w1].
    rewrite (select_hash_unique d hh (sha256_hex up) id row Hdb' Hlook) by (by rewrite Hrow).
    cbn [scan_one]. rewrite Hscan. cbn [ret]. split; [reflexivity|]. simpl. by rewrite db_store.
Qed.

(** C9. Tenants are isolated: an id of another household's photo behaves exactly
    like an unknown id on every path, and nothing changes. A deletion by the
    owner removes that row and no other, and never touches the stored bytes. *)
Theorem tenant_isolation (s : PhotoService) (hh id : Uuid) (w : World) :
  w_env w = [] ->
  match photos (w_db w) !! id with
  | Some r =>
    scanPhoto (id, r) <> None ->
    if decide (pr_household r = hh)
    then Delete hh id w = (Ok tt, set_db (with_photos (delete id (photos (w_db w))) (w_db w)) w)
    else Delete hh id w = (Err ErrPhotoNotFound, w) /\ OpenBytes s hh id w = (Err ErrPhotoNotFound, w) /\
         RawServe s hh id w = (Err ErrPhotoNotFound, w)
  | None =>
    Delete hh id w = (Err ErrPhotoNotFound, w) /\ OpenBytes s hh id w = (Err ErrPhotoNotFound, w) /\
    RawServe s hh id w = (Err ErrPhotoNotFound, w)
  end.
Proof.
  intros Hq.
  assert (forall hh, ownedPhoto hh id w = match photos (w_db w) !! id with
    | None => (Err ErrPhotoNotFound, w)
    | Some r => match scanPhoto (id, r) with
                | Some p => if decide (p_household p = hh) then (Ok p, w) else (Err ErrPhotoNotFound, w)
                | None => (Err ErrScan, w)
                end
    end) as Hown.
  { intros hh'. unfold ownedPhoto, bind. rewrite Get_quiet by done.
    destruct (photos (w_db w) !! id) as [r|]; [|done]. cbn [mbind option_bind scan_one].
    destruct (scanPhoto (id, r)); [|done]. by case_decide. }
  unfold Delete, OpenBytes, RawServe, bind. rewrite Hown.
  destruct (photos (w_db w) !! id) as [r|] eqn:Hr; [|done]. intros Hscan.
  destruct (scanPhoto (id, r)) as [p|] eqn:Hp; [|done].
  apply scanPhoto_facts in Hp as (_ & Hh & _). rewrite Hh.
  case_decide; [|done]. unfold DeletePhoto. rewrite io_quiet by done.
  by rewrite decide_True by (rewrite Hr; eauto).
Qed.
End quiet.

(** ** Witnesses *)

(** ** The composition root's resolver *)

Section wiring.
Context `{UuidLib, Codecs}.

Lemma io_tt_inv w : fst (io (ret tt) w) = Ok tt \/ fst (io (ret tt) w) = Err ErrInfra.
Proof. unfold io. destruct (w_env w) as [|[]]; auto. Qed.

Lemma NewLocalPhotoStore_ok cwd root maxb w s w' : NewLocalPhotoStore cwd root maxb w = (Ok s, w') ->
  st_backend s = BackendLocal /\ 0 < st_max s /\ st_max s = maxb /\ TrimSpace (st_root s) <> ""%string.
Proof.
  unfold NewLocalPhotoStore. case_bool_decide as Hr; [done|]. destruct (Z.leb_spec maxb 0); [done|].
  unfold bind. destruct (io (ret tt) w) as [[[]|e] w1]; [|done]. intros [= <- <-]. by split_and!.
Qed.

Lemma NewS3PhotoStore_ok cwd p w s ttl sse w' : NewS3PhotoStore cwd p w = (Ok (s, ttl, sse), w') ->
  st_backend s = BackendS3 /\ 0 < st_max s /\ 0 < ttl.
Proof.
  unfold NewS3PhotoStore. destruct (s3_params_ok p) eqn:Hp; [|done]. cbn [negb]. unfold bind.
  destruct (io (ret tt) w) as [[[]|e] w1]; [|done]. destruct (io (ret tt) w1) as [[[]|e] w2]; [|done].
  intros [= <- <- <- <-]. unfold s3_params_ok in Hp. rewrite !andb_true_iff, !Z.ltb_lt in Hp. cbn. naive_solver.
Qed.

(** What the composition root hands to the services: the write target it was asked for,
    which resolves to a store of that backend, and the local store for older rows. *)
Lemma NewPhotoStoreResolver_target cfg w r b w' : NewPhotoStoreResolver cfg w = (Ok (r, b), w') ->
  b = rc_backend cfg /\ (exists s, Resolve r b = Ok s /\ st_backend s = b /\ 0 < st_max s) /\
  (exists l, Resolve r BackendLocal = Ok l /\ st_backend l = BackendLocal /\ 0 < st_max l).
Proof.
  unfold NewPhotoStoreResolver. destruct (backend_valid (rc_backend cfg)) eqn:Hb; [|done]. cbn [negb].
  unfold bind at 1. destruct (NewLocalPhotoStore _ _ _ w) as [[l|e] w1] eqn:Hl; [|done].
  apply NewLocalPhotoStore_ok in Hl as (Hlb & Hlm & _). case_bool_decide as Hs3.
  - unfold bind at 1 2. destruct (NewS3PhotoStore _ _ w1) as [[[[s ttl] sse]|e] w2] eqn:Hs; [|done].
    apply NewS3PhotoStore_ok in Hs as (Hsb & Hsm & _). cbn. intros [= <- <- <-]. rewrite Hs3.
    split_and!; [done|exists s|exists l]; by split_and!.
  - unfold bind. cbn. intros [= <- <- <-]. assert (rc_backend cfg = BackendLocal) as -> by (by destruct (rc_backend cfg)).
    split_and!; [done|exists l|exists l]; by split_and!.
Qed.
End wiring.

Module PhotoWitness.
Import DemoUuid MediaWitness.

#[local] Instance demo_codecs : Codecs :=
  {| decodeConfig := fun _ => Some (1, 1, "png"%string); decodes := fun _ => true;
     exif_taken := fun _ => None; sha256_hex := fun _ => demo_sum; sha256_hex_valid := fun _ => eq_refl |}.

Definition demo_store : Store := mkStore BackendLocal 100 "/srv" "/media".
Definition demo_resolver : Resolver :=
  fun b => match b with BackendLocal => Some demo_store | _ => None end.
Definition demo_service : PhotoService := mkService "album" demo_resolver BackendLocal 60.
(** The same deployment after new writes were switched to S3. *)
Definition demo_service2 : PhotoService := mkService "album" demo_resolver BackendS3 60.
Definition demo_png : list Z := [0x89; 0x50; 0x4E; 0x47; 0x0D; 0x0A; 0x1A; 0x0A; 7].

Definition demo_db : DB (H := demo_uuid) := mkDB (H := demo_uuid) ∅ {[true]} {[false := true]}.
Definition demo_world (env : list (act (H := demo_uuid))) : World :=
  mkWorld (H := demo_uuid) demo_db ∅ ∅ ∅ 5 env.

Lemma demo_db_ok : db_ok demo_db.
Proof. split; simpl; intros *; rewrite lookup_empty; discriminate. Qed.

(** Another process inserts a row with the same hash just before ours. *)
Definition demo_race : list act :=
  [Quiet; Quiet; Quiet; Quiet; Quiet; Quiet; Quiet; Quiet; Quiet; Quiet; Quiet;
   Others [XInsert (H := demo_uuid) false (mkRow (H := demo_uuid) true "k" "s3" (Some demo_sum) 9 "image/png" None None 4)]].

Lemma Upload_sound_witness :
  match Upload (H := demo_uuid) demo_service (register_all ["album"]) true true false demo_png (demo_world demo_race) with
  | (Ok u, w') => u_duplicate u = true /\ p_id (u_photo u) = false /\ db_ok (w_db w')
  | _ => False
  end.
Proof.
  pose proof (Upload_sound (H := demo_uuid) demo_service (register_all ["album"]) true true false demo_png
    (demo_world demo_race) demo_db_ok) as Hs.
  destruct (Upload _ _ _ _ _ _ _) as [r w'] eqn:E. destruct Hs as (Hdb & _).
  assert (exists u, r = Ok u /\ u_duplicate u = true /\ p_id (u_photo u) = false) as (u & -> & Hu & Hi).
  { apply (f_equal fst) in E. simpl in E. rewrite <- E. vm_compute. eexists. split_and!; reflexivity. }
  by split_and!.
Defined.

(** Somebody deletes that row again before it is read: the upload is answered as if the
    photo did not exist. And a rejected upload whose staging file could not be removed
    leaves it behind. *)
Example lost_race_deleted :
  (Upload (H := demo_uuid) demo_service (register_all ["album"]) true true false demo_png
    (demo_world (demo_race ++ [Others [XDelete (H := demo_uuid) false]]))).1 = Err ErrPhotoNotFound.
Proof. vm_compute. reflexivity. Qed.

Example removal_fails :
  let '(r, w') := validateAndStage (H := demo_uuid) 8 demo_png
    (set_staged (H := demo_uuid) (mkStaging ∅ [false]) (demo_world [])) in
  r = Err ErrPhotoTooLarge /\ map_to_list (sg_files (w_staged w')) = [(0, demo_png)].
Proof. vm_compute. by split. Qed.

Lemma upload_read_back_witness :
  exists u w', Upload (H := demo_uuid) demo_service (register_all ["album"]) true true false demo_png (demo_world []) = (Ok u, w') /\
    OpenBytes demo_service2 true (p_id (u_photo u)) w' = (Ok (demo_png, "image/png"%string), w').
Proof.
  destruct (Upload (H := demo_uuid) demo_service (register_all ["album"]) true true false demo_png (demo_world []))
    as [r w'] eqn:E.
  assert (exists u, r = Ok u /\ u_duplicate u = false /\ p_type (u_photo u) = "image/png"%string) as (u & -> & Hu & Ht).
  { apply (f_equal fst) in E. simpl in E. rewrite <- E. vm_compute. eexists. split_and!; reflexivity. }
  exists u, w'. split; [done|]. rewrite <- Ht.
  apply (upload_read_back (H := demo_uuid) ["album"] demo_service demo_service2 true false true false false
    demo_png (demo_world []) w' demo_store u); [apply demo_db_ok|reflexivity..|exact E|exact Hu].
Defined.

Lemma tenant_isolation_witness :
  OpenBytes (H := demo_uuid) demo_service true true (demo_world []) = (Err ErrPhotoNotFound, demo_world []).
Proof. apply (tenant_isolation (H := demo_uuid) demo_service true true (demo_world [])). reflexivity. Defined.
End PhotoWitness.
