(* ===== verification/Reaper.v ===== *)
(** The orphan reaper (src/media/app/reaper_service.go) over the S3 store's
    object listing (photo_store_s3.go) and any number of reference sources: the
    [ReapableSource] interface is a record of operations with its laws, which
    [PhotoRepository] discharges. *)

From S2P Require Import Prelude GoStrings MediaDomain MediaWorld Photos PhotosSpec.
Local Open Scope Z_scope.
Local Open Scope nest_scope.

(** ** The environment's single step, as a caller of an interface sees it *)

Section env.
Context `{UuidLib}.

(** One I/O call's worth of moves: none, or the head of the environment. *)
Inductive env_step (w : World) : World -> Prop :=
| es_none : w_env w = [] -> env_step w w
| es_quiet a env : w_env w = a :: env -> env_step w (set_env env w)
| es_others ops env : w_env w = Others ops :: env -> env_step w (exts ops (set_env env w)).

Lemma io_read {A} (g : World -> result media_error A) w :
  let '(r, w') := io (fun w => (g w, w)) w in
  env_step w w' /\ (forall a, r = Ok a -> g w' = Ok a) /\ (w_env w = [] -> r = g w).
Proof.
  unfold io. destruct (w_env w) as [|a env] eqn:E; [split_and!; [by constructor|done..]|].
  destruct a; split_and!; try done; try (by eapply es_quiet); by eapply es_others.
Qed.
End env.

(** ** ReapableSource *)

Section source.
Context `{UuidLib}.

Record ReapableSource := mkSource {
  src_list : StorageBackend -> M (list string);
  src_exists : string -> StorageBackend -> M bool;
  (** What the source references, in a given state of the world. *)
  src_refs : World -> StorageBackend -> string -> Prop;
  src_list_law : forall b w, let '(r, w') := src_list b w in
    env_step w w' /\ (forall l, r = Ok l -> forall x, x ∈ l <-> src_refs w' b x) /\
    (w_env w = [] -> is_ok r = true);
  src_exists_law : forall x b w, let '(r, w') := src_exists x b w in
    env_step w w' /\ (forall v, r = Ok v -> v = true <-> src_refs w' b x) /\
    (w_env w = [] -> is_ok r = true);
  (** References live in the database, not in the object store. *)
  src_refs_law : forall b x w w', w_db w = w_db w' -> src_refs w b x -> src_refs w' b x
}.
End source.

Section repository_source.
Context `{UuidLib}.

Definition photo_refs (w : World) (b : StorageBackend) (x : string) : Prop :=
  exists id r, photos (w_db w) !! id = Some r /\ pr_ref r = x /\ pr_backend r = backend_string b.

Lemma ref_exists_spec w x b : ref_exists (w_db w) x b = true <-> photo_refs w b x.
Proof.
  unfold ref_exists, photo_refs. rewrite bool_decide_eq_true. split.
  - intros Hne. destruct (filter _ _) as [|[id r] l] eqn:E; [done|].
    assert ((id, r) ∈ (id, r) :: l) as Hin by set_solver. rewrite <- E in Hin.
    apply list_elem_of_filter in Hin as [[? ?] Hin%elem_of_map_to_list]. by exists id, r.
  - intros (id & r & Hr & ? & ?) E.
    assert ((id, r) ∈ filter (fun kv : Uuid * photo_row => pr_ref kv.2 = x /\ pr_backend kv.2 = backend_string b)
      (map_to_list (photos (w_db w)))) as Hin
      by (apply list_elem_of_filter; split; [done|by apply elem_of_map_to_list]).
    rewrite E in Hin. set_solver.
Qed.

(** [PhotoRepository] is a [ReapableSource]. *)
Program Definition photo_source : ReapableSource :=
  {| src_list := ListAllStorageRefs; src_exists := ExistsByStorageRef; src_refs := photo_refs |}.
Next Obligation.
  intros b w. unfold ListAllStorageRefs.
  match goal with |- let '(_, _) := io (fun w => (@?g w, w)) w in _ => pose proof (io_read g w) as Hio end.
  destruct (io _ w) as [r w']. destruct Hio as (Hs & Hr & Hq). split_and!; [done| |by intros E; rewrite (Hq E)].
  intros l Hl x. specialize (Hr l Hl). injection Hr as <-. rewrite list_elem_of_fmap. unfold photo_refs. split.
  - intros ([id row] & -> & [Hb Hin%elem_of_map_to_list]%list_elem_of_filter). by exists id, row.
  - intros (id & row & Hrow & <- & Hb). exists (id, row). split; [done|].
    apply list_elem_of_filter. split; [done|by apply elem_of_map_to_list].
Qed.
Next Obligation.
  intros x b w. unfold ExistsByStorageRef.
  pose proof (io_read (fun w => Ok (ref_exists (w_db w) x b)) w) as Hio.
  destruct (io _ w) as [r w']. destruct Hio as (Hs & Hr & Hq). split_and!; [done| |by intros E; rewrite (Hq E)].
  intros v Hv. specialize (Hr v Hv). injection Hr as <-. apply ref_exists_spec.
Qed.
Next Obligation. unfold photo_refs. intros b x w w' E (id & row & ?). rewrite E in *. by exists id, row. Qed.
End repository_source.

(** ** The service *)

Section reaper.
Context `{UuidLib, Codecs}.

Record ObjectInfo := mkObject { o_key : string; o_modified : Z }.

(** [S3PhotoStore.ListObjects]: the pages of the paginator are one call. *)
Definition under_households (key : string) : bool :=
  has_prefix (bytes_of key) (bytes_of "households/").

Definition key_order (x y : string * blob) : Prop := String.leb x.1 y.1 = true.
#[global] Instance key_order_dec x y : Decision (key_order x y).
Proof. unfold key_order. apply _. Defined.

Definition listed (prefix : string) (kv : string * blob) : Prop :=
  under_households kv.1 && keyBelongsToClass kv.1 prefix = true.
#[global] Instance listed_dec prefix kv : Decision (listed prefix kv).
Proof. unfold listed. apply _. Defined.

Definition ListObjects (registered : gset string) (class : PhotoClass) : M (list ObjectInfo) :=
  match classKeyPrefix registered class with
  | Err e => fail (ErrKey e)
  | Ok prefix =>
    io (fun w => (Ok ((fun kv => mkObject kv.1 (b_modified kv.2)) <$>
                      filter (listed prefix) (merge_sort key_order (map_to_list (w_s3 w)))), w))
  end.

Record ReaperService := mkReaper {
  rp_store : Store;
  rp_registered : gset string;
  rp_backend : StorageBackend;
  rp_sources : list (PhotoClass * ReapableSource);   (* [classes] order *)
  rp_grace : Z
}.

Definition class_order (x y : PhotoClass * ReapableSource) : Prop :=
  String.leb (class_string x.1) (class_string y.1) = true.
#[global] Instance class_order_dec x y : Decision (class_order x y).
Proof. unfold class_order. apply _. Defined.

(** [sources] is a map, here its entries in some order. Only the S3 store lists
    objects. *)
Definition NewReaperService (registered : gset string) (store : Store) (backend : StorageBackend)
    (sources : list (PhotoClass * ReapableSource)) (grace : Z) : result media_error ReaperService :=
  if negb (backend_valid backend) then Err ErrArgument
  else if (length sources =? 0)%nat then Err ErrArgument
  else if grace <=? 0 then Err ErrArgument
  else if negb (SupportsDirectURL store) then Err ErrArgument
  else if negb (forallb (fun cs => class_valid registered cs.1) sources) then Err ErrArgument
  else Ok (mkReaper store registered backend (merge_sort class_order sources) grace).

Definition referencedRefs (r : ReaperService) : M (gset string) :=
  foldl (fun m cs =>
    do! set := m in
    do! refs := src_list cs.2 (rp_backend r) in
    ret (set ∪ list_to_set refs)) (ret ∅) (rp_sources r).

Fixpoint existsByStorageRef (sources : list (PhotoClass * ReapableSource)) (b : StorageBackend)
    (ref : string) : M bool :=
  match sources with
  | [] => ret false
  | cs :: sources =>
    do! e := src_exists cs.2 ref b in
    if e then ret true else existsByStorageRef sources b ref
  end.

Definition orphan (cutoff : Z) (referenced : gset string) (o : ObjectInfo) : Prop :=
  (o_key o ∉ referenced) /\ o_modified o <= cutoff.
#[global] Instance orphan_dec cutoff referenced o : Decision (orphan cutoff referenced o).
Proof. unfold orphan. apply _. Defined.

Definition orphanCandidates (r : ReaperService) (class : PhotoClass) (cutoff : Z)
    (referenced : gset string) : M (list string) :=
  do! objects := ListObjects (rp_registered r) class in
  ret (o_key <$> filter (orphan cutoff referenced) objects).

(** The inner loop of [Run]: recheck, then delete, counting the deletions. *)
Fixpoint sweep_candidates (r : ReaperService) (candidates : list string) (deleted : Z) : M Z :=
  match candidates with
  | [] => ret deleted
  | ref :: candidates =>
    do! stillReferenced := existsByStorageRef (rp_sources r) (rp_backend r) ref in
    if stillReferenced then sweep_candidates r candidates deleted
    else
      do! _ := DeleteObject (rp_store r) ref in
      sweep_candidates r candidates (deleted + 1)
  end.

Fixpoint run_classes (r : ReaperService) (cutoff : Z) (referenced : gset string)
    (classes : list (PhotoClass * ReapableSource)) (res : gmap string Z) : M (gmap string Z) :=
  match classes with
  | [] => ret res
  | cs :: classes =>
    do! candidates := orphanCandidates r cs.1 cutoff referenced in
    do! deleted := sweep_candidates r candidates 0 in
    run_classes r cutoff referenced classes (<[cs.1 := deleted]> res)
  end.

Definition Run (r : ReaperService) (now : Z) : M (gmap string Z) :=
  do! referenced := referencedRefs r in
  run_classes r (now - rp_grace r) referenced (rp_sources r) ∅.

Fixpoint dry_classes (r : ReaperService) (cutoff : Z) (referenced : gset string)
    (classes : list (PhotoClass * ReapableSource)) (res : gmap string (list string))
    : M (gmap string (list string)) :=
  match classes with
  | [] => ret res
  | cs :: classes =>
    do! candidates := orphanCandidates r cs.1 cutoff referenced in
    dry_classes r cutoff referenced classes (<[cs.1 := candidates]> res)
  end.

Definition DryRun (r : ReaperService) (now : Z) : M (gmap string (list string)) :=
  do! referenced := referencedRefs r in
  dry_classes r (now - rp_grace r) referenced (rp_sources r) ∅.
End reaper.

(** ** Rely predicates: what the environment keeps true *)

Section rely.
Context `{UuidLib}.

Definition act_keeps (P : World -> Prop) (a : act) : Prop :=
  match a with Others ops => forall w, P w -> P (exts ops w) | _ => True end.

(** [P] holds and every move the environment has left keeps it. *)
Definition relied (P : World -> Prop) (w : World) : Prop :=
  P w /\ Forall (act_keeps P) (w_env w).

Lemma env_exts ops w : w_env (exts ops w) = w_env w.
Proof.
  unfold exts. revert w. induction ops as [|o ops IH]; intros w; [done|]. simpl. rewrite IH.
  destruct o as [id r|id|[] k data|[] k|t]; simpl; try done. by destruct (insert_photo _ _ _).
Qed.

Context (P : World -> Prop) (Penv : forall e w, P w -> P (set_env e w)).

Lemma relied_env_step w w' : env_step w w' -> relied P w -> relied P w'.
Proof using Penv.
  intros Hs [Hp Hf]. destruct Hs as [E|a env E|ops env E]; [by split|..];
    rewrite E in Hf; apply Forall_cons in Hf as [Ha Hf].
  - split; [by apply Penv|done].
  - split; [by apply Ha, Penv|]. by rewrite env_exts.
Qed.

Lemma relied_io_modify f w :
  (forall w, P w -> P (f w)) -> (forall w, w_env (f w) = w_env w) ->
  relied P w -> relied P (io (modify f) w).2.
Proof using Penv.
  intros Hf He [Hp Hw]. unfold io. destruct (w_env w) as [|a env] eqn:E.
  - split; [by apply Hf|]. simpl. by rewrite He, E.
  - apply Forall_cons in Hw as [Ha Hw]. destruct a as [| | |ops]; simpl.
    + split; [by apply Hf, Penv|]. by rewrite He.
    + split; [by apply Penv|done].
    + split; [by apply Hf, Penv|]. by rewrite He.
    + split; [by apply Hf, Ha, Penv|]. by rewrite He, env_exts.
Qed.
End rely.

Section reaper_facts.
Context `{UuidLib, Codecs}.

Lemma elem_of_listing w prefix o :
  o ∈ ((fun kv => mkObject kv.1 (b_modified kv.2)) <$>
       filter (listed prefix) (merge_sort key_order (map_to_list (w_s3 w)))) <->
  exists b, w_s3 w !! o_key o = Some b /\ o_modified o = b_modified b /\
    under_households (o_key o) && keyBelongsToClass (o_key o) prefix = true.
Proof.
  rewrite list_elem_of_fmap. setoid_rewrite list_elem_of_filter.
  setoid_rewrite (elem_of_Permutation_proper _ _ _ (merge_sort_Permutation key_order (map_to_list (w_s3 w)))).
  split.
  - intros ([k b] & -> & Hl & Hin%elem_of_map_to_list). by exists b.
  - intros (b & Hk & Hm & Hl). exists (o_key o, b). split; [destruct o; simpl in *; by subst|].
    split; [done|]. by apply elem_of_map_to_list.
Qed.

Lemma ListObjects_step reg class w :
  let '(r, w') := ListObjects reg class w in
  (w' = w \/ env_step w w') /\
  forall l, r = Ok l -> class_valid reg class = true /\ forall o, o ∈ l <->
    exists b, w_s3 w' !! o_key o = Some b /\ o_modified o = b_modified b /\
      under_households (o_key o) && keyBelongsToClass (o_key o) (class_string class) = true.
Proof.
  unfold ListObjects, classKeyPrefix. destruct (class_valid reg class); [|split; [by left|done]].
  match goal with |- let '(_, _) := io (fun w => (@?g w, w)) w in _ => pose proof (io_read g w) as Hio end.
  destruct (io _ w) as [r w']. destruct Hio as (Hs & Hr & _). split; [by right|].
  intros l Hl. specialize (Hr l Hl). injection Hr as <-. split; [done|]. intros o. apply elem_of_listing.
Qed.

Context (r : ReaperService).
Context (P : World -> Prop) (Penv : forall e w, P w -> P (set_env e w)).

Lemma exists_relied sources ref w :
  relied P w ->
  let '(res, w') := existsByStorageRef sources (rp_backend r) ref w in
  relied P w' /\
  forall cs, cs ∈ sources -> (forall w, P w -> src_refs cs.2 w (rp_backend r) ref) -> res <> Ok false.
Proof.
  revert w. induction sources as [|cs sources IH]; intros w Hw; cbn [existsByStorageRef].
  { split; [done|]. intros cs Hc. set_solver. }
  unfold bind at 1. pose proof (src_exists_law cs.2 ref (rp_backend r) w) as Hl.
  destruct (src_exists cs.2 ref (rp_backend r) w) as [[e|] w1]; destruct Hl as (Hs & He & _);
    pose proof (relied_env_step P Penv w w1 Hs Hw) as Hw1; [|by split].
  destruct e; [by split|]. specialize (IH w1 Hw1).
  destruct (existsByStorageRef sources (rp_backend r) ref w1) as [res w2]. destruct IH as [? IH].
  split; [done|]. intros cs' [->|Hc]%elem_of_cons Hp; [|by apply (IH cs')].
  destruct (He false eq_refl) as [_ Hf]. by specialize (Hf (Hp w1 (proj1 Hw1))).
Qed.

(** The key under consideration is protected: always referenced by some source,
    or always younger than the grace window. *)
Context (k : string) (cutoff : Z).
Context (Pdel : forall k' w, P w -> k' <> k -> P (set_blobs BackendS3 (delete k' (w_s3 w)) w)).

Definition always_referenced : Prop :=
  exists cs, cs ∈ rp_sources r /\ forall w, P w -> src_refs cs.2 w (rp_backend r) k.
Definition always_young : Prop :=
  forall w b, P w -> w_s3 w !! k = Some b -> cutoff < b_modified b.

Context (HS3 : st_backend (rp_store r) = BackendS3).

Lemma DeleteObject_relied ref w : ref <> k -> relied P w -> relied P (DeleteObject (rp_store r) ref w).2.
Proof.
  intros Hne Hw. unfold DeleteObject, LocalDelete, S3Delete. rewrite HS3.
  apply (relied_io_modify P Penv); [intros w0 Hw0; by apply Pdel|done|done].
Qed.

Lemma sweep_relied candidates n w :
  always_referenced \/ k ∉ candidates -> relied P w -> relied P (sweep_candidates r candidates n w).2.
Proof.
  intros Hk. revert n w. induction candidates as [|ref cands IH]; intros n w Hw; cbn [sweep_candidates]; [done|].
  specialize (IH ltac:(set_solver)). unfold bind at 1. pose proof (exists_relied (rp_sources r) ref w Hw) as He.
  destruct (existsByStorageRef _ _ ref w) as [[e|] w1]; destruct He as [Hw1 He]; [|done].
  destruct e; [by apply IH|]. unfold bind.
  assert (ref <> k) as Hne.
  { intros Heq. rewrite Heq in He.
    destruct Hk as [(cs & Hc & Hp)|Hk]; [by destruct (He cs Hc Hp)|set_solver]. }
  pose proof (DeleteObject_relied ref w1 Hne Hw1) as Hd.
  destruct (DeleteObject _ ref w1) as [[[]|] w2]; [by apply IH|done].
Qed.

Lemma candidates_relied class refs w :
  relied P w ->
  let '(res, w') := orphanCandidates r class cutoff refs w in
  relied P w' /\ forall l, res = Ok l -> always_young -> k ∉ l.
Proof.
  intros Hw. unfold orphanCandidates, bind. pose proof (ListObjects_step (rp_registered r) class w) as Hl.
  destruct (ListObjects _ class w) as [[objs|] w1]; destruct Hl as [Hs Hl];
    (assert (relied P w1) as Hw1 by (destruct Hs as [->|Hs]; [done|by eapply relied_env_step])); [|by split].
  split; [done|]. intros l [= <-] Hy Hin. destruct (Hl objs eq_refl) as [_ Ho].
  apply list_elem_of_fmap in Hin as (o & Hko & [[_ Hold] Hin]%list_elem_of_filter).
  apply Ho in Hin as (b & Hb & Hm & _). rewrite <- Hko in Hb. specialize (Hy w1 b (proj1 Hw1) Hb). lia.
Qed.

Lemma run_classes_relied refs classes res w :
  always_referenced \/ always_young -> relied P w ->
  relied P (run_classes r cutoff refs classes res w).2.
Proof.
  intros Hk. revert res w. induction classes as [|cs classes IH]; intros res w Hw; cbn [run_classes]; [done|].
  unfold bind at 1. pose proof (candidates_relied cs.1 refs w Hw) as Hc.
  destruct (orphanCandidates _ _ _ _ w) as [[cands|] w1]; destruct Hc as [Hw1 Hc]; [|done].
  unfold bind. pose proof (sweep_relied cands 0 w1) as Hs.
  assert (always_referenced \/ k ∉ cands) as Hor
    by (destruct Hk as [?|Hy]; [by left|right; by apply Hc]).
  specialize (Hs Hor Hw1). destruct (sweep_candidates r cands 0 w1) as [[n|] w2]; [by apply IH|done].
Qed.

Lemma referenced_relied w : relied P w -> relied P (referencedRefs r w).2.
Proof.
  unfold referencedRefs. assert (forall w, relied P w -> relied P (ret (∅ : gset string) w).2) as Hm by done.
  revert Hm w. generalize (ret (∅ : gset string)) as m.
  induction (rp_sources r) as [|cs sources IH]; intros m Hm w Hw; simpl; [by apply Hm|].
  apply IH; [|done]. clear w Hw. intros w Hw. unfold bind. specialize (Hm w Hw).
  destruct (m w) as [[set|] w1]; [|done].
  pose proof (src_list_law cs.2 (rp_backend r) w1) as Hl.
  destruct (src_list cs.2 (rp_backend r) w1) as [[l|] w2]; destruct Hl as (Hs & _);
    by eapply relied_env_step.
Qed.
End reaper_facts.

(** C12. The reaper never deletes a protected object. Let a condition hold that
    every interleaved move of other processes keeps, and that says the object is
    stored and either some source references it or it is younger than the grace
    window. Then the object survives [Run], wherever calls fail and whatever
    else is inserted, deleted or uploaded meanwhile. *)
Theorem Run_keeps_protected `{UuidLib, Codecs} (r : ReaperService) (now : Z) (k : string) (w : World)
    (P : World -> Prop) :
  st_backend (rp_store r) = BackendS3 ->
  (forall e w, P w -> P (set_env e w)) ->
  (forall k' w, P w -> k' <> k -> P (set_blobs BackendS3 (delete k' (w_s3 w)) w)) ->
  (forall w, P w -> is_Some (w_s3 w !! k)) ->
  (exists cs, cs ∈ rp_sources r /\ forall w, P w -> src_refs cs.2 w (rp_backend r) k) \/
  (forall w b, P w -> w_s3 w !! k = Some b -> now - rp_grace r < b_modified b) ->
  P w -> Forall (act_keeps P) (w_env w) ->
  P (Run r now w).2 /\ is_Some (w_s3 (Run r now w).2 !! k).
Proof.
  intros HS3 Penv Pdel Phas Hprot HP Henv.
  assert (relied P (Run r now w).2) as [Hp _]; [|by split; [|apply Phas]].
  unfold Run, bind. pose proof (referenced_relied r P Penv w (conj HP Henv)) as Hr.
  destruct (referencedRefs r w) as [[refs|] w1]; [|done].
  by apply (run_classes_relied r P Penv k _ Pdel HS3).
Qed.

(** ** Without interference: exactly the previewed objects go *)

Section reaper_quiet.
Context `{UuidLib, Codecs} (r : ReaperService) (cutoff : Z).
Context (HS3 : st_backend (rp_store r) = BackendS3).

Definition referenced (w : World) (key : string) : Prop :=
  exists cs, cs ∈ rp_sources r /\ src_refs cs.2 w (rp_backend r) key.

(** An object of class [c] that is old enough and referenced by nobody. *)
Definition orphaned (w : World) (c : PhotoClass) (key : string) : Prop :=
  (exists b, w_s3 w !! key = Some b /\ b_modified b <= cutoff) /\
  under_households key && keyBelongsToClass key (class_string c) = true /\ ~ referenced w key.

Lemma env_step_quiet w w' : w_env w = [] -> env_step w w' -> w' = w.
Proof. intros E. destruct 1 as [?|?? E'|?? E']; congruence. Qed.

Lemma exists_quiet sources ref w : w_env w = [] ->
  exists v, existsByStorageRef sources (rp_backend r) ref w = (Ok v, w) /\
    (v = true <-> exists cs, cs ∈ sources /\ src_refs cs.2 w (rp_backend r) ref).
Proof.
  intros Hq. induction sources as [|cs sources IH]; cbn [existsByStorageRef].
  { exists false. split; [done|]. split; [done|]. intros (cs & ? & _). set_solver. }
  unfold bind. pose proof (src_exists_law cs.2 ref (rp_backend r) w) as Hl.
  destruct (src_exists cs.2 ref (rp_backend r) w) as [[e|] w1]; destruct Hl as (Hs & He & Hok);
    [|by specialize (Hok Hq)]. apply env_step_quiet in Hs as ->; [|done].
  specialize (He e eq_refl). destruct e.
  - exists true. split; [done|]. split; [|done]. intros _. exists cs. split; [set_solver|by apply He].
  - destruct IH as (v & -> & Hv). exists v. split; [done|]. rewrite Hv. split.
    + intros (cs' & ? & ?). exists cs'. split; [set_solver|done].
    + intros (cs' & [->|?]%elem_of_cons & Hr); [by apply He in Hr|by exists cs'].
Qed.

Lemma referencedRefs_quiet w : w_env w = [] ->
  exists refs, referencedRefs r w = (Ok refs, w) /\ forall key, key ∈ refs <-> referenced w key.
Proof.
  intros Hq. unfold referencedRefs, referenced.
  assert (forall (sources : list (PhotoClass * ReapableSource)) (m : M (gset string)) s0, m w = (Ok s0, w) ->
    exists refs, foldl (fun m (cs : PhotoClass * ReapableSource) => do! set := m in do! refs := src_list cs.2 (rp_backend r) in
      ret (set ∪ list_to_set refs)) m sources w = (Ok refs, w) /\
    forall key, key ∈ refs <-> key ∈ s0 \/ exists cs, cs ∈ sources /\ src_refs cs.2 w (rp_backend r) key) as Hg.
  { induction sources as [|cs sources IH]; intros m s0 Hm; simpl.
    - exists s0. split; [done|]. intros key. split; [by left|]. intros [?|(cs & ? & _)]; [done|set_solver].
    - pose proof (src_list_law cs.2 (rp_backend r) w) as Hl.
      destruct (src_list cs.2 (rp_backend r) w) as [[l|] w1] eqn:El; destruct Hl as (Hs & He & Hok);
        [|by specialize (Hok Hq)]. apply env_step_quiet in Hs as ->; [|done].
      destruct (IH (do! set := m in do! refs := src_list cs.2 (rp_backend r) in ret (set ∪ list_to_set refs))
        (s0 ∪ list_to_set l)) as (refs & Hr & Hk); [unfold bind; by rewrite Hm, El|].
      exists refs. split; [done|]. intros key. rewrite Hk, elem_of_union, elem_of_list_to_set, (He l eq_refl).
      split.
      + intros [[?|?]|(cs' & ? & ?)]; [by left|right; exists cs; split; [set_solver|done]|].
        right. exists cs'. split; [set_solver|done].
      + intros [?|(cs' & [->|?]%elem_of_cons & ?)]; eauto. }
  destruct (Hg (rp_sources r) (ret ∅) ∅ eq_refl) as (refs & -> & Hk). exists refs. split; [done|].
  intros key. rewrite Hk. set_solver.
Qed.

Lemma NoDup_fmap_filter {A B} (f : A -> B) (Q : A -> Prop) `{forall x, Decision (Q x)} (l : list A) :
  NoDup (f <$> l) -> NoDup (f <$> filter Q l).
Proof.
  induction l as [|x l IH]; [done|]. rewrite fmap_cons, NoDup_cons. intros [Hx Hl].
  rewrite filter_cons. case_decide; [|by apply IH]. rewrite fmap_cons, NoDup_cons. split; [|by apply IH].
  intros (y & Hy & [_ Hin]%list_elem_of_filter)%list_elem_of_fmap. apply Hx. rewrite Hy.
  by apply list_elem_of_fmap_2.
Qed.

Lemma candidates_quiet c refs w : w_env w = [] -> class_valid (rp_registered r) c = true ->
  (forall key, key ∈ refs <-> referenced w key) ->
  exists l, orphanCandidates r c cutoff refs w = (Ok l, w) /\ NoDup l /\
    forall key, key ∈ l <-> orphaned w c key.
Proof.
  intros Hq Hv Hrefs. unfold orphanCandidates, bind, ListObjects, classKeyPrefix. rewrite Hv, io_quiet by done.
  eexists. split; [reflexivity|]. set (objs := _ <$> filter _ (merge_sort _ _)).
  assert (NoDup (o_key <$> objs)) as Hnd.
  { unfold objs. rewrite <- list_fmap_compose. apply (NoDup_fmap_filter fst (listed (class_string c))).
    rewrite (merge_sort_Permutation key_order). apply NoDup_fst_map_to_list. }
  split.
  - apply (NoDup_fmap_filter o_key (orphan cutoff refs)), Hnd.
  - intros key. rewrite list_elem_of_fmap. setoid_rewrite list_elem_of_filter. unfold orphan, orphaned.
    unfold objs. setoid_rewrite elem_of_listing. split.
    + intros (o & -> & [Hn Ho] & b & Hb & Hm & Hl). rewrite Hrefs in Hn. split_and!; try done.
      exists b. split; [done|lia].
    + intros ((b & Hb & Hm) & Hl & Hn). exists (mkObject key (b_modified b)). simpl. rewrite Hrefs.
      split_and!; try done. by exists b.
Qed.

(** [w'] is [w] with the objects satisfying [gone] removed. *)
Definition removed (gone : string -> Prop) (w w' : World) : Prop :=
  w_db w' = w_db w /\ w_local w' = w_local w /\ w_staged w' = w_staged w /\ w_now w' = w_now w /\
  w_env w' = w_env w /\
  forall key, (gone key -> w_s3 w' !! key = None) /\ (~ gone key -> w_s3 w' !! key = w_s3 w !! key).

Lemma sweep_quiet l : forall n w, w_env w = [] -> (forall key, key ∈ l -> ~ referenced w key) ->
  exists w', sweep_candidates r l n w = (Ok (n + Z.of_nat (length l)), w') /\
    removed (fun key => key ∈ l) w w'.
Proof.
  induction l as [|ref l IH]; intros n w Hq Hl; cbn [sweep_candidates].
  { exists w. split; [unfold ret; do 2 f_equal; simpl; lia|]. unfold removed. split_and!; try done.
    intros key. split; [set_solver|done]. }
  destruct (exists_quiet (rp_sources r) ref w Hq) as (v & He & Hv). unfold bind. rewrite He.
  destruct v; [exfalso; apply (Hl ref); [set_solver|]; by apply Hv|].
  unfold DeleteObject, LocalDelete, S3Delete. rewrite HS3, io_quiet by done. cbn [modify].
  destruct (IH (n + 1) (set_blobs BackendS3 (delete ref (w_s3 w)) w)) as (w' & Hs & Hd & Hlc & Hst & Hnw & Hen & Hk).
  { done. }
  { intros key Hin (cs & Hc & Hr). apply (Hl key); [set_solver|]. exists cs. split; [done|].
    by eapply src_refs_law; [|exact Hr]. }
  exists w'. split; [rewrite Hs; do 2 f_equal; simpl; lia|]. unfold removed. split_and!; try done.
  intros key. destruct (Hk key) as [Hk1 Hk2]. split.
  - intros [->|Hin]%elem_of_cons; [|by apply Hk1]. destruct (decide (ref ∈ l)); [by apply Hk1|].
    rewrite Hk2 by done. simpl. apply lookup_delete_eq.
  - intros Hn. rewrite Hk2 by set_solver. simpl. rewrite lookup_delete_ne; [done|set_solver].
Qed.

Lemma orphaned_class w c c' key :
  class_valid (rp_registered r) c = true -> class_valid (rp_registered r) c' = true ->
  orphaned w c key -> keyBelongsToClass key (class_string c') = true -> c' = c.
Proof.
  intros Hv Hv' (_ & Hl & _) Hk. apply andb_true_iff in Hl as [_ Hl]. unfold keyBelongsToClass in *.
  destruct (SplitN4 key) as [|p0 [|p1 [|p2 rest]]]; try done.
  apply andb_true_iff in Hl as [_ Hl%bool_decide_eq_true], Hk as [_ Hk%bool_decide_eq_true].
  rewrite Hl in Hk. apply bytes_of_inj in Hk. unfold class_valid, class_string in *.
  destruct (bool_decide_reflect (c = "")), (bool_decide_reflect (c' = "")); try done.
  by rewrite !decide_False in Hk.
Qed.

(** [w] has the objects of the classes still to sweep as [w0] had them. *)
Definition same_for (classes : list (PhotoClass * ReapableSource)) (w0 w : World) : Prop :=
  forall cs key, cs ∈ classes -> keyBelongsToClass key (class_string cs.1) = true ->
    w_s3 w !! key = w_s3 w0 !! key.

Lemma orphaned_same cs classes w0 w key : cs ∈ classes -> same_for classes w0 w -> w_db w = w_db w0 ->
  orphaned w cs.1 key <-> orphaned w0 cs.1 key.
Proof.
  intros Hc Hs Hd. unfold orphaned.
  assert (referenced w key <-> referenced w0 key) as ->.
  { split; intros (cs' & ? & Hr); exists cs'; (split; [done|]); by eapply src_refs_law; [|exact Hr]. }
  split; intros (Hb & Hl & Hn); (split_and!; [|done..]); destruct (andb_prop _ _ Hl) as [_ Hk];
    [rewrite <- (Hs cs key Hc Hk)|rewrite (Hs cs key Hc Hk)]; done.
Qed.

Lemma run_classes_quiet refs w0 classes : forall res dres w,
  w_env w0 = [] -> w_env w = [] -> w_db w = w_db w0 -> NoDup classes.*1 ->
  Forall (fun cs => class_valid (rp_registered r) cs.1 = true) classes ->
  (forall key, key ∈ refs <-> referenced w0 key) -> same_for classes w0 w ->
  exists res' dry w', run_classes r cutoff refs classes res w = (Ok res', w') /\
    dry_classes r cutoff refs classes dres w0 = (Ok dry, w0) /\
    removed (fun key => exists cs, cs ∈ classes /\ orphaned w0 cs.1 key) w w' /\
    (forall c, c ∉ classes.*1 -> res' !! c = res !! c /\ dry !! c = dres !! c) /\
    (forall cs, cs ∈ classes -> exists l, dry !! cs.1 = Some l /\
       res' !! cs.1 = Some (Z.of_nat (length l)) /\ forall key, key ∈ l <-> orphaned w0 cs.1 key).
Proof.
  induction classes as [|cs classes IH]; intros res dres w Hq0 Hq Hd Hnd Hv Hrefs Hsame.
  { exists res, dres, w. cbn. unfold removed. split_and!; try done; [|set_solver].
    intros key. split; [intros (cs & ? & _); set_solver|done]. }
  rewrite fmap_cons, NoDup_cons in Hnd. destruct Hnd as [Hcs Hnd]. apply Forall_cons in Hv as [Hvc Hv].
  assert (forall key, key ∈ refs <-> referenced w key) as Hrefs'.
  { intros key. rewrite Hrefs. split; intros (cs' & ? & Hr); exists cs'; (split; [done|]);
      by eapply src_refs_law; [|exact Hr]. }
  destruct (candidates_quiet cs.1 refs w Hq Hvc Hrefs') as (l & Hl & Hnl & Hin).
  destruct (candidates_quiet cs.1 refs w0 Hq0 Hvc Hrefs) as (l0 & Hl0 & Hnl0 & Hin0).
  assert (l ≡ₚ l0) as Hperm.
  { apply NoDup_Permutation; [done..|]. intros key. rewrite Hin, Hin0.
    apply (orphaned_same cs (cs :: classes)); [set_solver|done..]. }
  destruct (sweep_quiet l 0 w Hq) as (w1 & Hs & Hrm); [intros key Hk; by apply Hin in Hk as (_ & _ & ?)|].
  destruct Hrm as (Hd1 & Hlc1 & Hst1 & Hnw1 & He1 & Hk1).
  destruct (IH (<[cs.1 := Z.of_nat (length l)]> res) (<[cs.1 := l0]> dres) w1)
    as (res' & dry & w' & Hrun & Hdry & Hrm & Hout & Hcls); try done; try congruence.
  { intros cs' key Hc' Hk'. rewrite <- (Hsame cs' key) by (done || set_solver).
    apply Hk1. rewrite Hin. intros Ho. rewrite Forall_forall in Hv.
    assert (cs'.1 = cs.1) as E by (apply (orphaned_class w cs.1 cs'.1 key); [done|by apply Hv|done|done]).
    apply Hcs. rewrite <- E. by apply list_elem_of_fmap_2. }
  exists res', dry, w'. cbn [run_classes dry_classes]. unfold bind. rewrite Hl, Hl0, Hs. split_and!; try done.
  - destruct Hrm as (Hd2 & Hlc2 & Hst2 & Hnw2 & He2 & Hk2). unfold removed. split_and!; try congruence.
    intros key. destruct (Hk2 key) as [Hg Hng], (Hk1 key) as [Hg1 Hng1].
    assert (key ∈ l <-> orphaned w0 cs.1 key) as Hio by (rewrite Hperm; apply Hin0). split.
    + intros (cs' & [->|Hc']%elem_of_cons & Ho); [|apply Hg; by exists cs'].
      destruct (w_s3 w' !! key) as [b|] eqn:Eb; [|done]. exfalso.
      assert (~ exists cs', cs' ∈ classes /\ orphaned w0 cs'.1 key) as Hne.
      { intros (cs' & Hc' & Ho'). rewrite Forall_forall in Hv. apply Hcs.
        assert (cs'.1 = cs.1) as <-; [|by apply list_elem_of_fmap_2].
        apply (orphaned_class w0 cs.1 cs'.1 key Hvc (Hv cs' Hc') Ho).
        destruct Ho' as (_ & Hlx & _). by apply andb_true_iff in Hlx as [_ ?]. }
      pose proof (Hg1 (proj2 Hio Ho)) as Hgone. pose proof (Hng Hne) as Hsm. 
      rewrite Hgone in Hsm. discriminate.
    + intros Hn. rewrite Hng; [apply Hng1|].
      * intros Hl'. apply Hn. exists cs. split; [set_solver|by apply Hio].
      * intros (cs' & Hc' & Ho'). apply Hn. exists cs'. split; [set_solver|done].
  - intros c Hc. destruct (Hout c) as [-> ->]; [set_solver|]. rewrite !lookup_insert_ne; [done|(intros Heq; apply Hc; rewrite <- Heq; left).. ].
  - intros cs' [->|Hc']%elem_of_cons; [|by apply Hcls]. exists l0.
    destruct (Hout cs.1 Hcs) as [-> ->]. rewrite !lookup_insert_eq. split_and!; [done| |done].
    by rewrite Hperm.
Qed.
End reaper_quiet.

(** Run does what DryRun previews, and nothing else. With no interference,
    [DryRun] lists for each class exactly the objects of that class that no
    source references and that are older than the grace window, changing
    nothing; [Run] then deletes exactly those objects, reports their number per
    class, and leaves every other object and all rows as they were. *)
Theorem Run_matches_DryRun `{UuidLib, Codecs} (r : ReaperService) (now : Z) (w : World) :
  st_backend (rp_store r) = BackendS3 -> w_env w = [] ->
  Forall (fun cs => class_valid (rp_registered r) cs.1 = true) (rp_sources r) ->
  NoDup (rp_sources r).*1 ->
  exists dry res w', DryRun r now w = (Ok dry, w) /\ Run r now w = (Ok res, w') /\
    removed (fun key => exists cs, cs ∈ rp_sources r /\ orphaned r (now - rp_grace r) w cs.1 key) w w' /\
    forall cs, cs ∈ rp_sources r -> exists l, dry !! cs.1 = Some l /\
      res !! cs.1 = Some (Z.of_nat (length l)) /\
      forall key, key ∈ l <-> orphaned r (now - rp_grace r) w cs.1 key.
Proof.
  intros HS3 Hq Hv Hnd. destruct (referencedRefs_quiet r HS3 w Hq) as (refs & Hr & Hrefs).
  destruct (run_classes_quiet r (now - rp_grace r) HS3 refs w (rp_sources r) ∅ ∅ w)
    as (res & dry & w' & Hrun & Hdry & Hrm & _ & Hcls); try done.
  exists dry, res, w'. unfold DryRun, Run, bind. by rewrite Hr.
Qed.

(** ** Witnesses *)

Module ReaperWitness.
Import DemoUuid MediaWitness PhotoWitness.
#[local] Existing Instance demo_codecs.

Definition demo_s3 : Store := mkStore BackendS3 100 "/srv" "".
Definition demo_reaper : ReaperService :=
  mkReaper (H := demo_uuid) demo_s3 (register_all ["album"; "proof"]) BackendS3
    [("album"%string, photo_source (H := demo_uuid)); ("proof"%string, photo_source (H := demo_uuid))] 200.
(** One stored object, last written at [t], and no rows. *)
Definition demo_objects (t : Z) (env : list (act (H := demo_uuid))) : World :=
  mkWorld (H := demo_uuid) demo_db ∅ {[demo_key := mkBlob demo_png t]} ∅ 1000 env.

Lemma demo_reaper_ok :
  NewReaperService (H := demo_uuid) (register_all ["album"; "proof"]) demo_s3 BackendS3 (rp_sources demo_reaper) 200
    = Ok demo_reaper.
Proof. reflexivity. Qed.

Lemma Run_matches_DryRun_witness :
  exists dry res w' l, DryRun demo_reaper 1000 (demo_objects 700 []) = (Ok dry, demo_objects 700 []) /\
    Run demo_reaper 1000 (demo_objects 700 []) = (Ok res, w') /\
    dry !! "album"%string = Some l /\ res !! "album"%string = Some (Z.of_nat (length l)).
Proof.
  destruct (Run_matches_DryRun (H := demo_uuid) demo_reaper 1000 (demo_objects 700 []))
    as (dry & res & w' & Hdry & Hrun & _ & Hcls).
  { reflexivity. } { reflexivity. } { repeat constructor. } { apply (bool_decide_unpack _). vm_compute. exact I. }
  destruct (Hcls _ (list_elem_of_here _ _)) as (l & Hl & Hn & _).
  exists dry, res, w', l. exact (conj Hdry (conj Hrun (conj Hl Hn))).
Defined.

(** The object is younger than the grace window; meanwhile time passes and a
    call fails. *)
Lemma Run_keeps_protected_witness :
  is_Some (w_s3 (Run demo_reaper 1000 (demo_objects 900 [Others [XWait 3]; Fail])).2 !! demo_key).
Proof.
  apply (Run_keeps_protected (H := demo_uuid) demo_reaper 1000 demo_key
    (demo_objects 900 [Others [XWait 3]; Fail])
    (fun w => w_s3 w !! demo_key = Some (mkBlob demo_png 900))).
  - reflexivity.
  - done.
  - intros k' w Hw Hne. simpl. by rewrite lookup_delete_ne.
  - intros w ->. by eexists.
  - right. intros w b -> [= <-]. simpl. lia.
  - reflexivity.
  - repeat constructor. simpl. by intros w Hw.
Defined.

Definition demo_row : photo_row (H := demo_uuid) :=
  mkRow (H := demo_uuid) true demo_key "s3" (Some demo_sum) 9 "image/png" None None 1000.

(** The grace window does not cover a re-upload of an old orphan's bytes: the
    age is read once, from the listing. If an upload rewrites the object after
    the listing and has not yet committed its row at the recheck, [Run] deletes
    the object although it was just written, and the row that then commits
    references bytes that are gone. *)
Theorem reupload_race :
  let upload := [Quiet; Quiet; Quiet; Others [XPut (H := demo_uuid) BackendS3 demo_key demo_png]] in
  let w' := (Run demo_reaper 1000 (demo_objects 700 upload)).2 in
  w_s3 (exts [XPut (H := demo_uuid) BackendS3 demo_key demo_png] (demo_objects 700 [])) !! demo_key
    = Some (mkBlob demo_png 1000) /\
  is_ok (Run demo_reaper 1000 (demo_objects 700 upload)).1 = true /\
  w_s3 w' !! demo_key = None /\
  exists d, insert_photo false demo_row (w_db w') = Ok d /\ photos d !! false = Some demo_row.
Proof. split_and!; [vm_compute; reflexivity..|]. eexists. split; vm_compute; reflexivity. Qed.
End ReaperWitness.
