(* ===== verification/Library.v ===== *)
(** The photo library as a whole: uploads, deletions, reads and sweeps one after
    another, each with calls that may fail before or after their effect.

    The invariant [whole] ties the two halves of a stored photo together, the row in
    the table and the object in its store; every operation of the services keeps it,
    and from it follow that every photo reads back and that a sweep past the grace
    window leaves exactly the referenced objects. *)

From S2P Require Import Prelude GoStrings MediaDomain MediaWorld Photos PhotosSpec Reaper.
Local Open Scope Z_scope.
Local Open Scope nest_scope.

(** ** One process at a time: calls fail, nobody else acts *)

Section own.
Context `{UuidLib}.
Implicit Types (P : World -> Prop).

Definition alone_act (a : act) : Prop := match a with Others _ => False | _ => True end.

(** [P], and the environment only fails calls. *)
Definition own P (w : World) : Prop := Forall alone_act (w_env w) /\ P w.

Definition steady P : Prop := forall e w, P w -> P (set_env e w).

Lemma own_set_env P e w : steady P -> Forall alone_act e -> P w -> own P (set_env e w).
Proof. intros HP He Hw. split; [done|by apply HP]. Qed.

(** A call either runs, or fails with or without its effect. *)
Lemma io_own {A} P (m : M A) w :
  steady P -> own P w -> exists w1, own P w1 /\
    w_db w1 = w_db w /\ w_local w1 = w_local w /\ w_s3 w1 = w_s3 w /\ w_staged w1 = w_staged w /\ w_now w1 = w_now w /\
    (io m w = m w1 \/ io m w = (Err ErrInfra, w1) \/ io m w = (Err ErrInfra, (m w1).2)).
Proof.
  intros HP [He Hw]. unfold io. destruct (w_env w) as [|a env] eqn:E; [exists w; split_and!; auto; split; by rewrite ?E|].
  apply Forall_cons in He as [Ha He]. exists (set_env env w).
  split; [by apply own_set_env|]. split_and!; try done. destruct a; auto. done.
Qed.

Lemma preserves_io_own {A} P (m : M A) : steady P -> preserves (own P) m -> preserves (own P) (io m).
Proof.
  intros HP Hm w Hw. destruct (io_own P m w HP Hw) as (w1 & Hw1 & _ & _ & _ & _ & _ & [->|[->| ->]]); [by apply Hm|done|by apply Hm].
Qed.

Lemma preserves_io_file_own {A} P (m : M A) : steady P -> preserves (own P) m -> preserves (own P) (io_file m).
Proof.
  intros HP Hm w Hw. pose proof (preserves_io_own P m HP Hm w Hw) as Hio. unfold io_file.
  destruct (w_env w) as [|[] env] eqn:E; try done. destruct Hw as [He Hw]. rewrite E in He.
  apply Forall_cons in He as [_ He]. by apply own_set_env.
Qed.

(** A computation that changes nothing but the environment's remaining moves and
    the staging files. *)
Definition reads {A} (m : M A) : Prop :=
  forall P, steady P -> (forall st w, P w -> P (set_staged st w)) -> preserves (own P) m.
End own.

Ltac own_step :=
  match goal with
  | |- preserves _ (io _) => apply preserves_io_own; [done|]
  | |- preserves _ (io_file _) => apply preserves_io_file_own; [done|]
  | |- preserves _ (bind _ _) => apply preserves_bind; [|intros ?]
  | |- preserves _ (outcome _ _) => apply preserves_outcome; [|intros ?]
  | |- preserves _ (deferred _ _) => apply preserves_deferred; [|intros ?]
  | |- preserves _ (io_as _ _) => unfold io_as
  | |- preserves _ (match ?x with _ => _ end) => destruct x
  | |- preserves _ (ret _) => apply preserves_ret
  | |- preserves _ (fail _) => apply preserves_fail
  | |- preserves _ (lift _) => apply preserves_lift
  end.

Section reading.
Context `{UuidLib, Codecs}.

Lemma own_free {A} P (f : World -> result media_error A * World) :
  (forall w, (f w).2 = w) -> preserves (own P) f.
Proof. intros Hf w Hw. by rewrite Hf. Qed.

Lemma Find_reads hh h : reads (FindByContentHash hh h).
Proof. intros P HP _. unfold FindByContentHash. case_decide; repeat own_step. by apply own_free. Qed.

Lemma Get_reads id : reads (Get id).
Proof. intros P HP _. unfold Get. repeat own_step. by apply own_free. Qed.

Lemma Open_reads s ref : reads (Open s ref).
Proof.
  intros P HP _. unfold Open, LocalOpen, S3Open, local_key. repeat own_step; apply own_free; intros w; by repeat case_match.
Qed.

Lemma own_restaged {A} P (f : World -> result media_error A * World) :
  (forall st w, P w -> P (set_staged st w)) ->
  (forall w, exists st, (f w).2 = set_staged st w) -> preserves (own P) f.
Proof. intros HP Hf w [He Hw]. destruct (Hf w) as [st ->]. split; [done|by apply HP]. Qed.

Lemma validate_reads max up : reads (validateAndStage max up).
Proof.
  intros P HP Hst. unfold validateAndStage.
  repeat own_step; try (by apply own_free); (apply own_restaged; [done|]); intros w; eexists; reflexivity.
Qed.

(** ** Putting an object *)

Definition unstaged (P : World -> Prop) : Prop := forall st w, P w -> P (set_staged st w).

(** [P] survives the object an accepted upload is stored as. *)
Definition storable (P : World -> Prop) (s : Store) (reg : gset string) (h : Uuid) (c : PhotoClass) (up : list Z) : Prop :=
  forall w res, put_ok reg (st_max s) h c up res ->
    (st_backend s = BackendLocal -> resolve (st_cwd s) (st_root s) (put_ref res) <> None) ->
    P w -> P (store_blob (st_backend s) (put_ref res) up w).

(** What a [Put] answers for: the object is there. *)
Definition placed (s : Store) (up : list Z) (r : result media_error PutResult) (w : World) : Prop :=
  forall res, r = Ok res -> (exists t, blobs (st_backend s) w !! put_ref res = Some (mkBlob up t)) /\
    (st_backend s = BackendLocal -> resolve (st_cwd s) (st_root s) (put_ref res) <> None).

Lemma own_staged P st w : unstaged P -> own P w -> own P (set_staged st w).
Proof. intros HP [He Hw]. split; [done|by apply HP]. Qed.

Lemma own_stored P s reg h c up w res : storable P s reg h c up -> put_ok reg (st_max s) h c up res ->
  (st_backend s = BackendLocal -> resolve (st_cwd s) (st_root s) (put_ref res) <> None) ->
  own P w -> own P (store_blob (st_backend s) (put_ref res) up w).
Proof. intros Hs Hp Hr [He Hw]. split; [by rewrite env_store|by apply (Hs w res)]. Qed.

Lemma LocalPut_own P s reg h c up w :
  st_backend s = BackendLocal -> steady P -> unstaged P -> storable P s reg h c up -> own P w ->
  let '(r, w') := LocalPut s reg h c up w in own P w' /\ placed s up r w'.
Proof.
  intros Hb HP Hu Hs Hw. unfold LocalPut, bind at 1.
  pose proof (validate_staged (st_max s) up w _ eq_refl) as Hv.
  pose proof (validate_reads (st_max s) up P HP Hu w Hw) as Hw1.
  destruct (validateAndStage _ _ _) as [[sg|e] w1]; [|by split]. simpl in Hw1.
  destruct Hv as (Hp & Hst & Hh & Hz & Ha). unfold deferred, bind at 1.
  destruct (put_key reg h c sg w1) as [[ref|e] w2] eqn:Hk; cycle 1.
  { unfold put_key, lift in Hk. injection Hk as Hk <-. split; [by apply own_staged|done]. }
  apply (put_key_ok reg _ h c up _ _ _ _ Hh Ha) in Hk as (-> & ext & Hext & Hkey). unfold local_key.
  destruct (resolve _ _ ref) eqn:Hres; [|split; [by apply own_staged|done]].
  unfold bind at 1, ret at 1. unfold bind at 1.
  destruct (io_own P (ret tt) w1 HP Hw1) as (w2 & Hw2 & _ & _ & _ & Hst2 & _ & [->|[->| ->]]);
    [|split; [by apply own_staged|done]..]. cbn [ret]. unfold bind at 1.
  destruct (io_own P (rename_staged (s_path sg) ref) w2 HP Hw2) as (w3 & Hw3 & _ & _ & _ & Hst3 & _ & Hio).
  rewrite (rename_staged_run (w_staged w) _ up _ w3) in Hio by (unfold staged_is; congruence).
  assert (put_ok reg (st_max s) h c up (mkPut ref (s_hash sg) (s_size sg) (s_type sg))) as Hput
    by (unfold put_ok; simpl; eauto 6).
  assert (own P (store_blob BackendLocal ref up w3)) as Hstored.
  { rewrite <- Hb. apply (own_stored P s reg h c up w3 _ Hs Hput); [simpl; congruence|done]. }
  destruct Hio as [->|[->| ->]].
  - cbn. split; [by apply (own_staged P)|]. intros res [= <-]. rewrite Hb. split; [|simpl; congruence].
    eexists. simpl. apply lookup_insert_eq.
  - split; [by apply own_staged|done].
  - split; [|done]. cbn. by apply (own_staged P), (own_staged P).
Qed.

Lemma S3Put_own P s reg h c up w :
  st_backend s = BackendS3 -> steady P -> unstaged P -> storable P s reg h c up -> own P w ->
  let '(r, w') := S3Put s reg h c up w in own P w' /\ placed s up r w'.
Proof.
  intros Hb HP Hu Hs Hw. unfold S3Put, bind at 1.
  pose proof (validate_staged (st_max s) up w _ eq_refl) as Hv.
  pose proof (validate_reads (st_max s) up P HP Hu w Hw) as Hw1.
  destruct (validateAndStage _ _ _) as [[sg|e] w1]; [|by split]. simpl in Hw1.
  destruct Hv as (Hp & Hst & Hh & Hz & Ha). unfold deferred, bind at 1.
  destruct (put_key reg h c sg w1) as [[ref|e] w2] eqn:Hk; cycle 1.
  { unfold put_key, lift in Hk. injection Hk as Hk <-. split; [by apply own_staged|done]. }
  apply (put_key_ok reg _ h c up _ _ _ _ Hh Ha) in Hk as (-> & ext & Hext & Hkey). unfold bind at 1.
  match goal with |- context [io ?m w1] => destruct (io_own P m w1 HP Hw1) as (w2 & Hw2 & _ & _ & _ & Hst2 & _ & Hio) end.
  rewrite Hst2, Hst in Hio. cbn [sg_files add_file set_files] in Hio. rewrite lookup_insert_eq in Hio.
  destruct Hio as [->|[->| ->]]; [|split; [by apply own_staged|done]..]. unfold bind at 1.
  assert (put_ok reg (st_max s) h c up (mkPut ref (s_hash sg) (s_size sg) (s_type sg))) as Hput
    by (unfold put_ok; simpl; eauto 6).
  match goal with |- context [io ?m w2] => destruct (io_own P m w2 HP Hw2) as (w3 & Hw3 & _ & _ & _ & _ & _ & Hio) end.
  assert (own P (store_blob BackendS3 ref up w3)) as Hstored.
  { rewrite <- Hb. apply (own_stored P s reg h c up w3 _ Hs Hput); [congruence|done]. }
  destruct Hio as [->|[->| ->]].
  - cbn. split; [by apply (own_staged P)|]. intros res [= <-]. rewrite Hb. split; [|congruence].
    eexists. simpl. apply lookup_insert_eq.
  - split; [by apply own_staged|done].
  - split; [|done]. cbn. by apply (own_staged P).
Qed.

Lemma Put_own P s reg h c up w :
  store_wf s -> steady P -> unstaged P -> storable P s reg h c up -> own P w ->
  let '(r, w') := Put s reg h c up w in own P w' /\ placed s up r w'.
Proof.
  intros Hwf. unfold Put. destruct (st_backend s) eqn:Hb; [by apply LocalPut_own|by apply S3Put_own|].
  unfold store_wf in Hwf. by rewrite Hb in Hwf.
Qed.
End reading.

(** ** The invariant *)

Section library.
Context `{UuidLib, Codecs}.
Context (names : list string) (r : Resolver).

(** The resolver as the composition root builds it ([NewStoreResolver]). *)
Definition wired : Prop := forall b s, r b = Some s -> st_backend s = b /\ backend_valid b = true.

(** A row with its object: in the store its backend resolves to, under the key its
    household and hash determine, with bytes of that hash and a length it reads back. *)
Definition whole_row (w : World) (row : photo_row) : Prop :=
  exists b s h c ext o, r b = Some s /\ pr_backend row = backend_string b /\ pr_hash row = Some h /\
    ExtensionForContentType (pr_type row) = Some ext /\
    buildStorageKey (register_all names) (pr_household row) c h ext = Ok (pr_ref row) /\
    blobs b w !! pr_ref row = Some o /\ sha256_hex (b_bytes o) = h /\
    fits (st_max s) (b_bytes o) /\
    (b = BackendLocal -> resolve (st_cwd s) (st_root s) (pr_ref row) <> None).

Definition whole (w : World) : Prop :=
  db_ok (w_db w) /\ forall id row, photos (w_db w) !! id = Some row -> whole_row w row.

Lemma whole_steady : steady whole.
Proof. intros e w [Hd Hw]. split; [done|]. intros id row Hr. destruct (Hw id row Hr) as (b & s & h & c & ext & o & Hall).
  exists b, s, h, c, ext, o. by destruct b. Qed.

Lemma whole_unstaged : unstaged whole.
Proof. intros e w [Hd Hw]. split; [done|]. intros id row Hr. destruct (Hw id row Hr) as (b & s & h & c & ext & o & Hall).
  exists b, s, h, c, ext, o. by destruct b. Qed.

Lemma blobs_other b b' key up w : b <> b' -> blobs b (store_blob b' key up w) = blobs b w.
Proof. by destruct b, b'. Qed.

Lemma blobs_other_key b key key' up w : key <> key' -> blobs b (store_blob b key' up w) !! key = blobs b w !! key.
Proof. intros Hne. destruct b; [..|done]; simpl; by rewrite lookup_insert_ne. Qed.

(** Storing an accepted upload again can only replace an object by one with the
    same hash. *)
Lemma whole_storable s hh c up :
  wired -> r (st_backend s) = Some s -> storable whole s (register_all names) hh c up.
Proof.
  intros Hwr Hs w res (Hh & Hz & Ha & ext & He & Hk) Hres [Hd Hw]. split; [by rewrite db_store|].
  intros id row. rewrite db_store. intros Hr.
  destruct (Hw id row Hr) as (b & s' & h & c' & ext' & o & Hb & Hbk & Hhash & Hext & Hkey & Ho & Hsum & Hlen & Hloc).
  destruct (decide (b = st_backend s)) as [->|Hne]; cycle 1.
  { exists b, s', h, c', ext', o. by rewrite blobs_other. }
  assert (s' = s) as -> by congruence.
  destruct (decide (pr_ref row = put_ref res)) as [E|Hne]; cycle 1.
  { exists (st_backend s), s, h, c', ext', o. by rewrite blobs_other_key. }
  rewrite E in Hkey. destruct (buildStorageKey_inj _ _ _ _ _ _ _ _ _ _ Hk Hkey) as (_ & _ & -> & _).
  exists (st_backend s), s, (sha256_hex up), c', ext', (mkBlob up (w_now w)). rewrite E, blobs_store by (by apply (Hwr _ s)).
  destruct Ha as (_ & Hmax & _). split_and!; done.
Qed.

(** Inserting the row an upload describes, its object in place. *)
Lemma whole_insert s id row d w up t ext key c :
  r (st_backend s) = Some s -> whole w -> insert_photo id row (w_db w) = Ok d ->
  blobs (st_backend s) w !! key = Some (mkBlob up t) -> pr_ref row = key ->
  pr_backend row = backend_string (st_backend s) -> pr_hash row = Some (sha256_hex up) ->
  ExtensionForContentType (pr_type row) = Some ext ->
  buildStorageKey (register_all names) (pr_household row) c (sha256_hex up) ext = Ok key ->
  fits (st_max s) up ->
  (st_backend s = BackendLocal -> resolve (st_cwd s) (st_root s) key <> None) ->
  whole (set_db d w).
Proof.
  intros Hs [Hd Hw] Hi Hb Href Hbk Hh He Hk Hlen Hres. split; [by eapply db_ok_insert|].
  assert (forall b, blobs b (set_db d w) = blobs b w) as Hbl by (by intros []).
  apply insert_photo_ok in Hi as (_ & _ & _ & _ & _ & ->). intros id' row'. cbn.
  intros [[<- <-]|[_ Hr]]%lookup_insert_Some.
  - exists (st_backend s), s, (sha256_hex up), c, ext, (mkBlob up t). rewrite Hbl, Href. split_and!; done.
  - destruct (Hw id' row' Hr) as (b & s' & h & c' & ext' & o & Hall). exists b, s', h, c', ext', o. by rewrite Hbl.
Qed.

Lemma whole_delete id w : whole w -> whole (set_db (with_photos (delete id (photos (w_db w))) (w_db w)) w).
Proof.
  intros [Hd Hw]. split; [by apply db_ok_delete|]. intros id' row. cbn. intros [_ Hr]%lookup_delete_Some.
  destruct (Hw id' row Hr) as (b & s & h & c & ext & o & Hall). exists b, s, h, c, ext, o. by destruct b.
Qed.

(** An object no S3 row names can go. *)
Lemma whole_removed key w : whole w -> ~ photo_refs w BackendS3 key ->
  whole (set_blobs BackendS3 (delete key (w_s3 w)) w).
Proof.
  intros [Hd Hw] Hn. split; [done|]. intros id row Hr. cbn in Hr.
  destruct (Hw id row Hr) as (b & s & h & c & ext & o & Hb & Hbk & Hhash & Hext & Hkey & Ho & Hrest).
  exists b, s, h, c, ext, o. split_and!; try done; try apply Hrest. destruct b; try done. simpl in *.
  rewrite lookup_delete_ne; [done|]. intros E. apply Hn. by exists id, row.
Qed.

(** ** The operations keep it *)

Lemma Upload_whole s id hh uploader up :
  wired -> sv_resolver s = r -> preserves (own whole) (Upload s (register_all names) id hh uploader up).
Proof.
  intros Hwr Hsr w Hw. unfold Upload, writeStore, lift, Resolve, bind at 1. rewrite Hsr.
  destruct (r (sv_write s)) as [store|] eqn:Hst; [|done].
  destruct (Hwr _ _ Hst) as [Hb Hv]. rewrite <- Hb in Hst. unfold bind at 1.
  pose proof (Put_facts store (register_all names) hh (sv_class s) up w) as Hp.
  pose proof (Put_own whole store (register_all names) hh (sv_class s) up w) as Ho.
  destruct (Put store (register_all names) hh (sv_class s) up w) as [[res|e] w1]; cycle 1.
  { apply Ho; auto using whole_steady, whole_unstaged, whole_storable. unfold store_wf. by rewrite Hb. }
  destruct Ho as [Hw1 Hpl];
    [unfold store_wf; by rewrite Hb|apply whole_steady|apply whole_unstaged|by apply whole_storable|done|].
  destruct Hp as [_ Hp]. destruct (Hp res eq_refl) as (Hh & Hz & Ha & ext & He & Hk), (Hpl res eq_refl) as [[t Hobj] Hres].
  set (K := fun w => whole w /\ blobs (st_backend store) w !! put_ref res = Some (mkBlob up t)).
  assert (steady K) as HK by (intros e w0 [? ?]; split; [by apply whole_steady|by destruct (st_backend store)]).
  assert (unstaged K) as HKu by (intros e w0 [? ?]; split; [by apply whole_unstaged|by destruct (st_backend store)]).
  assert (forall w, own K w -> own whole w) as Hout by (intros w0 [? [? _]]; by split).
  assert (own K w1) as HK1 by (destruct Hw1; by split). clear Hw1 Hobj.
  unfold outcome at 1. pose proof (Find_reads hh (put_hash res) K HK HKu w1 HK1) as HK2.
  destruct (FindByContentHash _ _ w1) as [[p|e] w2]; [by apply Hout|]. simpl in HK2.
  destruct e; try (by apply Hout). unfold takenAt, bind at 1, bind at 1.
  pose proof (Open_reads store (put_ref res) K HK HKu w2 HK2) as HK3.
  destruct (Open store (put_ref res) w2) as [[data|e] w3]; [|by apply Hout]. simpl in HK3. cbn [ret]. cbv zeta.
  destruct (Validate _); [by apply Hout|]. unfold outcome, Create, pg. cbn [p_id].
  match goal with |- context [io ?m w3] => destruct (io_own K m w3 HK HK3) as (w4 & HK4 & _ & _ & _ & _ & _ & Hio) end.
  set (photo := mkPhoto _ _ _ _ _ _ _ _ _ _) in *.
  assert (forall d, insert_photo id (row_of (sv_write s) (w_now w4) photo) (w_db w4) = Ok d -> own whole (set_db d w4)) as Hins.
  { intros d Hi. destruct HK4 as [Hen [Hwh Hobj]]. split; [done|].
    eapply (whole_insert store id _ d w4 up t ext (put_ref res) (sv_class s)); try done; cbn.
    - by rewrite Hb.
    - rewrite Hh. apply nullableText_hash.
    - by destruct Ha as (_ & ? & _). }
  destruct Hio as [->|[->| ->]]; [|by apply Hout|].
  - destruct (insert_photo _ _ (w_db w4)) as [d|e] eqn:Hi; [by apply Hins|]. simpl.
    destruct (create_error e); try (by apply Hout). unfold bind.
    pose proof (Find_reads hh (put_hash res) K HK HKu w4 HK4) as HK5.
    destruct (FindByContentHash _ _ w4) as [[p|e'] w5]; by apply Hout.
  - simpl. destruct (insert_photo _ _ (w_db w4)) as [d|e] eqn:Hi; simpl; [by apply Hins|by apply Hout].
Qed.

Lemma Delete_whole hh id : preserves (own whole) (Delete hh id).
Proof.
  unfold Delete, ownedPhoto. apply preserves_bind; [apply preserves_bind|].
  - apply Get_reads; [apply whole_steady|apply whole_unstaged].
  - intros p. repeat own_step.
  - intros _. apply preserves_io_own; [apply whole_steady|]. intros w [He Hw].
    case_decide; [|done]. split; [done|by apply whole_delete].
Qed.

(** ** The sweep keeps it *)

Context (rp : ReaperService).

(** The sweep of S3: one of its sources is this library's table. *)
Record sweeps : Prop := mkSweeps {
  sw_store : st_backend (rp_store rp) = BackendS3;
  sw_backend : rp_backend rp = BackendS3;
  sw_source : exists c, (c, photo_source) ∈ rp_sources rp
}.

Lemma own_env_step P w w' : steady P -> env_step w w' -> own P w -> own P w' /\ w_db w' = w_db w /\ w_s3 w' = w_s3 w.
Proof.
  intros HP [E|a env E|ops env E] [He Hw]; [done|..]; rewrite E in He; apply Forall_cons in He as [Ha He]; [|done].
  split; [|done]. by apply own_set_env.
Qed.

Lemma exists_own sources ref w :
  own whole w -> let '(_, w') := existsByStorageRef sources BackendS3 ref w in own whole w' /\ w_db w' = w_db w.
Proof.
  revert w. induction sources as [|cs sources IH]; intros w Hw; cbn [existsByStorageRef]; [done|].
  unfold bind. pose proof (src_exists_law cs.2 ref BackendS3 w) as Hl.
  destruct (src_exists cs.2 ref BackendS3 w) as [[e|] w1]; destruct Hl as (Hs & _);
    destruct (own_env_step whole w w1 whole_steady Hs Hw) as (Hw1 & <- & _); [|done]. destruct e; [done|by apply IH].
Qed.

(** A recheck that finds no reference is right. *)
Lemma exists_whole sources ref w :
  (exists c, (c, photo_source) ∈ sources) -> own whole w ->
  let '(res, w') := existsByStorageRef sources BackendS3 ref w in
  own whole w' /\ (res = Ok false -> ~ photo_refs w' BackendS3 ref).
Proof.
  intros [c Hc] Hw. pose proof (exists_own sources ref w Hw) as Hown.
  destruct (existsByStorageRef sources BackendS3 ref w) as [res w'] eqn:E. destruct Hown as [Hw' Hdb].
  split; [done|]. intros -> Href.
  assert (photo_refs w BackendS3 ref) as Href0 by (eapply (src_refs_law photo_source); [exact Hdb|exact Href]).
  clear Href Hdb. revert w Hw E Href0. induction sources as [|cs sources IH]; intros w Hw E Href; [set_solver|].
  cbn [existsByStorageRef] in E. unfold bind in E. pose proof (src_exists_law cs.2 ref BackendS3 w) as Hl.
  destruct (src_exists cs.2 ref BackendS3 w) as [[e|] w1]; destruct Hl as (Hs & He & _); [|done].
  destruct (own_env_step whole w w1 whole_steady Hs Hw) as (Hw1 & Hd & _).
  destruct e; [done|]. assert (photo_refs w1 BackendS3 ref) as Href1
    by (eapply (src_refs_law photo_source); [symmetry; exact Hd|exact Href]).
  apply elem_of_cons in Hc as [<-|Hc]; [|by apply (IH Hc w1)].
  destruct (He false eq_refl) as [_ Hf]. by specialize (Hf Href1).
Qed.

Lemma sweep_whole candidates n : sweeps -> preserves (own whole) (sweep_candidates rp candidates n).
Proof.
  intros [Hs3 Hbk Hsrc]. revert n. induction candidates as [|ref cands IH]; intros n w Hw; cbn [sweep_candidates]; [done|].
  unfold bind at 1. rewrite Hbk. pose proof (exists_whole (rp_sources rp) ref w Hsrc Hw) as He.
  destruct (existsByStorageRef _ _ ref w) as [[e|] w1]; destruct He as [Hw1 He]; [|done].
  destruct e; [by apply IH|]. specialize (He eq_refl). unfold bind.
  unfold DeleteObject, LocalDelete, S3Delete. rewrite Hs3.
  set (K := fun w => whole w /\ ~ photo_refs w BackendS3 ref).
  assert (steady K) as HK by (intros e w0 [? ?]; split; [by apply whole_steady|done]).
  assert (own K w1) as HK1 by (destruct Hw1; by split).
  match goal with |- context [io ?m w1] => destruct (io_own K m w1 HK HK1) as (w2 & [He2 [Hw2 Hn2]] & _ & _ & _ & _ & _ & [->|[->| ->]]) end.
  - apply IH. split; [done|by apply whole_removed].
  - by split.
  - split; [done|by apply whole_removed].
Qed.

Lemma Run_whole now : sweeps -> preserves (own whole) (Run rp now).
Proof.
  intros Hsw. unfold Run. apply preserves_bind.
  - unfold referencedRefs. assert (preserves (own whole) (ret (∅ : gset string))) as Hm by apply preserves_ret.
    revert Hm. generalize (ret (∅ : gset string)) as m.
    induction (rp_sources rp) as [|cs sources IH]; intros m Hm; simpl; [done|]. apply IH.
    apply preserves_bind; [done|]. intros set. apply preserves_bind; [|intros refs; apply preserves_ret].
    intros w Hw. pose proof (src_list_law cs.2 (rp_backend rp) w) as Hl.
    destruct (src_list cs.2 (rp_backend rp) w) as [x w1]. destruct Hl as (Hs & _).
    by apply (own_env_step whole w w1 whole_steady Hs Hw).
  - intros refs. generalize (∅ : gmap string Z). induction (rp_sources rp) as [|cs classes IH]; intros res;
      cbn [run_classes]; [apply preserves_ret|].
    apply preserves_bind; [|intros cands; apply preserves_bind; [by apply sweep_whole|intros n; apply IH]].
    unfold orphanCandidates. apply preserves_bind; [|intros objs; apply preserves_ret].
    intros w Hw. pose proof (ListObjects_step (rp_registered rp) cs.1 w) as Hl.
    destruct (ListObjects _ cs.1 w) as [x w1]. destruct Hl as [[->|Hs] _]; [done|].
    by apply (own_env_step whole w w1 whole_steady Hs Hw).
Qed.
(** ** Histories *)

(** The services' operations that change anything, and time passing. *)
Inductive op :=
| OpUpload (s : PhotoService) (id hh uploader : Uuid) (up : list Z)
| OpDelete (hh id : Uuid)
| OpRun (now : Z)
| OpWait (d : Z).

Definition perform (o : op) (w : World) : World :=
  match o with
  | OpUpload s id hh uploader up => (Upload s (register_all names) id hh uploader up w).2
  | OpDelete hh id => (Delete hh id w).2
  | OpRun now => (Run rp now w).2
  | OpWait d => ext (XWait d) w
  end.

(** Each operation with the failures its calls meet. *)
Definition history (h : list (list act * op)) (w : World) : World :=
  foldl (fun w fo => set_env [] (perform fo.2 (set_env fo.1 w))) w h.

Definition op_ok (fo : list act * op) : Prop :=
  Forall alone_act fo.1 /\ match fo.2 with OpUpload s _ _ _ _ => sv_resolver s = r | _ => True end.

Lemma perform_whole o : wired -> sweeps -> op_ok ([], o) -> preserves (own whole) (fun w => (Ok tt, perform o w)).
Proof.
  intros Hwr Hsw [_ Ho] w Hw. destruct o as [s id hh up data|hh id|now|d]; cbn.
  - by apply Upload_whole.
  - by apply Delete_whole.
  - by apply Run_whole.
  - destruct Hw as [He [Hd Hr]]. split; [done|]. split; [done|]. intros id row Hl.
    destruct (Hr id row Hl) as (b & s & h & c & ext & o & Hall). exists b, s, h, c, ext, o. by destruct b.
Qed.

Lemma history_whole h w :
  wired -> sweeps -> Forall op_ok h -> w_env w = [] -> whole w ->
  w_env (history h w) = [] /\ whole (history h w).
Proof.
  intros Hwr Hsw Hh. revert w. induction Hh as [|[f o] h [Hf Ho] Hh IH]; intros w He Hw; [done|].
  cbn [history foldl fst snd]. apply IH; [done|].
  destruct (perform_whole o Hwr Hsw (conj (List.Forall_nil _) Ho) (set_env f w)) as [_ Hwh];
    [split; [done|by apply whole_steady]|]. by apply whole_steady.
Qed.

(** ** What follows from the invariant *)

Lemma whole_reads s id row w :
  wired -> sv_resolver s = r -> w_env w = [] -> whole w -> photos (w_db w) !! id = Some row ->
  exists data, OpenBytes s (pr_household row) id w = (Ok (data, pr_type row), w) /\ pr_hash row = Some (sha256_hex data).
Proof.
  intros Hwr Hsr Hq [Hd Hw] Hr.
  destruct (Hw id row Hr) as (b & st & h & c & ext & o & Hb & Hbk & Hhash & Hext & Hkey & Ho & Hsum & Hlen & Hloc).
  destruct (Hwr b st Hb) as [Hsb Hv]. exists (b_bytes o). rewrite Hhash, Hsum. split; [|done].
  assert (exists p, scanPhoto (id, row) = Some p /\ p_household p = pr_household row /\ p_backend p = b /\
    p_ref p = pr_ref row) as (p & Hp & Hph & Hpb & Hpr).
  { unfold scanPhoto. rewrite !uuid_parse_string. cbn. rewrite Hbk, ParseStorageBackend_string by done. cbn.
    destruct (pr_uploader row) as [m|]; cbn; [rewrite uuid_parse_string; cbn|]; eexists; split_and!; reflexivity. }
  unfold OpenBytes, ownedPhoto, bind at 1, bind at 1. rewrite Get_quiet by done. rewrite Hr. cbn [mbind option_bind scan_one].
  rewrite Hp, Hph, decide_True by done. cbn [ret]. unfold readStore, lift, bind at 1, Resolve. rewrite Hpb, Hsr, Hb.
  unfold bind. rewrite Hpr, (Open_blob st (pr_ref row) w o); try done.
  - cbn. by rewrite (ref_content_type _ _ _ _ _ _ _ Hext Hkey).
  - unfold store_wf. by rewrite Hsb.
  - by rewrite Hsb.
  - rewrite Hsb. done.
Qed.

Lemma sweep_clean now w :
  sweeps -> w_env w = [] -> Forall (fun cs => class_valid (rp_registered rp) cs.1 = true) (rp_sources rp) ->
  NoDup (rp_sources rp).*1 -> (forall key o, w_s3 w !! key = Some o -> b_modified o <= now - rp_grace rp) ->
  exists res w', Run rp now w = (Ok res, w') /\ w_db w' = w_db w /\
    forall c key, c ∈ (rp_sources rp).*1 -> under_households key && keyBelongsToClass key (class_string c) = true ->
      is_Some (w_s3 w' !! key) <-> is_Some (w_s3 w !! key) /\ referenced rp w key.
Proof.
  intros [Hs3 _ _] Hq Hv Hnd Hold. destruct (referencedRefs_quiet rp Hs3 w Hq) as (refs & Hr & Hrefs).
  destruct (run_classes_quiet rp (now - rp_grace rp) Hs3 refs w (rp_sources rp) ∅ ∅ w)
    as (res & dry & w' & Hrun & _ & (Hdb & _ & _ & _ & _ & Hkeys) & _); try done.
  exists res, w'. split; [unfold Run, bind; by rewrite Hr|]. split; [done|].
  intros c key (cs & -> & Hcs)%list_elem_of_fmap Hl. destruct (Hkeys key) as [Hgone Hkept].
  assert (referenced rp w key -> w_s3 w' !! key = w_s3 w !! key) as Hk.
  { intros Href. apply Hkept. by intros (cs' & _ & _ & _ & Hn). }
  split.
  - intros Hin. destruct (w_s3 w !! key) as [o|] eqn:Eo.
    + split; [done|].
      assert (key ∈ refs \/ key ∉ refs) as [Hr'|Hn] by (destruct (decide (key ∈ refs)); auto); [by apply Hrefs|].
      exfalso. rewrite Hrefs in Hn. rewrite Hgone in Hin; [by destruct Hin|].
      exists cs. split; [done|]. split_and!; try done. exists o. split; [done|by eapply Hold].
    + exfalso. rewrite Hkept in Hin; [by destruct Hin|]. intros (cs' & _ & (o & Ho & _) & _). congruence.
  - intros [Hin Href]. by rewrite (Hk Href).
Qed.
End library.

(** C10. A photo library stays whole through any sequence of uploads, deletions, sweeps and
    waits, whichever of their calls fail, before or after their effect: no operation
    of one process loses an object a row names or leaves a row without its object. So
    afterwards every photo of the table reads back, with bytes of its recorded hash
    and with its type; and a sweep once the grace window has passed leaves, of the
    objects under the registered classes, exactly those some source references. *)
Theorem library_whole `{UuidLib, Codecs} (names : list string) (r : Resolver) (rp : ReaperService)
    (h : list (list act * op)) (w : World) :
  wired r -> sweeps rp -> Forall (fun cs => class_valid (rp_registered rp) cs.1 = true) (rp_sources rp) ->
  NoDup (rp_sources rp).*1 -> Forall (op_ok r) h -> w_env w = [] -> db_ok (w_db w) -> photos (w_db w) = ∅ ->
  let w' := history names rp h w in
  db_ok (w_db w') /\
  (forall id row s, photos (w_db w') !! id = Some row -> sv_resolver s = r ->
     exists data, OpenBytes s (pr_household row) id w' = (Ok (data, pr_type row), w') /\
       pr_hash row = Some (sha256_hex data)) /\
  (forall now, (forall key o, w_s3 w' !! key = Some o -> b_modified o <= now - rp_grace rp) ->
     exists res w'', Run rp now w' = (Ok res, w'') /\ w_db w'' = w_db w' /\
       forall c key, c ∈ (rp_sources rp).*1 -> under_households key && keyBelongsToClass key (class_string c) = true ->
         is_Some (w_s3 w'' !! key) <-> is_Some (w_s3 w' !! key) /\ referenced rp w' key).
Proof.
  intros Hwr Hsw Hv Hnd Hh Hq Hdb Hempty.
  destruct (history_whole names r rp h w Hwr Hsw Hh Hq) as [Hq' Hw'].
  { split; [done|]. intros id row. by rewrite Hempty. }
  split_and!; [apply Hw'|intros id row s Hr Hs; by eapply whole_reads|intros now; by apply sweep_clean].
Qed.

(** ** Witness *)

Module LibraryWitness.
Import DemoUuid MediaWitness PhotoWitness ReaperWitness.
#[local] Existing Instance demo_codecs.

Definition both_stores : Resolver :=
  fun b => match b with BackendLocal => Some demo_store | BackendS3 => Some demo_s3 | BackendOther _ => None end.
Definition s3_service : PhotoService := mkService "album" both_stores BackendS3 60.

(** The first attempt inserts its row but loses the reply, so the retry is answered
    as a duplicate; then a sweep whose second call fails, time passes, and a sweep
    that runs to its end. *)
Definition lost_insert : list act := repeat (Quiet (H := demo_uuid)) 11 ++ [Lost (H := demo_uuid)].
Definition demo_history : list (list act * op) :=
  [(lost_insert, OpUpload s3_service true true false demo_png);
   ([], OpUpload s3_service false true false demo_png);
   ([Quiet (H := demo_uuid); Fail (H := demo_uuid)], OpRun 1000);
   ([], OpWait 500);
   ([], OpRun 505);
   ([], OpDelete false true)].

Example lost_then_duplicate :
  let w1 := Upload (H := demo_uuid) s3_service (register_all ["album"; "proof"]) true true false demo_png (demo_world lost_insert) in
  w1.1 = Err ErrInfra /\ is_Some (photos (w_db w1.2) !! true) /\
  match Upload (H := demo_uuid) s3_service (register_all ["album"; "proof"]) false true false demo_png (set_env [] w1.2) with
  | (Ok u, _) => u_duplicate u = true
  | _ => False
  end.
Proof. split_and!; [vm_compute; reflexivity|vm_compute; eauto|vm_compute; reflexivity]. Qed.

Lemma both_wired : wired both_stores.
Proof. intros b s. destruct b; by intros [= <-]. Qed.
Lemma demo_sweeps : sweeps demo_reaper.
Proof. split; [done..|]. exists "album"%string. left. Qed.

Lemma library_whole_witness :
  let w' := history (H := demo_uuid) ["album"; "proof"] demo_reaper demo_history (demo_world []) in
  exists row data, photos (w_db w') !! true = Some row /\
    OpenBytes s3_service (pr_household row) true w' = (Ok (data, pr_type row), w') /\ pr_hash row = Some (sha256_hex data).
Proof.
  intros w'.
  destruct (library_whole (H := demo_uuid) ["album"; "proof"] both_stores demo_reaper demo_history (demo_world []))
    as (_ & Hread & _).
  - exact both_wired.
  - exact demo_sweeps.
  - repeat constructor.
  - apply (bool_decide_unpack _). vm_compute. exact I.
  - repeat constructor.
  - reflexivity.
  - exact demo_db_ok.
  - reflexivity.
  - destruct (photos (w_db w') !! true) as [row|] eqn:Hr; [|vm_compute in Hr; discriminate].
    destruct (Hread true row s3_service Hr eq_refl) as (data & Hdata). exists row, data. exact (conj eq_refl Hdata).
Defined.
End LibraryWitness.
