(* ===== verification/MediaPorts.v ===== *)
(** The photo repository port (src/media/domain/photo.go) and its keyset pagination: a
    storage migrator asks for page after page of a backend's rows, each page from where
    the last one ended, while uploads and deletions go on. *)

From S2P Require Import Prelude GoStrings MediaDomain MediaWorld Photos PhotosSpec Reaper.
Local Open Scope Z_scope.
Local Open Scope nest_scope.

(** ** The port *)

Section port.
Context `{UuidLib}.

Record PhotoRepository := mkPhotoRepository {
  port_Create : Photo -> M Photo;
  port_Get : Uuid -> M Photo;
  port_FindByContentHash : Uuid -> string -> M Photo;
  port_ListByHousehold : Uuid -> M (list Photo);
  port_DeletePhoto : Uuid -> M unit;
  port_ListAllStorageRefs : StorageBackend -> M (list string);
  port_ExistsByStorageRef : string -> StorageBackend -> M bool;
  port_ListByBackend : StorageBackend -> Uuid -> Z -> M (list Photo);
  port_MigrateStorageBackend : Uuid -> string -> StorageBackend -> string -> M bool
}.

(** Bound to the backend [Create] stamps on its rows. *)
Definition postgres_photos (backend : StorageBackend) : PhotoRepository :=
  mkPhotoRepository (Create backend) Get FindByContentHash ListByHousehold DeletePhoto ListAllStorageRefs
    ExistsByStorageRef ListByBackend MigrateStorageBackend.

(** Page after page until an empty one, as the port's comment says to. *)
Fixpoint pages (repo : PhotoRepository) (backend : StorageBackend) (limit : Z) (fuel : nat) (after : Uuid) : M (list Photo) :=
  match fuel with
  | O => fail ErrArgument
  | S fuel =>
    do! ps := port_ListByBackend repo backend after limit in
    match last ps with
    | None => ret []
    | Some p => do! rest := pages repo backend limit fuel (p_id p) in ret (ps ++ rest)
    end
  end.
End port.

(** ** The order of identifiers *)

Section order.
Context `{UuidLib}.

Definition before (x y : Uuid) : Prop := String.ltb (uuid_string x) (uuid_string y) = true.

#[global] Instance before_dec x y : Decision (before x y).
Proof. unfold before. apply _. Defined.

Lemma compare_refl s : String.compare s s = Eq.
Proof. induction s as [|c s IH]; [done|]. cbn. unfold Ascii.compare. by rewrite N.compare_refl. Qed.

Lemma before_alt x y : before x y <-> String.le (uuid_string x) (uuid_string y) /\ x <> y.
Proof.
  unfold before, String.ltb, String.le, String.leb. split.
  - destruct (String.compare _ _) eqn:E; try done. intros _. split; [done|]. intros ->.
    by rewrite compare_refl in E.
  - intros [Hle Hne]. destruct (String.compare _ _) eqn:E; try done.
    apply String.compare_eq_iff, uuid_string_inj in E. done.
Qed.

#[global] Instance before_trans : Transitive before.
Proof.
  intros x y z [Hxy Hne]%before_alt [Hyz Hne']%before_alt. apply before_alt. split; [by etrans|].
  intros ->. apply Hne, uuid_string_inj. by apply (anti_symm String.le).
Qed.

Lemma before_irrefl x : ~ before x x.
Proof. by intros [_ Hne]%before_alt. Qed.

#[global] Instance id_order_total : Total id_order.
Proof. intros x y. unfold id_order. apply String.leb_total. Qed.
#[global] Instance id_order_trans : Transitive id_order.
Proof.
  intros x y z Hxy Hyz. unfold id_order in *. apply Is_true_true. apply Is_true_true in Hxy, Hyz.
  by apply (transitivity (R := String.le) Hxy).
Qed.

Lemma strictly_sorted (l : list (Uuid * photo_row)) : StronglySorted id_order l -> NoDup l.*1 -> StronglySorted before l.*1.
Proof.
  induction 1 as [|x l Hl IH Hx]; intros Hnd; [constructor|]. apply NoDup_cons in Hnd as [Hnin Hnd].
  cbn [fmap list_fmap]. constructor; [by apply IH|]. rewrite Forall_fmap. rewrite !Forall_forall in *. intros y Hy.
  apply before_alt. split; [by apply Is_true_true, Hx|]. intros E. apply Hnin. change (x.1) with (fst x). rewrite E.
  by apply list_elem_of_fmap_2.
Qed.
End order.

(** ** One page *)

Section page.
Context `{UuidLib}.

(** A row as the port returns it. *)
Definition photo_of (kv : Uuid * photo_row) : Photo :=
  let '(id, r) := kv in
  mkPhoto id (pr_household r) (pr_ref r) (default "" (pr_hash r)) (pr_size r) (pr_type r) (pr_taken r) (pr_uploader r)
    (pr_created r) (as_backend (pr_backend r)).

Lemma scan_checked id r : row_checks r = true -> scanPhoto (id, r) = Some (photo_of (id, r)).
Proof.
  unfold row_checks. intros [Hb%bool_decide_eq_true_1 _]%andb_prop. unfold scanPhoto, photo_of.
  rewrite !uuid_parse_string. cbn [mbind option_bind].
  assert (ParseStorageBackend (pr_backend r) = Some (as_backend (pr_backend r))) as ->
    by (destruct Hb as [->| ->]; vm_compute; reflexivity).
  cbn [mbind option_bind]. by destruct (pr_uploader r) as [m|]; cbn; rewrite ?uuid_parse_string.
Qed.

Lemma scan_all_checked rows : Forall (fun kv => row_checks kv.2 = true) rows -> rows_scanned rows = Ok (photo_of <$> rows).
Proof.
  intros Hc. unfold rows_scanned. assert (scanPhotos rows = Some (photo_of <$> rows)) as ->; [|done].
  induction Hc as [|[id r] rows Hr _ IH]; [done|]. cbn [scanPhotos]. rewrite scan_checked by done. cbn. by rewrite IH.
Qed.

(** The backend's rows past [after], in the order of their ids. *)
Definition rows_after (backend : StorageBackend) (after : Uuid) (d : DB) : list (Uuid * photo_row) :=
  merge_sort id_order (filter (fun kv => pr_backend kv.2 = backend_string backend /\
    String.ltb (uuid_string after) (uuid_string kv.1) = true) (map_to_list (photos d))).

Lemma elem_of_rows_after backend after d id r :
  (id, r) ∈ rows_after backend after d <->
  photos d !! id = Some r /\ pr_backend r = backend_string backend /\ before after id.
Proof.
  unfold rows_after. rewrite merge_sort_Permutation, list_elem_of_filter, elem_of_map_to_list. cbn. unfold before. tauto.
Qed.

Lemma rows_after_sorted backend after d : StronglySorted before (rows_after backend after d).*1.
Proof.
  apply strictly_sorted; [apply StronglySorted_merge_sort; apply _|]. unfold rows_after. rewrite merge_sort_Permutation.
  pose proof (NoDup_fst_map_to_list (photos d)) as Hnd. revert Hnd. generalize (map_to_list (photos d)). intros l.
  induction l as [|kv l IH]; [done|]. intros [Hnin Hnd]%NoDup_cons. rewrite filter_cons. case_decide; [|by apply IH].
  cbn. apply NoDup_cons. split; [|by apply IH]. intros (kv' & E & Hin)%list_elem_of_fmap. apply Hnin.
  apply list_elem_of_filter in Hin as [_ Hin]. rewrite E. by apply list_elem_of_fmap_2.
Qed.

(** One page: a failed call, or the first rows past [after] of the table as it then is. *)
Lemma page_step backend after limit w :
  0 < limit -> relied DBOK w ->
  let '(r, w') := ListByBackend backend after limit w in
  env_step w w' /\
  ((r = Err ErrInfra /\ w_env w <> []) \/ r = Ok (photo_of <$> take (Z.to_nat limit) (rows_after backend after (w_db w')))).
Proof.
  intros Hl Hw.
  assert (ListByBackend backend after limit
    = io (fun w => (rows_scanned (take (Z.to_nat limit) (rows_after backend after (w_db w))), w))) as ->
    by (unfold ListByBackend; by rewrite (proj2 (Z.leb_gt limit 0)) by lia).
  assert (forall w, DBOK w -> rows_scanned (take (Z.to_nat limit) (rows_after backend after (w_db w)))
    = Ok (photo_of <$> take (Z.to_nat limit) (rows_after backend after (w_db w)))) as Hscan.
  { intros w1 Hok. apply scan_all_checked. apply Forall_take, Forall_forall. intros [id r] (Hr & _ & _)%elem_of_rows_after.
    by apply (ok_checks _ Hok id). }
  destruct Hw as [Hok Henv]. pose proof (proj1 closed_db_ok) as Hset.
  unfold io. destruct (w_env w) as [|a env] eqn:E.
  { split; [by constructor|]. right. by rewrite Hscan. }
  apply Forall_cons in Henv as [Ha _]. destruct a as [| | |ops].
  - split; [by eapply es_quiet|]. right. by rewrite Hscan by (by apply Hset).
  - split; [by eapply es_quiet|]. by left.
  - split; [by eapply es_quiet|]. by left.
  - split; [by eapply es_others|]. right. rewrite Hscan; [done|]. apply Ha. by apply Hset.
Qed.

(** ** How many pages *)

(** Rows past [after], of any backend, and the inserts the environment still makes. *)
Definition rows_left (after : Uuid) (d : DB) : nat := size (filter (fun kv => before after kv.1) (photos d)).
Definition ext_inserts (ops : list ext_op) : nat :=
  length (List.filter (fun o => match o with XInsert _ _ => true | _ => false end) ops).
Fixpoint inserts_left (env : list act) : nat :=
  match env with
  | [] => 0
  | Others ops :: env => ext_inserts ops + inserts_left env
  | _ :: env => inserts_left env
  end.
Definition work (after : Uuid) (w : World) : nat := rows_left after (w_db w) + inserts_left (w_env w).

Lemma rows_left_insert after id r d :
  (rows_left after (with_photos (<[id := r]> (photos d)) d) <= S (rows_left after d))%nat.
Proof.
  unfold rows_left. cbn [photos with_photos]. rewrite map_filter_insert. case_decide.
  - rewrite map_size_insert. case_match; cbn; lia.
  - transitivity (size (filter (fun kv => before after kv.1) (photos d))); [|lia].
    apply map_subseteq_size. apply map_filter_subseteq_mono, delete_subseteq.
Qed.

Lemma rows_left_delete after id d : (rows_left after (with_photos (delete id (photos d)) d) <= rows_left after d)%nat.
Proof. apply map_subseteq_size, map_filter_subseteq_mono, delete_subseteq. Qed.

Lemma rows_left_exts after ops w : (rows_left after (w_db (exts ops w)) <= rows_left after (w_db w) + ext_inserts ops)%nat.
Proof.
  unfold exts. revert w. induction ops as [|o ops IH]; intros w; [cbn; lia|]. cbn [foldl]. etrans; [apply IH|].
  unfold ext_inserts. destruct o as [id r|id|[] k data|[] k|t]; cbn; try lia.
  - destruct (insert_photo id r (w_db w)) as [d|] eqn:Hi; cbn; [|lia].
    apply insert_photo_ok in Hi as (_ & _ & _ & _ & _ & ->). pose proof (rows_left_insert after id r (w_db w)). lia.
  - pose proof (rows_left_delete after id (w_db w)). lia.
Qed.

Lemma work_step after w w' : env_step w w' -> (work after w' <= work after w)%nat.
Proof.
  unfold work. intros [E|a env E|ops env E]; [done| |]; rewrite E.
  - cbn [w_env w_db set_env]. destruct a; cbn; lia.
  - rewrite env_exts. cbn. pose proof (rows_left_exts after ops (set_env env w)) as Hr. cbn in Hr. lia.
Qed.

(** A page that returned a row moves past it. *)
Lemma rows_left_past after id r d :
  photos d !! id = Some r -> before after id -> (rows_left id d < rows_left after d)%nat.
Proof.
  intros Hr Hb. apply map_subset_size, map_subset_alt. split.
  - apply map_subseteq_spec. intros k x [Hk Hx]%map_lookup_filter_Some. apply map_lookup_filter_Some. split; [done|].
    cbn in *. by transitivity id.
  - exists id. rewrite map_lookup_filter_None. split.
    + right. intros x _. apply before_irrefl.
    + exists r. by apply map_lookup_filter_Some.
Qed.
End page.

(** ** All the pages *)

Section all_pages.
Context `{UuidLib}.

Definition row_stays (id : Uuid) (r : photo_row) (w : World) : Prop := photos (w_db w) !! id = Some r.

Lemma last_fmap_take {A B} (f : A -> B) (l : list A) n :
  match last (f <$> take n l) with
  | None => take n l = []
  | Some y => exists x l', take n l = l' ++ [x] /\ y = f x
  end.
Proof.
  destruct (take n l) as [|x l'] using rev_ind; [done|]. rewrite fmap_app. cbn. rewrite last_snoc. eauto.
Qed.

(** What a walk from [after] returns. *)
Definition covers (backend : StorageBackend) (after : Uuid) (w : World) (ps : list Photo) : Prop :=
  StronglySorted before (p_id <$> ps) /\
  Forall (fun p => before after (p_id p) /\ p_backend p = backend) ps /\
  (forall id r, relied (row_stays id r) w -> pr_backend r = backend_string backend -> before after id ->
     photo_of (id, r) ∈ ps) /\
  (w_env w = [] -> forall p, p ∈ ps -> exists r, photos (w_db w) !! p_id p = Some r /\ p = photo_of (p_id p, r)).

Lemma as_backend_string backend : backend_valid backend = true -> as_backend (backend_string backend) = backend.
Proof. by destruct backend. Qed.

Lemma env_step_calm w w' : env_step w w' -> w_env w = [] -> w' = w.
Proof. intros [E|a env E|ops env E] E'; [done|congruence..]. Qed.

Lemma relied_row id r w w' : env_step w w' -> relied (row_stays id r) w -> relied (row_stays id r) w'.
Proof. by apply relied_env_step. Qed.

(** A row stays when another is deleted. *)
Lemma row_stays_delete id id' r : id <> id' -> act_keeps (row_stays id r) (Others [XDelete id']).
Proof. intros Hne w Hw. unfold row_stays in *. cbn. by rewrite lookup_delete_ne. Qed.

Lemma photo_of_id kv : p_id (photo_of kv) = kv.1.
Proof. by destruct kv. Qed.
Lemma photo_of_backend kv : p_backend (photo_of kv) = as_backend (pr_backend kv.2).
Proof. by destruct kv. Qed.

Lemma ids_of rows : p_id <$> (photo_of <$> rows) = rows.*1.
Proof. rewrite <- list_fmap_compose. apply list_fmap_ext. intros i kv _. apply photo_of_id. Qed.

Lemma in_take {A} (x : A) n l : x ∈ take n l -> x ∈ l.
Proof. intros Hx. rewrite <- (take_drop n l). apply elem_of_app. by left. Qed.

(** Nothing is left past [after]. *)
Lemma covers_none backend after limit w w' :
  0 < limit -> env_step w w' -> take (Z.to_nat limit) (rows_after backend after (w_db w')) = [] -> covers backend after w [].
Proof.
  intros Hl Hs Ht. unfold covers. split_and!; [constructor|constructor| |].
  - intros id r Hr Hb Hafter. apply (relied_row _ _ _ _ Hs) in Hr as [Hr _].
    assert ((id, r) ∈ rows_after backend after (w_db w')) as Hin by (by apply elem_of_rows_after).
    destruct (rows_after backend after (w_db w')) as [|x l]; [by apply not_elem_of_nil in Hin|].
    assert (exists n, Z.to_nat limit = S n) as [n E] by (exists (pred (Z.to_nat limit)); lia). by rewrite E in Ht.
  - intros _ p Hp. by apply not_elem_of_nil in Hp.
Qed.

(** A page up to [k], and a walk on from [k]. *)
Lemma covers_page backend after limit w w' page k rk rest :
  backend_valid backend = true -> env_step w w' ->
  take (Z.to_nat limit) (rows_after backend after (w_db w')) = page ++ [(k, rk)] ->
  covers backend k w' rest -> covers backend after w ((photo_of <$> page ++ [(k, rk)]) ++ rest).
Proof.
  intros Hv Hs Ht (Hsorted & Hall & Hkept & Hcalm).
  pose proof (rows_after_sorted backend after (w_db w')) as HL.
  rewrite <- (take_drop (Z.to_nat limit) (rows_after backend after (w_db w'))), Ht, fmap_app in HL.
  assert (forall kv, kv ∈ page ++ [(k, rk)] -> photos (w_db w') !! kv.1 = Some kv.2 /\
    pr_backend kv.2 = backend_string backend /\ before after kv.1) as Hrow.
  { intros [id r] Hin. apply (elem_of_rows_after backend after (w_db w')). rewrite <- Ht in Hin. by eapply in_take. }
  assert (before after k) as Hk by (apply (Hrow (k, rk)), elem_of_app; right; by left).
  pose proof (StronglySorted_app_1_l _ _ _ HL) as Hpage. unfold covers. rewrite fmap_app, ids_of. split_and!.
  - apply StronglySorted_app_2; [|done|done]. intros x y Hx Hy.
    assert (before k y) as Hky.
    { apply list_elem_of_fmap in Hy as (p & -> & Hp). rewrite Forall_forall in Hall. by apply Hall. }
    rewrite fmap_app in Hx, Hpage. apply elem_of_app in Hx as [Hx|Hx%list_elem_of_singleton]; [|by subst].
    transitivity k; [|done]. apply (StronglySorted_app_1_elem_of _ _ _ _ _ Hpage Hx). by left.
  - apply Forall_app. split.
    + apply Forall_fmap, Forall_forall. intros kv Hkv. destruct (Hrow kv Hkv) as (_ & Hb & Haft).
      cbn. rewrite photo_of_id, photo_of_backend, Hb. split; [done|by apply as_backend_string].
    + eapply Forall_impl; [exact Hall|]. intros p [Hp Hb]. split; [by transitivity k|done].
  - intros id r Hr Hb Hafter. pose proof (relied_row _ _ _ _ Hs Hr) as Hr'. apply elem_of_app.
    assert ((id, r) ∈ (page ++ [(k, rk)]) ++ drop (Z.to_nat limit) (rows_after backend after (w_db w'))) as Hin.
    { rewrite <- Ht, take_drop. apply elem_of_rows_after. split; [apply Hr'|done]. }
    apply elem_of_app in Hin as [Hin|Hin]; [left; by apply list_elem_of_fmap_2|right]. apply Hkept; [done..|].
    apply (StronglySorted_app_1_elem_of _ _ _ _ _ HL).
    + rewrite fmap_app. apply elem_of_app. right. by left.
    + by apply (list_elem_of_fmap_2 fst) in Hin.
  - intros Henv p Hp. pose proof (env_step_calm _ _ Hs Henv) as ->. apply elem_of_app in Hp as [Hp|Hp]; [|by apply Hcalm].
    apply list_elem_of_fmap in Hp as ([id r] & -> & Hin). destruct (Hrow _ Hin) as (Hr & _). by exists r.
Qed.
End all_pages.

(** C14. Keyset pagination visits every row. Let any other processes insert and delete photos and
    let any calls fail while a migrator walks the pages of a backend, of any size, from any
    identifier: the walk ends, within one page more than there are rows past its start and
    inserts to come. If no call fails it returns photos of that backend in strictly
    ascending order of identifier, so none twice; every row that is there throughout is among
    them, as it is; and when nobody interferes nothing else is. *)
Theorem pages_cover `{UuidLib} (written backend : StorageBackend) (limit : Z) (fuel : nat) (after : Uuid) (w : World) :
  0 < limit -> backend_valid backend = true -> relied DBOK w -> (work after w < fuel)%nat ->
  match (pages (postgres_photos written) backend limit fuel after w).1 with
  | Ok ps => covers backend after w ps
  | Err e => e = ErrInfra /\ w_env w <> []
  end.
Proof.
  intros Hl Hv. revert after w. induction fuel as [|fuel IH]; intros after w Hok Hfuel; [lia|]. cbn [pages]. unfold bind at 1.
  cbn [port_ListByBackend postgres_photos]. pose proof (page_step backend after limit w Hl Hok) as Hpage.
  destruct (ListByBackend backend after limit w) as [r w']. destruct Hpage as [Hs [[-> He]| ->]]; [done|].
  pose proof (last_fmap_take photo_of (rows_after backend after (w_db w')) (Z.to_nat limit)) as Hlast.
  cbv iota beta. destruct (last _) as [y|]; [|by eapply covers_none].
  destruct Hlast as ([k rk] & page & Ht & ->). rewrite photo_of_id. cbn [fst].
  assert ((k, rk) ∈ rows_after backend after (w_db w')) as (Hk & _ & Hafter)%elem_of_rows_after
    by (apply (in_take _ (Z.to_nat limit)); rewrite Ht; apply elem_of_app; right; by left).
  pose proof (rows_left_past after k rk (w_db w') Hk Hafter) as Hless. pose proof (work_step after w w' Hs) as Hw.
  specialize (IH k w' (relied_env_step DBOK (proj1 closed_db_ok) _ _ Hs Hok) ltac:(unfold work in *; lia)).
  unfold bind. destruct (pages _ _ _ _ _ _) as [[rest|e] w'']; cbn [fst ret] in *.
  - rewrite Ht. by eapply covers_page.
  - destruct IH as [-> He]. split; [done|]. intros E. pose proof (env_step_calm _ _ Hs E) as ->. done.
Qed.

Module MediaPortsWitness.
Import HexUuid.

Definition uid (n : nat) : @Uuid hex_uuid := nth n digits (true, true, (true, true)).
Definition row (ref : string) : photo_row := mkRow (uid 0) ref "local" None 1 "image/png" None None 0.
Definition three : DB :=
  mkDB {[ uid 1 := row "a"; uid 2 := row "b"; uid 3 := row "c" ]} {[ uid 0 ]} ∅.
(** While the walk goes on, the row just returned is deleted. *)
Definition busy : World := mkWorld three ∅ ∅ ∅ 0 [Quiet; Others [XDelete (uid 1)]].

Lemma three_rows id r : photos three !! id = Some r -> exists ref, r = row ref.
Proof.
  unfold three. cbn [photos]. rewrite !lookup_insert_Some, lookup_singleton_Some.
  intros [[_ <-]|[_ [[_ <-]|[_ [_ <-]]]]]; by eexists.
Qed.

Lemma busy_ok : relied DBOK busy.
Proof.
  split.
  - split; cbn.
    + intros id r Hr. apply three_rows in Hr as [ref ->]. reflexivity.
    + intros id1 id2 r1 r2 h H1 _ _ Hh. apply three_rows in H1 as [ref ->]. done.
    + intros id r Hr. apply three_rows in Hr as [ref ->]. split; [set_solver|done].
  - cbn. apply Forall_cons. split; [done|]. apply Forall_singleton. intros w Hw. by apply closed_exts; [apply closed_db_ok|].
Qed.

Lemma busy_work : (work (uid 0) busy < 5)%nat.
Proof. apply Nat.ltb_lt. vm_compute. reflexivity. Qed.

Lemma env_stays id id' r : id <> id' -> Forall (act_keeps (row_stays id r)) [Quiet; Others [XDelete id']].
Proof.
  intros Hne. apply Forall_cons_2; [exact I|]. apply Forall_cons_2; [|apply Forall_nil_2].
  by apply row_stays_delete.
Qed.

Lemma second_first : uid 2 <> uid 1.
Proof. by vm_compute. Qed.

Lemma second_there : row_stays (uid 2) (row "b") busy.
Proof.
  unfold row_stays, busy, three. cbn [w_db photos]. rewrite lookup_insert_ne by (intros E; by apply second_first).
  apply lookup_insert_eq.
Qed.

Lemma second_stays : relied (row_stays (uid 2) (row "b")) busy.
Proof. exact (conj second_there (env_stays (uid 2) (uid 1) (row "b") second_first)). Qed.

Definition walk : result media_error (list Photo) :=
  (pages (postgres_photos BackendLocal) BackendLocal 1 5 (uid 0) busy).1.

Lemma walk_ok : is_ok walk = true.
Proof. vm_compute. reflexivity. Qed.

(** The rows that stay are returned, one page each. *)
Lemma pages_cover_witness : exists ps, walk = Ok ps /\ photo_of (uid 2, row "b") ∈ ps.
Proof.
  assert (match walk with
          | Ok ps => covers BackendLocal (uid 0) busy ps
          | Err e => e = ErrInfra /\ w_env busy <> []
          end) as H
    by exact (pages_cover BackendLocal BackendLocal 1 5 (uid 0) busy eq_refl eq_refl busy_ok busy_work).
  pose proof walk_ok as Hok. destruct walk as [ps|e]; [|discriminate Hok]. exists ps. split; [reflexivity|].
  destruct H as (_ & _ & Hkept & _). apply (Hkept (uid 2) (row "b") second_stays eq_refl). vm_compute. reflexivity.
Defined.

Example pages_of_busy :
  match (pages (postgres_photos BackendLocal) BackendLocal 1 5 (uid 0) busy).1 with
  | Ok ps => p_ref <$> ps
  | Err _ => []
  end = ["a"; "b"; "c"]%string.
Proof. vm_compute. reflexivity. Qed.
End MediaPortsWitness.
