(* ===== verification/IdentityDB.v ===== *)
(** The identity schema (src/identity/migrate/migrations) as a table state, and
    every statement the identity adapters (src/identity/adapter) send to it: its
    reply, the writes it makes and the row, key and advisory locks it takes.

    Byte strings (bytea columns, ciphertexts, WebAuthn handles) are [string]s,
    which are byte sequences; times are microseconds, the resolution of
    timestamptz. *)

From S2P Require Import Prelude GoStrings Uuids.
Local Open Scope Z_scope.

(** What the schema relies on of Postgres: [lower], behind the case-insensitive
    display-name index and the citext email column, and [hashtext]. *)
Class Postgres := { pg_lower : string -> string; hashtext : string -> Z }.

(** ** Errors of a statement *)

Inductive call_error := PgErr (code constraint : string) | Infra.
#[export] Instance call_error_eq_dec : EqDecision call_error.
Proof. solve_decision. Defined.

Definition uniqueViolation : string := "23505".
Definition foreignKeyViolation : string := "23503".
Definition checkViolation : string := "23514".
Definition memberEmailUnique : string := "member_email_unique".
Definition memberHouseholdNameUniq : string := "member_household_name_uniq".
Definition memberHouseholdFK : string := "member_household_id_fkey".
Definition mfaMemberFK : string := "member_mfa_member_fk".
Definition mfaHouseholdFK : string := "member_mfa_household_id_fkey".
Definition mfaMemberPK : string := "member_mfa_pkey".
Definition webauthnCredentialHouseholdFK : string := "member_credential_household_id_fkey".
Definition webauthnCredentialMemberFK : string := "member_credential_member_fk".
Definition webauthnCredentialIDUnique : string := "member_credential_credential_id_key".

Definition isConstraintViolation (e : call_error) (code constraint : string) : bool :=
  match e with
  | PgErr c k => bool_decide (c = code) && bool_decide (k = constraint)
  | Infra => false
  end.

Section schema.
Context `{UuidLib, Postgres}.

(** ** Tables *)

Record household_row := mkHousehold { h_name : string; h_created : Z; h_updated : Z }.

Record member_row := mkMember {
  m_household : Uuid;
  m_name : string;
  m_role : string;
  m_email : option string;
  m_hash : option string;
  m_active : bool;
  m_created : Z;
  m_updated : Z
}.

Record mfa_row := mkMfa {
  f_household : Uuid;
  f_secret : string;
  f_confirmed : option Z;
  f_last_step : option Z;
  f_created : Z;
  f_updated : Z
}.

Record code_row := mkCode {
  c_member : Uuid;
  c_hash : string;
  c_used : option Z;
  c_created : Z
}.

Record cred_row := mkCred {
  k_household : Uuid;
  k_member : Uuid;
  k_cred : string;
  k_public : string;
  k_count : Z;
  k_transports : list string;
  k_aaguid : option Uuid;
  k_nickname : string;
  k_handle : string;
  k_created : Z;
  k_used : option Z
}.

Record DB := mkDB {
  households : gmap Uuid household_row;
  members : gmap Uuid member_row;
  mfa : gmap Uuid mfa_row;
  codes : gmap Uuid code_row;
  creds : gmap Uuid cred_row
}.

Definition set_members (m : gmap Uuid member_row) (d : DB) : DB :=
  mkDB (households d) m (mfa d) (codes d) (creds d).
Definition set_mfa (m : gmap Uuid mfa_row) (d : DB) : DB :=
  mkDB (households d) (members d) m (codes d) (creds d).
Definition set_codes (m : gmap Uuid code_row) (d : DB) : DB :=
  mkDB (households d) (members d) (mfa d) m (creds d).
Definition set_creds (m : gmap Uuid cred_row) (d : DB) : DB :=
  mkDB (households d) (members d) (mfa d) (codes d) m.

(** ** Writes

    The row changes a statement makes. An uncommitted transaction holds a list
    of them; committing applies it. An insert of a key that exists changes
    nothing (the statement has failed before it got here). *)

Inductive write :=
| WHousehold (id : Uuid) (r : household_row)
| WMember (id : Uuid) (r : member_row)
| WProfile (hh id : Uuid) (name role : string) (now : Z)
| WActive (hh id : Uuid) (active : bool) (now : Z)
| WCredential (id : Uuid) (email hash : string) (now : Z)
| WMfa (m : Uuid) (r : mfa_row)
| WMfaSecret (m : Uuid) (secret : string) (now : Z)
| WMfaConfirm (m : Uuid) (now : Z)
| WMfaDelete (m : Uuid)
| WStep (m : Uuid) (step now : Z)
| WCode (id : Uuid) (r : code_row)
| WCodesDelete (m : Uuid)
| WCodeUsed (id : Uuid) (now : Z)
| WCred (id : Uuid) (r : cred_row)
| WCredName (id : Uuid) (nickname : string)
| WCredDelete (id : Uuid)
| WCredUsed (id : Uuid) (count used : Z).

Definition insert_new {A} (k : Uuid) (x : A) (m : gmap Uuid A) : gmap Uuid A :=
  match m !! k with Some _ => m | None => <[k := x]> m end.

Definition codes_without (m : Uuid) (cs : gmap Uuid code_row) : gmap Uuid code_row :=
  filter (fun kv => c_member kv.2 <> m) cs.

Definition apply_write (w : write) (d : DB) : DB :=
  match w with
  | WHousehold id r =>
    mkDB (insert_new id r (households d)) (members d) (mfa d) (codes d) (creds d)
  | WMember id r => set_members (insert_new id r (members d)) d
  | WProfile hh id name role now =>
    set_members (alter (fun r => if decide (m_household r = hh)
      then mkMember (m_household r) name role (m_email r) (m_hash r) (m_active r) (m_created r) now
      else r) id (members d)) d
  | WActive hh id active now =>
    set_members (alter (fun r => if decide (m_household r = hh)
      then mkMember (m_household r) (m_name r) (m_role r) (m_email r) (m_hash r) active (m_created r) now
      else r) id (members d)) d
  | WCredential id email hash now =>
    set_members (alter (fun r =>
      mkMember (m_household r) (m_name r) (m_role r) (Some email) (Some hash) (m_active r) (m_created r) now)
      id (members d)) d
  | WMfa m r => set_mfa (insert_new m r (mfa d)) d
  | WMfaSecret m secret now =>
    set_mfa (alter (fun r => mkMfa (f_household r) secret None (f_last_step r) (f_created r) now) m (mfa d)) d
  | WMfaConfirm m now =>
    set_mfa (alter (fun r => mkMfa (f_household r) (f_secret r) (Some now) (f_last_step r) (f_created r) now) m (mfa d)) d
  | WMfaDelete m => set_codes (codes_without m (codes d)) (set_mfa (delete m (mfa d)) d)
  | WStep m step now =>
    set_mfa (alter (fun r => mkMfa (f_household r) (f_secret r) (f_confirmed r) (Some step) (f_created r) now) m (mfa d)) d
  | WCode id r => set_codes (insert_new id r (codes d)) d
  | WCodesDelete m => set_codes (codes_without m (codes d)) d
  | WCodeUsed id now =>
    set_codes (alter (fun r => mkCode (c_member r) (c_hash r) (Some now) (c_created r)) id (codes d)) d
  | WCred id r => set_creds (insert_new id r (creds d)) d
  | WCredName id nickname =>
    set_creds (alter (fun r => mkCred (k_household r) (k_member r) (k_cred r) (k_public r) (k_count r)
      (k_transports r) (k_aaguid r) nickname (k_handle r) (k_created r) (k_used r)) id (creds d)) d
  | WCredDelete id => set_creds (delete id (creds d)) d
  | WCredUsed id count used =>
    set_creds (alter (fun r => mkCred (k_household r) (k_member r) (k_cred r) (k_public r) count
      (k_transports r) (k_aaguid r) (k_nickname r) (k_handle r) (k_created r) (Some used)) id (creds d)) d
  end.

Definition apply_writes (ws : list write) (d : DB) : DB := foldl (fun d w => apply_write w d) d ws.

(** ** Constraints *)

Definition role_check (role : string) : bool :=
  bool_decide (role ∈ ["owner"; "adult"; "child"])%string.

(** Another row of the household carries the display name, case folded. *)
Definition name_taken (d : DB) (hh id : Uuid) (name : string) : bool :=
  bool_decide (map_Exists (fun id' r => id' <> id /\ m_household r = hh /\
    pg_lower (m_name r) = pg_lower name) (members d)).

Definition email_is (email : string) (e : option string) : Prop :=
  match e with Some e => pg_lower e = pg_lower email | None => False end.
#[global] Instance email_is_dec email e : Decision (email_is email e).
Proof. destruct e; simpl; apply _. Defined.

Definition email_taken (d : DB) (id : Uuid) (email : string) : bool :=
  bool_decide (map_Exists (fun id' r => id' <> id /\ email_is email (m_email r)) (members d)).

(** An active owner of [hh] other than [id]: what the guard of the two member
    updates looks for. *)
Definition other_active_owner (d : DB) (hh id : Uuid) : bool :=
  bool_decide (map_Exists (fun id' r => m_household r = hh /\ id' <> id /\
    m_role r = "owner"%string /\ m_active r = true) (members d)).

Definition belongs (d : DB) (m hh : Uuid) : bool :=
  match members d !! m with Some r => bool_decide (m_household r = hh) | None => false end.

Definition cred_row_of (d : DB) (cred : string) : option (Uuid * cred_row) :=
  head (filter (fun kv => k_cred kv.2 = cred) (map_to_list (creds d))).
End schema.

Arguments set_members {_} m d /.
Arguments set_mfa {_} m d /.
Arguments set_codes {_} m d /.
Arguments set_creds {_} m d /.

(** ** Statements and other effects *)

Section calls.
Context `{UuidLib, Postgres}.

Inductive call :=
(* household_postgres.go *)
| QInsertHousehold (id : Uuid) (name : string)
| QGetHousehold (id : Uuid)
(* member_postgres.go *)
| QInsertMember (id hh : Uuid) (name role : string)
| QGetMember (id : Uuid)
| QListMembers (hh : Uuid)
| QBegin | QCommit | QRollback
| QLockHousehold (hh : Uuid)
| QUpdateProfile (id hh : Uuid) (name role : string)
| QSetActive (id hh : Uuid) (active : bool)
| QMemberExists (id hh : Uuid)
(* credential_postgres.go *)
| QFindByEmail (email : string)
| QSetCredential (id : Uuid) (email hash : string)
(* mfa_postgres.go *)
| QGetEnrollment (m : Uuid)
| QSelectMfaForUpdate (m : Uuid)
| QInsertMfa (m hh : Uuid) (secret : string)
| QUpdateMfaSecret (m : Uuid) (secret : string)
| QConfirmMfa (m : Uuid)
| QDeleteCodes (m : Uuid)
| QInsertCode (id m : Uuid) (hash : string)
| QDeleteMfa (m hh : Uuid)
| QListUnused (m : Uuid)
| QMarkUsed (id : Uuid)
| QRecordStep (m : Uuid) (step : Z)
(* webauthn_postgres.go *)
| QListCreds (m hh : Uuid)
| QInsertCred (id hh m : Uuid) (cred public : string) (count : Z) (transports : list string)
    (aaguid : option Uuid) (nickname handle : string)
| QRenameCred (id m hh : Uuid) (nickname : string)
| QDeleteCred (id m hh : Uuid)
| QFindByHandle (handle : string)
| QUpdateAssertion (cred : string) (count used : Z)
| QCredExists (cred : string)
(* the clock, [uuid.NewV7], [crypto/rand.Read] and the randomness other packages draw *)
| ENow | EFresh | ERand (n : nat) | EEntropy.
#[global] Instance call_eq_dec : EqDecision call.
Proof. solve_decision. Defined.

(** The rows or the affected-row count a statement returns. *)
Definition value (c : call) : Type :=
  match c with
  | QInsertHousehold _ _ => Z * Z
  | QGetHousehold _ => option (Uuid * household_row)
  | QInsertMember _ _ _ _ => bool * Z * Z
  | QGetMember _ => option (Uuid * member_row)
  | QListMembers _ => list (Uuid * member_row)
  | QFindByEmail _ => option (Uuid * string)
  | QGetEnrollment _ => option mfa_row
  | QSelectMfaForUpdate _ => option (Uuid * option Z)
  | QListUnused _ => list (Uuid * code_row)
  | QListCreds _ _ | QFindByHandle _ => list (Uuid * cred_row)
  | QMemberExists _ _ | QCredExists _ => bool
  | QUpdateProfile _ _ _ _ | QSetActive _ _ _ | QSetCredential _ _ _ | QDeleteMfa _ _
  | QMarkUsed _ | QRecordStep _ _ | QRenameCred _ _ _ _ | QDeleteCred _ _ _
  | QUpdateAssertion _ _ _ => Z
  | ERand _ => list Z
  | _ => unit
  end.

Definition answer (c : call) : Type :=
  match c with
  | ENow => Z
  | EFresh => Uuid
  | EEntropy => list Z
  | c => result call_error (value c)
  end.

(** ORDER BY created_at, id *)
Definition created_order {A} (created : A -> Z) (x y : Uuid * A) : Prop :=
  created x.2 < created y.2 \/
  (created x.2 = created y.2 /\ String.leb (uuid_string x.1) (uuid_string y.1) = true).
#[global] Instance created_order_dec {A} (created : A -> Z) x y : Decision (created_order created x y).
Proof. unfold created_order. apply _. Defined.

Definition ordered {A} (created : A -> Z) (rows : list (Uuid * A)) : list (Uuid * A) :=
  merge_sort (created_order created) rows.

(** An UPDATE of the single row a WHERE clause selects. *)
Definition one_row (hit : bool) (w : write) : result call_error (Z * list write) :=
  if hit then Ok (1, [w]) else Ok (0, []).

Definition insert_row {A} (checks : list (bool * call_error)) (a : A) (w : write) :
    result call_error (A * list write) :=
  match List.find fst checks with
  | Some (_, e) => Err e
  | None => Ok (a, [w])
  end.

(** The guard of [lastActiveOwnerGuardSQL]: no other active owner. *)
Definition lastActiveOwnerGuardSQL (d : DB) (id hh : Uuid) : bool := negb (other_active_owner d hh id).

(** Each statement on the state [d] it sees, at transaction time [now]: its reply
    and its writes. *)

Definition sql_insert_household (id : Uuid) (name : string) (now : Z) (d : DB) :
    result call_error (Z * Z * list write) :=
  insert_row [(bool_decide (is_Some (households d !! id)), PgErr uniqueViolation "household_pkey")]
    (now, now) (WHousehold id (mkHousehold name now now)).

Definition sql_get_household (id : Uuid) (now : Z) (d : DB) :
    result call_error (option (Uuid * household_row) * list write) :=
  Ok (r ← households d !! id; Some (id, r), []).

Definition sql_insert_member (id hh : Uuid) (name role : string) (now : Z) (d : DB) :
    result call_error (bool * Z * Z * list write) :=
  insert_row
    [(negb (role_check role), PgErr checkViolation "member_role_check");
     (bool_decide (is_Some (members d !! id)), PgErr uniqueViolation "member_pkey");
     (name_taken d hh id name, PgErr uniqueViolation memberHouseholdNameUniq);
     (negb (bool_decide (is_Some (households d !! hh))), PgErr foreignKeyViolation memberHouseholdFK)]
    (true, now, now) (WMember id (mkMember hh name role None None true now now)).

Definition sql_get_member (id : Uuid) (now : Z) (d : DB) :
    result call_error (option (Uuid * member_row) * list write) :=
  Ok (r ← members d !! id; Some (id, r), []).

Definition sql_list_members (hh : Uuid) (now : Z) (d : DB) :
    result call_error (list (Uuid * member_row) * list write) :=
  Ok (ordered m_created (filter (fun kv => m_household kv.2 = hh) (map_to_list (members d))), []).

Definition sql_update_profile (id hh : Uuid) (name role : string) (now : Z) (d : DB) :
    result call_error (Z * list write) :=
  match members d !! id with
  | Some r =>
    if bool_decide (m_household r = hh)
       && negb (bool_decide (m_role r = "owner"%string) && m_active r
                && negb (bool_decide (role = "owner"%string)) && lastActiveOwnerGuardSQL d id hh)
    then if negb (role_check role) then Err (PgErr checkViolation "member_role_check")
         else if name_taken d hh id name then Err (PgErr uniqueViolation memberHouseholdNameUniq)
         else Ok (1, [WProfile hh id name role now])
    else Ok (0, [])
  | None => Ok (0, [])
  end.

Definition sql_set_active (id hh : Uuid) (active : bool) (now : Z) (d : DB) :
    result call_error (Z * list write) :=
  match members d !! id with
  | Some r =>
    one_row (bool_decide (m_household r = hh)
             && negb (negb active && bool_decide (m_role r = "owner"%string) && m_active r
                      && lastActiveOwnerGuardSQL d id hh))
      (WActive hh id active now)
  | None => Ok (0, [])
  end.

Definition sql_member_exists (id hh : Uuid) (now : Z) (d : DB) :
    result call_error (bool * list write) :=
  Ok (belongs d id hh, []).

Definition sql_find_by_email (email : string) (now : Z) (d : DB) :
    result call_error (option (Uuid * string) * list write) :=
  Ok (kv ← head (filter (fun kv => email_is email (m_email kv.2) /\ is_Some (m_hash kv.2)
                                   /\ m_active kv.2 = true) (map_to_list (members d)));
      hash ← m_hash kv.2; Some (kv.1, hash), []).

Definition sql_set_credential (id : Uuid) (email hash : string) (now : Z) (d : DB) :
    result call_error (Z * list write) :=
  if bool_decide (is_Some (members d !! id)) then
    if email_taken d id email then Err (PgErr uniqueViolation memberEmailUnique)
    else Ok (1, [WCredential id email hash now])
  else Ok (0, []).

Definition sql_get_enrollment (m : Uuid) (now : Z) (d : DB) :
    result call_error (option mfa_row * list write) :=
  Ok (mfa d !! m, []).

Definition sql_select_mfa_for_update (m : Uuid) (now : Z) (d : DB) :
    result call_error (option (Uuid * option Z) * list write) :=
  Ok (r ← mfa d !! m; Some (f_household r, f_confirmed r), []).

Definition sql_insert_mfa (m hh : Uuid) (secret : string) (now : Z) (d : DB) :
    result call_error (unit * list write) :=
  insert_row
    [(bool_decide (secret = ""), PgErr checkViolation "member_mfa_totp_secret_enc_check");
     (bool_decide (is_Some (mfa d !! m)), PgErr uniqueViolation mfaMemberPK);
     (negb (bool_decide (is_Some (households d !! hh))), PgErr foreignKeyViolation mfaHouseholdFK);
     (negb (belongs d m hh), PgErr foreignKeyViolation mfaMemberFK)]
    tt (WMfa m (mkMfa hh secret None None now now)).

Definition sql_update_mfa_secret (m : Uuid) (secret : string) (now : Z) (d : DB) :
    result call_error (unit * list write) :=
  if bool_decide (secret = "") && bool_decide (is_Some (mfa d !! m))
  then Err (PgErr checkViolation "member_mfa_totp_secret_enc_check")
  else Ok (tt, [WMfaSecret m secret now]).

Definition sql_confirm_mfa (m : Uuid) (now : Z) (d : DB) :
    result call_error (unit * list write) :=
  Ok (tt, [WMfaConfirm m now]).

Definition sql_delete_codes (m : Uuid) (now : Z) (d : DB) :
    result call_error (unit * list write) :=
  Ok (tt, [WCodesDelete m]).

Definition sql_insert_code (id m : Uuid) (hash : string) (now : Z) (d : DB) :
    result call_error (unit * list write) :=
  insert_row
    [(bool_decide (is_Some (codes d !! id)), PgErr uniqueViolation "member_recovery_code_pkey");
     (negb (bool_decide (is_Some (mfa d !! m))), PgErr foreignKeyViolation "member_recovery_code_member_id_fkey")]
    tt (WCode id (mkCode m hash None now)).

Definition sql_delete_mfa (m hh : Uuid) (now : Z) (d : DB) :
    result call_error (Z * list write) :=
  one_row match mfa d !! m with Some r => bool_decide (f_household r = hh) | None => false end
    (WMfaDelete m).

Definition sql_list_unused (m : Uuid) (now : Z) (d : DB) :
    result call_error (list (Uuid * code_row) * list write) :=
  Ok (ordered c_created
       (filter (fun kv => c_member kv.2 = m /\ c_used kv.2 = None) (map_to_list (codes d))), []).

Definition sql_mark_used (id : Uuid) (now : Z) (d : DB) :
    result call_error (Z * list write) :=
  one_row match codes d !! id with Some r => bool_decide (c_used r = None) | None => false end
    (WCodeUsed id now).

Definition sql_record_step (m : Uuid) (step : Z) (now : Z) (d : DB) :
    result call_error (Z * list write) :=
  one_row match mfa d !! m with
          | Some r => match f_last_step r with None => true | Some last => last <? step end
          | None => false
          end (WStep m step now).

Definition sql_list_creds (m hh : Uuid) (now : Z) (d : DB) :
    result call_error (list (Uuid * cred_row) * list write) :=
  Ok (ordered k_created
       (filter (fun kv => k_member kv.2 = m /\ k_household kv.2 = hh) (map_to_list (creds d))), []).

Definition sql_insert_cred (id hh m : Uuid) (cred public : string) (count : Z) (transports : list string) (aaguid : option Uuid) (nickname handle : string) (now : Z) (d : DB) :
    result call_error (unit * list write) :=
  insert_row
    [(bool_decide (is_Some (creds d !! id)), PgErr uniqueViolation "member_credential_pkey");
     (bool_decide (is_Some (cred_row_of d cred)), PgErr uniqueViolation webauthnCredentialIDUnique);
     (negb (bool_decide (is_Some (households d !! hh))), PgErr foreignKeyViolation webauthnCredentialHouseholdFK);
     (negb (belongs d m hh), PgErr foreignKeyViolation webauthnCredentialMemberFK)]
    tt (WCred id (mkCred hh m cred public count transports aaguid nickname handle now None)).

Definition sql_rename_cred (id m hh : Uuid) (nickname : string) (now : Z) (d : DB) :
    result call_error (Z * list write) :=
  one_row match creds d !! id with
          | Some r => bool_decide (k_member r = m /\ k_household r = hh) | None => false end
    (WCredName id nickname).

Definition sql_delete_cred (id m hh : Uuid) (now : Z) (d : DB) :
    result call_error (Z * list write) :=
  one_row match creds d !! id with
          | Some r => bool_decide (k_member r = m /\ k_household r = hh) | None => false end
    (WCredDelete id).

Definition sql_find_by_handle (handle : string) (now : Z) (d : DB) :
    result call_error (list (Uuid * cred_row) * list write) :=
  Ok (ordered k_created (filter (fun kv => k_handle kv.2 = handle) (map_to_list (creds d))), []).

Definition sql_update_assertion (cred : string) (count used : Z) (now : Z) (d : DB) :
    result call_error (Z * list write) :=
  match cred_row_of d cred with
  | Some (id, r) =>
    one_row match k_used r with
            | None => true
            | Some last => (last <? used) || ((last =? used) && (k_count r <=? count))
            end (WCredUsed id count used)
  | None => Ok (0, [])
  end.

Definition sql_cred_exists (cred : string) (now : Z) (d : DB) :
    result call_error (bool * list write) :=
  Ok (bool_decide (is_Some (cred_row_of d cred)), []).

Definition query (c : call) (now : Z) (d : DB) : result call_error (value c * list write) :=
  match c return result call_error (value c * list write) with
  | QInsertHousehold id name => sql_insert_household id name now d
  | QGetHousehold id => sql_get_household id now d
  | QInsertMember id hh name role => sql_insert_member id hh name role now d
  | QGetMember id => sql_get_member id now d
  | QListMembers hh => sql_list_members hh now d
  | QUpdateProfile id hh name role => sql_update_profile id hh name role now d
  | QSetActive id hh active => sql_set_active id hh active now d
  | QMemberExists id hh => sql_member_exists id hh now d
  | QFindByEmail email => sql_find_by_email email now d
  | QSetCredential id email hash => sql_set_credential id email hash now d
  | QGetEnrollment m => sql_get_enrollment m now d
  | QSelectMfaForUpdate m => sql_select_mfa_for_update m now d
  | QInsertMfa m hh secret => sql_insert_mfa m hh secret now d
  | QUpdateMfaSecret m secret => sql_update_mfa_secret m secret now d
  | QConfirmMfa m => sql_confirm_mfa m now d
  | QDeleteCodes m => sql_delete_codes m now d
  | QInsertCode id m hash => sql_insert_code id m hash now d
  | QDeleteMfa m hh => sql_delete_mfa m hh now d
  | QListUnused m => sql_list_unused m now d
  | QMarkUsed id => sql_mark_used id now d
  | QRecordStep m step => sql_record_step m step now d
  | QListCreds m hh => sql_list_creds m hh now d
  | QInsertCred id hh m cred public count transports aaguid nickname handle => sql_insert_cred id hh m cred public count transports aaguid nickname handle now d
  | QRenameCred id m hh nickname => sql_rename_cred id m hh nickname now d
  | QDeleteCred id m hh => sql_delete_cred id m hh now d
  | QFindByHandle handle => sql_find_by_handle handle now d
  | QUpdateAssertion cred count used => sql_update_assertion cred count used now d
  | QCredExists cred => sql_cred_exists cred now d
  | QBegin => Ok (tt, [])
  | QCommit => Ok (tt, [])
  | QRollback => Ok (tt, [])
  | QLockHousehold _ => Ok (tt, [])
  | ENow => Ok (tt, [])
  | EFresh => Ok (tt, [])
  | EEntropy => Ok (tt, [])
  | ERand _ => Err Infra
  end.

(** ** Locks *)

Inductive lock :=
| LAdvisory (key : Z)
| LMember (id : Uuid)
| LName (hh : Uuid) (name : string)
| LEmail (email : string)
| LMfa (m : Uuid)
| LCode (id : Uuid)
| LCred (id : Uuid)
| LCredKey (cred : string).
#[global] Instance lock_eq_dec : EqDecision lock.
Proof. solve_decision. Defined.

Definition if_row {A} (r : option A) (ls : list lock) : list lock :=
  match r with Some _ => ls | None => [] end.

(** The locks a statement takes: the advisory lock it asks for, the rows it
    writes or selects FOR UPDATE (none when no row matches), and the unique keys
    it inserts. *)
Definition takes (c : call) (d : DB) : list lock :=
  match c with
  | QLockHousehold hh => [LAdvisory (hashtext (uuid_string hh))]
  | QInsertMember id hh name _ => [LMember id; LName hh (pg_lower name)]
  | QUpdateProfile id hh name _ => if_row (members d !! id) [LMember id; LName hh (pg_lower name)]
  | QSetActive id _ _ => if_row (members d !! id) [LMember id]
  | QSetCredential id email _ => if_row (members d !! id) [LMember id; LEmail (pg_lower email)]
  | QInsertMfa m _ _ => [LMfa m]
  | QSelectMfaForUpdate m | QUpdateMfaSecret m _ | QConfirmMfa m | QRecordStep m _ =>
    if_row (mfa d !! m) [LMfa m]
  | QDeleteMfa m _ =>
    if_row (mfa d !! m) (LMfa m :: ((fun kv => LCode kv.1) <$>
      filter (fun kv => c_member kv.2 = m) (map_to_list (codes d))))
  | QDeleteCodes m =>
    (fun kv => LCode kv.1) <$> filter (fun kv => c_member kv.2 = m) (map_to_list (codes d))
  | QInsertCode id _ _ => [LCode id]
  | QMarkUsed id => if_row (codes d !! id) [LCode id]
  | QInsertCred id _ _ cred _ _ _ _ _ _ => [LCred id; LCredKey cred]
  | QRenameCred id _ _ _ | QDeleteCred id _ _ => if_row (creds d !! id) [LCred id]
  | QUpdateAssertion cred _ _ =>
    match cred_row_of d cred with Some (id, _) => [LCred id] | None => [] end
  | _ => []
  end.
End calls.

(** [simpl] and [run_query] see through the statements. *)
Arguments sql_insert_household /.
Arguments sql_get_household /.
Arguments sql_insert_member /.
Arguments sql_get_member /.
Arguments sql_list_members /.
Arguments sql_update_profile /.
Arguments sql_set_active /.
Arguments sql_member_exists /.
Arguments sql_find_by_email /.
Arguments sql_set_credential /.
Arguments sql_get_enrollment /.
Arguments sql_select_mfa_for_update /.
Arguments sql_insert_mfa /.
Arguments sql_update_mfa_secret /.
Arguments sql_confirm_mfa /.
Arguments sql_delete_codes /.
Arguments sql_insert_code /.
Arguments sql_delete_mfa /.
Arguments sql_list_unused /.
Arguments sql_mark_used /.
Arguments sql_record_step /.
Arguments sql_list_creds /.
Arguments sql_insert_cred /.
Arguments sql_rename_cred /.
Arguments sql_delete_cred /.
Arguments sql_find_by_handle /.
Arguments sql_update_assertion /.
Arguments sql_cred_exists /.
Ltac run_query := cbn [query sql_insert_household sql_get_household sql_insert_member sql_get_member sql_list_members sql_update_profile sql_set_active sql_member_exists sql_find_by_email sql_set_credential sql_get_enrollment sql_select_mfa_for_update sql_insert_mfa sql_update_mfa_secret sql_confirm_mfa sql_delete_codes sql_insert_code sql_delete_mfa sql_list_unused sql_mark_used sql_record_step sql_list_creds sql_insert_cred sql_rename_cred sql_delete_cred sql_find_by_handle sql_update_assertion sql_cred_exists].
Tactic Notation "run_query" "in" hyp(H) := cbn [query sql_insert_household sql_get_household sql_insert_member sql_get_member sql_list_members sql_update_profile sql_set_active sql_member_exists sql_find_by_email sql_set_credential sql_get_enrollment sql_select_mfa_for_update sql_insert_mfa sql_update_mfa_secret sql_confirm_mfa sql_delete_codes sql_insert_code sql_delete_mfa sql_list_unused sql_mark_used sql_record_step sql_list_creds sql_insert_cred sql_rename_cred sql_delete_cred sql_find_by_handle sql_update_assertion sql_cred_exists] in H.
