(* ===== verification/IdentityRun.v ===== *)
(** How the identity operations run: each is a program that makes calls
    (statements, clock, randomness) one at a time, and any number of programs run
    together against one database.

    A schedule picks which program makes its next call, and what the environment
    does to that call: nothing, failing it before or after its effect, or
    stopping the program for good. Transactions are READ COMMITTED: a program
    sees the committed state with its own uncommitted writes on top, a statement
    waits while another transaction holds a lock it needs, and locks are held to
    the end of the transaction. *)

From Stdlib Require Import Eqdep_dec.
From S2P Require Import Prelude GoStrings Uuids IdentityDB.
Local Open Scope Z_scope.

Section programs.
Context `{UuidLib, Postgres}.

(** ** Programs *)

Inductive prog (A : Type) : Type :=
| Ret (a : A)
| Call (c : call) (k : answer c -> prog A).
Arguments Ret {A} a.
Arguments Call {A} c k.

Fixpoint pbind {A B} (p : prog A) (f : A -> prog B) : prog B :=
  match p with
  | Ret a => f a
  | Call c k => Call c (fun r => pbind (k r) f)
  end.

Definition pmap {A B} (f : A -> B) (p : prog A) : prog B := pbind p (fun a => Ret (f a)).

(** ** Transactions, processes, the store *)

Record tx := mkTx {
  t_now : Z;
  t_pending : list write;
  t_locks : list lock;
  t_aborted : bool
}.

Record proc (A : Type) := mkProc { p_tx : option tx; p_prog : prog A }.
Arguments mkProc {A}.
Arguments p_tx {A}.
Arguments p_prog {A}.

Record Store (A : Type) := mkStore { s_db : DB; s_now : Z; s_procs : gmap nat (proc A) }.
Arguments mkStore {A}.
Arguments s_db {A}.
Arguments s_now {A}.
Arguments s_procs {A}.

(** What the environment does to one call. *)
Inductive fault := Fine | Failing | Lost.
Record oracle := mkOracle { o_fault : fault; o_id : Uuid; o_bytes : list Z }.

Inductive event := Ev (p : nat) (c : call) (r : answer c).

Definition view (d : DB) (t : option tx) : DB :=
  match t with Some t => apply_writes (t_pending t) d | None => d end.

Definition held {A} (pr : proc A) : list lock :=
  match p_tx pr with Some t => t_locks t | None => [] end.

(** Another process holds one of the locks [ls]. *)
Definition blocked {A} (p : nat) (ls : list lock) (s : Store A) : bool :=
  bool_decide (map_Exists (fun q pr => q <> p /\ Exists (fun l => l ∈ held pr) ls) (s_procs s)).

(** One statement: its reply, the transaction it leaves, and the committed state. *)
Definition exec (c : call) (f : fault) (now : Z) (d : DB) (t : option tx) :
    result call_error (value c) * option tx * DB :=
  match t with
  | None =>
    match f with
    | Failing => (Err Infra, None, d)
    | _ =>
      match query c now d with
      | Ok (v, ws) => (match f with Lost => Err Infra | _ => Ok v end, None, apply_writes ws d)
      | Err e => (Err e, None, d)
      end
    end
  | Some t =>
    if t_aborted t then (Err Infra, Some t, d)
    else match f with
    | Fine =>
      match query c (t_now t) (view d (Some t)) with
      | Ok (v, ws) =>
        (Ok v, Some (mkTx (t_now t) (t_pending t ++ ws)
           (t_locks t ++ takes c (view d (Some t))) false), d)
      | Err e => (Err e, Some (mkTx (t_now t) (t_pending t) (t_locks t) true), d)
      end
    | _ => (Err Infra, Some (mkTx (t_now t) (t_pending t) (t_locks t) true), d)
    end
  end.

Definition begin_tx (f : fault) (now : Z) (t : option tx) : result call_error unit * option tx :=
  match t, f with
  | None, Fine => (Ok tt, Some (mkTx now [] [] false))
  | None, _ => (Err Infra, None)
  | Some t, _ => (Err Infra, Some t)
  end.

Definition commit_tx (f : fault) (d : DB) (t : option tx) : result call_error unit * DB :=
  match t with
  | None => (Err Infra, d)
  | Some t =>
    if t_aborted t then (Err Infra, d)
    else match f with
    | Fine => (Ok tt, apply_writes (t_pending t) d)
    | Lost => (Err Infra, apply_writes (t_pending t) d)
    | Failing => (Err Infra, d)
    end
  end.

Definition random_bytes (n : nat) (o : oracle) : result call_error (list Z) :=
  match o_fault o with
  | Fine => if bool_decide (length (o_bytes o) = n) && forallb (fun b => (0 <=? b) && (b <? 256)) (o_bytes o)
            then Ok (o_bytes o) else Err Infra
  | _ => Err Infra
  end.

(** The answer to a call, the caller's transaction and the committed state after it. *)
Definition serve (c : call) (o : oracle) (now : Z) (d : DB) (t : option tx) : answer c * option tx * DB :=
  match c return answer c * option tx * DB with
  | ENow => (now, t, d)
  | EFresh => (o_id o, t, d)
  | EEntropy => (o_bytes o, t, d)
  | ERand n => (random_bytes n o, t, d)
  | QBegin => let '(r, t) := begin_tx (o_fault o) now t in (r, t, d)
  | QCommit => let '(r, d) := commit_tx (o_fault o) d t in (r, None, d)
  | QRollback => (Ok tt, None, d)
  | c => exec c (o_fault o) now d t
  end.

(** ** The machine *)

Inductive move := Run (p : nat) (o : oracle) | Crash (p : nat) | Tick (d : Z).

Definition step {A} (m : move) (s : Store A) : list event * Store A :=
  match m with
  | Tick d => ([], mkStore (s_db s) (s_now s + Z.max 0 d) (s_procs s))
  | Crash p => ([], mkStore (s_db s) (s_now s) (delete p (s_procs s)))
  | Run p o =>
    match s_procs s !! p with
    | Some (mkProc t (Call c k)) =>
      if blocked p (takes c (view (s_db s) t)) s then ([], s)
      else
        let '(r, t', d') := serve c o (s_now s) (s_db s) t in
        ([Ev p c r], mkStore d' (s_now s) (<[p := mkProc t' (k r)]> (s_procs s)))
    | _ => ([], s)
    end
  end.

Fixpoint run {A} (ms : list move) (s : Store A) : list event * Store A :=
  match ms with
  | [] => ([], s)
  | m :: ms =>
    let '(es, s) := step m s in
    let '(es', s) := run ms s in (es ++ es', s)
  end.

(** [p] answered call by call with [rs] returns [a]. *)
Definition reply := { c : call & answer c }.

Fixpoint follows {A} (p : prog A) (rs : list reply) (a : A) : Prop :=
  match p with
  | Ret b => rs = [] /\ a = b
  | Call c k => exists r rs', rs = existT c r :: rs' /\ follows (k r) rs' a
  end.

(** The replies process [p] got in a trace. *)
Definition replies (p : nat) (es : list event) : list reply :=
  omap (fun e => let '(Ev q c r) := e in if decide (q = p) then Some (existT c r) else None) es.

(** ** Idle stores: no transaction is open *)

Definition start {A} (d : DB) (now : Z) (ps : gmap nat (prog A)) : Store A :=
  mkStore d now ((fun p => mkProc None p) <$> ps).
End programs.

Arguments Ret {_ A} a.
Arguments Call {_ A} c k.
Arguments mkProc {_ A}.
Arguments p_tx {_ A}.
Arguments p_prog {_ A}.
Arguments mkStore {_ A}.
Arguments s_db {_ A}.
Arguments s_now {_ A}.
Arguments s_procs {_ A}.

(** ** Facts about every run *)

Section run_facts.
Context `{UuidLib, Postgres} {A : Type}.
Implicit Types (s : Store A) (es : list event).

(** Induction over a run, with the trace so far in the invariant. *)
Lemma run_invariant (I : list event -> Store A -> Prop) :
  (forall es s m, I es s -> I (es ++ (step m s).1) (step m s).2) ->
  forall ms es s, I es s -> I (es ++ (run ms s).1) (run ms s).2.
Proof.
  intros Hstep. induction ms as [|m ms IH]; intros es s Hs; simpl; [by rewrite app_nil_r|].
  specialize (Hstep _ _ m Hs). destruct (step m s) as [es1 s1]; simpl in *.
  specialize (IH _ _ Hstep). destruct (run ms s1) as [es2 s2]; simpl in *. by rewrite app_assoc.
Qed.

Lemma replies_app p es es' : replies p (es ++ es') = replies p es ++ replies p es'.
Proof. unfold replies. apply omap_app. Qed.

(** The cases of a step. *)
Lemma step_run p o s t c k :
  s_procs s !! p = Some (mkProc t (Call c k)) ->
  step (Run p o) s = ([], s) \/
  exists r t' d', serve c o (s_now s) (s_db s) t = (r, t', d') /\
    blocked p (takes c (view (s_db s) t)) s = false /\
    step (Run p o) s = ([Ev p c r], mkStore d' (s_now s) (<[p := mkProc t' (k r)]> (s_procs s))).
Proof.
  intros Hp. cbn [step]. rewrite Hp. case_match; [by left|right].
  destruct (serve _ _ _ _ _) as [[r t'] d'] eqn:E. by exists r, t', d'.
Qed.

Lemma step_gone p m s : s_procs s !! p = None -> s_procs (step m s).2 !! p = None.
Proof.
  intros Hp. destruct m as [q o|q|d]; simpl; [|by rewrite lookup_delete_None; auto|done].
  destruct (s_procs s !! q) as [[t [a|c k]]|] eqn:Hq; [done| |done].
  destruct (step_run q o s t c k Hq) as [E|(r & t' & d' & _ & _ & E)];
    cbn [step] in E; rewrite Hq in E; rewrite E; [done|].
  simpl. rewrite lookup_insert_ne; [done|congruence].
Qed.

Lemma run_gone p ms s : s_procs s !! p = None -> s_procs (run ms s).2 !! p = None.
Proof.
  apply (run_invariant (fun _ s => s_procs s !! p = None)) with (es := []).
  intros _ s' m. apply step_gone.
Qed.

(** One step either leaves a process alone, removes it, or answers its call. *)
Lemma step_proc p m s t c :
  s_procs s !! p = Some (mkProc t c) ->
  let '(es, s') := step m s in
  (replies p es = [] /\ s_procs s' !! p = Some (mkProc t c)) \/
  (s_procs s' !! p = None) \/
  (exists q k r t', c = Call q k /\ replies p es = [existT q r] /\ s_procs s' !! p = Some (mkProc t' (k r))).
Proof.
  intros Hp. destruct m as [q o|q|d]; [|simpl|by left].
  - destruct (decide (q = p)) as [->|Hne].
    + destruct c as [a|c k]; [simpl; rewrite Hp; by left|].
      destruct (step_run p o s t c k Hp) as [->|(r & t' & d' & _ & _ & ->)]; [by left|].
      right; right. exists c, k, r, t'. simpl. by rewrite decide_True, lookup_insert_eq.
    + destruct (s_procs s !! q) as [[t' [a|c' k]]|] eqn:Hq; [simpl; rewrite Hq; by left| |simpl; rewrite Hq; by left].
      destruct (step_run q o s t' c' k Hq) as [->|(r & t2 & d' & _ & _ & ->)]; [by left|].
      left. simpl. by rewrite decide_False, lookup_insert_ne.
  - destruct (decide (q = p)) as [->|Hne]; [right; left; by rewrite lookup_delete_eq|].
    left. by rewrite lookup_delete_ne.
Qed.

(** A process that has returned got the replies its program follows. *)
Lemma run_follows ms s p t c t' a :
  s_procs s !! p = Some (mkProc t c) ->
  s_procs (run ms s).2 !! p = Some (mkProc t' (Ret a)) ->
  follows c (replies p (run ms s).1) a.
Proof.
  revert s t c. induction ms as [|m ms IH]; intros s t c Hp Hend; simpl in *.
  { rewrite Hp in Hend. simplify_eq. done. }
  pose proof (step_proc p m s t c Hp) as Hstep.
  destruct (step m s) as [es1 s1]; pose proof (IH s1) as IH1; pose proof (run_gone p ms s1) as Hgone.
  destruct (run ms s1) as [es2 s2]; simpl in *. rewrite replies_app.
  destruct Hstep as [[-> Hp1]|[Hp1|(q & k & r & t1 & -> & -> & Hp1)]].
  - eauto.
  - rewrite (Hgone Hp1) in Hend. done.
  - simpl. eauto 10.
Qed.

Lemma follows_bind {B C} (p : prog B) (f : B -> prog C) rs a :
  follows (pbind p f) rs a <->
  exists b rs1 rs2, rs = rs1 ++ rs2 /\ follows p rs1 b /\ follows (f b) rs2 a.
Proof.
  revert rs. induction p as [b|c k IH]; intros rs; simpl.
  - split; [intros Hf; by exists b, [], rs|]. by intros (b' & rs1 & rs2 & -> & [-> ->] & Hf).
  - split.
    + intros (r & rs' & -> & (b & rs1 & rs2 & -> & H1 & H2)%IH).
      exists b, (existT c r :: rs1), rs2. naive_solver.
    + intros (b & rs1 & rs2 & -> & (r & rs1' & -> & H1) & H2).
      exists r, (rs1' ++ rs2). split; [done|]. apply IH. eauto 10.
Qed.

Lemma in_replies p es c r : existT c r ∈ replies p es <-> Ev p c r ∈ es.
Proof.
  unfold replies. rewrite list_elem_of_omap. split.
  - intros ([q c' r'] & Hin & E). case_decide as Hq; [|done]. subst q.
    assert (existT c' r' = existT c r :> reply) as E' by congruence.
    assert (c' = c) as -> by exact (f_equal (@projT1 _ _) E').
    apply (inj_pair2_eq_dec _ call_eq_dec) in E'. by subst.
  - intros Hin. exists (Ev p c r). by rewrite decide_True.
Qed.
End run_facts.

(** ** One program running alone *)

Section alone.
Context `{UuidLib, Postgres}.

(** [p] alone against [d]: its [n]th call is answered with [os n]. *)
Fixpoint alone {A} (p : prog A) (os : nat -> oracle) (now : Z) (d : DB) (t : option tx) : A * DB :=
  match p with
  | Ret a => (a, d)
  | Call c k =>
    let '(r, t', d') := serve c (os 0%nat) now d t in
    alone (k r) (fun n => os (S n)) now d' t'
  end.

Lemma alone_bind {A B} (p : prog A) (f : A -> prog B) os now d t :
  exists os' t', (forall P : oracle -> Prop, (forall n, P (os n)) -> forall n, P (os' n)) /\
  alone (pbind p f) os now d t = alone (f (alone p os now d t).1) os' now (alone p os now d t).2 t'.
Proof.
  revert os d t. induction p as [a|c k IH]; intros os d t; simpl; [by exists os, t|].
  destruct (serve c (os 0%nat) now d t) as [[r t'] d'].
  destruct (IH r (fun n => os (S n)) d' t') as (os' & t2 & Hos & E). exists os', t2. split; [|done].
  intros P HP. apply Hos. intros n. apply HP.
Qed.

(** Running alone is a run of the machine. *)
Lemma alone_run {A} (p : prog A) os now d t :
  exists ms t', run ms (mkStore d now {[ 0%nat := mkProc t p ]}) =
    ((run ms (mkStore d now {[ 0%nat := mkProc t p ]})).1,
     mkStore (alone p os now d t).2 now {[ 0%nat := mkProc t' (Ret (alone p os now d t).1) ]}).
Proof.
  revert os d t. induction p as [a|c k IH]; intros os d t; simpl.
  { exists [], t. done. }
  destruct (serve c (os 0%nat) now d t) as [[r t'] d'] eqn:E.
  destruct (IH r (fun n => os (S n)) d' t') as (ms & t2 & Hrun).
  exists (Run 0 (os 0%nat) :: ms), t2. cbn [run].
  assert (step (Run 0 (os 0%nat)) (mkStore d now {[ 0%nat := mkProc t (Call c k) ]}) =
    ([Ev 0 c r], mkStore d' now {[ 0%nat := mkProc t' (k r) ]})) as ->.
  { cbn [step s_procs]. rewrite lookup_singleton_eq. cbn [s_db s_now]. rewrite E.
    replace (blocked 0 _ _) with false; [by rewrite insert_singleton_eq|].
    symmetry. apply bool_decide_eq_false. intros (q & pr & Hq & Hne & _). cbn in Hq.
    by apply lookup_singleton_Some in Hq as [? _]. }
  rewrite Hrun. by destruct (run ms _).
Qed.
End alone.
