(* ===== verification/Discipline.v ===== *)
(** The locking discipline the identity adapters keep, and the induction principle
    for runs of programs that keep it.

    A discipline is checked on programs, not on runs: the guarded member updates
    come only after their household's advisory lock, the single-statement guards
    (login step, recovery code, deletion) only outside transactions. What a run of
    disciplined programs preserves can then be proved call by call. *)

From S2P Require Import Prelude GoStrings Uuids IdentityDB IdentityRun Members.
Local Open Scope Z_scope.

(** ** The effects of one call *)

Section serving.
Context `{UuidLib, Postgres}.

(** What one call can do to the caller's transaction and the committed state. *)
Inductive served (c : call) (t : option tx) (d : DB) : option tx -> DB -> Prop :=
| served_same : served c t d t d
| served_abort u : t = Some u -> served c t d (Some (mkTx (t_now u) (t_pending u) (t_locks u) true)) d
| served_begin now : c = QBegin -> t = None -> served c t d (Some (mkTx now [] [] false)) d
| served_end : c = QCommit \/ c = QRollback -> served c t d None d
| served_commit u : c = QCommit -> t = Some u -> served c t d None (apply_writes (t_pending u) d)
| served_auto now v ws : t = None -> query c now d = Ok (v, ws) ->
    served c t d None (apply_writes ws d)
| served_stmt u v ws : t = Some u -> t_aborted u = false ->
    query c (t_now u) (view d t) = Ok (v, ws) ->
    served c t d (Some (mkTx (t_now u) (t_pending u ++ ws) (t_locks u ++ takes c (view d t)) false)) d.

Lemma exec_served c f now d t r t' d' : exec c f now d t = (r, t', d') -> served c t d t' d'.
Proof.
  unfold exec. intros E.
  destruct t as [u|]; [destruct (t_aborted u) eqn:?|]; [simplify_eq; constructor|..].
  - destruct f; [|simplify_eq; by eapply served_abort..].
    destruct (query c (t_now u) _) as [[v ws]|e] eqn:Hq; simplify_eq; [by eapply served_stmt|].
    by eapply served_abort.
  - destruct f; [|simplify_eq; constructor|];
      (destruct (query c now d) as [[v ws]|e] eqn:Hq; simplify_eq; [by eapply served_auto|constructor]).
Qed.

Lemma serve_served c o now d t r t' d' : serve c o now d t = (r, t', d') -> served c t d t' d'.
Proof.
  destruct c; try apply exec_served; simpl; intros E; simplify_eq; try constructor; auto.
  - destruct t as [u|], (o_fault o); simpl in *; simplify_eq; try constructor; auto.
  - destruct t as [u|]; simpl in *; simplify_eq; [|by apply served_end; left].
    destruct (t_aborted u), (o_fault o); simplify_eq; try (by apply served_end; left);
      by eapply served_commit.
Qed.

(** The committed state moves by writes only. *)
Lemma served_writes c t d t' d' : served c t d t' d' -> exists us, d' = apply_writes us d.
Proof. intros []; try (by exists []); by eexists. Qed.

(** ** The locking discipline

    Where a program stands: outside a transaction, inside one, or inside one
    after [lockHousehold]. *)
Inductive phase := Outside | Inside | Locked (hh : Uuid).
#[global] Instance phase_eq_dec : EqDecision phase.
Proof. solve_decision. Defined.

Definition next (ph : phase) (c : call) : answer c -> phase :=
  match c return answer c -> phase with
  | QBegin => fun r => if is_ok r then Inside else ph
  | QLockHousehold hh => fun r =>
    match ph with Outside => Outside | _ => if is_ok r then Locked hh else ph end
  | QCommit | QRollback => fun _ => Outside
  | _ => fun _ => ph
  end.

(** Which statements a program may issue where: the guarded member updates only
    under their household's lock, member inserts and the MFA statements that
    guard themselves only outside transactions. *)
Definition allowed (ph : phase) (c : call) : Prop :=
  match c with
  | QUpdateProfile _ hh _ _ | QSetActive _ hh _ => ph = Locked hh
  | QInsertMember _ _ _ _ | QRecordStep _ _ | QListUnused _ | QMarkUsed _ | QDeleteMfa _ _ | QBegin
  | QUpdateAssertion _ _ _ => ph = Outside
  | QInsertMfa _ _ _ | QUpdateMfaSecret _ _ | QConfirmMfa _ | QDeleteCodes _ | QInsertCode _ _ _ => ph = Inside
  | _ => True
  end.

(** [p], started in phase [ph], issues only allowed statements and ends with a
    value and a phase that satisfy [Q]. *)
Fixpoint keeps_to {A} (Q : A -> phase -> Prop) (ph : phase) (p : prog A) : Prop :=
  match p with
  | Ret a => Q a ph
  | Call c k => allowed ph c /\ forall r, keeps_to Q (next ph c r) (k r)
  end.

Definition disciplined {A} : prog A -> Prop := keeps_to (fun _ ph => ph = Outside) Outside.

Lemma keeps_to_bind {A B} (Q : B -> phase -> Prop) ph (p : prog A) (f : A -> prog B) :
  keeps_to (fun a ph' => keeps_to Q ph' (f a)) ph p -> keeps_to Q ph (pbind p f).
Proof. revert ph. induction p as [a|c k IH]; intros ph; simpl; [done|]. intros [? Hk]. split; auto. Qed.

Lemma keeps_to_mono {A} (Q Q' : A -> phase -> Prop) ph (p : prog A) :
  (forall a ph', Q a ph' -> Q' a ph') -> keeps_to Q ph p -> keeps_to Q' ph p.
Proof. intros HQ. revert ph. induction p as [a|c k IH]; intros ph; simpl; [apply HQ|]. intros [? Hk]. split; auto. Qed.

Lemma disciplined_bind {A B} (p : prog A) (f : A -> prog B) :
  disciplined p -> (forall a, disciplined (f a)) -> disciplined (pbind p f).
Proof.
  intros Hp Hf. apply keeps_to_bind. eapply keeps_to_mono, Hp. intros a ph ->. apply Hf.
Qed.

(** A transaction body may end in any phase: the deferred rollback closes it. *)
Lemma disciplined_tx {A} (body : P A) :
  keeps_to (fun _ _ => True) Inside body -> disciplined (in_tx body).
Proof.
  intros Hb. split; [done|]. intros [v|e]; simpl; [|done].
  apply keeps_to_bind. eapply keeps_to_mono, Hb. done.
Qed.

Definition phase_ok (ph : phase) (t : option tx) : Prop :=
  match ph, t with
  | Outside, t => t = None
  | Inside, t => is_Some t
  | Locked hh, t => exists u, t = Some u /\
      (t_aborted u = true \/ LAdvisory (hashtext (uuid_string hh)) ∈ t_locks u)
  end.

Lemma phase_exec ph c f now d t r t' d' :
  phase_ok ph t -> exec c f now d t = (r, t', d') -> phase_ok ph t'.
Proof.
  unfold exec. intros Hph E. destruct ph; simpl in *.
  - subst t. by destruct f, (query c now d) as [[v ws]|e]; simplify_eq.
  - destruct Hph as [u ->]. destruct (t_aborted u), f; simplify_eq; try done.
    by destruct (query c _ _) as [[v ws]|e]; simplify_eq.
  - destruct Hph as (u & -> & Hu). destruct (t_aborted u) eqn:Ha; [simplify_eq; eauto|].
    destruct Hu as [Hu|Hu]; [done|].
    destruct f; [destruct (query c _ _) as [[v ws]|e]|..]; simplify_eq; eexists; (split; [done|]); simpl;
      set_solver.
Qed.

(** Answering an allowed call keeps the program's phase right. *)
Lemma phase_serve ph c o now d t r t' d' :
  phase_ok ph t -> allowed ph c -> serve c o now d t = (r, t', d') -> phase_ok (next ph c r) t'.
Proof.
  intros Hph Hal E.
  destruct c; try exact (phase_exec _ _ _ _ _ _ _ _ _ Hph E); simpl in E; simplify_eq; try done.
  - simpl in Hal. subst ph. simpl in Hph. subst t. by destruct (o_fault o); simplify_eq/=.
  - by destruct (commit_tx _ _ _) as [r'' d'']; simplify_eq.
  - pose proof (phase_exec _ (QLockHousehold hh) _ _ _ _ _ _ _ Hph E) as Hph'. simpl.
    destruct ph; [done|..]; (destruct r as [v|e]; simpl; [|done]); unfold exec in E.
    + destruct Hph as [u ->]. destruct (t_aborted u), (o_fault o); simplify_eq/=.
      eexists; split; [done|]; simpl; set_solver.
    + destruct Hph as (u & -> & Hu). destruct (t_aborted u), (o_fault o); simplify_eq/=.
      eexists; split; [done|]; simpl; set_solver.
Qed.
End serving.

(** ** Checking a program *)

Ltac walk := repeat match goal with
  | |- _ /\ _ => split
  | |- disciplined _ => unfold disciplined
  | |- keeps_to _ _ (Call _ _) => cbn [keeps_to next allowed]
  | |- keeps_to _ _ (pbind _ _) => apply keeps_to_bind
  | |- keeps_to _ _ (and_then _ _) => apply keeps_to_bind
  | |- keeps_to _ _ (Ret _) => cbn [keeps_to]
  | |- keeps_to _ _ (ret _) => cbn [keeps_to ret]
  | |- keeps_to _ _ (fail _) => cbn [keeps_to fail]
  | |- keeps_to _ _ (match ?x with _ => _ end) => destruct x
  | |- keeps_to _ _ (if ?x then _ else _) => destruct x
  | |- forall _, _ => intros ?
  | |- True => exact I
  | |- ?x = ?x => reflexivity
  end.

(** ** Runs of disciplined programs *)

Section runs.
Context `{UuidLib, Postgres} {A : Type}.
Implicit Types (s : Store A).

(** Calls that neither read nor write a table. *)
Definition control (c : call) : bool :=
  match c with
  | QBegin | QCommit | QRollback | ENow | EFresh | ERand _ | EEntropy => true
  | _ => false
  end.

Definition phases (s : Store A) : Prop :=
  forall p pr, s_procs s !! p = Some pr ->
  exists ph Q, keeps_to Q ph (p_prog pr) /\ phase_ok ph (p_tx pr).

Lemma exec_auto c f now d r t' d' : exec c f now d None = (r, t', d') -> t' = None.
Proof. unfold exec. destruct f, (query c now d) as [[]|]; intros; by simplify_eq. Qed.

Lemma phases_start d now (ps : gmap nat (prog A)) :
  (forall p c, ps !! p = Some c -> disciplined c) -> phases (start d now ps).
Proof.
  intros Hps p pr. simpl. rewrite lookup_fmap_Some. intros (c & <- & Hc).
  by eexists Outside, _; split; [apply Hps with p|].
Qed.

Lemma phases_step s m : phases s -> phases (step m s).2.
Proof.
  intros Hph. destruct m as [p o|p|d].
  - destruct (s_procs s !! p) as [[t [a|c k]]|] eqn:Hp; [by simpl; rewrite Hp| |by simpl; rewrite Hp].
    destruct (step_run p o s t c k Hp) as [->|(r & t' & d' & Hs & Hb & ->)]; [done|].
    intros q qr. simpl. intros [[<- <-]|[Hne Hq]]%lookup_insert_Some; [|by eapply Hph].
    destruct (Hph _ _ Hp) as (ph & Q & [Hal Hk] & Hpt). simpl in *.
    eexists _, Q. split; [apply Hk|by eapply phase_serve].
  - intros q qr. simpl. intros [_ Hq]%lookup_delete_Some. by eapply Hph.
  - done.
Qed.

(** An invariant [G] of the trace and the committed state. [bad] calls are those
    the claim rules out; [safe] writes are those a transaction may hold, whatever
    else is committed meanwhile. *)
Context (bad : call -> Prop) (safe : DB -> write -> Prop) (G : list event -> DB -> Prop).

Record preserved : Prop := mkPreserved {
  pr_safe : forall tr d w, G tr d -> safe d w -> G tr (apply_write w d);
  pr_stable : forall d w w', safe d w -> safe (apply_write w' d) w;
  pr_control : forall tr d p c r, control c = true -> G tr d -> G (tr ++ [Ev p c r]) d;
  pr_inside : forall tr d p c r ph, ph <> Outside -> allowed ph c -> ~ bad c -> G tr d -> G (tr ++ [Ev p c r]) d;
  pr_inside_safe : forall ph c now d us v ws, ph <> Outside -> allowed ph c -> ~ bad c ->
    Forall (safe d) us -> query c now (apply_writes us d) = Ok (v, ws) -> Forall (safe d) ws;
  pr_auto : forall tr d p c o now r t' d', control c = false -> ~ bad c -> G tr d ->
    serve c o now d None = (r, t', d') -> G (tr ++ [Ev p c r]) d'
}.

Definition clean (tr : list event) : Prop := forall p c r, Ev p c r ∈ tr -> ~ bad c.

Definition good (tr : list event) (s : Store A) : Prop :=
  phases s /\
  (clean tr -> G tr (s_db s) /\
     forall p pr t, s_procs s !! p = Some pr -> p_tx pr = Some t -> Forall (safe (s_db s)) (t_pending t)).

Lemma safe_stable d us ws : preserved -> Forall (safe d) ws -> Forall (safe (apply_writes us d)) ws.
Proof.
  intros Hpr. revert d. induction us as [|u us IH]; intros d Hws; simpl; [done|].
  apply IH. eapply Forall_impl; [done|]. intros w. by apply pr_stable.
Qed.

Lemma safe_writes tr d ws : preserved -> G tr d -> Forall (safe d) ws -> G tr (apply_writes ws d).
Proof.
  intros Hpr. revert d. induction ws as [|w ws IH]; intros d Hg Hws; simpl; [done|].
  apply Forall_cons_1 in Hws as [Hw Hws]. apply IH; [by eapply pr_safe|].
  by apply (safe_stable d [w]).
Qed.

Lemma good_answer tr s p t c k r t' d' o :
  preserved -> good tr s -> s_procs s !! p = Some (mkProc t (Call c k)) ->
  serve c o (s_now s) (s_db s) t = (r, t', d') -> clean (tr ++ [Ev p c r]) ->
  G (tr ++ [Ev p c r]) d' /\ forall u, t' = Some u -> Forall (safe d') (t_pending u).
Proof.
  intros Hpr [Hph Hg] Hp Hs Hcl.
  assert (clean tr) as Hcl0 by (intros q c' r' Hin; apply (Hcl q c' r'); set_solver).
  assert (~ bad c) as Hbad by (apply (Hcl p c r); set_solver).
  destruct (Hg Hcl0) as [HG Hsafe]. destruct (Hph _ _ Hp) as (ph & Q & [Hal _] & Hpt). simpl in *.
  destruct (control c) eqn:Hc.
  - pose proof (pr_control Hpr tr (s_db s) p c r Hc HG) as HG'.
    pose proof (serve_served _ _ _ _ _ _ _ _ Hs) as Hsv.
    assert (forall v ws now d, query c now d = Ok (v, ws) -> ws = []) as Hnil
      by (intros v ws now d Hq; destruct c; simpl in *; by simplify_eq).
    inversion Hsv as [|u Hu|now Hcb Hu|Hend|u Hcc Hu|now v ws Hu Hq|u v ws Hu Ha Hq]; subst;
      (split; [try done|intros u0 Hu0; simplify_eq; simpl]); eauto.
    + by eapply safe_writes, Hsafe.
    + by apply Hnil in Hq as ->.
    + apply Hnil in Hq as ->. rewrite app_nil_r. eauto.
  - destruct (decide (ph = Outside)) as [->|Hne].
    + simpl in Hpt. subst t. split; [by eapply pr_auto|]. intros u ->.
      assert (Some u = None); [|done].
      destruct c; simpl in Hc; try done; exact (exec_auto _ _ _ _ _ _ _ Hs).
    + pose proof (serve_served _ _ _ _ _ _ _ _ Hs) as Hsv.
      assert (t <> None) as Htn by (intros ->; destruct ph; simpl in Hpt; [done|by destruct Hpt|by destruct Hpt as (? & ? & _)]).
      inversion Hsv as [|u Hu|now Hcb Hu|Hend|u Hcc Hu|now v ws Hu Hq|u v ws Hu Ha Hq]; subst;
        try done; try (by destruct Hend as [->| ->]);
        (split; [by eapply pr_inside|intros u0 Hu0; simplify_eq; simpl]); eauto.
      apply Forall_app. split; [eauto|]. exact (pr_inside_safe Hpr ph c _ _ _ v ws Hne Hal Hbad (Hsafe _ _ _ Hp eq_refl) Hq).
Qed.

Lemma good_step tr s m : preserved -> good tr s -> good (tr ++ (step m s).1) (step m s).2.
Proof.
  intros Hpr Hgood. split; [apply phases_step, Hgood|]. destruct m as [p o|p|d].
  - destruct (s_procs s !! p) as [[t [a|c k]]|] eqn:Hp;
      [simpl; rewrite Hp; cbn; rewrite app_nil_r; apply Hgood| |
       simpl; rewrite Hp; cbn; rewrite app_nil_r; apply Hgood].
    destruct (step_run p o s t c k Hp) as [->|(r & t' & d' & Hs & Hb & ->)];
      [cbn; rewrite app_nil_r; apply Hgood|]. cbn [fst snd s_db s_procs]. intros Hcl.
    destruct (good_answer _ _ _ _ _ _ _ _ _ _ Hpr Hgood Hp Hs Hcl) as [HG Hsafe]. split; [done|].
    intros q qr u [[<- <-]|[Hne Hq]]%lookup_insert_Some Hu; [by apply Hsafe|].
    destruct (served_writes _ _ _ _ _ (serve_served _ _ _ _ _ _ _ _ Hs)) as [us ->].
    apply safe_stable; [done|]. destruct Hgood as [_ Hg]. eapply Hg; [|done..].
    intros q' c' r' Hin. apply (Hcl q' c' r'). set_solver.
  - simpl. rewrite app_nil_r. intros Hcl. destruct Hgood as [_ Hg]. destruct (Hg Hcl) as [HG Hs]. split; [done|].
    intros q qr u [_ Hq]%lookup_delete_Some. by eapply Hs.
  - simpl. rewrite app_nil_r. apply Hgood.
Qed.

(** The induction principle. *)
Lemma disciplined_run d now (ps : gmap nat (prog A)) ms :
  preserved -> (forall p c, ps !! p = Some c -> disciplined c) -> G [] d ->
  clean (run ms (start d now ps)).1 ->
  G (run ms (start d now ps)).1 (s_db (run ms (start d now ps)).2).
Proof.
  intros Hpr Hps Hg Hcl.
  assert (good (run ms (start d now ps)).1 (run ms (start d now ps)).2) as [_ Hgood].
  { apply (run_invariant good) with (es := []).
    - intros tr s m. by apply good_step.
    - split; [by apply phases_start|]. intros _. split; [done|].
      intros p pr t. simpl. rewrite lookup_fmap_Some. by intros (c & <- & _). }
  by apply Hgood.
Qed.
End runs.
