(* ===== verification/MembersSpec.v ===== *)
(** What the member operations promise under concurrency: the last-active-owner
    guarantee over every interleaving of identity operations, and the outcome of
    a password login. *)

From S2P Require Import Prelude GoStrings Uuids IdentityDB IdentityRun Members Discipline.
Local Open Scope Z_scope.

(** ** Ownership *)

Section ownership.
Context `{UuidLib, Postgres}.

(** [hh] has an active owner. *)
Definition owned (hh : Uuid) (d : DB) : Prop :=
  exists id r, members d !! id = Some r /\ m_household r = hh /\ m_role r = RoleOwner /\ m_active r = true.

(** Every member of [hh] in [d] is one in [d'], with the same role and activity. *)
Definition keeps (hh : Uuid) (d d' : DB) : Prop :=
  forall id r, members d !! id = Some r -> m_household r = hh ->
  exists r', members d' !! id = Some r' /\ m_household r' = hh /\
    m_role r' = m_role r /\ m_active r' = m_active r.

Lemma keeps_refl hh d : keeps hh d d.
Proof. intros id r Hid Hr. by exists r. Qed.

Lemma keeps_trans hh d1 d2 d3 : keeps hh d1 d2 -> keeps hh d2 d3 -> keeps hh d1 d3.
Proof.
  intros H12 H23 id r Hid Hr. destruct (H12 _ _ Hid Hr) as (r2 & Hid2 & Hr2 & ? & ?).
  destruct (H23 _ _ Hid2 Hr2) as (r3 & ? & ? & ? & ?). exists r3. split_and!; congruence.
Qed.

Lemma owned_keeps hh d d' : keeps hh d d' -> owned hh d -> owned hh d'.
Proof.
  intros Hk (id & r & Hid & Hr & Hro & Ha). destruct (Hk _ _ Hid Hr) as (r' & ? & ? & ? & ?).
  exists id, r'. split_and!; congruence.
Qed.

(** The household whose role or activity column a write may change. *)
Definition owner_write (w : write) : option Uuid :=
  match w with
  | WProfile hh _ _ _ _ | WActive hh _ _ _ => Some hh
  | _ => None
  end.

Definition member_insert (w : write) : bool := match w with WMember _ _ => true | _ => false end.

Lemma write_keeps hh w d : owner_write w <> Some hh -> keeps hh d (apply_write w d).
Proof.
  intros Hw id r Hid Hr. destruct w as [| |hh' id' ? ? ?|hh' id' ? ?|id' ? ? ?|? ?|? ? ?|? ?|?|? ? ?|? ?|?|? ?|? ?|? ?|?|? ? ?];
    simpl in *; try (by exists r); rewrite ?Hid; try (by exists r).
  - exists r. split_and!; try done. unfold insert_new. case_match; [done|].
    rewrite lookup_insert_ne; [done|congruence].
  - destruct (decide (id' = id)) as [->|Hne]; [|rewrite lookup_alter_ne by done; by exists r].
    rewrite lookup_alter_eq, Hid. simpl. eexists. split; [done|]. case_decide; [|done]. congruence.
  - destruct (decide (id' = id)) as [->|Hne]; [|rewrite lookup_alter_ne by done; by exists r].
    rewrite lookup_alter_eq, Hid. simpl. eexists. split; [done|]. case_decide; [|done]. congruence.
  - destruct (decide (id' = id)) as [->|Hne]; [|rewrite lookup_alter_ne by done; by exists r].
    rewrite lookup_alter_eq, Hid. simpl. by eexists.
Qed.

(** Updates of existing rows commute with rows added elsewhere. *)
Lemma write_mono hh w d d' :
  member_insert w = false -> keeps hh d d' -> keeps hh (apply_write w d) (apply_write w d').
Proof.
  intros Hw Hk. destruct w as [| |hh' id' ? ? ?|hh' id' ? ?|id' ? ? ?|? ?|? ? ?|? ?|?|? ? ?|? ?|?|? ?|? ?|? ?|?|? ? ?];
    simpl in *; try done;
    intros id r Hid Hr; simpl in *;
    (destruct (decide (id' = id)) as [->|Hne];
      [|rewrite lookup_alter_ne in * by done; by apply Hk]);
    rewrite lookup_alter_eq in *;
    destruct (members d !! id) as [r0|] eqn:Hid0; try done; simpl in Hid;
    injection Hid as <-;
    assert (m_household r0 = hh) as E0 by (by repeat case_decide);
    destruct (Hk id r0 Hid0 E0) as (r' & -> & Hr' & ? & ?); simpl;
    (eexists; split; [done|]); rewrite ?Hr', ?E0;
    repeat case_decide; simpl; split_and!; congruence.
Qed.

Lemma writes_keep hh ws d :
  Forall (fun w => owner_write w <> Some hh) ws -> keeps hh d (apply_writes ws d).
Proof.
  intros Hws. revert d. induction Hws as [|w ws Hw _ IH]; intros d; simpl; [apply keeps_refl|].
  eapply keeps_trans; [by apply write_keeps|apply IH].
Qed.

Lemma writes_mono hh ws d d' :
  Forall (fun w => member_insert w = false) ws -> keeps hh d d' ->
  keeps hh (apply_writes ws d) (apply_writes ws d').
Proof.
  intros Hws. revert d d'. induction Hws as [|w ws Hw _ IH]; intros d d' Hk; simpl; [done|].
  apply IH. by apply write_mono.
Qed.

(** The guard at work: no statement leaves [hh] without an active owner. *)
Lemma other_owner_stays hh id d w :
  other_active_owner d hh id = true ->
  (forall id' r, id' <> id -> members d !! id' = Some r -> members (apply_write w d) !! id' = Some r) ->
  owned hh (apply_write w d).
Proof.
  intros (id' & r & Hid' & Hr & Hne & Hro & Ha)%bool_decide_eq_true Hw.
  exists id', r. split_and!; auto.
Qed.

Lemma insert_row_writes {A} (checks : list (bool * call_error)) (a : A) w v ws :
  insert_row checks a w = Ok (v, ws) -> ws = [w].
Proof. unfold insert_row. intros E. destruct (List.find fst checks) as [[]|]; by simplify_eq. Qed.

Lemma one_row_writes b w v ws : one_row b w = Ok (v, ws) -> ws = [w] \/ ws = [].
Proof. unfold one_row. destruct b; intros E; simplify_eq; auto. Qed.

Lemma query_writes c now d v ws :
  query c now d = Ok (v, ws) ->
  Forall (fun w => owner_write w = None) ws \/
  (exists id hh name role r, c = QUpdateProfile id hh name role /\ ws = [WProfile hh id name role now] /\
     members d !! id = Some r /\ m_household r = hh /\
     (m_role r = RoleOwner -> m_active r = true -> role <> RoleOwner -> other_active_owner d hh id = true)) \/
  (exists id hh active r, c = QSetActive id hh active /\ ws = [WActive hh id active now] /\
     members d !! id = Some r /\ m_household r = hh /\
     (active = false -> m_role r = RoleOwner -> m_active r = true -> other_active_owner d hh id = true)).
Proof.
  intros Hq.
  destruct c; simpl in Hq;
    try (left; simplify_eq; by repeat constructor);
    try (apply insert_row_writes in Hq; subst; left; by repeat constructor);
    try (apply one_row_writes in Hq as [->| ->]; left; by repeat constructor).
  - destruct (members d !! id) as [r|] eqn:Hid; [|simplify_eq; left; constructor].
    case_match eqn:Hg; [|simplify_eq; left; constructor].
    case_match; [done|]. case_match; [done|]. simplify_eq. right; left.
    apply andb_true_iff in Hg as [Hh Hg]. apply bool_decide_eq_true in Hh.
    exists id, hh, name, role, r. split_and!; try done. intros Hro Ha Hrole.
    unfold lastActiveOwnerGuardSQL in Hg. rewrite Ha in Hg.
    rewrite (bool_decide_eq_true_2 (m_role r = _)), (bool_decide_eq_false_2 (role = _)) in Hg by done.
    by destruct (other_active_owner d hh id).
  - destruct (members d !! id) as [r|] eqn:Hid; [|simplify_eq; left; constructor].
    unfold one_row in Hq. case_match eqn:Hg; [|simplify_eq; left; constructor].
    simplify_eq. right; right.
    apply andb_true_iff in Hg as [Hh Hg]. apply bool_decide_eq_true in Hh.
    exists id, hh, active, r. split_and!; try done. intros -> Hro Ha.
    unfold lastActiveOwnerGuardSQL in Hg. rewrite Ha in Hg.
    rewrite (bool_decide_eq_true_2 (m_role r = _)) in Hg by done.
    by destruct (other_active_owner d hh id).
  - case_match; [|simplify_eq; left; constructor]. case_match; [done|]. simplify_eq. left; by repeat constructor.
  - case_match; [done|]. simplify_eq. left; by repeat constructor.
  - case_match; [|simplify_eq; left; constructor]. destruct p. apply one_row_writes in Hq as [->| ->]; left; by repeat constructor.
Qed.

Lemma query_owned c now d v ws hh :
  query c now d = Ok (v, ws) -> owned hh d -> owned hh (apply_writes ws d).
Proof.
  intros Hq Ho. destruct (query_writes _ _ _ _ _ Hq)
    as [Hws|[(id & hh' & name & role & r & -> & -> & Hid & Hh & Hg)|(id & hh' & active & r & -> & -> & Hid & Hh & Hg)]].
  - eapply owned_keeps, Ho. apply writes_keep. eapply Forall_impl; [done|]. simpl. congruence.
  - destruct (decide (hh' = hh)) as [->|Hne];
      [|eapply owned_keeps, Ho; apply writes_keep; repeat constructor; simpl; congruence].
    destruct Ho as (id0 & r0 & Hid0 & Hr0 & Hro0 & Ha0). cbn [apply_writes foldl].
    destruct (decide (id0 = id)) as [->|Hne].
    + rewrite Hid in Hid0; simplify_eq. destruct (decide (role = RoleOwner)) as [->|Hrole].
      * exists id. cbn. rewrite lookup_alter_eq, Hid. simpl. eexists; split; [done|]. by rewrite decide_True.
      * eapply other_owner_stays; [by apply Hg|]. intros id' r' Hne Hid'. cbn. by rewrite lookup_alter_ne.
    + exists id0, r0. split_and!; try done. cbn. by rewrite lookup_alter_ne.
  - destruct (decide (hh' = hh)) as [->|Hne];
      [|eapply owned_keeps, Ho; apply writes_keep; repeat constructor; simpl; congruence].
    destruct Ho as (id0 & r0 & Hid0 & Hr0 & Hro0 & Ha0). cbn [apply_writes foldl].
    destruct (decide (id0 = id)) as [->|Hne].
    + rewrite Hid in Hid0; simplify_eq. destruct active.
      * exists id. cbn. rewrite lookup_alter_eq, Hid. simpl. eexists; split; [done|]. by rewrite decide_True.
      * eapply other_owner_stays; [by apply Hg|]. intros id' r' Hne Hid'. cbn. by rewrite lookup_alter_ne.
    + exists id0, r0. split_and!; try done. cbn. by rewrite lookup_alter_ne.
Qed.
End ownership.

(** ** The invariant of every run *)

Section machine.
Context `{UuidLib, Postgres} {A : Type}.
Implicit Types (s : Store A).

Record machine_inv (owned_hhs : Uuid -> Prop) (s : Store A) : Prop := mkInv {
  inv_phase : forall p pr, s_procs s !! p = Some pr ->
    exists ph Q, keeps_to Q ph (p_prog pr) /\ phase_ok ph (p_tx pr);
  inv_locks : forall p q pr qr l, p <> q -> s_procs s !! p = Some pr -> s_procs s !! q = Some qr ->
    l ∈ held pr -> l ∈ held qr -> False;
  inv_covered : forall p pr t w hh, s_procs s !! p = Some pr -> p_tx pr = Some t ->
    w ∈ t_pending t -> owner_write w = Some hh -> LAdvisory (hashtext (uuid_string hh)) ∈ t_locks t;
  inv_updates : forall p pr t, s_procs s !! p = Some pr -> p_tx pr = Some t ->
    Forall (fun w => member_insert w = false) (t_pending t);
  inv_owned : forall hh, owned_hhs hh -> owned hh (s_db s);
  inv_view : forall p pr hh, s_procs s !! p = Some pr -> owned_hhs hh -> owned hh (view (s_db s) (p_tx pr))
}.

Lemma query_no_insert c now d v ws :
  query c now d = Ok (v, ws) -> (forall id hh name role, c <> QInsertMember id hh name role) ->
  Forall (fun w => member_insert w = false) ws.
Proof.
  intros Hq Hc.
  destruct c; simpl in Hq; try (by destruct (Hc id hh name role));
    repeat case_match; simplify_eq;
    try (apply insert_row_writes in Hq; subst; by repeat constructor);
    try (apply one_row_writes in Hq as [->| ->]; by repeat constructor);
    by repeat constructor.
Qed.

Lemma blocked_false p ls s q qr l :
  blocked p ls s = false -> q <> p -> s_procs s !! q = Some qr -> l ∈ ls -> l ∉ held qr.
Proof.
  unfold blocked. intros Hb%bool_decide_eq_false Hne Hq Hl Hh. apply Hb.
  exists q, qr. split; [done|]. split; [done|]. apply Exists_exists. eauto.
Qed.

Lemma apply_writes_app ws ws' d : apply_writes (ws ++ ws') d = apply_writes ws' (apply_writes ws d).
Proof. apply foldl_app. Qed.

(** A statement outside transactions changes no ownership that a guard protects. *)
Lemma auto_keeps ph c now d v ws hh :
  query c now d = Ok (v, ws) -> allowed ph c -> phase_ok ph None -> keeps hh d (apply_writes ws d).
Proof.
  intros Hq Hal Hph. apply writes_keep.
  destruct (query_writes _ _ _ _ _ Hq) as [Hw|[(? & ? & ? & ? & ? & -> & _)|(? & ? & ? & ? & -> & _)]].
  - eapply Forall_impl; [exact Hw|]. simpl. congruence.
  - simpl in Hal. subst ph. by destruct Hph as (? & ? & _).
  - simpl in Hal. subst ph. by destruct Hph as (? & ? & _).
Qed.

(** Inside a transaction, a guarded update runs under its household's lock. *)
Lemma stmt_covered ph c u now d v ws w hh (ls : list lock) :
  query c now d = Ok (v, ws) -> allowed ph c -> phase_ok ph (Some u) -> t_aborted u = false ->
  w ∈ ws -> owner_write w = Some hh ->
  LAdvisory (hashtext (uuid_string hh)) ∈ t_locks u \/ LAdvisory (hashtext (uuid_string hh)) ∈ ls.
Proof.
  intros Hq Hal Hph Ha Hw Hwo. left.
  destruct (query_writes _ _ _ _ _ Hq)
    as [Hws|[(id & hh' & name & role & r & -> & -> & _)|(id & hh' & active & r & -> & -> & _)]].
  - rewrite Forall_forall in Hws. specialize (Hws _ Hw). congruence.
  - apply list_elem_of_singleton in Hw as ->. simpl in Hwo, Hal. simplify_eq.
    destruct Hph as (u' & ? & [?|?]); simplify_eq; [congruence|done].
  - apply list_elem_of_singleton in Hw as ->. simpl in Hwo, Hal. simplify_eq.
    destruct Hph as (u' & ? & [?|?]); simplify_eq; [congruence|done].
Qed.

(** A commit leaves every other transaction's view owned. *)
Lemma commit_view hhs p q pr qr u hh s :
  machine_inv hhs s -> p <> q -> s_procs s !! p = Some pr -> p_tx pr = Some u -> s_procs s !! q = Some qr ->
  hhs hh -> owned hh (view (apply_writes (t_pending u) (s_db s)) (p_tx qr)).
Proof.
  intros Hinv Hne Hp Hu Hq Hhh.
  pose proof (inv_view _ _ Hinv _ _ _ Hp Hhh) as Hpv. rewrite Hu in Hpv. simpl in Hpv.
  destruct (p_tx qr) as [v|] eqn:Hv; simpl; [|done].
  destruct (decide (Forall (fun w => owner_write w <> Some hh) (t_pending u))) as [Hw|Hw].
  - pose proof (inv_view _ _ Hinv _ _ _ Hq Hhh) as Hqv. rewrite Hv in Hqv. simpl in Hqv.
    eapply owned_keeps, Hqv. apply writes_mono; [by eapply inv_updates|by apply writes_keep].
  - eapply owned_keeps, Hpv. apply writes_keep. apply Forall_forall. intros w Hin Hwo.
    apply not_Forall_Exists, Exists_exists in Hw as (w' & Hin' & Hwo'); [|apply _].
    apply dec_stable in Hwo'.
    apply (inv_locks _ _ Hinv p q pr qr (LAdvisory (hashtext (uuid_string hh)))); try done.
    + unfold held. rewrite Hu. exact (inv_covered _ _ Hinv _ _ _ _ _ Hp Hu Hin' Hwo').
    + unfold held. rewrite Hv. exact (inv_covered _ _ Hinv _ _ _ _ _ Hq Hv Hin Hwo).
Qed.

(** What one served call must establish for the invariant to survive it. *)
Lemma inv_replace hhs p pr s pr' d' :
  machine_inv hhs s -> s_procs s !! p = Some pr ->
  (exists ph Q, keeps_to Q ph (p_prog pr') /\ phase_ok ph (p_tx pr')) ->
  (forall q qr l, q <> p -> s_procs s !! q = Some qr -> l ∈ held pr' -> l ∉ held qr) ->
  (forall t w hh, p_tx pr' = Some t -> w ∈ t_pending t -> owner_write w = Some hh ->
     LAdvisory (hashtext (uuid_string hh)) ∈ t_locks t) ->
  (forall t, p_tx pr' = Some t -> Forall (fun w => member_insert w = false) (t_pending t)) ->
  (forall hh, hhs hh -> owned hh d' /\ owned hh (view d' (p_tx pr'))) ->
  (forall q qr hh, q <> p -> s_procs s !! q = Some qr -> hhs hh -> owned hh (view d' (p_tx qr))) ->
  machine_inv hhs (mkStore d' (s_now s) (<[p := pr']> (s_procs s))).
Proof.
  intros Hinv Hp Hph Hlk Hcov Hup Hown Hview. split; simpl.
  - intros q qr [[<- <-]|[Hne Hq]]%lookup_insert_Some; [done|by eapply inv_phase].
  - intros q1 q2 r1 r2 l Hne [[<- <-]|[Hn1 H1]]%lookup_insert_Some [[<- <-]|[Hn2 H2]]%lookup_insert_Some Hl1 Hl2;
      [done|by eapply (Hlk q2)|by eapply (Hlk q1)|by eapply (inv_locks _ _ Hinv q1 q2)].
  - intros q qr t w hh [[<- <-]|[Hne Hq]]%lookup_insert_Some; [by apply Hcov|by eapply inv_covered].
  - intros q qr t [[<- <-]|[Hne Hq]]%lookup_insert_Some; [by apply Hup|by eapply inv_updates].
  - intros hh Hhh. by apply Hown.
  - intros q qr hh [[<- <-]|[Hne Hq]]%lookup_insert_Some Hhh; [by apply Hown|by eapply Hview].
Qed.

Lemma inv_served hhs p t c k s r t' d' ph (Q : A -> phase -> Prop) :
  machine_inv hhs s -> s_procs s !! p = Some (mkProc t (Call c k)) ->
  blocked p (takes c (view (s_db s) t)) s = false ->
  allowed ph c -> phase_ok ph t -> keeps_to Q (next ph c r) (k r) -> phase_ok (next ph c r) t' ->
  served c t (s_db s) t' d' ->
  machine_inv hhs (mkStore d' (s_now s) (<[p := mkProc t' (k r)]> (s_procs s))).
Proof.
  intros Hinv Hp Hb Hal Hph Hk Hph' Hs.
  assert (forall hh, hhs hh -> owned hh (s_db s) /\ owned hh (view (s_db s) t)) as Hown.
  { intros hh Hhh. split; [by eapply inv_owned|]. by apply (inv_view _ _ Hinv _ _ hh Hp). }
  assert (forall q qr l, q <> p -> s_procs s !! q = Some qr ->
    l ∈ match t with Some u => t_locks u | None => [] end -> l ∉ held qr) as Hlk.
  { intros q qr l Hne Hq Hl Hh. by eapply (inv_locks _ _ Hinv p q). }
  pose proof (fun u w hh => inv_covered _ _ Hinv _ _ u w hh Hp) as Hcov.
  pose proof (fun u => inv_updates _ _ Hinv _ _ u Hp) as Hup. simpl in Hcov, Hup.
  assert (forall q qr hh, q <> p -> s_procs s !! q = Some qr -> hhs hh -> owned hh (view (s_db s) (p_tx qr))) as Hview.
  { intros. by eapply inv_view. }
  destruct Hs as [|u Hu|now -> Hu|Hend|u -> Hu|now v ws Hu Hq|u v ws Hu Ha Hq]; subst;
    apply (inv_replace hhs p _ _ _ _ Hinv Hp); simpl; unfold held; simpl; eauto; try done;
    try (intros; simplify_eq/=; eauto; fail).
  - intros t w hh E Hw. simplify_eq/=. set_solver.
  - set_solver.
  - intros hh Hhh. by destruct (Hown hh Hhh).
  - set_solver.
  - intros hh Hhh. by destruct (Hown hh Hhh).
  - intros q qr hh Hne Hq Hhh. by eapply (commit_view hhs p q).
  - intros hh Hhh. split; (eapply query_owned; [done|by apply Hown]).
  - intros q qr hh Hne Hqr Hhh. pose proof (Hview _ _ _ Hne Hqr Hhh) as Ho.
    pose proof (auto_keeps _ _ _ _ _ _ hh Hq Hal Hph) as Hkeep.
    destruct (p_tx qr) as [u|] eqn:Hu; simpl in *; eapply owned_keeps, Ho; [|done].
    apply writes_mono; [by eapply inv_updates|done].
  - intros q qr l Hne Hqr [Hl|Hl]%elem_of_app; [by eapply Hlk|].
    by eapply (blocked_false p).
  - intros t w hh E Hw Hwo. simplify_eq/=. apply elem_of_app.
    apply elem_of_app in Hw as [Hw|Hw]; [left; by eapply Hcov|].
    by eapply stmt_covered.
  - intros t E. simplify_eq/=. apply Forall_app. split; [by apply Hup|].
    eapply query_no_insert; [done|]. intros id hh name role ->. simpl in Hal. subst ph. done.
  - intros hh Hhh. split; [by apply Hown|]. rewrite apply_writes_app.
    eapply query_owned; [done|by apply Hown].
Qed.

Lemma inv_step hhs m s : machine_inv hhs s -> machine_inv hhs (step m s).2.
Proof.
  intros Hinv. destruct m as [p o|p|d].
  - destruct (s_procs s !! p) as [[t [a|c k]]|] eqn:Hp; [by simpl; rewrite Hp| |by simpl; rewrite Hp].
    destruct (step_run p o s t c k Hp) as [->|(r & t' & d' & Hs & Hb & ->)]; [done|]. simpl.
    destruct (inv_phase _ _ Hinv _ _ Hp) as (ph & Q & [Hal Hk] & Hph).
    eapply inv_served; try done; [by eapply phase_serve|by eapply serve_served].
  - destruct Hinv as [H1 H2 H3 H4 H5 H6].
    split; simpl; try (intros *; rewrite ?lookup_delete_Some; naive_solver).
  - by destruct Hinv.
Qed.

Lemma inv_start hhs d now (ps : gmap nat (prog A)) :
  (forall p c, ps !! p = Some c -> disciplined c) -> (forall hh, hhs hh -> owned hh d) ->
  machine_inv hhs (start d now ps).
Proof.
  intros Hps Ho. split; simpl; try done; intros *; rewrite ?lookup_fmap_Some.
  - intros (c & <- & Hc). simpl. by eexists Outside, _; split; [apply Hps with p|].
  - intros _ (c & <- & Hc). set_solver.
  - by intros (c & <- & Hc).
  - by intros (c & <- & Hc).
  - intros (c & <- & Hc) Hhh. by apply Ho.
Qed.
End machine.

(** ** The operations keep the discipline *)

Section member_operations.
Context `{UuidLib, Postgres}.

Lemma CreateHousehold_disciplined h : disciplined (CreateHousehold h).
Proof. unfold CreateHousehold. walk. Qed.
Lemma GetHousehold_disciplined id : disciplined (GetHousehold id).
Proof. unfold GetHousehold. walk. Qed.
Lemma CreateMember_disciplined m : disciplined (CreateMember m).
Proof. unfold CreateMember. walk. Qed.
Lemma GetMember_disciplined id : disciplined (GetMember id).
Proof. unfold GetMember. walk. Qed.
Lemma ListMembers_disciplined hh : disciplined (ListMembers hh).
Proof. unfold ListMembers. walk. Qed.
Lemma FindByEmail_disciplined email : disciplined (FindByEmail email).
Proof. unfold FindByEmail. walk. Qed.
Lemma SetCredential_disciplined id email hash : disciplined (SetCredential id email hash).
Proof. unfold SetCredential. walk. Qed.

(** The lock comes first, so the guarded update runs under it. *)
Lemma locked_body {A} hh (k : P A) (Q : result identity_error A -> phase -> Prop) :
  (forall e, Q (Err e) Inside) -> keeps_to Q (Locked hh) k ->
  keeps_to Q Inside (and_then (lockHousehold hh) (fun _ => k)).
Proof. intros He Hk. apply keeps_to_bind. split; [done|]. intros [v|e]; simpl; [done|apply He]. Qed.

Lemma UpdateMemberProfile_disciplined hh id name role : disciplined (UpdateMemberProfile hh id name role).
Proof.
  unfold UpdateMemberProfile. destruct (negb (role_valid role)); [done|].
  apply disciplined_tx, locked_body; [done|]. unfold memberWriteFailureReason, commit. walk.
Qed.

Lemma SetMemberActive_disciplined hh id active : disciplined (SetMemberActive hh id active).
Proof.
  apply disciplined_tx, locked_body; [done|]. unfold memberWriteFailureReason, commit. walk.
Qed.

Lemma Login_disciplined `{PasswordHasher} a email password : disciplined (Login a email password).
Proof. unfold Login. apply disciplined_bind; [apply FindByEmail_disciplined|]. intros r. walk. Qed.
End member_operations.

#[export] Hint Resolve CreateHousehold_disciplined GetHousehold_disciplined CreateMember_disciplined
  GetMember_disciplined ListMembers_disciplined FindByEmail_disciplined SetCredential_disciplined
  UpdateMemberProfile_disciplined SetMemberActive_disciplined Login_disciplined disciplined_bind : nest.

(** ** The guarantees *)

(** C1. A household that has an active owner keeps one: whatever programs run
    together against the database, provided each keeps to the repository's
    locking discipline (the two guarded member updates run in a transaction that
    first took the household's advisory lock; every operation of the adapters
    does), and however their statements interleave, fail, lose their replies or
    stop for good, every committed state of the database has an active owner for
    it. *)
Theorem last_active_owner `{UuidLib, Postgres} {A} (ps : gmap nat (prog A)) (d : DB) (now : Z)
    (ms : list move) (hh : Uuid) :
  (forall p c, ps !! p = Some c -> disciplined c) ->
  owned hh d ->
  owned hh (s_db (run ms (start d now ps)).2).
Proof.
  intros Hps Ho.
  assert (machine_inv (eq hh) (run ms (start d now ps)).2) as Hinv.
  { apply (run_invariant (fun _ s => machine_inv (eq hh) s)) with (es := []).
    - intros _ s m. apply inv_step.
    - apply inv_start; [done|]. by intros hh' <-. }
  by apply (inv_owned _ _ Hinv).
Qed.

(** [id] is the only active owner of [hh]. *)
Definition sole_owner `{UuidLib} (d : DB) (hh id : Uuid) : Prop :=
  (exists r, members d !! id = Some r /\ m_household r = hh /\ m_role r = RoleOwner /\ m_active r = true) /\
  forall id' r, members d !! id' = Some r -> m_household r = hh -> m_role r = RoleOwner ->
    m_active r = true -> id' = id.

Section outcomes.
Context `{UuidLib, Postgres}.
Implicit Types (os : nat -> oracle).

Lemma other_owner_none d hh id :
  other_active_owner d hh id = false <->
  forall id' r, members d !! id' = Some r -> m_household r = hh -> m_role r = RoleOwner ->
    m_active r = true -> id' = id.
Proof.
  unfold other_active_owner. rewrite bool_decide_eq_false. split.
  - intros Hno id' r Hid Hr Hro Ha. destruct (decide (id' = id)) as [|Hne]; [done|].
    destruct Hno. exists id', r. done.
  - intros Hall (id' & r & Hid & Hr & Hne & Hro & Ha). by eapply Hne, Hall.
Qed.

Lemma guard_refuses d hh id r :
  members d !! id = Some r -> m_household r = hh ->
  (bool_decide (m_role r = "owner"%string) && m_active r && lastActiveOwnerGuardSQL d id hh = true
   <-> sole_owner d hh id).
Proof.
  intros Hid Hr. unfold lastActiveOwnerGuardSQL. rewrite !andb_true_iff, bool_decide_eq_true, negb_true_iff.
  rewrite other_owner_none. split.
  - intros [[Hro Ha] Hall]. split; [by exists r|done].
  - intros [(r' & Hid' & ? & ? & ?) Hall]. rewrite Hid in Hid'. by simplify_eq.
Qed.

Definition calm os : Prop := forall n, o_fault (os n) = Fine.

Lemma alone_tx {A} (body : P A) os now d :
  calm os -> alone (in_tx body) os now d None =
    alone body (fun n => os (S n)) now d (Some (mkTx now [] [] false)).
Proof.
  intros Hos. unfold in_tx. cbn [alone serve]. rewrite (Hos 0%nat). cbn [begin_tx].
  destruct (alone_bind body (fun r => Call QRollback (fun _ => Ret r)) (fun n => os (S n)) now d
    (Some (mkTx now [] [] false))) as (os' & t' & _ & ->).
  cbn [alone serve]. by destruct (alone body _ _ _ _).
Qed.

(** Both guarded operations, once their lock is granted: the guarded update [q],
    then either the reason nothing matched or the commit. *)
Definition guarded_tail (hh id : Uuid) (affected : Z) : P unit :=
  if affected =? 0 then memberWriteFailureReason hh id else commit.

Lemma guarded_tail_none os now d u hh id :
  calm os -> t_aborted u = false -> t_pending u = [] ->
  alone (guarded_tail hh id 0) os now d (Some u) =
    (Err (if belongs d id hh then ErrLastActiveOwner else ErrMemberNotFound), d).
Proof.
  intros Hos Ha Hp. unfold guarded_tail, memberWriteFailureReason.
  cbn [Z.eqb alone serve exec]. rewrite Ha, (Hos 0%nat). run_query. cbn [view]. rewrite Hp.
  cbn [apply_writes foldl]. by destruct (belongs d id hh).
Qed.

Lemma guarded_tail_one os now d u hh id :
  calm os -> t_aborted u = false ->
  alone (guarded_tail hh id 1) os now d (Some u) = (Ok tt, apply_writes (t_pending u) d).
Proof.
  intros Hos Ha. unfold guarded_tail, commit. cbn [Z.eqb Pos.eqb alone serve commit_tx].
  by rewrite Ha, (Hos 0%nat).
Qed.

(** What [SetMemberActive] answers and writes, on every branch. *)
Definition SetMemberActive_spec (hh id : Uuid) (active : bool) (now : Z) (d : DB)
    (out : result identity_error unit * DB) : Prop :=
  match members d !! id with
  | Some r =>
    if decide (m_household r = hh) then
      (active = false /\ sole_owner d hh id /\ out = (Err ErrLastActiveOwner, d)) \/
      (~ (active = false /\ sole_owner d hh id) /\
       out = (Ok tt, set_members (<[id := mkMember hh (m_name r) (m_role r) (m_email r) (m_hash r) active
                (m_created r) now]> (members d)) d))
    else out = (Err ErrMemberNotFound, d)
  | None => out = (Err ErrMemberNotFound, d)
  end.

(** What [UpdateMemberProfile] answers and writes, on every branch. *)
Definition UpdateMemberProfile_spec (hh id : Uuid) (name role : string) (now : Z) (d : DB)
    (out : result identity_error unit * DB) : Prop :=
  if negb (role_valid role) then out = (Err EInternal, d)
  else match members d !! id with
  | Some r =>
    if decide (m_household r = hh) then
      (role <> RoleOwner /\ sole_owner d hh id /\ out = (Err ErrLastActiveOwner, d)) \/
      (~ (role <> RoleOwner /\ sole_owner d hh id) /\
       out = if name_taken d hh id name then (Err ErrDuplicateMember, d)
             else (Ok tt, set_members (<[id := mkMember hh name role (m_email r) (m_hash r) (m_active r)
                    (m_created r) now]> (members d)) d))
    else out = (Err ErrMemberNotFound, d)
  | None => out = (Err ErrMemberNotFound, d)
  end.

Lemma set_members_alter f id r d :
  members d !! id = Some r -> set_members (alter f id (members d)) d = set_members (<[id := f r]> (members d)) d.
Proof.
  intros Hid. simpl. f_equal. rewrite <- (insert_id (members d) id r) at 1 by done.
  apply alter_insert_eq.
Qed.
End outcomes.

(** [SetMemberActive], run alone without failures: an id unknown in the
    household is [ErrMemberNotFound]; deactivating the household's sole active
    owner is [ErrLastActiveOwner]; every other change, every reactivation
    included, is written and nothing else changes. *)
Theorem SetMemberActive_outcome `{UuidLib, Postgres} (hh id : Uuid) (active : bool) (os : nat -> oracle)
    (now : Z) (d : DB) :
  calm os -> SetMemberActive_spec hh id active now d (alone (SetMemberActive hh id active) os now d None).
Proof.
  intros Hos. unfold SetMemberActive. rewrite alone_tx by done.
  unfold and_then, lockHousehold. cbn [alone pbind serve exec]. rewrite (Hos 1%nat). cbn [t_aborted]. run_query.
  cbn [alone pbind ret serve exec]. rewrite (Hos 2%nat). cbn [t_aborted app t_pending t_now t_locks view].
  change (apply_writes [] d) with d. run_query. unfold SetMemberActive_spec.
  destruct (members d !! id) as [r|] eqn:Hid.
  2: { cbv iota beta zeta. change (if (0 =? 0) then _ else _) with (guarded_tail hh id 0).
       rewrite guarded_tail_none by (try done; intros n; apply Hos). unfold belongs. by rewrite Hid. }
  destruct (decide (m_household r = hh)) as [Hh|Hh].
  2: { rewrite (bool_decide_eq_false_2 _ Hh). cbn [andb one_row]. cbv iota beta zeta.
       change (if (0 =? 0) then _ else _) with (guarded_tail hh id 0).
       rewrite guarded_tail_none by (try done; intros n; apply Hos). unfold belongs.
       by rewrite Hid, (bool_decide_eq_false_2 _ Hh). }
  rewrite (bool_decide_eq_true_2 _ Hh). cbn [andb].
  pose proof (guard_refuses d hh id r Hid Hh) as Hg. rewrite <- !andb_assoc in *.
  destruct active; cbn [negb andb one_row]; cbv iota beta zeta.
  2: destruct (bool_decide _ && _) eqn:Hb; cbn [negb one_row]; cbv iota beta zeta.
  2: { left. split; [done|]. split; [by apply Hg|].
       change (if (0 =? 0) then _ else _) with (guarded_tail hh id 0).
       rewrite guarded_tail_none by (try done; intros n; apply Hos). unfold belongs.
       by rewrite Hid, (bool_decide_eq_true_2 _ Hh). }
  all: right; (split; [naive_solver|]); change (if (1 =? 0) then _ else _) with (guarded_tail hh id 1);
    rewrite guarded_tail_one by (try done; intros n; apply Hos); cbn [t_pending apply_writes foldl apply_write];
    rewrite (set_members_alter _ _ r) by done; by rewrite decide_True, Hh.
Qed.

(** [UpdateMemberProfile], run alone without failures: an unknown role is
    refused before anything is sent; an id unknown in the household is
    [ErrMemberNotFound]; taking the owner role from the household's sole active
    owner is [ErrLastActiveOwner]; a display name another member of the household
    carries, case folded, is [ErrDuplicateMember]; every other change is written
    and nothing else changes. *)
Theorem UpdateMemberProfile_outcome `{UuidLib, Postgres} (hh id : Uuid) (name role : string)
    (os : nat -> oracle) (now : Z) (d : DB) :
  calm os ->
  UpdateMemberProfile_spec hh id name role now d (alone (UpdateMemberProfile hh id name role) os now d None).
Proof.
  intros Hos. unfold UpdateMemberProfile, UpdateMemberProfile_spec.
  destruct (role_valid role) eqn:Hrole; cbn [negb]; [|done]. rewrite alone_tx by done.
  unfold and_then, lockHousehold. cbn [alone pbind serve exec]. rewrite (Hos 1%nat). cbn [t_aborted]. run_query.
  cbn [alone pbind ret serve exec]. rewrite (Hos 2%nat). cbn [t_aborted app t_pending t_now t_locks view].
  change (apply_writes [] d) with d. run_query.
  destruct (members d !! id) as [r|] eqn:Hid.
  2: { cbv iota beta zeta. change (if (0 =? 0) then _ else _) with (guarded_tail hh id 0).
       rewrite guarded_tail_none by (try done; intros n; apply Hos). unfold belongs. by rewrite Hid. }
  destruct (decide (m_household r = hh)) as [Hh|Hh].
  2: { rewrite (bool_decide_eq_false_2 _ Hh). cbn [andb]. cbv iota beta zeta.
       change (if (0 =? 0) then _ else _) with (guarded_tail hh id 0).
       rewrite guarded_tail_none by (try done; intros n; apply Hos). unfold belongs.
       by rewrite Hid, (bool_decide_eq_false_2 _ Hh). }
  rewrite (bool_decide_eq_true_2 _ Hh). cbn [andb].
  pose proof (guard_refuses d hh id r Hid Hh) as Hg.
  assert (role_check role = true) as ->.
  { apply bool_decide_eq_true. unfold role_valid in Hrole. rewrite !orb_true_iff, !bool_decide_eq_true in Hrole.
    unfold RoleOwner, RoleAdult, RoleChild in *. set_solver. }
  cbn [negb].
  assert (role <> RoleOwner /\ sole_owner d hh id \/ ~ (role <> RoleOwner /\ sole_owner d hh id))
    as [[Hr Hs]|Hns].
  { rewrite <- Hg. destruct (decide (role = RoleOwner)); [tauto|].
    destruct (bool_decide _ && _ && _); naive_solver. }
  { apply Hg in Hs as Hb. rewrite (bool_decide_eq_false_2 (role = _)) by done. cbn [negb].
    rewrite andb_true_r, Hb. cbn [negb]. cbv iota beta zeta. left. split; [done|]. split; [done|].
    change (if (0 =? 0) then _ else _) with (guarded_tail hh id 0).
    rewrite guarded_tail_none by (try done; intros n; apply Hos). unfold belongs.
    by rewrite Hid, (bool_decide_eq_true_2 _ Hh). }
  right. split; [done|].
  replace (negb (_ && _)) with true; [cbv iota beta|].
  2: { symmetry. apply negb_true_iff, not_true_iff_false. rewrite !andb_true_iff, !bool_decide_eq_true, negb_true_iff, bool_decide_eq_false.
       intros [[[Hro Ha] Hr] Hl]. apply Hns. split; [done|]. apply Hg.
       by rewrite !andb_true_iff, bool_decide_eq_true. }
  destruct (name_taken d hh id name); cbv iota beta zeta.
  - cbn [isConstraintViolation]. by rewrite !bool_decide_eq_true_2.
  - change (if (1 =? 0) then _ else _) with (guarded_tail hh id 1).
    rewrite guarded_tail_one by (try done; intros n; apply Hos); cbn [t_pending apply_writes foldl apply_write].
    rewrite (set_members_alter _ _ r) by done. by rewrite decide_True, Hh.
Qed.

Section login.
Context `{UuidLib, Postgres, PasswordHasher}.

(** The rows [FindByEmail] can return. *)
Definition carries (d : DB) (email : string) (id : Uuid) (r : member_row) (h : string) : Prop :=
  members d !! id = Some r /\ email_is email (m_email r) /\ m_active r = true /\ m_hash r = Some h.

(** At most one member has the email, case folded. *)
Definition email_unique (d : DB) (email : string) : Prop :=
  forall id1 id2 r1 r2, members d !! id1 = Some r1 -> members d !! id2 = Some r2 ->
    email_is email (m_email r1) -> email_is email (m_email r2) -> id1 = id2.

Lemma carries_filter d email id r h : carries d email id r h ->
  (id, r) ∈ filter (fun kv => email_is email (m_email kv.2) /\ is_Some (m_hash kv.2) /\ m_active kv.2 = true)
    (map_to_list (members d)).
Proof.
  intros (Hid & He & Ha & Hh). apply list_elem_of_filter. rewrite elem_of_map_to_list. simpl. rewrite Hh. eauto.
Qed.

Lemma alone_Login (a : Authenticator) (email password : string) (os : nat -> oracle) (now : Z) (d : DB) :
  calm os ->
  ((forall id r h, ~ carries d email id r h) /\
     alone (Login a email password) os now d None = (Err ErrInvalidCredentials, d)) \/
  (exists id r h, carries d email id r h /\
     alone (Login a email password) os now d None =
       (match Verify password h with
        | Ok true => Ok id
        | Ok false => Err ErrInvalidCredentials
        | Err _ => Err EInternal
        end, d)).
Proof.
  intros Hos. unfold Login, FindByEmail. cbn [pbind alone serve exec]. rewrite (Hos 0%nat). run_query.
  change (apply_writes [] d) with d.
  destruct (filter _ (map_to_list (members d))) as [|[id r] rows] eqn:Hf; cbn [head mbind option_bind].
  - left. split; [intros id r h Hc%carries_filter; rewrite Hf in Hc; set_solver|].
    cbv iota beta zeta. cbn [pbind fail]. by rewrite bool_decide_eq_true_2.
  - right. assert ((id, r) ∈ filter (fun kv => email_is email (m_email kv.2) /\ is_Some (m_hash kv.2) /\
      m_active kv.2 = true) (map_to_list (members d))) as Hin by (rewrite Hf; set_solver).
    apply list_elem_of_filter in Hin as [(He & [h Hh] & Ha) Hid%elem_of_map_to_list]. cbn [snd] in *.
    exists id, r, h. split; [done|]. cbn [fst snd mbind option_bind]. rewrite Hh.
    cbn [fst mbind option_bind]. rewrite uuid_parse_string. cbn [pbind ret cr_hash cr_member].
    by destruct (Verify password h) as [[]|].
Qed.

(** [Login], run alone without failures against a table whose emails are
    unique (case folded, as the index makes them): with no active member that
    carries the email and a hash, [ErrInvalidCredentials]; otherwise the verdict
    on that member's stored hash decides: its id, [ErrInvalidCredentials], or an
    internal error when the hash does not parse. The database is not touched, and
    a deactivated member never logs in. *)
Theorem Login_outcome (a : Authenticator) (email password : string)
    (os : nat -> oracle) (now : Z) (d : DB) :
  calm os -> email_unique d email ->
  let out := alone (Login a email password) os now d None in
  out.2 = d /\
  ((forall id r h, ~ carries d email id r h) -> out.1 = Err ErrInvalidCredentials) /\
  (forall id r h, carries d email id r h ->
     out.1 = match Verify password h with
             | Ok true => Ok id
             | Ok false => Err ErrInvalidCredentials
             | Err _ => Err EInternal
             end).
Proof.
  intros Hos Huniq out. subst out.
  destruct (alone_Login a email password os now d Hos) as [[Hno ->]|(id & r & h & Hc & ->)]; cbn [fst snd].
  - split_and!; [done|done|]. intros id r h Hc. by destruct (Hno id r h).
  - split_and!; [done|intros Hno; by destruct (Hno id r h)|]. intros id' r' h' Hc'.
    assert (id' = id) as -> by (eapply Huniq; [apply Hc'|apply Hc|apply Hc'|apply Hc]).
    destruct Hc as (Hid & _ & _ & Hh), Hc' as (Hid' & _ & _ & Hh'). by simplify_map_eq.
Qed.
End login.

(** ** Witnesses *)

Section no_call.
Context `{UuidLib}.

(** A trace in which no call satisfies [f]. *)
Definition no_call (f : call -> bool) (tr : list event) : bool :=
  forallb (fun e => let 'Ev _ c _ := e in negb (f c)) tr.

Lemma no_call_elem f tr i c r : no_call f tr = true -> Ev i c r ∈ tr -> f c = false.
Proof.
  unfold no_call. rewrite forallb_forall. intros Hf Hin%list_elem_of_In. apply Hf in Hin. by apply negb_true_iff.
Qed.

End no_call.

Module MembersWitness.
Import HexUuid.

#[export] Instance demo_pg : Postgres := {| pg_lower := fun s => s; hashtext := fun _ => 7 |}.

Definition uid (n : nat) : @Uuid hex_uuid := nth n digits (true, true, (true, true)).
Definition owner_row (name : string) : member_row :=
  mkMember (uid 0) name "owner" (Some (name +:+ "@home")) (Some "hash") true 0 0.
Definition two_owners : DB :=
  mkDB {[ uid 0 := mkHousehold "home" 0 0 ]} {[ uid 1 := owner_row "ann"; uid 2 := owner_row "bob" ]} ∅ ∅ ∅.
Definition ok : oracle := mkOracle Fine (uid 3) [].

(** Each owner deactivates the other, at the same time. *)
Definition duel : gmap nat (P unit) :=
  {[ 1%nat := SetMemberActive (uid 0) (uid 1) false; 2%nat := SetMemberActive (uid 0) (uid 2) false ]}.
Definition duel_schedule : list move :=
  [Run 1 ok; Run 2 ok; Run 1 ok; Run 2 ok; Run 1 ok; Run 2 ok; Run 1 ok; Run 1 ok;
   Run 2 ok; Run 2 ok; Run 2 ok; Run 2 ok].

Lemma last_active_owner_witness :
  owned (uid 0) (s_db (run duel_schedule (start two_owners 0 duel)).2).
Proof.
  apply last_active_owner.
  - intros p c. unfold duel. rewrite lookup_insert_Some, lookup_singleton_Some.
    intros [[<- <-]|[_ [<- <-]]]; apply SetMemberActive_disciplined.
  - exists (uid 1), (owner_row "ann"). split_and!; reflexivity.
Defined.

(** In that run the second caller waits for the lock, then is refused. *)
Example duel_result :
  (fun pr => match p_prog pr with Ret r => Some r | _ => None end) <$>
    s_procs (run duel_schedule (start two_owners 0 duel)).2 =
  {[ 1%nat := Some (Ok tt); 2%nat := Some (Err ErrLastActiveOwner) ]}.
Proof. vm_compute. reflexivity. Qed.

Lemma calm_ok : calm (fun _ => ok).
Proof. done. Qed.

Lemma SetMemberActive_outcome_witness :
  SetMemberActive_spec (uid 0) (uid 1) false 5 two_owners
    (alone (SetMemberActive (uid 0) (uid 1) false) (fun _ => ok) 5 two_owners None).
Proof. apply SetMemberActive_outcome, calm_ok. Defined.

Lemma UpdateMemberProfile_outcome_witness :
  UpdateMemberProfile_spec (uid 0) (uid 1) "bob" "adult" 5 two_owners
    (alone (UpdateMemberProfile (uid 0) (uid 1) "bob" "adult") (fun _ => ok) 5 two_owners None).
Proof. apply UpdateMemberProfile_outcome, calm_ok. Defined.

#[export] Instance demo_hasher : PasswordHasher :=
  {| Hash := fun _ _ => Some "hash"; Verify := fun pw h => Ok (bool_decide (pw = "secret") && bool_decide (h = "hash")) |}.

Lemma Login_outcome_witness :
  (alone (Login (mkAuth "dummy") "ann@home" "secret") (fun _ => ok) 5 two_owners None).1 = Ok (uid 1).
Proof.
  refine (proj2 (proj2 (Login_outcome (mkAuth "dummy") "ann@home" "secret" (fun _ => ok) 5 two_owners
    calm_ok _)) (uid 1) (owner_row "ann") "hash" _).
  - intros id1 id2 r1 r2. unfold two_owners. cbn [members].
    rewrite !lookup_insert_Some, !lookup_singleton_Some.
    intros [[<- <-]|[_ [<- <-]]] [[<- <-]|[_ [<- <-]]]; done.
  - split_and!; reflexivity.
Defined.
End MembersWitness.
