(* ===== verification/Mfa.v ===== *)
(** TOTP multi-factor authentication: src/identity/app/mfa.go on top of
    src/identity/adapter/mfa_postgres.go, the recovery codes of
    src/identity/domain/recovery_code_gen.go, and the step matching of
    src/totp/totp.go.

    The service's three interfaces (cipher, TOTP library, password hasher) are
    classes; randomness they draw is an explicit argument. *)

From S2P Require Import Prelude GoStrings Uuids IdentityDB IdentityRun Members.
Local Open Scope Z_scope.

(** ** Recovery codes *)

Definition recoveryCodeAlphabet : string := "0123456789ABCDEFGHJKMNPQRSTVWXYZ".
Definition recoveryCodeBytes : nat := 10.
Definition recoveryCodeGroupSize : nat := 4.
Definition recoveryCodeCount : nat := 10.

(** [encoding/base32] without padding: the bits, five at a time, most significant
    first; a last short group is padded with zero bits. *)
Definition byte_bits (b : Z) : list bool := map (fun i => Z.testbit b i) [7; 6; 5; 4; 3; 2; 1; 0].
Definition bits_value (bs : list bool) : nat := foldl (fun n (b : bool) => 2 * n + (if b then 1 else 0))%nat 0%nat bs.
Definition symbol (bs : list bool) : Ascii.ascii :=
  nth (bits_value bs) (bytes_of recoveryCodeAlphabet) Ascii.zero.

Fixpoint encode_bits (bs : list bool) : bytes :=
  match bs with
  | [] => []
  | b0 :: b1 :: b2 :: b3 :: b4 :: bs => symbol [b0; b1; b2; b3; b4] :: encode_bits bs
  | bs => [symbol (take 5 (bs ++ replicate 5 false))]
  end.

Definition recoveryCodeEncoding (b : list Z) : bytes := encode_bits (b ≫= byte_bits).

(** A dash before every symbol whose index is a positive multiple of the group
    size. *)
Fixpoint dashed (i : nat) (b : bytes) : bytes :=
  match b with
  | [] => []
  | c :: b =>
    if ((0 <? i)%nat && (i mod recoveryCodeGroupSize =? 0)%nat)%bool
    then "-"%char :: c :: dashed (S i) b
    else c :: dashed (S i) b
  end.

Definition recovery_code (b : list Z) : string := string_of (dashed 0 (recoveryCodeEncoding b)).

Definition alias (c : Ascii.ascii) : Ascii.ascii :=
  if Ascii.eqb c "O" then "0"%char
  else if Ascii.eqb c "I" then "1"%char
  else if Ascii.eqb c "L" then "1"%char
  else c.

Definition NormalizeRecoveryCode (s : string) : string :=
  string_of (List.filter (fun c => bool_decide (c ∈ bytes_of recoveryCodeAlphabet))
    (map alias (bytes_of (ToUpper s)))).

(** ** TOTP steps *)

(** [github.com/pquerna/otp]: [totp_validate] takes the time it reads. *)
Class TotpLib := {
  totp_generate : list Z -> string -> string -> option (string * string);
  totp_validate : Z -> string -> string -> bool;
  GenerateCodeCustom : string -> Z -> option string
}.

Definition period : Z := 30.
Definition skew : Z := 1.

(** [time.Now().Unix()], the clock counting microseconds. *)
Definition unix (now : Z) : Z := now / 1000000.

Definition MatchStep `{TotpLib} (now : Z) (code secret : string) : option Z :=
  let current := Z.quot (unix now) period in
  foldl (fun found i =>
    let candidate := current + i in
    match GenerateCodeCustom secret (candidate * period) with
    | None => found
    | Some want =>
      if bool_decide (want = code) && match found with None => true | Some step => step <? candidate end
      then Some candidate else found
    end) None [- skew; 0; skew].

Class SecretCipher := {
  Encrypt : list Z -> string -> result unit string;
  Decrypt : string -> result unit string
}.

(** ** The repository *)

Section repository.
Context `{UuidLib}.
Local Open Scope nest_scope.

Record MFAEnrollment := mkEnrollment {
  en_member : Uuid;
  en_household : Uuid;
  TOTPSecretEnc : string;
  ConfirmedAt : option Z;
  LastTOTPStep : option Z
}.

Definition Confirmed (e : MFAEnrollment) : bool := match ConfirmedAt e with Some _ => true | None => false end.

Record RecoveryCode := mkRecovery { rc_id : Uuid; rc_member : Uuid; CodeHash : string; rc_created : Z }.

Definition GetEnrollment (m : Uuid) : P MFAEnrollment :=
  ask! r := QGetEnrollment m in
  match r with
  | Ok None => fail ErrMFANotEnrolled
  | Ok (Some row) =>
    match uuid_parse (uuid_string (f_household row)) with
    | Some hh => ret (mkEnrollment m hh (f_secret row) (f_confirmed row) (f_last_step row))
    | None => fail EInternal
    end
  | Err _ => fail EInternal
  end.

Definition beginEnrollmentOnce (m hh : Uuid) (secretEnc : string) : P unit :=
  in_tx (
    ask! lookup := QSelectMfaForUpdate m in
    match lookup with
    | Ok None =>
      ask! r := QInsertMfa m hh secretEnc in
      match r with
      | Ok _ => commit
      | Err e =>
        if isConstraintViolation e foreignKeyViolation mfaMemberFK
           || isConstraintViolation e foreignKeyViolation mfaHouseholdFK then fail ErrMemberNotFound
        else if isConstraintViolation e uniqueViolation mfaMemberPK then fail errMFAEnrollmentRaced
        else fail EInternal
      end
    | Err _ => fail EInternal
    | Ok (Some (existing, confirmedAt)) =>
      if negb (bool_decide (uuid_string existing = uuid_string hh)) then fail ErrMemberNotFound
      else match confirmedAt with
      | Some _ => fail ErrMFAAlreadyEnrolled
      | None =>
        ask! r := QUpdateMfaSecret m secretEnc in
        match r with Ok _ => commit | Err _ => fail EInternal end
      end
    end).

Definition BeginEnrollmentRow (m hh : Uuid) (secretEnc : string) : P unit :=
  attempt! r := beginEnrollmentOnce m hh secretEnc in
  if bool_decide (r = Err errMFAEnrollmentRaced) then
    attempt! r := beginEnrollmentOnce m hh secretEnc in
    if bool_decide (r = Err errMFAEnrollmentRaced) then fail EInternal else Ret r
  else Ret r.

Fixpoint insert_codes (m : Uuid) (hashes : list string) : P unit :=
  match hashes with
  | [] => commit
  | hash :: hashes =>
    ask! id := EFresh in
    ask! r := QInsertCode id m hash in
    match r with Ok _ => insert_codes m hashes | Err _ => fail EInternal end
  end.

Definition ConfirmEnrollmentWithCodes (hh m : Uuid) (hashes : list string) : P unit :=
  in_tx (
    ask! lookup := QSelectMfaForUpdate m in
    match lookup with
    | Ok None => fail ErrMFANotEnrolled
    | Err _ => fail EInternal
    | Ok (Some (existing, confirmedAt)) =>
      if negb (bool_decide (uuid_string existing = uuid_string hh)) then fail ErrMFANotEnrolled
      else match confirmedAt with
      | Some _ => fail ErrMFAAlreadyEnrolled
      | None =>
        ask! r := QConfirmMfa m in
        match r with
        | Err _ => fail EInternal
        | Ok _ =>
          ask! r := QDeleteCodes m in
          match r with Err _ => fail EInternal | Ok _ => insert_codes m hashes end
        end
      end
    end).

Definition DeleteEnrollment (hh m : Uuid) : P unit :=
  ask! r := QDeleteMfa m hh in
  match r with
  | Err _ => fail EInternal
  | Ok affected => if affected =? 0 then fail ErrMFANotEnrolled else ret tt
  end.

Fixpoint scanCodes (m : Uuid) (rows : list (Uuid * code_row)) : option (list RecoveryCode) :=
  match rows with
  | [] => Some []
  | (id, r) :: rows =>
    id ← uuid_parse (uuid_string id);
    codes ← scanCodes m rows;
    Some (mkRecovery id m (c_hash r) (c_created r) :: codes)
  end.

Definition ListUnusedRecoveryCodes (m : Uuid) : P (list RecoveryCode) :=
  ask! r := QListUnused m in
  match r with
  | Ok rows => match scanCodes m rows with Some codes => ret codes | None => fail EInternal end
  | Err _ => fail EInternal
  end.

Definition MarkRecoveryCodeUsed (id : Uuid) : P unit :=
  ask! r := QMarkUsed id in
  match r with
  | Err _ => fail EInternal
  | Ok affected => if affected =? 0 then fail ErrRecoveryCodeInvalid else ret tt
  end.

Definition RecordLoginStep (m : Uuid) (step : Z) : P unit :=
  ask! r := QRecordStep m step in
  match r with
  | Err _ => fail EInternal
  | Ok affected => if affected =? 0 then fail ErrInvalidTOTPCode else ret tt
  end.
End repository.

(** ** The service *)

Section service.
Context `{UuidLib, TotpLib, SecretCipher, PasswordHasher}.
Local Open Scope nest_scope.

Definition GenerateRecoveryCode : P string :=
  ask! r := ERand recoveryCodeBytes in
  match r with Ok b => ret (recovery_code b) | Err _ => fail EInternal end.

Definition Status (m : Uuid) : P (option MFAEnrollment) :=
  attempt! r := GetEnrollment m in
  match r with
  | Ok e => ret (Some e)
  | Err e => if bool_decide (e = ErrMFANotEnrolled) then ret None else fail e
  end.

(** The secret and its otpauth URL. *)
Definition BeginEnrollment (m hh : Uuid) (issuer accountName : string) : P (string * string) :=
  ask! entropy := EEntropy in
  match totp_generate entropy issuer accountName with
  | None => fail EInternal
  | Some (secret, otpauthURL) =>
    ask! nonce := EEntropy in
    match Encrypt nonce secret with
    | Err _ => fail EInternal
    | Ok secretEnc =>
      get! _ := BeginEnrollmentRow m hh secretEnc in
      ret (secret, otpauthURL)
    end
  end.

(** [n] fresh codes with their hashes. *)
Fixpoint generate_codes (n : nat) : P (list (string * string)) :=
  match n with
  | O => ret []
  | S n =>
    get! raw := GenerateRecoveryCode in
    ask! salt := EEntropy in
    match Hash salt (NormalizeRecoveryCode raw) with
    | None => fail EInternal
    | Some hash => get! rest := generate_codes n in ret ((raw, hash) :: rest)
    end
  end.
Definition generateRecoveryCodes : P (list (string * string)) := generate_codes recoveryCodeCount.

Definition ConfirmEnrollment (m hh : Uuid) (code : string) : P (list string) :=
  get! enrollment := GetEnrollment m in
  if Confirmed enrollment then fail ErrMFAAlreadyEnrolled
  else match Decrypt (TOTPSecretEnc enrollment) with
  | Err _ => fail EInternal
  | Ok secret =>
    ask! now := ENow in
    if negb (totp_validate now (TrimSpace code) secret) then fail ErrInvalidTOTPCode
    else
      get! generated := generateRecoveryCodes in
      get! _ := ConfirmEnrollmentWithCodes hh m generated.*2 in
      ret generated.*1
  end.

Definition requireConfirmedEnrollment (m : Uuid) : P MFAEnrollment :=
  get! enrollment := GetEnrollment m in
  if negb (Confirmed enrollment) then fail ErrMFANotEnrolled else ret enrollment.

(** The first unused code whose hash verifies; a hash that does not parse is
    skipped. *)
Fixpoint first_match (normalized : string) (codes : list RecoveryCode) : option Uuid :=
  match codes with
  | [] => None
  | c :: codes =>
    match Verify normalized (CodeHash c) with
    | Ok true => Some (rc_id c)
    | _ => first_match normalized codes
    end
  end.

Definition matchRecoveryCode (m : Uuid) (raw : string) : P (option Uuid) :=
  let normalized := NormalizeRecoveryCode raw in
  if bool_decide (normalized = "") then ret None
  else
    get! codes := ListUnusedRecoveryCodes m in
    ret (first_match normalized codes).

Definition consumeRecoveryCode (m : Uuid) (raw : string) : P unit :=
  get! found := matchRecoveryCode m raw in
  match found with
  | None => fail ErrRecoveryCodeInvalid
  | Some id => MarkRecoveryCodeUsed id
  end.

(** Step-up verification: not replay-guarded. *)
Definition verifyTOTPOrRecovery (m : Uuid) (totpCode recoveryCode : string) : P unit :=
  let totpCode := TrimSpace totpCode in
  let recoveryCode := TrimSpace recoveryCode in
  if bool_decide (totpCode = "") && bool_decide (recoveryCode = "") then fail ErrMFAVerificationRequired
  else
    get! enrollment := requireConfirmedEnrollment m in
    if negb (bool_decide (totpCode = "")) then
      match Decrypt (TOTPSecretEnc enrollment) with
      | Err _ => fail EInternal
      | Ok secret =>
        ask! now := ENow in
        if totp_validate now totpCode secret then ret tt
        else if bool_decide (recoveryCode = "") then fail ErrInvalidTOTPCode
        else consumeRecoveryCode m recoveryCode
      end
    else consumeRecoveryCode m recoveryCode.

Definition Disenroll (m hh : Uuid) (totpCode recoveryCode : string) : P unit :=
  get! _ := verifyTOTPOrRecovery m totpCode recoveryCode in
  DeleteEnrollment hh m.

Definition verifyLoginTOTP (m : Uuid) (enrollment : MFAEnrollment) (code : string) : P unit :=
  match Decrypt (TOTPSecretEnc enrollment) with
  | Err _ => fail EInternal
  | Ok secret =>
    ask! now := ENow in
    match MatchStep now code secret with
    | None => fail ErrInvalidTOTPCode
    | Some step =>
      if match LastTOTPStep enrollment with Some last => step <=? last | None => false end
      then fail ErrInvalidTOTPCode
      else RecordLoginStep m step
    end
  end.

Definition VerifyLoginCode (m : Uuid) (totpCode recoveryCode : string) : P unit :=
  let totpCode := TrimSpace totpCode in
  let recoveryCode := TrimSpace recoveryCode in
  if bool_decide (totpCode = "") && bool_decide (recoveryCode = "") then fail ErrMFAVerificationRequired
  else
    get! enrollment := requireConfirmedEnrollment m in
    if negb (bool_decide (totpCode = "")) then
      attempt! r := verifyLoginTOTP m enrollment totpCode in
      match r with
      | Ok _ => ret tt
      | Err e =>
        if negb (bool_decide (e = ErrInvalidTOTPCode)) || bool_decide (recoveryCode = "") then fail e
        else consumeRecoveryCode m recoveryCode
      end
    else consumeRecoveryCode m recoveryCode.
End service.
