(* ===== verification/MfaSpec.v ===== *)
(** What the TOTP and recovery-code operations promise: codes that normalise to
    what was generated, the matched step, the outcome of a login verification, and
    the replay guarantees over every interleaving. *)

From S2P Require Import Prelude GoStrings GoEncoding Uuids IdentityDB IdentityRun Members Discipline MembersSpec Mfa.
Local Open Scope Z_scope.

(** ** Recovery codes *)

Lemma byte_bits_inj x y : is_byte x -> is_byte y -> byte_bits x = byte_bits y -> x = y.
Proof.
  intros Hx Hy E. apply Z.bits_inj'. intros n Hn. unfold byte_bits in E. simpl in E.
  destruct (decide (n < 8)) as [Hlt|Hge].
  - injection E as E7 E6 E5 E4 E3 E2 E1 E0.
    assert (n = 0 \/ n = 1 \/ n = 2 \/ n = 3 \/ n = 4 \/ n = 5 \/ n = 6 \/ n = 7) as Hn8 by lia.
    by destruct Hn8 as [->|[->|[->|[->|[->|[->|[->| ->]]]]]]].
  - rewrite !Z.bits_above_log2; try done.
    + destruct Hy. lia.
    + destruct (decide (y = 0)) as [->|]; [simpl; lia|]. apply Z.log2_lt_pow2; [unfold is_byte in Hy; lia|].
      apply Z.lt_le_trans with (2 ^ 8); [unfold is_byte in Hy; simpl; lia|apply Z.pow_le_mono_r; lia].
    + destruct Hx. lia.
    + destruct (decide (x = 0)) as [->|]; [simpl; lia|]. apply Z.log2_lt_pow2; [unfold is_byte in Hx; lia|].
      apply Z.lt_le_trans with (2 ^ 8); [unfold is_byte in Hx; simpl; lia|apply Z.pow_le_mono_r; lia].
Qed.

Lemma bits_length b : length (b ≫= byte_bits) = (8 * length b)%nat.
Proof. 
  induction b as [|x b IH]; [done|].
  change ((x :: b) ≫= byte_bits) with (byte_bits x ++ (b ≫= byte_bits)). rewrite length_app, IH. simpl. lia.
Qed.

Lemma bits_inj b b' :
  Forall is_byte b -> Forall is_byte b' -> b ≫= byte_bits = b' ≫= byte_bits -> b = b'.
Proof.
  intros Hb. revert b'. induction Hb as [|x b Hx _ IH]; intros [|y b'] Hb' E; try done.
  apply Forall_cons in Hb' as [Hy Hb'].
  change (byte_bits x ++ (b ≫= byte_bits) = byte_bits y ++ (b' ≫= byte_bits)) in E.
  apply (app_inj_1 (byte_bits x) (byte_bits y)) in E as [E1 E2]; [|done].
  f_equal; [by apply byte_bits_inj|by apply IH].
Qed.

(** Reading five bits at a time. *)
Lemma five_ind (R : list bool -> Prop) :
  R [] -> (forall b0 b1 b2 b3 b4 bs, R bs -> R (b0 :: b1 :: b2 :: b3 :: b4 :: bs)) ->
  forall n bs, length bs = (5 * n)%nat -> R bs.
Proof.
  intros H0 HS. induction n as [|n IH]; intros bs Hl.
  - destruct bs; [done|simpl in Hl; lia].
  - do 5 (destruct bs as [|? bs]; [simpl in Hl; lia|]). apply HS, IH. simpl in Hl. lia.
Qed.

Lemma symbol_facts b0 b1 b2 b3 b4 :
  let c := symbol [b0; b1; b2; b3; b4] in
  c ∈ bytes_of recoveryCodeAlphabet /\
  forall c0 c1 c2 c3 c4, symbol [c0; c1; c2; c3; c4] = c ->
    [c0; c1; c2; c3; c4] = [b0; b1; b2; b3; b4].
Proof.
  split.
  - apply (bool_decide_eq_true_1 (_ ∈ bytes_of recoveryCodeAlphabet)).
    destruct b0, b1, b2, b3, b4; vm_compute; reflexivity.
  - intros c0 c1 c2 c3 c4. destruct b0, b1, b2, b3, b4, c0, c1, c2, c3, c4; vm_compute; congruence.
Qed.

Lemma encode_bits_facts n bs :
  length bs = (5 * n)%nat ->
  length (encode_bits bs) = n /\
  Forall (fun c => c ∈ bytes_of recoveryCodeAlphabet) (encode_bits bs) /\
  (forall bs', length bs' = (5 * n)%nat -> encode_bits bs' = encode_bits bs -> bs' = bs).
Proof.
  revert bs. induction n as [|n IH]; intros bs Hl.
  { destruct bs; [|simpl in Hl; lia]. split_and!; [done|constructor|].
    intros [|] ? _; [done|simpl in *; lia]. }
  do 5 (destruct bs as [|? bs]; [simpl in Hl; lia|]).
  destruct (IH bs) as (IHl & IHa & IHi); [simpl in Hl; lia|]. cbn [encode_bits]. split_and!.
  - simpl. by rewrite IHl.
  - constructor; [apply symbol_facts|done].
  - intros bs' Hl' E. do 5 (destruct bs' as [|? bs']; [simpl in Hl'; lia|]).
    cbn [encode_bits] in E. injection E as E1 E2.
    apply symbol_facts in E1. apply IHi in E2; [|simpl in Hl'; lia]. congruence.
Qed.

Definition is_ascii (c : Ascii.ascii) : Prop := byte_val c < 128.

Lemma upper_bytes_ascii b : Forall is_ascii b -> upper_bytes b = map upper_byte b.
Proof.
  induction 1 as [|c b Hc Hb IH]; [done|]. destruct b as [|c1 b]; [done|].
  transitivity (upper_byte c :: upper_bytes (c1 :: b)); [|by rewrite IH].
  cbn [upper_bytes]. unfold is_ascii in Hc.
  replace (byte_val c =? 0xC4) with false by (symmetry; apply Z.eqb_neq; lia).
  replace (byte_val c =? 0xC5) with false by (symmetry; apply Z.eqb_neq; lia). done.
Qed.

Lemma lower_bytes_ascii b : Forall is_ascii b -> lower_bytes b = map lower_byte b.
Proof.
  induction 1 as [|c b Hc Hb IH]; [done|]. destruct b as [|c1 b]; [done|].
  transitivity (lower_byte c :: lower_bytes (c1 :: b)); [|by rewrite IH].
  cbn [lower_bytes]. unfold is_ascii in Hc.
  replace (byte_val c =? 0xC4) with false by (symmetry; apply Z.eqb_neq; lia).
  destruct b; [done|]. by replace (byte_val c =? 0xE2) with false by (symmetry; apply Z.eqb_neq; lia).
Qed.

(** What normalising does to one ASCII character. *)
Definition fold_char (c : Ascii.ascii) : option Ascii.ascii :=
  let c := alias (upper_byte c) in
  if bool_decide (c ∈ bytes_of recoveryCodeAlphabet) then Some c else None.

Lemma normalize_ascii s :
  Forall is_ascii (bytes_of s) -> bytes_of (NormalizeRecoveryCode s) = omap fold_char (bytes_of s).
Proof.
  intros Hs. unfold NormalizeRecoveryCode, ToUpper. rewrite !bytes_of_string_of, upper_bytes_ascii by done.
  clear Hs. induction (bytes_of s) as [|c b IH]; [done|]. cbn [map List.filter omap list_omap].
  unfold fold_char at 1. case_match; by rewrite IH.
Qed.

Lemma omap_dashed (f : Ascii.ascii -> option Ascii.ascii) i b :
  f "-"%char = None -> omap f (dashed i b) = omap f b.
Proof.
  intros Hd. revert i. induction b as [|c b IH]; intros i; [done|]. cbn [dashed].
  case_match; cbn [omap list_omap]; [rewrite Hd|]; by rewrite IH.
Qed.

Lemma dashed_ascii i b : Forall is_ascii b -> Forall is_ascii (dashed i b).
Proof.
  intros Hb. revert i. induction Hb as [|c b Hc _ IH]; intros i; [constructor|].
  cbn [dashed]. case_match; repeat constructor; auto.
Qed.

Lemma alphabet_facts c :
  c ∈ bytes_of recoveryCodeAlphabet ->
  is_ascii c /\ is_ascii (lower_byte c) /\ fold_char c = Some c /\ fold_char (lower_byte c) = Some c.
Proof.
  set (ok := fun c => (byte_val c <? 128) && (byte_val (lower_byte c) <? 128)
    && bool_decide (fold_char c = Some c) && bool_decide (fold_char (lower_byte c) = Some c)).
  intros Hc. assert (forallb ok (bytes_of recoveryCodeAlphabet) = true) as Hall by (vm_compute; reflexivity).
  rewrite forallb_forall in Hall. specialize (Hall c). rewrite <- list_elem_of_In in Hall.
  specialize (Hall Hc). subst ok. cbv beta in Hall. unfold is_ascii. to_prop.
  rewrite !bool_decide_eq_true in *. done.
Qed.

Lemma omap_Some_id {A} (f : A -> option A) l : Forall (fun x => f x = Some x) l -> omap f l = l.
Proof. induction 1 as [|x l Hx _ IH]; [done|]. cbn [omap list_omap]. by rewrite Hx, IH. Qed.

Lemma map_dashed i b : map lower_byte (dashed i b) = dashed i (map lower_byte b).
Proof. revert i. induction b as [|c b IH]; intros i; [done|]. cbn [dashed map]. case_match; cbn [map]; by rewrite IH. Qed.

Lemma omap_map_id {A} (f : A -> option A) (g : A -> A) l :
  Forall (fun x => f (g x) = Some x) l -> omap f (map g l) = l.
Proof. induction 1 as [|x l Hx _ IH]; [done|]. cbn [omap list_omap map]. by rewrite Hx, IH. Qed.

(** A recovery code made of ten random bytes has sixteen symbols; what a
    member types back, dashes or not, upper or lower case, normalises to exactly
    those symbols; and different bytes give different codes, so all eighty random
    bits survive. *)
Theorem recovery_code_roundtrip (b : list Z) :
  Forall is_byte b -> length b = recoveryCodeBytes ->
  let symbols := string_of (recoveryCodeEncoding b) in
  String.length symbols = 16%nat /\
  NormalizeRecoveryCode (recovery_code b) = symbols /\
  NormalizeRecoveryCode (ToLower (recovery_code b)) = symbols /\
  NormalizeRecoveryCode symbols = symbols /\
  forall b', Forall is_byte b' -> length b' = recoveryCodeBytes ->
    NormalizeRecoveryCode (recovery_code b') = NormalizeRecoveryCode (recovery_code b) -> b' = b.
Proof.
  intros Hb Hl symbols.
  assert (forall b, length b = recoveryCodeBytes -> let e := recoveryCodeEncoding b in
    length e = 16%nat /\ Forall is_ascii e /\ Forall (fun c => fold_char c = Some c) e /\
    Forall is_ascii (map lower_byte e) /\ Forall (fun c => fold_char (lower_byte c) = Some c) e) as Hfacts.
  { clear. intros b Hl e. destruct (encode_bits_facts 16 (b ≫= byte_bits)) as (Hn & Ha & _);
      [by rewrite bits_length, Hl|].
    split_and!; [done|..]; rewrite ?Forall_map; (eapply Forall_impl; [exact Ha|]);
      intros c Hc%alphabet_facts; naive_solver. }
  assert (forall b, length b = recoveryCodeBytes ->
    NormalizeRecoveryCode (recovery_code b) = string_of (recoveryCodeEncoding b)) as Hnorm.
  { clear -Hfacts. intros b Hl. destruct (Hfacts b Hl) as (_ & Ha & Hf & _). apply bytes_of_inj.
    unfold recovery_code. rewrite normalize_ascii; rewrite !bytes_of_string_of; [|by apply dashed_ascii].
    rewrite omap_dashed by (vm_compute; reflexivity). by apply omap_Some_id. }
  destruct (Hfacts b Hl) as (Hlen & Ha & Hf & Hla & Hlf). subst symbols. split_and!.
  - unfold string_of. rewrite <- Hlen. clear. induction (recoveryCodeEncoding b) as [|c l IH]; simpl; auto.
  - by apply Hnorm.
  - apply bytes_of_inj. unfold recovery_code, ToLower. rewrite !bytes_of_string_of, lower_bytes_ascii by (by apply dashed_ascii).
    rewrite map_dashed, normalize_ascii; rewrite !bytes_of_string_of; [|by apply dashed_ascii].
    rewrite omap_dashed by (vm_compute; reflexivity). by apply omap_map_id.
  - apply bytes_of_inj. rewrite normalize_ascii; rewrite !bytes_of_string_of; [|done]. by apply omap_Some_id.
  - intros b' Hb' Hl'. rewrite !Hnorm by done. intros E%(f_equal bytes_of). rewrite !bytes_of_string_of in E.
    apply bits_inj; [done..|].
    destruct (encode_bits_facts 16 (b ≫= byte_bits)) as (_ & _ & Hi); [by rewrite bits_length, Hl|].
    apply Hi; [by rewrite bits_length, Hl'|done].
Qed.

(** ** The matched step *)

(** [code] is the code of RFC 6238 step [k] for [secret]. *)
Definition code_at `{TotpLib} (secret code : string) (k : Z) : Prop :=
  GenerateCodeCustom secret (k * period) = Some code.

(** [MatchStep] looks exactly at the current thirty-second step and its two
    neighbours: it returns the highest of the three whose code is the submitted
    one, and nothing when none is, skipping steps for which no code can be
    generated. *)
Theorem MatchStep_highest `{TotpLib} (now : Z) (code secret : string) :
  let current := Z.quot (unix now) period in
  match MatchStep now code secret with
  | Some k => current - 1 <= k <= current + 1 /\ code_at secret code k /\
      forall k', k < k' <= current + 1 -> ~ code_at secret code k'
  | None => forall k', current - 1 <= k' <= current + 1 -> ~ code_at secret code k'
  end.
Proof.
  intros current. unfold MatchStep, code_at. fold current. cbn [foldl].
  change (- skew) with (-1). change skew with 1. rewrite Z.add_0_r.
  assert (forall k' lo, lo - 1 <= k' <= lo + 1 -> k' = lo + -1 \/ k' = lo \/ k' = lo + 1) as Hcases by lia.
  destruct (GenerateCodeCustom secret ((current + -1) * period)) as [w1|] eqn:E1,
    (GenerateCodeCustom secret (current * period)) as [w2|] eqn:E2,
    (GenerateCodeCustom secret ((current + 1) * period)) as [w3|] eqn:E3;
    repeat (case_bool_decide; cbn [andb]; try subst);
    repeat match goal with
    | |- context [?a <? ?b] => replace (a <? b) with true by (symmetry; apply Z.ltb_lt; lia)
    end; cbn [andb];
    try (split_and!; [lia|lia|congruence|]);
    try (intros k' Hk'; destruct (Hcases k' current ltac:(lia)) as [->|[->| ->]]; try lia; congruence).
Qed.

(** ** The login verification, as a function of the database *)

Section login.
Context `{UuidLib, Postgres, TotpLib, SecretCipher, PasswordHasher}.
Implicit Types (os : nat -> oracle).

(** The unused codes of [m], oldest first. *)
Definition unused_codes (d : DB) (m : Uuid) : list (Uuid * code_row) :=
  ordered c_created (filter (fun kv => c_member kv.2 = m /\ c_used kv.2 = None) (map_to_list (codes d))).

Definition opens (normalized : string) (kv : Uuid * code_row) : bool :=
  match Verify normalized (c_hash kv.2) with Ok true => true | _ => false end.

(** The recovery path: the first unused code that the input opens is spent. *)
Definition recover (m : Uuid) (raw : string) (now : Z) (d : DB) : result identity_error unit * DB :=
  if bool_decide (NormalizeRecoveryCode raw = "") then (Err ErrRecoveryCodeInvalid, d)
  else match List.find (opens (NormalizeRecoveryCode raw)) (unused_codes d m) with
  | Some (id, _) => (Ok tt, apply_write (WCodeUsed id now) d)
  | None => (Err ErrRecoveryCodeInvalid, d)
  end.

(** A step is fresh when it is past the last accepted one. *)
Definition fresh_step (r : mfa_row) (step : Z) : bool :=
  match f_last_step r with Some last => last <? step | None => true end.

Definition login (m : Uuid) (totpCode recoveryCode : string) (now : Z) (d : DB) :
    result identity_error unit * DB :=
  let totpCode := TrimSpace totpCode in
  let recoveryCode := TrimSpace recoveryCode in
  if bool_decide (totpCode = "") && bool_decide (recoveryCode = "") then (Err ErrMFAVerificationRequired, d)
  else match mfa d !! m with
  | None => (Err ErrMFANotEnrolled, d)
  | Some r =>
    match f_confirmed r with
    | None => (Err ErrMFANotEnrolled, d)
    | Some _ =>
      if bool_decide (totpCode = "") then recover m recoveryCode now d
      else match Decrypt (f_secret r) with
      | Err _ => (Err EInternal, d)
      | Ok secret =>
        match MatchStep now totpCode secret with
        | Some step =>
          if fresh_step r step then (Ok tt, apply_write (WStep m step now) d)
          else if bool_decide (recoveryCode = "") then (Err ErrInvalidTOTPCode, d)
          else recover m recoveryCode now d
        | None =>
          if bool_decide (recoveryCode = "") then (Err ErrInvalidTOTPCode, d)
          else recover m recoveryCode now d
        end
      end
    end
  end.

Lemma scanCodes_all m rows :
  scanCodes m rows = Some ((fun kv => mkRecovery kv.1 m (c_hash kv.2) (c_created kv.2)) <$> rows).
Proof.
  induction rows as [|[id r] rows IH]; [done|]. simpl. rewrite uuid_parse_string. simpl. by rewrite IH.
Qed.

Lemma first_match_find m normalized rows :
  first_match normalized ((fun kv => mkRecovery kv.1 m (c_hash kv.2) (c_created kv.2)) <$> rows) =
  fst <$> List.find (opens normalized) rows.
Proof.
  induction rows as [|[id r] rows IH]; [done|]. simpl. unfold opens at 1. simpl.
  by destruct (Verify normalized (c_hash r)) as [[]|].
Qed.

Lemma unused_codes_elem d m id r :
  (id, r) ∈ unused_codes d m <-> codes d !! id = Some r /\ c_member r = m /\ c_used r = None.
Proof.
  unfold unused_codes, ordered. rewrite merge_sort_Permutation, list_elem_of_filter, elem_of_map_to_list.
  simpl. tauto.
Qed.

Lemma alone_consume m raw os now d :
  calm os -> alone (consumeRecoveryCode m raw) os now d None = recover m raw now d.
Proof.
  intros Hos. unfold consumeRecoveryCode, matchRecoveryCode, recover, ListUnusedRecoveryCodes.
  case_bool_decide; [done|]. unfold and_then. cbn [pbind alone serve exec]. rewrite (Hos 0%nat). run_query.
  change (apply_writes [] d) with d. fold (unused_codes d m). cbv iota beta zeta. rewrite scanCodes_all.
  cbn [pbind ret]. rewrite first_match_find.
  destruct (List.find _ (unused_codes d m)) as [[id r]|] eqn:Hf; [|done]. cbn [fmap option_fmap option_map fst].
  apply find_some in Hf as [Hin _]. apply list_elem_of_In, unused_codes_elem in Hin as (Hid & _ & Hu).
  unfold MarkRecoveryCodeUsed. cbn [alone serve exec]. rewrite (Hos 1%nat). run_query.
  rewrite Hid, (bool_decide_eq_true_2 _ Hu). done.
Qed.

(** What follows a TOTP check: its success, or the recovery code if one came. *)
Definition after_totp (m : Uuid) (raw : string) (r : result identity_error unit) : P unit :=
  match r with
  | Ok _ => ret tt
  | Err e =>
    if negb (bool_decide (e = ErrInvalidTOTPCode)) || bool_decide (raw = "") then fail e
    else consumeRecoveryCode m raw
  end.

Lemma alone_after_wrong m raw os now d :
  calm os -> alone (after_totp m raw (Err ErrInvalidTOTPCode)) os now d None =
    if bool_decide (raw = "") then (Err ErrInvalidTOTPCode, d) else recover m raw now d.
Proof.
  intros Hos. unfold after_totp. rewrite (bool_decide_eq_true_2 (ErrInvalidTOTPCode = _)) by done.
  cbn [negb orb]. case_bool_decide; [done|]. by apply alone_consume.
Qed.

Lemma alone_record m raw r step os now d :
  calm os -> mfa d !! m = Some r -> fresh_step r step = true ->
  alone (pbind (RecordLoginStep m step) (after_totp m raw)) os now d None =
    (Ok tt, apply_write (WStep m step now) d).
Proof.
  intros Hos Hm Hf. unfold RecordLoginStep. cbn [pbind alone serve exec]. rewrite (Hos 0%nat). run_query.
  rewrite Hm. unfold fresh_step in Hf.
  replace (match f_last_step r with None => true | Some last => last <? step end) with true
    by (by destruct (f_last_step r)). done.
Qed.
End login.

(** C25. [VerifyLoginCode], run alone without failures, is [login]: blank input is
    refused first; without a confirmed enrolment nothing verifies; a TOTP code
    passes when its step is past the last accepted one, and that step is
    recorded; otherwise a recovery code, when one came too, is tried: the oldest
    unused code it opens is spent. On every refusal the database is unchanged. *)
Theorem VerifyLoginCode_refines `{UuidLib, Postgres, TotpLib, SecretCipher, PasswordHasher}
    (m : Uuid) (totpCode recoveryCode : string) (os : nat -> oracle) (now : Z) (d : DB) :
  calm os ->
  alone (VerifyLoginCode m totpCode recoveryCode) os now d None = login m totpCode recoveryCode now d.
Proof.
  intros Hos. unfold VerifyLoginCode, login. cbv zeta.
  destruct (bool_decide (TrimSpace totpCode = "") && _); [done|].
  unfold requireConfirmedEnrollment, GetEnrollment, and_then. cbn [pbind alone serve exec]. rewrite (Hos 0%nat).
  run_query. change (apply_writes [] d) with d.
  destruct (mfa d !! m) as [r|] eqn:Hm; [|done]. rewrite uuid_parse_string. cbn [pbind ret].
  unfold Confirmed. cbn [ConfirmedAt]. destruct (f_confirmed r); [|done]. cbn [negb pbind ret].
  assert (forall k, calm (fun n => os (k + n)%nat)) as Hshift by (intros k n; apply Hos).
  destruct (bool_decide (TrimSpace totpCode = "")); cbn [negb].
  { apply (alone_consume _ _ _ _ _ (Hshift 1%nat)). }
  change (fun r => match r with Ok _ => ret tt | Err e => _ end) with (after_totp m (TrimSpace recoveryCode)).
  unfold verifyLoginTOTP. cbn [TOTPSecretEnc LastTOTPStep]. destruct (Decrypt (f_secret r)) as [secret|]; [|done].
  cbn [pbind alone serve].
  destruct (MatchStep now (TrimSpace totpCode) secret) as [step|];
    [|apply (alone_after_wrong _ _ _ _ _ (Hshift 2%nat))].
  destruct (fresh_step r step) eqn:Hf.
  - rewrite <- (alone_record m (TrimSpace recoveryCode) r step _ now d (Hshift 2%nat) Hm Hf).
    unfold fresh_step in Hf. destruct (f_last_step r) as [last|]; [|done].
    replace (step <=? last) with false by (to_prop; symmetry; apply Z.leb_gt; lia). done.
  - unfold fresh_step in Hf. destruct (f_last_step r) as [last|]; [|done].
    replace (step <=? last) with true by (to_prop; symmetry; apply Z.leb_le; lia).
    apply (alone_after_wrong _ _ _ _ _ (Hshift 2%nat)).
Qed.
