(* ===== verification/MfaRuns.v ===== *)
(** The replay guarantees of MFA over every interleaving: no TOTP step is accepted
    for two logins, and no recovery code is redeemed twice. *)

From Stdlib Require Import Eqdep_dec.
From S2P Require Import Prelude GoStrings GoEncoding Uuids IdentityDB IdentityRun Members Discipline MembersSpec Mfa MfaSpec.
Local Open Scope Z_scope.

(** ** The operations keep the discipline *)

Section disciplines.
Context `{UuidLib, Postgres, TotpLib, SecretCipher, PasswordHasher}.

Lemma disciplined_and_then {A B} (p : P A) (f : A -> P B) :
  disciplined p -> (forall a, disciplined (f a)) -> disciplined (and_then p f).
Proof. intros Hp Hf. apply disciplined_bind; [done|]. intros [a|e]; [apply Hf|done]. Qed.

Lemma GetEnrollment_disciplined m : disciplined (GetEnrollment m).
Proof. unfold GetEnrollment. walk. Qed.

Lemma beginEnrollmentOnce_disciplined m hh secret : disciplined (beginEnrollmentOnce m hh secret).
Proof. apply disciplined_tx. unfold commit. walk. Qed.

Lemma BeginEnrollmentRow_disciplined m hh secret : disciplined (BeginEnrollmentRow m hh secret).
Proof.
  unfold BeginEnrollmentRow. apply disciplined_bind; [apply beginEnrollmentOnce_disciplined|].
  intros r. case_match; [|done]. apply disciplined_bind; [apply beginEnrollmentOnce_disciplined|]. intros r'.
  by case_match.
Qed.

Lemma insert_codes_inside m hashes : keeps_to (fun _ _ => True) Inside (insert_codes m hashes).
Proof. induction hashes as [|h hashes IH]; unfold insert_codes; fold insert_codes; unfold commit; walk. done. Qed.

Lemma ConfirmEnrollmentWithCodes_disciplined hh m hashes : disciplined (ConfirmEnrollmentWithCodes hh m hashes).
Proof. apply disciplined_tx. walk. apply insert_codes_inside. Qed.

Lemma DeleteEnrollment_disciplined hh m : disciplined (DeleteEnrollment hh m).
Proof. unfold DeleteEnrollment. walk. Qed.

Lemma consumeRecoveryCode_disciplined m raw : disciplined (consumeRecoveryCode m raw).
Proof.
  unfold consumeRecoveryCode, matchRecoveryCode, ListUnusedRecoveryCodes, MarkRecoveryCodeUsed. walk.
Qed.

Lemma requireConfirmedEnrollment_disciplined m : disciplined (requireConfirmedEnrollment m).
Proof. apply disciplined_and_then; [apply GetEnrollment_disciplined|]. intros e. by case_match. Qed.

Lemma BeginEnrollment_disciplined m hh issuer account : disciplined (BeginEnrollment m hh issuer account).
Proof.
  unfold BeginEnrollment. split; [done|]. intros entropy. destruct (totp_generate _ _ _) as [[secret url]|]; [|done].
  split; [done|]. intros nonce. destruct (Encrypt _ _); [|done].
  apply disciplined_and_then; [apply BeginEnrollmentRow_disciplined|done].
Qed.

Lemma generate_codes_disciplined n : disciplined (generate_codes n).
Proof.
  induction n as [|n IH]; [done|]. cbn [generate_codes]. apply disciplined_and_then; [unfold GenerateRecoveryCode; walk|].
  intros raw. split; [done|]. intros salt. destruct (Hash _ _); [|done].
  by apply disciplined_and_then.
Qed.

Lemma ConfirmEnrollment_disciplined m hh code : disciplined (ConfirmEnrollment m hh code).
Proof.
  apply disciplined_and_then; [apply GetEnrollment_disciplined|]. intros e. case_match; [done|].
  destruct (Decrypt _); [|done]. split; [done|]. intros now. case_match; [done|].
  apply disciplined_and_then; [apply generate_codes_disciplined|]. intros codes.
  apply disciplined_and_then; [apply ConfirmEnrollmentWithCodes_disciplined|done].
Qed.

Lemma Disenroll_disciplined m hh tc rc : disciplined (Disenroll m hh tc rc).
Proof.
  apply disciplined_and_then; [|intros; apply DeleteEnrollment_disciplined].
  unfold verifyTOTPOrRecovery. case_match; [done|].
  apply disciplined_and_then; [apply requireConfirmedEnrollment_disciplined|]. intros e.
  case_match; [|apply consumeRecoveryCode_disciplined]. destruct (Decrypt _); [|done].
  split; [done|]. intros now. case_match; [done|]. case_match; [done|apply consumeRecoveryCode_disciplined].
Qed.

Lemma VerifyLoginCode_disciplined m tc rc : disciplined (VerifyLoginCode m tc rc).
Proof.
  unfold VerifyLoginCode. case_match; [done|].
  apply disciplined_and_then; [apply requireConfirmedEnrollment_disciplined|]. intros e.
  case_match; [|apply consumeRecoveryCode_disciplined].
  apply disciplined_bind; [unfold verifyLoginTOTP, RecordLoginStep; walk|]. intros [v|er]; [done|].
  case_match; [done|apply consumeRecoveryCode_disciplined].
Qed.
End disciplines.

#[export] Hint Resolve GetEnrollment_disciplined BeginEnrollment_disciplined ConfirmEnrollment_disciplined
  Disenroll_disciplined VerifyLoginCode_disciplined : nest.

(** ** Accepted login steps *)

Section steps.
Context `{UuidLib, Postgres}.
Variable m : Uuid.

(** The step an event accepted for [m]: a [RecordLoginStep] that matched a row. *)
Definition accepted_step (e : event) : option Z :=
  let 'Ev p c r := e in
  match c return answer c -> option Z with
  | QRecordStep m' k => fun r =>
    match r with
    | Ok v => if decide (m' = m /\ v <> 0) then Some k else None
    | Err _ => None
    end
  | _ => fun _ => None
  end r.

Definition accepted (tr : list event) : list Z := omap accepted_step tr.

Definition last_step (d : DB) : option Z := r ← mfa d !! m; f_last_step r.

Definition step_safe (w : write) : Prop :=
  match w with
  | WMfaDelete m' | WStep m' _ _ => m' <> m
  | _ => True
  end.

Lemma safe_last_step w d l : step_safe w -> last_step d = Some l -> last_step (apply_write w d) = Some l.
Proof.
  unfold last_step. intros Hw Hl. destruct (mfa d !! m) as [r|] eqn:Hm; [|done]. simpl in Hl.
  destruct w; simpl in *; try (by rewrite Hm);
    try (match goal with |- context [alter _ ?m' _] => destruct (decide (m' = m)) as [->|] end;
      [try done; by rewrite lookup_alter_eq, Hm|by rewrite lookup_alter_ne, Hm]).
  - unfold insert_new. destruct (decide (m0 = m)) as [->|Hne]; [by rewrite Hm; simpl; rewrite Hm|].
    case_match; [by rewrite Hm|]. by rewrite lookup_insert_ne, Hm.
  - by rewrite lookup_delete_ne, Hm.
Qed.

Definition deletes_m (c : call) : Prop := exists hh, c = QDeleteMfa m hh.

Lemma query_step_safe c now d v ws :
  query c now d = Ok (v, ws) -> ~ deletes_m c -> (forall k, c <> QRecordStep m k) -> Forall step_safe ws.
Proof.
  intros Hq Hd Hr. unfold deletes_m in Hd.
  destruct c; simpl in Hq; repeat case_match; simplify_eq;
    try (apply insert_row_writes in Hq; subst; by repeat constructor);
    try (apply one_row_writes in Hq as [->| ->]; repeat constructor; simpl; congruence || naive_solver);
    by repeat constructor.
Qed.

Definition steps_ordered (tr : list event) (d : DB) : Prop :=
  StronglySorted Z.lt (accepted tr) /\
  forall k, k ∈ accepted tr -> exists l, last_step d = Some l /\ k <= l.

Lemma accepted_snoc tr e :
  accepted (tr ++ [e]) = accepted tr ++ match accepted_step e with Some k => [k] | None => [] end.
Proof. unfold accepted. rewrite omap_app. simpl. by destruct (accepted_step e). Qed.

Lemma accepted_call p c r k : accepted_step (Ev p c r) = Some k -> c = QRecordStep m k.
Proof. destruct c; simpl; try done. destruct r; [|done]. case_decide as Hd; [|done]. intros ?; simplify_eq. by destruct Hd as [-> _]. Qed.

Lemma ordered_writes tr d ws : steps_ordered tr d -> Forall step_safe ws -> steps_ordered tr (apply_writes ws d).
Proof.
  intros [Hs Hl] Hws. split; [done|]. intros k Hk. destruct (Hl k Hk) as (l & Hd & Hle). exists l. split; [|done].
  clear -Hws Hd. revert d Hd. induction Hws as [|w ws Hw _ IH]; intros d Hd; simpl; [done|].
  by apply IH, safe_last_step.
Qed.

Lemma StronglySorted_snoc (l : list Z) k :
  StronglySorted Z.lt l -> (forall x, x ∈ l -> x < k) -> StronglySorted Z.lt (l ++ [k]).
Proof.
  induction 1 as [|x l Hs IH Hf]; intros Hk; simpl; [repeat constructor|]. constructor.
  - apply IH. intros y Hy. apply Hk. by right.
  - apply Forall_app. split; [done|]. repeat constructor. apply Hk. by left.
Qed.

(** One [RecordLoginStep] outside transactions. *)
Lemma record_ordered tr d p k o now r t' d' :
  steps_ordered tr d -> serve (QRecordStep m k) o now d None = (r, t', d') ->
  steps_ordered (tr ++ [Ev p (QRecordStep m k) r]) d'.
Proof.
  intros [Hs Hl] E. unfold steps_ordered. rewrite accepted_snoc. cbn [serve exec] in E. run_query in E.
  assert (forall b, (match mfa d !! m with
      | Some r => match f_last_step r with None => true | Some last => last <? k end
      | None => false end) = b ->
    if b then (forall x, x ∈ accepted tr -> x < k) /\ last_step (apply_write (WStep m k now) d) = Some k else True) as Hb.
  { intros [] Hb; [|done]. unfold last_step in *. destruct (mfa d !! m) as [row|] eqn:Hm; [|done]. split.
    - intros x Hx. destruct (Hl x Hx) as (l & Hll & Hle). simpl in Hll. rewrite Hll in Hb. to_prop. lia.
    - simpl. by rewrite lookup_alter_eq, Hm. }
  unfold one_row in E. destruct (match mfa d !! m with Some _ => _ | None => _ end) eqn:Hhit;
    specialize (Hb _ eq_refl); simpl in Hb; destruct (o_fault o); simplify_eq; simpl;
    rewrite ?app_nil_r; try (by split).
  - rewrite decide_True by done. destruct Hb as [Hlt Hlast]. simpl in Hlast. split; [by apply StronglySorted_snoc|].
    intros x Hx. exists k. split; [done|]. apply elem_of_app in Hx as [Hx|Hx]; [apply Hlt in Hx; lia|].
    apply list_elem_of_singleton in Hx. lia.
  - destruct Hb as [Hlt Hlast]. split; [done|]. intros x Hx. exists k. split; [done|]. apply Hlt in Hx. lia.
  - rewrite decide_False by naive_solver. rewrite app_nil_r. by split.
Qed.

Lemma steps_preserved : preserved deletes_m (fun _ => step_safe) steps_ordered.
Proof.
  assert (forall tr d p c r, (forall k, c <> QRecordStep m k) -> steps_ordered tr d ->
    steps_ordered (tr ++ [Ev p c r]) d) as Hquiet.
  { intros tr d p c r Hc Hg. unfold steps_ordered. rewrite accepted_snoc.
    destruct (accepted_step (Ev p c r)) as [k|] eqn:Ha; [|by rewrite app_nil_r].
    apply accepted_call in Ha. by destruct (Hc k). }
  split.
  - intros tr d w Hg Hw. apply (ordered_writes tr d [w] Hg). by repeat constructor.
  - done.
  - intros tr d p c r Hc Hg. apply Hquiet; [|done]. intros k ->. done.
  - intros tr d p c r ph Hph Hal _ Hg. apply Hquiet; [|done]. intros k ->. done.
  - intros ph c now d us v ws Hph Hal Hbad _ Hq. eapply query_step_safe; [done..|]. intros k ->. done.
  - intros tr d p c o now r t' d' Hc Hbad Hg E.
    assert ((exists k, c = QRecordStep m k) \/ forall k, c <> QRecordStep m k) as [[k ->]|Hno].
    { destruct c as [| | | | | | | | | | | | | | | | | | | | | | | |m' k| | | | | | | | | | |]; try (by right).
      destruct (decide (m' = m)) as [->|]; [left; eauto|right; congruence]. }
    { by eapply record_ordered. }
    pose proof (serve_served _ _ _ _ _ _ _ _ E) as Hs.
    inversion Hs as [|u Hu|now' Hcb Hu|Hend|u Hcc Hu|now' v ws Hu Hq|u v ws Hu Ha Hq]; subst; try done; auto.
    apply ordered_writes; [by apply Hquiet|]. by eapply query_step_safe.
Qed.
End steps.

Lemma omap_NoDup_inj {A B} (f : A -> option B) l x y b :
  NoDup (omap f l) -> x ∈ l -> y ∈ l -> f x = Some b -> f y = Some b -> x = y.
Proof.
  intros Hnd Hx Hy Hfx Hfy. induction l as [|z l IH]; [by apply not_elem_of_nil in Hx|].
  cbn [omap list_omap] in Hnd.
  assert (forall w, w ∈ l -> f w = Some b -> b ∈ omap f l) as Hin by (intros w ? ?; apply list_elem_of_omap; eauto).
  apply elem_of_cons in Hx as [->|Hx]; apply elem_of_cons in Hy as [->|Hy]; try done.
  - rewrite Hfx in Hnd. apply NoDup_cons in Hnd as [Hno _]. by destruct Hno; eapply Hin.
  - rewrite Hfy in Hnd. apply NoDup_cons in Hnd as [Hno _]. by destruct Hno; eapply Hin.
  - apply IH; try done. destruct (f z); [by apply NoDup_cons in Hnd as [_ ?]|done].
Qed.

Section login_replies.
Context `{UuidLib, Postgres, TotpLib, SecretCipher, PasswordHasher}.

Lemma and_then_ok {A B} (p : P A) (f : A -> P B) rs b :
  follows (and_then p f) rs (Ok b) ->
  exists a rs1 rs2, rs = rs1 ++ rs2 /\ follows p rs1 (Ok a) /\ follows (f a) rs2 (Ok b).
Proof.
  intros ([a|e] & rs1 & rs2 & -> & H1' & H2')%follows_bind; [eauto 10|by destruct H2'].
Qed.

(** A successful login on a TOTP code alone recorded a step its code matches. *)
Lemma login_totp_replies m code rs :
  follows (VerifyLoginCode m code "") rs (Ok tt) ->
  exists k v secret at_time, existT (QRecordStep m k) (Ok v) ∈ rs /\ v <> 0 /\
    MatchStep at_time (TrimSpace code) secret = Some k.
Proof.
  unfold VerifyLoginCode. cbv zeta. change (TrimSpace "") with ""%string.
  rewrite (bool_decide_eq_true_2 (""%string = ""%string)) by done. rewrite andb_true_r.
  case_bool_decide as Hc; [by intros [_ ?]|].
  intros (e & rs1 & rs2 & -> & _ & Hf)%and_then_ok.
  cbn [negb] in Hf. apply follows_bind in Hf as (r & rs3 & rs4 & -> & Hf & Hr).
  destruct r as [[]|er]; [|rewrite orb_true_r in Hr; by destruct Hr].
  unfold verifyLoginTOTP in Hf. destruct (Decrypt _) as [secret|]; [|by destruct Hf].
  destruct Hf as (at_time & rs5 & -> & Hf).
  destruct (MatchStep at_time (TrimSpace code) secret) as [k|] eqn:Hk; [|by destruct Hf].
  destruct (match LastTOTPStep e with Some _ => _ | None => _ end); [by destruct Hf|].
  destruct Hf as (r & rs6 & -> & Hf). destruct r as [v|]; [|by destruct Hf].
  destruct (Z.eqb_spec v 0) as [|Hv]; [by destruct Hf|].
  exists k, v, secret, at_time. split_and!; [set_solver|done..].
Qed.
End login_replies.

(** C2. No TOTP code logs in twice. In any run of disciplined programs in which
    [m]'s enrolment is not deleted, however calls interleave, fail or lose their
    replies, the steps [RecordLoginStep] accepts for [m] are strictly increasing in
    the order they are accepted; so two logins that both succeed on a TOTP code
    have each had a step accepted, each the step [MatchStep] found for its code,
    and not the same one. *)
Theorem totp_no_replay `{UuidLib, Postgres, TotpLib, SecretCipher, PasswordHasher}
    (ps : gmap nat (P unit)) (d : DB) (now : Z) (ms : list move) (m : Uuid) (p q : nat) (cp cq : string) :
  (forall i c, ps !! i = Some c -> disciplined c) ->
  p <> q ->
  ps !! p = Some (VerifyLoginCode m cp "") -> ps !! q = Some (VerifyLoginCode m cq "") ->
  let '(tr, s) := run ms (start d now ps) in
  (forall i hh r, ~ Ev i (QDeleteMfa m hh) r ∈ tr) ->
  StronglySorted Z.lt (accepted m tr) /\
  ((exists t, s_procs s !! p = Some (mkProc t (Ret (Ok tt)))) ->
   (exists t, s_procs s !! q = Some (mkProc t (Ret (Ok tt)))) ->
   exists kp kq, kp <> kq /\ kp ∈ accepted m tr /\ kq ∈ accepted m tr /\
     (exists secret at_time, MatchStep at_time (TrimSpace cp) secret = Some kp) /\
     (exists secret at_time, MatchStep at_time (TrimSpace cq) secret = Some kq)).
Proof.
  intros Hps Hne Hp Hq. destruct (run ms (start d now ps)) as [tr s] eqn:Hrun. intros Hdel.
  assert (steps_ordered m tr (s_db s)) as [Hsorted _].
  { pose proof (disciplined_run _ _ _ d now ps ms (steps_preserved m) Hps) as Hinv. rewrite Hrun in Hinv.
    apply Hinv; [split; [constructor|set_solver]|]. intros i c r Hin [hh ->]. by apply (Hdel i hh r). }
  split; [done|]. intros [tp Htp] [tq Htq].
  assert (forall i code t, ps !! i = Some (VerifyLoginCode m code "") ->
    s_procs s !! i = Some (mkProc t (Ret (Ok tt))) ->
    exists k v, Ev i (QRecordStep m k) (Ok v) ∈ tr /\ v <> 0 /\
      exists secret at_time, MatchStep at_time (TrimSpace code) secret = Some k) as Hlogin.
  { intros i code t Hi Hend.
    pose proof (run_follows ms (start d now ps) i None (VerifyLoginCode m code "") t (Ok tt)) as Hf.
    rewrite Hrun in Hf.
    assert (s_procs (start d now ps) !! i = Some (mkProc None (VerifyLoginCode m code ""))) as Hst
      by (apply lookup_fmap_Some; eauto).
    destruct (login_totp_replies m code _ (Hf Hst Hend)) as (k & v & secret & at_time & Hin & Hv & Hk).
    exists k, v. split; [by apply in_replies|]. eauto. }
  destruct (Hlogin p cp tp Hp Htp) as (kp & vp & Hinp & Hvp & Hkp).
  destruct (Hlogin q cq tq Hq Htq) as (kq & vq & Hinq & Hvq & Hkq).
  assert (forall i k v, Ev i (QRecordStep m k) (Ok v) ∈ tr -> v <> 0 ->
    accepted_step m (Ev i (QRecordStep m k) (Ok v)) = Some k) as Hacc
    by (intros; simpl; by rewrite decide_True).
  exists kp, kq. split_and!; try done.
  - intros ->. assert (NoDup (accepted m tr)) as Hnd.
    { clear -Hsorted. induction Hsorted as [|x l Hs IH Hf]; constructor; [|done].
      intros Hin. rewrite Forall_forall in Hf. specialize (Hf _ Hin). lia. }
    pose proof (omap_NoDup_inj _ _ _ _ _ Hnd Hinp Hinq (Hacc _ _ _ Hinp Hvp) (Hacc _ _ _ Hinq Hvq)). congruence.
  - apply list_elem_of_omap. eauto.
  - apply list_elem_of_omap. eauto.
Qed.

(** ** Redeemed recovery codes *)

Section redeem.
Context `{UuidLib, Postgres}.
Variables (m : Uuid) (d0 : DB).

(** The code on file in [d0] an event redeemed: a [MarkRecoveryCodeUsed] that
    matched a row. *)
Definition redeemed_code (e : event) : option Uuid :=
  let 'Ev p c r := e in
  match c return answer c -> option Uuid with
  | QMarkUsed id => fun r =>
    match r with
    | Ok v => if decide (v <> 0 /\ is_Some (codes d0 !! id)) then Some id else None
    | Err _ => None
    end
  | _ => fun _ => None
  end r.

Definition redeemed (tr : list event) : list Uuid := omap redeemed_code tr.

(** [r] was a code of [m] on file in [d0] that [r'] is a later version of. *)
Definition from_start (id : Uuid) (r' : code_row) : Prop :=
  exists r, codes d0 !! id = Some r /\ c_member r = m /\ c_hash r = c_hash r' /\ (c_used r' = None -> c_used r = None).

Definition listed (tr : list event) : Prop :=
  forall i rows id row, Ev i (QListUnused m) (Ok rows) ∈ tr -> (id, row) ∈ rows ->
  from_start id row /\ c_used row = None.

Record codes_spent (tr : list event) (d : DB) : Prop := mkSpent {
  cs_origin : forall id r, codes d !! id = Some r -> c_member r = m -> from_start id r;
  cs_used : forall id r, id ∈ redeemed tr -> codes d !! id = Some r -> c_used r <> None;
  cs_once : NoDup (redeemed tr);
  cs_listed : listed tr
}.

(** No new codes for [m], and new ids for the others. *)
Definition reissues (c : call) : Prop :=
  match c with QInsertCode id m' _ => ~ (m' <> m /\ codes d0 !! id = None) | _ => False end.

Definition code_safe (w : write) : Prop :=
  match w with
  | WCode id r => c_member r <> m /\ codes d0 !! id = None
  | WCodeUsed _ _ => False
  | _ => True
  end.

Lemma redeemed_old tr id : id ∈ redeemed tr -> is_Some (codes d0 !! id).
Proof.
  unfold redeemed. rewrite list_elem_of_omap. intros ([i c r] & _ & E). destruct c; simpl in E; try done.
  destruct r; [|done]. case_decide; naive_solver.
Qed.

(** Rows that stay or go away, and rows of other members, change nothing. *)
Lemma spent_shrink tr d d' :
  codes_spent tr d ->
  (forall id r, codes d' !! id = Some r ->
     codes d !! id = Some r \/ (c_member r <> m /\ codes d0 !! id = None)) ->
  codes_spent tr d'.
Proof.
  intros [Ho Hu Hn Hl] Hsub. split; try done.
  - intros id r Hid Hr. destruct (Hsub _ _ Hid) as [?|[? _]]; [eauto|done].
  - intros id r Hin Hid. destruct (Hsub _ _ Hid) as [?|[_ Hnone]]; [eauto|].
    apply redeemed_old in Hin. rewrite Hnone in Hin. by destruct Hin.
Qed.

Lemma spent_safe tr d w : codes_spent tr d -> code_safe w -> codes_spent tr (apply_write w d).
Proof.
  intros Hs Hw. eapply spent_shrink; [done|]. intros id r Hid.
  destruct w; simpl in *; auto; try done.
  - unfold codes_without in Hid. apply map_lookup_filter_Some in Hid as [? _]. auto.
  - unfold insert_new in Hid. case_match; [auto|].
    apply lookup_insert_Some in Hid as [[<- <-]|[_ ?]]; auto.
  - unfold codes_without in Hid. apply map_lookup_filter_Some in Hid as [? _]. auto.
Qed.

Lemma spent_writes tr d ws : codes_spent tr d -> Forall code_safe ws -> codes_spent tr (apply_writes ws d).
Proof.
  intros Hs Hws. revert d Hs. induction Hws as [|w ws Hw _ IH]; intros d Hs; simpl; [done|].
  by apply IH, spent_safe.
Qed.

Lemma query_code_safe c now d v ws :
  query c now d = Ok (v, ws) -> ~ reissues c -> (forall id, c <> QMarkUsed id) -> Forall code_safe ws.
Proof.
  intros Hq Hb Hm.
  destruct c; simpl in Hq, Hb; try (by destruct (Hm id)); repeat case_match; simplify_eq;
    try (apply insert_row_writes in Hq; subst; constructor; [simpl; (done || by apply dec_stable)|constructor]);
    try (apply one_row_writes in Hq as [->| ->]; by repeat constructor);
    by repeat constructor.
Qed.

Lemma redeemed_snoc tr e :
  redeemed (tr ++ [e]) = redeemed tr ++ match redeemed_code e with Some k => [k] | None => [] end.
Proof. unfold redeemed. rewrite omap_app. simpl. by destruct (redeemed_code e). Qed.

Lemma listed_snoc tr p c r : c <> QListUnused m -> listed tr -> listed (tr ++ [Ev p c r]).
Proof.
  intros Hc Hl i rows id row [Hin|Hin]%elem_of_app Hrow; [by eapply Hl|].
  apply list_elem_of_singleton in Hin. congruence.
Qed.

Lemma spent_quiet tr d p c r :
  (forall id, c <> QMarkUsed id) -> c <> QListUnused m -> codes_spent tr d ->
  codes_spent (tr ++ [Ev p c r]) d.
Proof.
  intros Hm Hl [Ho Hu Hn Hli].
  assert (redeemed (tr ++ [Ev p c r]) = redeemed tr) as E.
  { rewrite redeemed_snoc. destruct c; simpl; rewrite ?app_nil_r; try done. by destruct (Hm id). }
  split; rewrite ?E; try done. by apply listed_snoc.
Qed.

Lemma spent_mark tr d p id o now r t' d' :
  codes_spent tr d -> serve (QMarkUsed id) o now d None = (r, t', d') ->
  codes_spent (tr ++ [Ev p (QMarkUsed id) r]) d'.
Proof.
  intros Hspent E. pose proof Hspent as [Ho Hu Hn Hl]. cbn [serve exec] in E. run_query in E.
  assert (listed (tr ++ [Ev p (QMarkUsed id) r])) as Hl' by by apply listed_snoc.
  assert (forall b, match codes d !! id with Some r => bool_decide (c_used r = None) | None => false end = b ->
    if b then id ∉ redeemed tr else True) as Hfresh.
  { intros [] Hb; [|done]. destruct (codes d !! id) as [row|] eqn:Hid; [|done]. apply bool_decide_eq_true in Hb.
    intros Hin. by apply (Hu _ _ Hin Hid). }
  assert (forall i row, codes (apply_write (WCodeUsed id now) d) !! i = Some row ->
    exists row0, codes d !! i = Some row0 /\ c_member row0 = c_member row /\ c_hash row0 = c_hash row /\
      (row0 = row \/ c_used row <> None) /\ (i = id -> c_used row <> None)) as Hrows.
  { intros i row. simpl. destruct (decide (i = id)) as [->|Hne].
    - rewrite lookup_alter_eq. intros (r0 & Hr0 & Heq)%fmap_Some. subst row. exists r0. by repeat split; auto.
    - rewrite lookup_alter_ne by done. intros Hi. exists row. naive_solver. }
  assert (forall i row, codes (apply_write (WCodeUsed id now) d) !! i = Some row -> c_member row = m ->
    from_start i row) as Ho'.
  { intros i row Hi Hm. destruct (Hrows _ _ Hi) as (r0 & Hr0 & Hm0 & Hh0 & Hor & _).
    destruct (Ho i r0 Hr0) as (rs & Hrs & Hms & Hhs & Hus); [congruence|]. exists rs.
    split_and!; try done; [congruence|]. intros Hnone. apply Hus. destruct Hor as [->|]; [done|congruence]. }
  assert (forall i row, i ∈ redeemed tr \/ i = id -> codes (apply_write (WCodeUsed id now) d) !! i = Some row ->
    c_used row <> None) as Hu'.
  { intros i row Hin Hi. destruct (Hrows _ _ Hi) as (r0 & Hr0 & _ & _ & Hor & Hid).
    destruct Hin as [Hin| ->]; [|auto]. destruct Hor as [->|]; [by eapply Hu|done]. }
  assert (forall r : answer (QMarkUsed id), (forall v, r = Ok v -> v = 0) ->
    redeemed (tr ++ [Ev p (QMarkUsed id) r]) = redeemed tr) as Hsame.
  { intros r0 Hr0. rewrite redeemed_snoc. simpl. destruct r0 as [v|]; [|by rewrite app_nil_r].
    rewrite decide_False; [by rewrite app_nil_r|]. intros [Hv _]. by apply Hv, Hr0. }
  unfold one_row in E. destruct (match codes d !! id with Some _ => _ | None => _ end) eqn:Hhit;
    specialize (Hfresh _ eq_refl); destruct (o_fault o); simplify_eq.
  - split; [done| |..|done].
    + intros i row Hin Hi. apply (Hu' i row); [|done]. rewrite redeemed_snoc in Hin. simpl in Hin.
      apply elem_of_app in Hin as [?|Hin]; [by left|right]. case_decide; set_solver.
    + rewrite redeemed_snoc. simpl. case_decide; [|by rewrite app_nil_r].
      apply NoDup_app. split_and!; [done|set_solver|apply NoDup_singleton].
  - rewrite <- Hsame with (r := Err Infra) in Hn by done. split; try done; by rewrite Hsame.
  - split; try done; rewrite Hsame; try done. intros i row Hin Hi. apply (Hu' i row); auto.
  - split; try done; rewrite Hsame; try done; by intros v [= <-].
  - split; try done; by rewrite Hsame.
  - split; try done; rewrite Hsame; try done; by intros v [= <-].
Qed.

Lemma spent_list tr d p o now r t' d' :
  codes_spent tr d -> serve (QListUnused m) o now d None = (r, t', d') ->
  codes_spent (tr ++ [Ev p (QListUnused m) r]) d'.
Proof.
  intros Hspent E. pose proof Hspent as [Ho Hu Hn Hl]. cbn [serve exec] in E. run_query in E.
  fold (unused_codes d m) in E. change (apply_writes [] d) with d in E.
  assert (redeemed (tr ++ [Ev p (QListUnused m) r]) = redeemed tr) as Ered
    by (rewrite redeemed_snoc; simpl; by rewrite app_nil_r).
  assert (d' = d) as -> by (by destruct (o_fault o); simplify_eq).
  split; rewrite ?Ered; try done.
  intros i rows id row [Hin|Hin]%elem_of_app Hrow; [by eapply Hl|].
  apply list_elem_of_singleton in Hin.
  assert (r = Ok rows) as ->.
  { apply (f_equal (fun e => let 'Ev _ c r := e in existT c r : reply)) in Hin.
    by apply (inj_pair2_eq_dec _ call_eq_dec) in Hin. }
  assert (rows = unused_codes d m) as -> by (by destruct (o_fault o); simplify_eq).
  apply unused_codes_elem in Hrow as (Hid & Hm & Hnone). eauto.
Qed.

Lemma codes_preserved : preserved reissues (fun _ => code_safe) codes_spent.
Proof.
  split.
  - intros tr d w. apply spent_safe.
  - done.
  - intros tr d p c r Hc. apply spent_quiet; [intros id ->|intros ->]; done.
  - intros tr d p c r ph Hph Hal _. apply spent_quiet; [intros id ->|intros ->]; done.
  - intros ph c now d us v ws Hph Hal Hbad _ Hq. eapply query_code_safe; [done..|]. intros id ->. done.
  - intros tr d p c o now r t' d' Hc Hbad Hg E.
    destruct (decide (c = QListUnused m)) as [->|Hnl]; [by eapply spent_list|].
    assert ((exists id, c = QMarkUsed id) \/ forall id, c <> QMarkUsed id) as [[id ->]|Hnm]
      by (destruct c; eauto).
    { by eapply spent_mark. }
    pose proof (serve_served _ _ _ _ _ _ _ _ E) as Hs.
    inversion Hs as [|u Hu|now' Hcb Hu|Hend|u Hcc Hu|now' v ws Hu Hq|u v ws Hu Ha Hq]; subst; try done;
      try (by apply spent_quiet).
    apply spent_writes; [by apply spent_quiet|]. by eapply query_code_safe.
Qed.
End redeem.

Section recovery_replies.
Context `{UuidLib, Postgres, TotpLib, SecretCipher, PasswordHasher}.

(** A successful login on a recovery code alone redeemed a listed code it opens. *)
Lemma login_recovery_replies m raw rs :
  follows (VerifyLoginCode m "" raw) rs (Ok tt) ->
  exists rows id row v, existT (QListUnused m) (Ok rows) ∈ rs /\ (id, row) ∈ rows /\
    opens (NormalizeRecoveryCode (TrimSpace raw)) (id, row) = true /\
    existT (QMarkUsed id) (Ok v) ∈ rs /\ v <> 0.
Proof.
  unfold VerifyLoginCode. cbv zeta. change (TrimSpace "") with ""%string.
  rewrite (bool_decide_eq_true_2 (""%string = ""%string)) by done. cbn [negb andb].
  case_bool_decide as Hc; [by intros [_ ?]|].
  intros (e & rs1 & rs2 & -> & _ & Hf)%and_then_ok.
  unfold consumeRecoveryCode in Hf. apply and_then_ok in Hf as (found & rs3 & rs4 & -> & Hf & Hmark).
  unfold matchRecoveryCode in Hf. case_bool_decide as Hn; [destruct Hf as [-> [= ->]]; by destruct Hmark|].
  apply and_then_ok in Hf as (cs & rs5 & rs6 & -> & Hf & [-> [= ->]]).
  destruct Hf as (r & rs7 & -> & Hf). destruct r as [rows|]; [|by destruct Hf].
  rewrite scanCodes_all in Hf. destruct Hf as [-> [= ->]].
  rewrite first_match_find in Hmark.
  destruct (List.find _ rows) as [[id row]|] eqn:Hfind; [|by destruct Hmark].
  apply find_some in Hfind as [Hin Hopen]. apply list_elem_of_In in Hin. simpl in Hmark.
  destruct Hmark as (r & rs8 & -> & Hmark). destruct r as [v|]; [|by destruct Hmark].
  destruct (Z.eqb_spec v 0) as [|Hv]; [by destruct Hmark|].
  exists rows, id, row, v. split_and!; try done; set_solver.
Qed.
End recovery_replies.

(** C3. No recovery code is spent twice. In any run of disciplined programs in
    which no new codes are issued to [m] (and other members' new codes get new
    ids), however calls interleave, fail or lose their replies, two logins of [m]
    that both succeed on a recovery code have each redeemed a code of [m] that was
    on file and unused at the start, one the submitted text opens, and not the
    same one. *)
Theorem recovery_code_single_use `{UuidLib, Postgres, TotpLib, SecretCipher, PasswordHasher}
    (ps : gmap nat (P unit)) (d : DB) (now : Z) (ms : list move) (m : Uuid) (p q : nat) (rp rq : string) :
  (forall i c, ps !! i = Some c -> disciplined c) ->
  p <> q ->
  ps !! p = Some (VerifyLoginCode m "" rp) -> ps !! q = Some (VerifyLoginCode m "" rq) ->
  let '(tr, s) := run ms (start d now ps) in
  (forall i id m' h r, Ev i (QInsertCode id m' h) r ∈ tr -> m' <> m /\ codes d !! id = None) ->
  (exists t, s_procs s !! p = Some (mkProc t (Ret (Ok tt)))) ->
  (exists t, s_procs s !! q = Some (mkProc t (Ret (Ok tt)))) ->
  exists idp idq, idp <> idq /\
    forall id raw, (id, raw) ∈ [(idp, rp); (idq, rq)] ->
    exists r, codes d !! id = Some r /\ c_member r = m /\ c_used r = None /\
      Verify (NormalizeRecoveryCode (TrimSpace raw)) (c_hash r) = Ok true.
Proof.
  intros Hps Hne Hp Hq. destruct (run ms (start d now ps)) as [tr s] eqn:Hrun. intros Hnew [tp Htp] [tq Htq].
  assert (codes_spent m d tr (s_db s)) as Hspent.
  { pose proof (disciplined_run _ _ _ d now ps ms (codes_preserved m d) Hps) as Hinv. rewrite Hrun in Hinv.
    apply Hinv.
    - split; [intros id r Hid Hm; by exists r| |apply NoDup_nil_2|]; repeat intro; set_solver.
    - intros i c r Hin Hbad. destruct c; simpl in Hbad; try done. by eapply Hbad, Hnew. }
  assert (forall i raw t, ps !! i = Some (VerifyLoginCode m "" raw) ->
    s_procs s !! i = Some (mkProc t (Ret (Ok tt))) ->
    exists id v r, Ev i (QMarkUsed id) (Ok v) ∈ tr /\ v <> 0 /\ codes d !! id = Some r /\ c_member r = m /\
      c_used r = None /\ Verify (NormalizeRecoveryCode (TrimSpace raw)) (c_hash r) = Ok true) as Hlogin.
  { intros i raw t Hi Hend.
    pose proof (run_follows ms (start d now ps) i None (VerifyLoginCode m "" raw) t (Ok tt)) as Hf.
    rewrite Hrun in Hf.
    assert (s_procs (start d now ps) !! i = Some (mkProc None (VerifyLoginCode m "" raw))) as Hst
      by (apply lookup_fmap_Some; eauto).
    destruct (login_recovery_replies m raw _ (Hf Hst Hend)) as (rows & id & row & v & Hl & Hin & Hopen & Hmark & Hv).
    apply in_replies in Hl, Hmark.
    destruct (cs_listed _ _ _ _ Hspent _ _ _ _ Hl Hin) as [(r & Hr & Hm & Hh & Hu) Hnone].
    exists id, v, r. split_and!; auto. unfold opens in Hopen. simpl in Hopen. rewrite Hh.
    by destruct (Verify _ _) as [[]|]. }
  destruct (Hlogin p rp tp Hp Htp) as (idp & vp & r_p & Hinp & Hvp & Hrp).
  destruct (Hlogin q rq tq Hq Htq) as (idq & vq & r_q & Hinq & Hvq & Hrq).
  assert (forall i id v r, codes d !! id = Some r -> v <> 0 ->
    redeemed_code d (Ev i (QMarkUsed id) (Ok v)) = Some id) as Hred
    by (intros i id v r Hr Hv; simpl; rewrite decide_True; eauto).
  exists idp, idq. split.
  - intros ->. pose proof (omap_NoDup_inj _ _ _ _ _ (cs_once _ _ _ _ Hspent) Hinp Hinq
      (Hred _ _ _ _ (proj1 Hrp) Hvp) (Hred _ _ _ _ (proj1 Hrq) Hvq)). congruence.
  - intros id raw [E|E%list_elem_of_singleton]%elem_of_cons; simplify_eq; eauto.
Qed.

(** ** Witnesses *)

Module MfaWitness.
Import HexUuid MembersWitness.

(** Two codes, of steps 100 and 101. *)
#[export] Instance demo_totp : TotpLib := {|
  totp_generate := fun _ issuer _ => Some (issuer, issuer);
  totp_validate := fun _ code _ => bool_decide (code = "100");
  GenerateCodeCustom := fun _ t =>
    if t =? 3000 then Some "100" else if t =? 3030 then Some "101" else None
|}.
#[export] Instance demo_cipher : SecretCipher :=
  {| Encrypt := fun _ s => Ok (s +:+ "!"); Decrypt := fun s => Ok s |}.
#[export] Instance plain_hasher : PasswordHasher :=
  {| Hash := fun _ pw => Some pw; Verify := fun pw h => Ok (bool_decide (pw = h)) |}.

Definition demo_now : Z := 3000000000.
Definition mfa_db : DB :=
  mkDB (households two_owners) (members two_owners)
    {[ uid 1 := mkMfa (uid 0) "secret" (Some 1) None 0 0 ]}
    {[ uid 5 := mkCode (uid 1) "AAAA" None 0; uid 6 := mkCode (uid 1) "BBBB" None 0 ]} ∅.

Definition totp_logins : gmap nat (P unit) :=
  {[ 1%nat := VerifyLoginCode (uid 1) "100" ""; 2%nat := VerifyLoginCode (uid 1) "101" "" ]}.
Definition turns : list move :=
  [Run 1 ok; Run 2 ok; Run 1 ok; Run 2 ok; Run 1 ok; Run 2 ok; Run 1 ok; Run 2 ok].

Lemma pool_disciplined (c1 c2 : P unit) i c :
  disciplined c1 -> disciplined c2 ->
  ({[ 1%nat := c1; 2%nat := c2 ]} : gmap nat (P unit)) !! i = Some c -> disciplined c.
Proof. intros H1 H2. rewrite lookup_insert_Some, lookup_singleton_Some. by intros [[<- <-]|[_ [<- <-]]]. Qed.

Definition issues (c : call) : bool :=
  match c with QDeleteMfa _ _ | QInsertCode _ _ _ => true | _ => false end.

Definition done_ok (pr : proc (result identity_error unit)) : bool :=
  match p_tx pr, p_prog pr with None, Ret (Ok _) => true | _, _ => false end.

Lemma finished (ps : gmap nat (P unit)) i :
  from_option done_ok false (s_procs (run turns (start mfa_db demo_now ps)).2 !! i) = true ->
  s_procs (run turns (start mfa_db demo_now ps)).2 !! i = Some (mkProc None (Ret (Ok tt))).
Proof.
  destruct (s_procs _ !! i) as [[t c]|]; [|done]. unfold done_ok. simpl.
  destruct t, c as [[[]|]|]; simpl; done.
Qed.

Lemma totp_no_replay_witness :
  exists kp kq, kp <> kq /\
    kp ∈ accepted (uid 1) (run turns (start mfa_db demo_now totp_logins)).1 /\
    kq ∈ accepted (uid 1) (run turns (start mfa_db demo_now totp_logins)).1.
Proof.
  pose proof (totp_no_replay totp_logins mfa_db demo_now turns (uid 1) 1 2 "100" "101") as T.
  assert (E1 := finished totp_logins 1 ltac:(vm_compute; reflexivity)).
  assert (E2 := finished totp_logins 2 ltac:(vm_compute; reflexivity)).
  assert (no_call issues (run turns (start mfa_db demo_now totp_logins)).1 = true) as Hno by (vm_compute; reflexivity).
  destruct (run turns (start mfa_db demo_now totp_logins)) as [tr s].
  destruct T as [_ T].
  - intros i c. apply pool_disciplined; apply VerifyLoginCode_disciplined.
  - done.
  - reflexivity.
  - reflexivity.
  - intros i hh r Hin. by pose proof (no_call_elem _ _ _ _ _ Hno Hin).
  - destruct T as (kp & kq & Hne & Hp & Hq & _);
      [exists None; exact E1|exists None; exact E2|].
    by exists kp, kq.
Defined.

Definition recovery_logins : gmap nat (P unit) :=
  {[ 1%nat := VerifyLoginCode (uid 1) "" "aa-aa"; 2%nat := VerifyLoginCode (uid 1) "" "bb-bb" ]}.

Lemma recovery_code_single_use_witness :
  exists idp idq, idp <> idq /\ is_Some (codes mfa_db !! idp) /\ is_Some (codes mfa_db !! idq).
Proof.
  pose proof (recovery_code_single_use recovery_logins mfa_db demo_now turns (uid 1) 1 2 "aa-aa" "bb-bb") as T.
  assert (E1 := finished recovery_logins 1 ltac:(vm_compute; reflexivity)).
  assert (E2 := finished recovery_logins 2 ltac:(vm_compute; reflexivity)).
  assert (no_call issues (run turns (start mfa_db demo_now recovery_logins)).1 = true) as Hno by (vm_compute; reflexivity).
  destruct (run turns (start mfa_db demo_now recovery_logins)) as [tr s].
  destruct T as (idp & idq & Hne & Hall).
  - intros i c. apply pool_disciplined; apply VerifyLoginCode_disciplined.
  - done.
  - reflexivity.
  - reflexivity.
  - intros i id m' h r Hin. by pose proof (no_call_elem _ _ _ _ _ Hno Hin).
  - exists None. exact E1.
  - exists None. exact E2.
  - exists idp, idq. split; [done|].
    destruct (Hall idp "aa-aa"%string ltac:(left)) as (? & ? & _).
    destruct (Hall idq "bb-bb"%string ltac:(right; left)) as (? & ? & _). eauto.
Defined.

Definition demo_bytes : list Z := [0; 17; 34; 51; 68; 85; 102; 119; 136; 255].
Lemma demo_bytes_ok : Forall is_byte demo_bytes.
Proof. unfold demo_bytes, is_byte. repeat constructor; lia. Qed.

Lemma recovery_code_roundtrip_witness :
  NormalizeRecoveryCode (ToLower (recovery_code demo_bytes)) = string_of (recoveryCodeEncoding demo_bytes).
Proof.
  destruct (recovery_code_roundtrip demo_bytes demo_bytes_ok eq_refl) as (_ & _ & T & _). exact T.
Defined.

(** What a member sees, and what is hashed. *)
Example demo_code : recovery_code demo_bytes = "008J-4CT4-ANK7-F27Z"%string.
Proof. vm_compute. reflexivity. Qed.

Lemma VerifyLoginCode_refines_witness :
  alone (VerifyLoginCode (uid 1) "100" "") (fun _ => ok) demo_now mfa_db None =
    login (uid 1) "100" "" demo_now mfa_db.
Proof. apply VerifyLoginCode_refines, calm_ok. Defined.

(** The second use of a code in the same step is refused. *)
Example replay_refused :
  (login (uid 1) "100" "" demo_now (login (uid 1) "100" "" demo_now mfa_db).2).1 = Err ErrInvalidTOTPCode.
Proof. vm_compute. reflexivity. Qed.
End MfaWitness.
