(* ===== verification/MfaConfirm.v ===== *)
(** Racing enrolment confirmations: of any number of concurrent
    [ConfirmEnrollment] calls for one member at most one is answered with recovery
    codes, and the codes it was answered with are the ones on file.

    Every process is followed through the stages of the confirmation protocol of
    src/identity/adapter/mfa_postgres.go: it reads the enrolment FOR UPDATE, marks it
    confirmed, clears the old codes, inserts the new ones and commits. The invariant
    says for each stage exactly what the transaction holds pending and locked. *)

From S2P Require Import Prelude GoStrings GoEncoding Uuids IdentityDB IdentityRun Members Discipline MembersSpec Mfa MfaSpec MfaRuns.
Local Open Scope Z_scope.

(** ** The stages of a process *)

Section protocol.
Context `{UuidLib, Postgres}.
Variable m : Uuid.

(** Outside transactions; in one that wrote nothing; in one that has seen [m]'s
    enrolment unconfirmed under its row lock; then with the confirmation written,
    with the old codes cleared and these inserted, committed with these codes; in
    one that replaces the secret; in one that wrote something else. *)
Inductive stage :=
| Out | Plain | Saw | Marked | Cleared (l : list (Uuid * string)) | Won (l : list (Uuid * string)) | Resetting | Other.

Definition written (st : stage) : stage := match st with Plain => Other | st => st end.

(** The statements that write nothing. *)
Definition quiet (c : call) : bool :=
  match c with
  | QGetHousehold _ | QGetMember _ | QListMembers _ | QBegin | QCommit | QRollback | QLockHousehold _
  | QMemberExists _ _ | QFindByEmail _ | QGetEnrollment _ | QSelectMfaForUpdate _ | QListUnused _
  | QListCreds _ _ | QFindByHandle _ | QCredExists _ | ENow | EFresh | ERand _ | EEntropy => true
  | _ => false
  end.

Definition after (st : stage) (c : call) : answer c -> stage :=
  match c return answer c -> stage with
  | QBegin => fun r => if is_ok r then Plain else st
  | QCommit => fun r =>
    match st with Cleared l => if is_ok r then Won l else Out | Won l => Won l | _ => Out end
  | QRollback => fun _ => match st with Won l => Won l | _ => Out end
  | QSelectMfaForUpdate m' => fun r =>
    match st, r with Plain, Ok (Some (_, None)) => if decide (m' = m) then Saw else Plain | _, _ => st end
  | QConfirmMfa _ => fun r => match st with Saw => if is_ok r then Marked else Saw | _ => written st end
  | QUpdateMfaSecret _ _ => fun r => match st with Saw => if is_ok r then Resetting else Saw | _ => written st end
  | QDeleteCodes _ => fun r => match st with Marked => if is_ok r then Cleared [] else Marked | _ => written st end
  | QInsertCode id _ h => fun r =>
    match st with Cleared l => if is_ok r then Cleared (l ++ [(id, h)]) else Cleared l | _ => written st end
  | c => fun _ => if quiet c then st else written st
  end.

(** The statements that change whether [m] is confirmed, or [m]'s codes. *)
Definition touches (c : call) : Prop :=
  match c with
  | QConfirmMfa m' | QUpdateMfaSecret m' _ | QDeleteCodes m' | QInsertCode _ m' _ => m' = m
  | _ => False
  end.

(** Which statement may come at which stage. *)
Definition may (st : stage) (c : call) : Prop :=
  match st with
  | Saw => match c with QConfirmMfa m' | QUpdateMfaSecret m' _ => m' = m | _ => quiet c = true end
  | Marked => match c with QDeleteCodes m' => m' = m | QCommit => False | _ => quiet c = true end
  | Cleared _ => match c with QInsertCode _ m' _ => m' = m | _ => quiet c = true end
  | _ => ~ touches c
  end.

(** [p], started at stage [st], keeps to the protocol and ends with a value and a
    stage that satisfy [Q]. *)
Fixpoint guards {A} (Q : A -> stage -> Prop) (st : stage) (p : prog A) : Prop :=
  match p with
  | Ret a => Q a st
  | Call c k => may st c /\ forall r, guards Q (after st c r) (k r)
  end.

Definition idle (st : stage) : Prop := match st with Out | Won _ => True | _ => False end.

(** A program that follows the protocol, started between transactions. *)
Definition guarded {A} (p : prog A) : Prop := forall st, idle st -> guards (fun _ => idle) st p.

Lemma guards_bind {A B} (Q : B -> stage -> Prop) st (p : prog A) (f : A -> prog B) :
  guards (fun a st' => guards Q st' (f a)) st p -> guards Q st (pbind p f).
Proof. revert st. induction p as [a|c k IH]; intros st; simpl; [done|]. intros [? Hk]. split; auto. Qed.

Lemma guards_mono {A} (Q Q' : A -> stage -> Prop) st (p : prog A) :
  (forall a st', Q a st' -> Q' a st') -> guards Q st p -> guards Q' st p.
Proof. intros HQ. revert st. induction p as [a|c k IH]; intros st; simpl; [apply HQ|]. intros [? Hk]. split; auto. Qed.

Lemma guarded_bind {A B} (p : prog A) (f : A -> prog B) :
  guarded p -> (forall a, guarded (f a)) -> guarded (pbind p f).
Proof.
  intros Hp Hf st Hst. apply guards_bind. eapply guards_mono, Hp; [|done]. intros a st' Hst'. by apply Hf.
Qed.

Lemma guarded_and_then {A B} (p : P A) (f : A -> P B) :
  guarded p -> (forall a, guarded (f a)) -> guarded (and_then p f).
Proof. intros Hp Hf. apply guarded_bind; [done|]. intros [a|e]; [apply Hf|by intros st Hst]. Qed.

Lemma guarded_pmap {A B} (f : A -> B) (p : prog A) : guarded p -> guarded (pmap f p).
Proof. intros Hp. apply guarded_bind; [done|]. by intros a st Hst. Qed.

(** A transaction body may end at any stage: the deferred rollback closes it, and
    changes nothing after a commit. *)
Definition closed (st : stage) : stage := match st with Won l => Won l | _ => Out end.

Lemma guards_tx {A} (Q : result identity_error A -> stage -> Prop) st (body : P A) :
  idle st -> Q (Err EInternal) st -> guards (fun r st' => Q r (closed st')) Plain body -> guards Q st (in_tx body).
Proof.
  intros Hst HQ Hb. split; [destruct st; simpl in *; tauto|]. intros [v|e]; simpl; [|done].
  apply guards_bind. eapply guards_mono, Hb. intros r st' Hr. split; [destruct st'; simpl; tauto|done].
Qed.

Lemma guarded_tx {A} (body : P A) : guards (fun _ _ => True) Plain body -> guarded (in_tx body).
Proof.
  intros Hb st Hst. apply guards_tx; [done..|]. eapply guards_mono, Hb. by intros r [] _.
Qed.
End protocol.

Arguments guarded {_} m {A} p.
Arguments guards {_} m {A} Q st p.

(** Checking a program step by step. *)
Ltac follow := repeat match goal with
  | |- _ /\ _ => split
  | |- context [is_ok (Ok _)] => cbn [is_ok]
  | |- context [is_ok (Err _)] => cbn [is_ok]
  | |- context [if decide (?a = ?b) then Saw else Plain] => destruct (decide (a = b)); [try congruence|try congruence]
  | |- guards _ _ _ (Call _ _) => cbn [guards after written quiet is_ok]
  | |- guards _ _ _ (pbind _ _) => apply guards_bind
  | |- guards _ _ _ (and_then _ _) => apply guards_bind
  | |- guards _ _ _ (Ret _) => cbn [guards]
  | |- guards _ _ _ (ret _) => cbn [guards ret]
  | |- guards _ _ _ (fail _) => cbn [guards fail]
  | |- guards _ _ _ (match ?x with _ => _ end) => destruct x
  | |- guards _ _ (match ?x with _ => _ end) _ => destruct x
  | |- guards _ _ (if ?x then _ else _) _ => destruct x
  | |- may _ _ _ => cbn [may touches quiet]; first [reflexivity | tauto | congruence | intuition congruence]
  | |- forall _, _ => intros ?
  | |- True => exact I
  | |- idle _ => done
  | |- ?x = ?x => reflexivity
  end.

(** ** The operations follow the protocol *)

Section operations.
Context `{UuidLib, Postgres}.
Variable m : Uuid.

Ltac between := intros [] Hst; try done; follow.

Lemma GetEnrollment_guarded m' : guarded m (GetEnrollment m').
Proof. unfold GetEnrollment. between. Qed.

Lemma beginEnrollmentOnce_guarded m' hh secret : guarded m (beginEnrollmentOnce m' hh secret).
Proof. apply guarded_tx. unfold commit. destruct (decide (m' = m)) as [->|Hne]; follow. Qed.

Lemma BeginEnrollmentRow_guarded m' hh secret : guarded m (BeginEnrollmentRow m' hh secret).
Proof.
  unfold BeginEnrollmentRow. apply guarded_bind; [apply beginEnrollmentOnce_guarded|].
  intros r. case_match; [|by intros st Hst]. apply guarded_bind; [apply beginEnrollmentOnce_guarded|]. intros r'.
  case_match; by intros st Hst.
Qed.

Lemma insert_codes_other m' hashes :
  m' <> m -> guards m (fun _ _ => True) Other (insert_codes m' hashes).
Proof. intros Hne. induction hashes as [|h hashes IH]; unfold insert_codes; fold insert_codes; unfold commit; follow. done. Qed.

(** After the old codes are cleared: success is a commit of exactly these hashes. *)
Definition stored (hashes : list string) (r : result identity_error unit) (st : stage) : Prop :=
  idle st /\ (is_ok r = true -> exists l, st = Won l /\ l.*2 = hashes).

Lemma insert_codes_cleared hashes l :
  guards m (fun r st => stored (l.*2 ++ hashes) r (closed st)) (Cleared l) (insert_codes m hashes).
Proof.
  revert l. induction hashes as [|h hashes IH]; intros l; unfold insert_codes; fold insert_codes; unfold commit.
  - follow; [|by split]. split; [done|]. intros _. exists l. by rewrite app_nil_r.
  - follow; [|by split].
    eapply guards_mono, IH. intros r0 st. by rewrite fmap_app, <- (assoc_L (++)).
Qed.

Lemma ConfirmEnrollmentWithCodes_stores hh hashes st :
  idle st -> guards m (stored hashes) st (ConfirmEnrollmentWithCodes hh m hashes).
Proof.
  intros Hst. apply guards_tx; [done|by split|]. follow; try by (split; [try destruct o|]).
  apply (insert_codes_cleared hashes []).
Qed.

Lemma ConfirmEnrollmentWithCodes_guarded hh m' hashes : guarded m (ConfirmEnrollmentWithCodes hh m' hashes).
Proof.
  destruct (decide (m' = m)) as [->|Hne].
  - intros st Hst. eapply guards_mono, ConfirmEnrollmentWithCodes_stores; [|done]. by intros r st' [].
  - apply guarded_tx. follow. by apply insert_codes_other.
Qed.

Lemma DeleteEnrollment_guarded hh m' : guarded m (DeleteEnrollment hh m').
Proof. unfold DeleteEnrollment. between. Qed.

Context `{TotpLib, SecretCipher, PasswordHasher}.

Lemma consumeRecoveryCode_guarded m' raw : guarded m (consumeRecoveryCode m' raw).
Proof.
  unfold consumeRecoveryCode, matchRecoveryCode, ListUnusedRecoveryCodes, MarkRecoveryCodeUsed. between.
Qed.

Lemma requireConfirmedEnrollment_guarded m' : guarded m (requireConfirmedEnrollment m').
Proof.
  apply guarded_and_then; [apply GetEnrollment_guarded|]. intros e. case_match; by intros st Hst.
Qed.

Lemma BeginEnrollment_guarded m' hh issuer account : guarded m (BeginEnrollment m' hh issuer account).
Proof.
  unfold BeginEnrollment. intros st Hst. destruct st; try done; (split; [simpl; tauto|]; intros entropy;
    destruct (totp_generate _ _ _) as [[secret url]|]; [|done]; split; [simpl; tauto|]; intros nonce;
    destruct (Encrypt _ _); [|done]; apply guarded_and_then; [apply BeginEnrollmentRow_guarded|by intros ? ? ?|done]).
Qed.

Lemma Disenroll_guarded m' hh tc rc : guarded m (Disenroll m' hh tc rc).
Proof.
  apply guarded_and_then; [|intros; apply DeleteEnrollment_guarded].
  unfold verifyTOTPOrRecovery. case_match; [by intros ? ?|].
  apply guarded_and_then; [apply requireConfirmedEnrollment_guarded|]. intros e.
  case_match; [|apply consumeRecoveryCode_guarded]. destruct (Decrypt _); [|by intros ? ?].
  between; by apply consumeRecoveryCode_guarded.
Qed.

Lemma VerifyLoginCode_guarded m' tc rc : guarded m (VerifyLoginCode m' tc rc).
Proof.
  unfold VerifyLoginCode. case_match; [by intros ? ?|].
  apply guarded_and_then; [apply requireConfirmedEnrollment_guarded|]. intros e.
  case_match; [|apply consumeRecoveryCode_guarded].
  apply guarded_bind; [unfold verifyLoginTOTP, RecordLoginStep; between|]. intros [v|er]; [by intros ? ?|].
  case_match; [by intros ? ?|apply consumeRecoveryCode_guarded].
Qed.

Lemma generate_codes_guarded n : guarded m (generate_codes n).
Proof.
  induction n as [|n IH]; [by intros st Hst|]. cbn [generate_codes].
  apply guarded_and_then; [unfold GenerateRecoveryCode; between|]. intros raw st Hst.
  split; [destruct st; simpl in *; tauto|]. intros salt. destruct (Hash _ _); [|by destruct st].
  apply guarded_and_then; [done|by intros ? ? ?|by destruct st].
Qed.

Lemma ConfirmEnrollment_guarded m' hh code : guarded m (ConfirmEnrollment m' hh code).
Proof.
  apply guarded_and_then; [apply GetEnrollment_guarded|]. intros e. case_match; [by intros ? ?|].
  destruct (Decrypt _); [|by intros ? ?]. intros st Hst.
  split; [destruct st; simpl in *; tauto|]. intros now. case_match; [by destruct st|].
  apply guarded_and_then; [apply generate_codes_guarded| |by destruct st]. intros codes.
  apply guarded_and_then; [apply ConfirmEnrollmentWithCodes_guarded|by intros ? ? ?].
Qed.

(** ** What [ConfirmEnrollment] answers *)

(** [raw]'s hash, under some salt, is the one stored under [id]. *)
Definition hashed (raw : string) (idh : Uuid * string) : Prop :=
  exists salt, Hash salt (NormalizeRecoveryCode raw) = Some idh.2.

Lemma generate_codes_guards n st (Q : result identity_error (list (string * string)) -> stage -> Prop) :
  idle st ->
  (forall codes, length codes = n ->
     Forall (fun rh => exists salt, Hash salt (NormalizeRecoveryCode rh.1) = Some rh.2) codes -> Q (Ok codes) st) ->
  Q (Err EInternal) st ->
  guards m Q st (generate_codes n).
Proof.
  intros Hst. revert Q. induction n as [|n IH]; intros Q HQ HE; [by apply HQ|].
  cbn [generate_codes]. unfold GenerateRecoveryCode.
  destruct st; try done; (split; [simpl; tauto|]; intros r; destruct r as [b|]; [|done]; cbn [pbind ret];
    split; [simpl; tauto|]; intros salt; destruct (Hash salt _) as [hash|] eqn:Hh; [|done];
    apply guards_bind, IH; [|done]; intros codes Hlen Hall; apply HQ; [simpl; lia|by constructor; eauto]).
Qed.

(** The protocol run of one confirmation: answered with codes, it has committed
    exactly their hashes. *)
Definition shown (r : result identity_error (list string)) (st : stage) : Prop :=
  forall raws, r = Ok raws -> length raws = recoveryCodeCount /\ exists l, st = Won l /\ Forall2 hashed raws l.

Lemma ConfirmEnrollment_shows hh code : guards m shown Out (ConfirmEnrollment m hh code).
Proof.
  unfold ConfirmEnrollment, GetEnrollment. apply guards_bind. split; [simpl; tauto|].
  assert (forall e, shown (Err e) Out) as HE by (intros e raws; done).
  intros [[row|]|er]; [|apply HE..]. destruct (uuid_parse _); [|apply HE]. cbn [guards ret].
  destruct (Confirmed _); [apply HE|]. destruct (Decrypt _) as [secret|]; [|apply HE].
  split; [simpl; tauto|]. intros now. destruct (negb _); [apply HE|].
  apply guards_bind, generate_codes_guards; [done| |apply HE]. intros codes Hlen Hall.
  apply guards_bind. eapply guards_mono, ConfirmEnrollmentWithCodes_stores; [|done].
  intros [[]|e] st [_ Hst]; [|intros raws; done]. destruct (Hst eq_refl) as (l & -> & Hl).
  intros raws [= <-]. split; [by rewrite length_fmap|]. exists l. split; [done|].
  clear -Hall Hl. revert l Hl. induction Hall as [|[raw h] codes Hh Hall IH]; intros [|[id h'] l] [=];
    constructor; [|by apply IH]. subst. exact Hh.
Qed.
End operations.

#[export] Hint Resolve GetEnrollment_guarded BeginEnrollment_guarded Disenroll_guarded VerifyLoginCode_guarded
  ConfirmEnrollment_guarded ConfirmEnrollmentWithCodes_guarded DeleteEnrollment_guarded guarded_pmap : nest.

(** ** What is on file for [m] *)

Section on_file.
Context `{UuidLib, Postgres}.
Variable m : Uuid.

Definition unconfirmed (d : DB) : Prop := exists r, mfa d !! m = Some r /\ f_confirmed r = None.
Definition confirmed (d : DB) : Prop := exists r, mfa d !! m = Some r /\ is_Some (f_confirmed r).

Lemma confirmed_not d : confirmed d -> unconfirmed d -> False.
Proof. intros (r & Hr & c & Hc) (r' & Hr' & Hu). naive_solver. Qed.

(** The hash of [m]'s code [id]. *)
Definition code_of (d : DB) (id : Uuid) : option string :=
  r ← codes d !! id; if decide (c_member r = m) then Some (c_hash r) else None.

(** [m]'s codes are exactly [l]. *)
Definition on_file (l : list (Uuid * string)) (d : DB) : Prop :=
  NoDup l.*1 /\ forall id h, code_of d id = Some h <-> (id, h) ∈ l.

(** No code of another member has one of these ids. *)
Definition free (l : list (Uuid * string)) (d : DB) : Prop :=
  forall id r, id ∈ l.*1 -> codes d !! id = Some r -> c_member r = m.

(** A write that leaves [m]'s confirmation and codes alone. *)
Definition harmless (w : write) : Prop :=
  match w with
  | WMfaConfirm m' _ | WMfaSecret m' _ _ | WMfaDelete m' | WCodesDelete m' => m' <> m
  | WCode _ r => c_member r <> m
  | WMfa _ r => f_confirmed r = None
  | _ => True
  end.

(** One write changes a row at most as far as this. *)
Lemma harmless_mfa w d r :
  harmless w -> mfa d !! m = Some r ->
  exists r', mfa (apply_write w d) !! m = Some r' /\ f_confirmed r' = f_confirmed r.
Proof.
  intros Hw Hr. destruct w; simpl in *; eauto.
  - unfold insert_new. destruct (mfa d !! m0) eqn:Hm; [by eauto|]. exists r.
    by rewrite lookup_insert_ne by congruence.
  - exists r. by rewrite lookup_alter_ne.
  - exists r. by rewrite lookup_alter_ne.
  - exists r. by rewrite lookup_delete_ne.
  - destruct (decide (m0 = m)) as [->|Hne]; [|exists r; by rewrite lookup_alter_ne].
    rewrite lookup_alter_eq, Hr. by eexists.
Qed.

Lemma harmless_unconfirmed w d : harmless w -> unconfirmed d -> unconfirmed (apply_write w d).
Proof. intros Hw (r & Hr & Hc). destruct (harmless_mfa w d r Hw Hr) as (r' & Hr' & E). exists r'. by rewrite E. Qed.

Lemma harmless_confirmed w d : harmless w -> confirmed d -> confirmed (apply_write w d).
Proof. intros Hw (r & Hr & Hc). destruct (harmless_mfa w d r Hw Hr) as (r' & Hr' & E). exists r'. by rewrite E. Qed.

(** The codes one member does not have come and go without changing [m]'s. *)
Lemma codes_without_lookup m' cs id :
  codes_without m' cs !! id = (r ← cs !! id; if decide (c_member r = m') then None else Some r).
Proof.
  unfold codes_without. destruct (cs !! id) as [r|] eqn:Hr; simpl.
  - case_decide as Hm; [apply map_lookup_filter_None; right; intros r' Hr'; naive_solver|].
    apply map_lookup_filter_Some. naive_solver.
  - apply map_lookup_filter_None. by left.
Qed.

Lemma harmless_code_of w d id : harmless w -> code_of (apply_write w d) id = code_of d id.
Proof.
  intros Hw. unfold code_of. destruct w; simpl in *; try done.
  - rewrite codes_without_lookup. destruct (codes d !! id) as [r|]; [|done]. simpl.
    repeat case_decide; simpl; repeat case_decide; congruence.
  - unfold insert_new. destruct (codes d !! id0) eqn:Hid; [done|].
    destruct (decide (id = id0)) as [->|Hne]; [|by rewrite lookup_insert_ne].
    rewrite lookup_insert_eq, Hid. simpl. by rewrite decide_False.
  - rewrite codes_without_lookup. destruct (codes d !! id) as [r|]; [|done]. simpl.
    repeat case_decide; simpl; repeat case_decide; congruence.
  - destruct (decide (id = id0)) as [->|Hne]; [|by rewrite lookup_alter_ne].
    rewrite lookup_alter_eq. by destruct (codes d !! id0).
Qed.

Lemma harmless_on_file w d l : harmless w -> on_file l d -> on_file l (apply_write w d).
Proof. intros Hw [Hnd Hl]. split; [done|]. intros id h. by rewrite harmless_code_of. Qed.

(** A row a write leaves in [codes] is an old one, up to its use, or its own. *)
Lemma write_codes w d id r :
  codes (apply_write w d) !! id = Some r ->
  w = WCode id r \/ exists r0, codes d !! id = Some r0 /\ c_member r0 = c_member r.
Proof.
  destruct w; simpl; eauto.
  - rewrite codes_without_lookup. destruct (codes d !! id) as [r0|]; simpl; [|done].
    case_decide; intros; simplify_eq; eauto.
  - unfold insert_new. destruct (codes d !! id0) eqn:Hid; [by eauto|].
    intros [[<- <-]|[_ ?]]%lookup_insert_Some; eauto.
  - rewrite codes_without_lookup. destruct (codes d !! id) as [r0|]; simpl; [|done].
    case_decide; intros; simplify_eq; eauto.
  - intros [(-> & r0 & Hr0 & ->)|[_ ?]]%lookup_alter_Some; eauto.
Qed.

Lemma write_free w d l : (forall id r, w = WCode id r -> id ∉ l.*1) -> free l d -> free l (apply_write w d).
Proof.
  intros Hw Hf id r Hid [->|(r0 & Hr0 & <-)]%write_codes; [by destruct (Hw id r)|by apply (Hf id r0)].
Qed.

(** ** The confirmation's own writes *)

Definition code_writes (now : Z) (l : list (Uuid * string)) : list write :=
  (fun idh => WCode idh.1 (mkCode m idh.2 None now)) <$> l.
Definition confirm_writes (now : Z) (l : list (Uuid * string)) : list write :=
  WMfaConfirm m now :: WCodesDelete m :: code_writes now l.

Lemma code_writes_on_file now l l0 d :
  on_file l0 d -> NoDup (l0 ++ l).*1 -> (forall id, id ∈ l.*1 -> codes d !! id = None) ->
  on_file (l0 ++ l) (apply_writes (code_writes now l) d).
Proof.
  revert l0 d. induction l as [|[id h] l IH]; intros l0 d [Hnd Hon] Hnd' Hfresh.
  { rewrite app_nil_r. by split. }
  assert (codes d !! id = None) as Hid by (apply Hfresh; simpl; set_solver).
  replace (l0 ++ (id, h) :: l) with ((l0 ++ [(id, h)]) ++ l) in * by (by rewrite <- (assoc_L (++))).
  cbn [code_writes fmap list_fmap apply_writes foldl]. apply IH; [|done|].
  - split; [by rewrite fmap_app in Hnd'; apply NoDup_app in Hnd' as (? & _)|].
    intros id' h'. unfold code_of. cbn [apply_write set_codes codes fst snd]. unfold insert_new. rewrite Hid.
    rewrite elem_of_app, list_elem_of_singleton, <- Hon. unfold code_of.
    destruct (decide (id' = id)) as [->|Hne].
    + rewrite lookup_insert_eq, Hid. simpl. rewrite decide_True by done. naive_solver.
    + rewrite lookup_insert_ne by congruence. naive_solver.
  - intros id' Hin. cbn [apply_write set_codes codes fst snd]. unfold insert_new. rewrite Hid.
    rewrite lookup_insert_ne; [apply Hfresh; simpl; set_solver|]. intros <-.
    rewrite !fmap_app in Hnd'. apply NoDup_app in Hnd' as (_ & Hdis & _). apply (Hdis id); [|done].
    simpl. set_solver.
Qed.

Lemma code_writes_mfa now l d : mfa (apply_writes (code_writes now l) d) = mfa d.
Proof. revert d. induction l as [|[id h] l IH]; intros d; [done|]. cbn. etrans; [apply IH|done]. Qed.

Lemma confirm_writes_split now l d :
  apply_writes (confirm_writes now l) d =
  apply_writes (code_writes now l) (apply_write (WCodesDelete m) (apply_write (WMfaConfirm m now) d)).
Proof. done. Qed.

Lemma confirm_writes_done now l d :
  unconfirmed d -> NoDup l.*1 -> free l d ->
  confirmed (apply_writes (confirm_writes now l) d) /\ on_file l (apply_writes (confirm_writes now l) d).
Proof.
  intros (r & Hr & Hc) Hnd Hf. rewrite confirm_writes_split. split.
  - unfold confirmed. rewrite code_writes_mfa. cbn. rewrite lookup_alter_eq, Hr. by eexists.
  - apply (code_writes_on_file now l []); [|done|].
    + split; [constructor|]. intros id h. unfold code_of. cbn. rewrite codes_without_lookup.
      destruct (codes d !! id) as [r'|]; simpl; [|set_solver]. repeat case_decide; simpl; [set_solver|].
      rewrite decide_False by done. set_solver.
    + intros id Hid. cbn. rewrite codes_without_lookup.
      destruct (codes d !! id) as [r'|] eqn:Hr'; simpl; [|done]. by rewrite decide_True by (by eapply Hf).
Qed.

(** The next code's id is new: not one of the pending ones, not another member's. *)
Lemma confirm_writes_fresh now l d id :
  NoDup l.*1 -> free l d -> unconfirmed d -> codes (apply_writes (confirm_writes now l) d) !! id = None ->
  (id ∉ l.*1) /\ forall r, codes d !! id = Some r -> c_member r = m.
Proof.
  intros Hnd Hf Hu Hnone. destruct (confirm_writes_done now l d Hu Hnd Hf) as [_ [_ Hon]]. split.
  - intros ([id' h] & -> & Hin)%list_elem_of_fmap. apply Hon in Hin. unfold code_of in Hin. simpl in Hin, Hnone.
    by rewrite Hnone in Hin.
  - intros r Hr. destruct (decide (c_member r = m)) as [|Hne]; [done|]. exfalso.
    assert (forall d', codes d' !! id = Some r ->
      codes (apply_writes (code_writes now l) d') !! id = Some r) as Hkeep.
    { clear -Hne. induction l as [|[i h] l IH]; intros d' Hd'; [done|]. cbn [code_writes fmap list_fmap apply_writes foldl].
      apply IH. cbn. unfold insert_new. destruct (codes d' !! i) eqn:Hi; [done|].
      rewrite lookup_insert_ne; [done|congruence]. }
    rewrite confirm_writes_split, Hkeep in Hnone; [done|]. cbn. rewrite codes_without_lookup, Hr. simpl. by rewrite decide_False.
Qed.
End on_file.

(** ** What each stage holds *)

Section stages.
Context `{UuidLib, Postgres}.
Variable m : Uuid.

Definition holds_row (d : DB) (u : tx) : Prop := LMfa m ∈ t_locks u /\ unconfirmed m d.

Definition pend_ok (st : stage) (d : DB) (u : tx) : Prop :=
  match st with
  | Plain => t_pending u = []
  | Saw => t_pending u = [] /\ holds_row d u
  | Marked => t_pending u = [WMfaConfirm m (t_now u)] /\ holds_row d u
  | Cleared l => t_pending u = confirm_writes m (t_now u) l /\ holds_row d u /\ NoDup l.*1 /\ free m l d
  | Resetting => Forall (fun w => harmless m w \/ exists s now, w = WMfaSecret m s now) (t_pending u) /\ holds_row d u
  | Other => Forall (harmless m) (t_pending u)
  | Out | Won _ => False
  end.

(** An aborted transaction can only end. *)
Definition stage_ok (st : stage) (d : DB) (t : option tx) : Prop :=
  match st with
  | Out | Won _ => t = None
  | _ => exists u, t = Some u /\ (t_aborted u = true \/ pend_ok st d u)
  end.

Lemma stage_inside st d u : stage_ok st d (Some u) -> ~ idle st.
Proof. destruct st; simpl; intros; naive_solver. Qed.

Lemma stage_pending st d u : stage_ok st d (Some u) -> t_aborted u = false -> pend_ok st d u.
Proof. intros Hst Ha. destruct st; try done; destruct Hst as (u' & [= <-] & [?|?]); congruence. Qed.

Lemma stage_aborted st d u : ~ idle st -> t_aborted u = true -> stage_ok st d (Some u).
Proof. destruct st; simpl; naive_solver. Qed.

Lemma stage_made st d u : pend_ok st d u -> stage_ok st d (Some u).
Proof. destruct st; simpl; naive_solver. Qed.

Lemma exec_inside c f now d u r t' d' :
  exec c f now d (Some u) = (r, t', d') ->
  d' = d /\ exists u', t' = Some u' /\
    (((exists e, r = Err e) /\ t_aborted u' = true) \/
     exists v ws, r = Ok v /\ t_aborted u = false /\ query c (t_now u) (view d (Some u)) = Ok (v, ws) /\
       u' = mkTx (t_now u) (t_pending u ++ ws) (t_locks u ++ takes c (view d (Some u))) false).
Proof.
  unfold exec. destruct (t_aborted u) eqn:Ha; [intros; simplify_eq; naive_solver|].
  destruct f; [|intros; simplify_eq; split; [done|]; eexists; split; [done|]; left; eauto..].
  destruct (query c _ _) as [[v ws]|e] eqn:Hq; intros; simplify_eq; (split; [done|]);
    (eexists; split; [done|]); [right|left]; eauto 10.
Qed.

Lemma exec_outside c f now d r t' d' :
  exec c f now d None = (r, t', d') ->
  t' = None /\ (d' = d \/ exists v ws, query c now d = Ok (v, ws) /\ d' = apply_writes ws d).
Proof. unfold exec. destruct f, (query c now d) as [[v ws]|e]; intros; simplify_eq; eauto 10. Qed.

Lemma query_quiet c now d v ws : query c now d = Ok (v, ws) -> quiet c = true -> ws = [].
Proof. intros Hq Hc. destruct c; try done; simpl in *; repeat case_match; by simplify_eq. Qed.

Lemma query_harmless c now d v ws :
  query c now d = Ok (v, ws) -> ~ touches m c -> (forall hh, c <> QDeleteMfa m hh) -> Forall (harmless m) ws.
Proof.
  intros Hq Hc Hd. destruct c; simpl in *; repeat case_match; simplify_eq/=;
    try (apply insert_row_writes in Hq; subst); try (apply one_row_writes in Hq as [->| ->]);
    repeat constructor; simpl; try done; intros ->; by eapply Hd.
Qed.

Lemma query_code c now d v ws id r :
  query c now d = Ok (v, ws) -> WCode id r ∈ ws -> LCode id ∈ takes c d.
Proof.
  intros Hq Hw. destruct c; simpl in *; repeat case_match; simplify_eq/=;
    try (apply insert_row_writes in Hq; subst); try (apply one_row_writes in Hq as [->| ->]); set_solver.
Qed.

(** One statement, stage by stage. *)
Definition more (u : tx) (ws : list write) (ls : list lock) : tx :=
  mkTx (t_now u) (t_pending u ++ ws) (t_locks u ++ ls) false.

Lemma holds_more d u ws ls : holds_row d u -> holds_row d (more u ws ls).
Proof. intros [? ?]. split; [|done]. simpl. set_solver. Qed.
Hint Resolve holds_more : core.

Lemma pend_more st d u ls : pend_ok st d u -> pend_ok st d (more u [] ls).
Proof. destruct st; simpl; rewrite ?app_nil_r; unfold holds_row; simpl; set_solver. Qed.

Lemma pend_written st d u ws ls :
  st = Plain \/ st = Other \/ st = Resetting -> pend_ok st d u -> Forall (harmless m) ws ->
  pend_ok (written st) d (more u ws ls).
Proof.
  intros [->|[->| ->]] Hp Hws; simpl in *.
  - by rewrite Hp.
  - by apply Forall_app.
  - destruct Hp as [Hp Hrow]. split; [|auto]. apply Forall_app. split; [done|]. eapply Forall_impl; [done|]. eauto.
Qed.

Lemma pend_select d u hh ls :
  pend_ok Plain d u -> query (QSelectMfaForUpdate m) (t_now u) (view d (Some u)) = Ok (Some (hh, None), ls) ->
  pend_ok Saw d (more u [] (takes (QSelectMfaForUpdate m) (view d (Some u)))).
Proof.
  simpl. intros -> Hq. cbn in *. destruct (mfa d !! m) as [row|] eqn:Hm; simplify_eq/=.
  split; [done|]. split; [simpl; set_solver|]. by exists row.
Qed.

Lemma pend_confirm d u ls : pend_ok Saw d u -> pend_ok Marked d (more u [WMfaConfirm m (t_now u)] ls).
Proof. intros [Hp Hrow]. split; [simpl; by rewrite Hp|auto]. Qed.

Lemma pend_secret d u s ls : pend_ok Saw d u -> pend_ok Resetting d (more u [WMfaSecret m s (t_now u)] ls).
Proof. intros [Hp Hrow]. split; [simpl; rewrite Hp; apply Forall_singleton; eauto|auto]. Qed.

Lemma pend_clear d u ls : pend_ok Marked d u -> pend_ok (Cleared []) d (more u [WCodesDelete m] ls).
Proof.
  intros [Hp Hrow]. split; [simpl; by rewrite Hp|]. split_and!; [by auto|constructor|].
  intros id r Hid. simpl in Hid. set_solver.
Qed.

Lemma pend_insert d u id h l v ws ls :
  pend_ok (Cleared l) d u -> query (QInsertCode id m h) (t_now u) (view d (Some u)) = Ok (v, ws) ->
  pend_ok (Cleared (l ++ [(id, h)])) d (more u ws ls).
Proof.
  intros (Hp & Hrow & Hnd & Hf) Hq. simpl in Hq. rewrite Hp in Hq.
  destruct (codes (apply_writes (confirm_writes m (t_now u) l) d) !! id) eqn:Hid; [done|].
  apply insert_row_writes in Hq as ->.
  destruct (confirm_writes_fresh m _ _ _ _ Hnd Hf (proj2 Hrow) Hid) as [Hnew Hmine].
  split_and!; [| |rewrite fmap_app; apply NoDup_app; split_and!; [done|set_solver|apply NoDup_singleton]|].
  - simpl. rewrite Hp. unfold confirm_writes, code_writes. by rewrite fmap_app.
  - auto.
  - intros id' r. rewrite fmap_app, elem_of_app. intros [Hin|Hin%list_elem_of_singleton]; [by apply Hf|].
    simpl in Hin. subst id'. apply Hmine.
Qed.

(** The statements go through [exec]; the rest is transaction control and the
    environment. *)
Definition statement (c : call) : bool :=
  match c with QBegin | QCommit | QRollback | ENow | EFresh | ERand _ | EEntropy => false | _ => true end.

Lemma after_idle st c r : idle st -> statement c = true -> after m st c r = st.
Proof. intros Hst Hc. by destruct st, c. Qed.

Lemma after_inside st c r : ~ idle st -> statement c = true -> ~ idle (after m st c r).
Proof.
  intros Hst Hc. destruct st, c; try done; simpl in *; try tauto; repeat case_match; simpl; tauto.
Qed.

(** What one call of a process does, for the process itself: the database stands
    and the next stage holds; or a statement outside transactions took effect, and
    was harmless; or the transaction committed. *)
Definition call_outcome (st : stage) (c : call) (d : DB) (t : option tx) (st' : stage) (t' : option tx) (d' : DB) : Prop :=
  (d' = d /\ stage_ok st' d t' /\ forall l, st' = Won l -> st = Won l) \/
  (t = None /\ t' = None /\ st' = st /\ exists now v ws, query c now d = Ok (v, ws) /\ d' = apply_writes ws d /\
     Forall (harmless m) ws) \/
  (exists u, t = Some u /\ pend_ok st d u /\ st <> Marked /\ t' = None /\ d' = apply_writes (t_pending u) d /\
     (st' = Out \/ exists l, st = Cleared l /\ st' = Won l)).

Lemma pend_stmt st c d u v ws ls :
  query c (t_now u) (view d (Some u)) = Ok (v, ws) -> (forall hh, c <> QDeleteMfa m hh) ->
  st = Plain \/ st = Other \/ st = Resetting -> may m st c -> pend_ok st d u ->
  pend_ok (written st) d (more u ws ls).
Proof.
  intros Hq Hd Hst Hmay Hp. apply pend_written; [done..|]. eapply query_harmless; [done| |done].
  by destruct Hst as [->|[->| ->]].
Qed.

Lemma stage_stmt st c o now d u r t' d' :
  pend_ok st d u -> statement c = true -> may m st c -> (forall hh, c <> QDeleteMfa m hh) ->
  serve c o now d (Some u) = (r, t', d') -> d' = d /\ stage_ok (after m st c r) d t'.
Proof.
  intros Hp Hc Hmay Hd E.
  assert (~ idle st) as Hin by (intros ?; by destruct st).
  destruct c; try done; cbn [serve] in E;
    apply exec_inside in E as (-> & u' & -> & [[[e ->] Ha]|(v & ws & -> & _ & Hq & ->)]);
    (split; [done|]); try (by apply stage_aborted; [apply after_inside|]).
  all: apply stage_made; try (pose proof (query_quiet _ _ _ _ _ Hq eq_refl) as ->).
  all: match type of Hq with query ?c _ _ = _ =>
    change (mkTx _ _ _ false) with (more u ws (takes c (view d (Some u)))) ||
    change (mkTx _ _ _ false) with (more u [] (takes c (view d (Some u)))) end.
  all: try (by apply (pend_more st)).
  all: destruct st; try done; try (by eapply (pend_stmt Plain); eauto); try (by eapply (pend_stmt Other); eauto);
    try (by eapply (pend_stmt Resetting); eauto); simpl in Hmay; try subst;
    try exact (pend_more _ _ _ _ Hp).
  - destruct v as [[hh [c|]]|]; try exact (pend_more Plain _ _ _ Hp). cbn [after].
    case_decide as Hm; [subst m0; by eapply pend_select|exact (pend_more Plain _ _ _ Hp)].
  - simpl in Hq. case_match; simplify_eq. by apply pend_secret.
  - simpl in Hq. simplify_eq. by apply pend_confirm.
  - simpl in Hq. simplify_eq. by apply pend_clear.
  - by eapply pend_insert.
Qed.

(** One call of a process, whatever its stage. *)
Lemma stage_serve st c o now d t r t' d' :
  stage_ok st d t -> may m st c -> (forall hh, c <> QDeleteMfa m hh) -> serve c o now d t = (r, t', d') ->
  call_outcome st c d t (after m st c r) t' d'.
Proof.
  intros Hst Hmay Hd E. unfold call_outcome. destruct t as [u|].
  - pose proof (stage_inside _ _ _ Hst) as Hin. destruct (statement c) eqn:Hc.
    + left. destruct (t_aborted u) eqn:Ha.
      * assert (d' = d /\ stage_ok (after m st c r) d t') as [-> Hs]; [|split_and!; try done].
        { pose proof (after_inside st c r Hin Hc). destruct c; try done; cbn [serve] in E; unfold exec in E;
            rewrite Ha in E; simplify_eq; (split; [done|by apply stage_aborted]). }
        intros l Hl. by destruct (after_inside st c r Hin Hc); rewrite Hl.
      * destruct (stage_stmt st c o now d u r t' d') as [-> Hs]; eauto using stage_pending.
        split_and!; try done. intros l Hl. by destruct (after_inside st c r Hin Hc); rewrite Hl.
    + destruct c; try done; cbn [serve] in E; simplify_eq; try (left; split_and!; [done|done|by intros l]).
      * cbn in E. simplify_eq. left. by split_and!.
      * destruct (commit_tx (o_fault o) d (Some u)) as [r0 d0] eqn:Hcm. simplify_eq. cbn in Hcm.
        assert (after m st QCommit (@Err call_error (value QCommit) Infra) = Out) as Hout by (by destruct st).
        destruct (t_aborted u) eqn:Ha; [simplify_eq; left; setoid_rewrite Hout; by split_and!|].
        pose proof (stage_pending _ _ _ Hst Ha) as Hp.
        assert (st <> Marked) as Hne by (by intros ->).
        destruct (o_fault o); simplify_eq.
        -- right; right. exists u. split_and!; try done. destruct st; eauto.
        -- left. setoid_rewrite Hout. by split_and!.
        -- right; right. exists u. split_and!; try done. by left.
      * left. cbn [after]. destruct st; try done; by destruct Hin.
  - assert (idle st) as Hidle by (destruct st; simpl in *; naive_solver).
    destruct (statement c) eqn:Hc.
    + rewrite (after_idle _ _ _ Hidle Hc).
      assert (t' = None /\ (d' = d \/ exists v ws, query c now d = Ok (v, ws) /\ d' = apply_writes ws d)) as [-> Hd'].
      { destruct c; try done; cbn [serve] in E; exact (exec_outside _ _ _ _ _ _ _ E). }
      destruct Hd' as [->|(v & ws & Hq & ->)]; [left; by split_and!|].
      right; left. split_and!; try done. exists now, v, ws. split_and!; try done.
      eapply query_harmless; [done| |done]. by destruct st.
    + left. destruct c; try done; cbn [serve] in E; simplify_eq; try (by split_and!).
      * destruct (o_fault o); cbn in E; simplify_eq; cbn [after is_ok]; split_and!; try done.
        simpl. eauto.
      * cbn in E. simplify_eq. cbn [after is_ok]. by destruct st.
      * cbn [after]. by destruct st.
Qed.
End stages.

(** ** The invariant of every run *)

Lemma cleared_or `{UuidLib} st : (exists l, st = Cleared l) \/ forall l, st <> Cleared l.
Proof. destruct st; eauto; by right. Qed.

Section machine.
Context `{UuidLib, Postgres} {A : Type}.
Variables (m : Uuid) (Q : nat -> A -> stage -> Prop).
Implicit Types (s : Store A).

Record confirm_inv (g : nat -> stage) (s : Store A) : Prop := mkConfirm {
  ci_stage : forall p pr, s_procs s !! p = Some pr ->
    guards m (Q p) (g p) (p_prog pr) /\ stage_ok m (g p) (s_db s) (p_tx pr);
  ci_locks : forall p q pr qr l, p <> q -> s_procs s !! p = Some pr -> s_procs s !! q = Some qr ->
    l ∈ held pr -> l ∈ held qr -> False;
  ci_codes : forall p pr u id r, s_procs s !! p = Some pr -> p_tx pr = Some u ->
    WCode id r ∈ t_pending u -> LCode id ∈ t_locks u;
  ci_won : forall p l, g p = Won l -> confirmed m (s_db s) /\ on_file m l (s_db s);
  ci_one : forall p q l l', g p = Won l -> g q = Won l' -> p = q
}.

Definition moved (g : nat -> stage) (p : nat) (st : stage) : nat -> stage :=
  fun q => if decide (q = p) then st else g q.

(** What a database change by [p] leaves to the other processes: the enrolment of
    those that hold its lock, and their codes' ids. *)
Definition respects (p : nat) (g : nat -> stage) s (d' : DB) : Prop :=
  forall q qr u, q <> p -> s_procs s !! q = Some qr -> p_tx qr = Some u -> t_aborted u = false ->
    pend_ok m (g q) (s_db s) u -> pend_ok m (g q) d' u.

Lemma stage_respects p g s d' q qr :
  respects p g s d' -> q <> p -> s_procs s !! q = Some qr ->
  stage_ok m (g q) (s_db s) (p_tx qr) -> stage_ok m (g q) d' (p_tx qr).
Proof.
  intros Hr Ho Hq Hst. destruct (p_tx qr) as [u|] eqn:Hu; [|destruct (g q); simpl in *; naive_solver].
  destruct (t_aborted u) eqn:Ha.
  - apply stage_aborted; [by eapply stage_inside|done].
  - apply stage_made. eapply Hr; try done. by apply stage_pending.
Qed.

Lemma ci_replace g s p pr pr' st' d' :
  confirm_inv g s -> s_procs s !! p = Some pr ->
  guards m (Q p) st' (p_prog pr') -> stage_ok m st' d' (p_tx pr') ->
  (forall q qr l, q <> p -> s_procs s !! q = Some qr -> l ∈ held pr' -> l ∉ held qr) ->
  (forall u id r, p_tx pr' = Some u -> WCode id r ∈ t_pending u -> LCode id ∈ t_locks u) ->
  respects p g s d' ->
  (forall q l, moved g p st' q = Won l -> confirmed m d' /\ on_file m l d') ->
  (forall q l l', q <> p -> st' = Won l -> g q <> Won l') ->
  confirm_inv (moved g p st') (mkStore d' (s_now s) (<[p := pr']> (s_procs s))).
Proof.
  intros Hinv Hp Hg Hst Hlk Hco Hr Hwon Hone. split; simpl.
  - intros q qr [[<- <-]|[Hne Hq]]%lookup_insert_Some; unfold moved; [by rewrite decide_True|].
    rewrite decide_False by done. destruct (ci_stage _ _ Hinv _ _ Hq) as [? ?].
    split; [done|]. by eapply stage_respects.
  - intros q1 q2 r1 r2 l Hne [[<- <-]|[Hn1 H1]]%lookup_insert_Some [[<- <-]|[Hn2 H2]]%lookup_insert_Some Hl1 Hl2;
      [done|by eapply (Hlk q2)|by eapply (Hlk q1)|by eapply (ci_locks _ _ Hinv q1 q2)].
  - intros q qr u id r [[<- <-]|[Hne Hq]]%lookup_insert_Some; [by apply Hco|by eapply ci_codes].
  - done.
  - intros q1 q2 l l'. unfold moved.
    destruct (decide (q1 = p)) as [->|H1], (decide (q2 = p)) as [->|H2]; intros E1 E2;
      [done|by destruct (Hone q2 l l')|by destruct (Hone q1 l' l)|by eapply ci_one].
Qed.

(** A harmless change, or a new secret, under locks no other process holds. *)
Definition soft (w : write) : Prop := harmless m w \/ exists secret now, w = WMfaSecret m secret now.

Lemma soft_unconfirmed w d : soft w -> unconfirmed m d -> unconfirmed m (apply_write w d).
Proof.
  intros [Hw|(secret & now & ->)]; [by apply harmless_unconfirmed|]. intros (r & Hr & Hc).
  unfold unconfirmed. simpl. rewrite lookup_alter_eq, Hr. by eexists.
Qed.

Lemma soft_respects p g s ws :
  confirm_inv g s -> Forall soft ws ->
  (forall q qr id r, q <> p -> s_procs s !! q = Some qr -> WCode id r ∈ ws -> LCode id ∉ held qr) ->
  respects p g s (apply_writes ws (s_db s)).
Proof.
  intros Hinv Hws Hids q qr u Hne Hq Hu Ha Hp.
  assert (unconfirmed m (s_db s) -> unconfirmed m (apply_writes ws (s_db s))) as Hun.
  { generalize (s_db s). clear -Hws. induction Hws as [|w ws Hw Hws IH]; intros d Hd; [done|].
    simpl. by apply IH, soft_unconfirmed. }
  assert (forall l, g q = Cleared l -> free m l (s_db s) -> free m l (apply_writes ws (s_db s))) as Hfr.
  { intros l Hl Hf. rewrite Hl in Hp. destruct Hp as (Hpend & _).
    assert (forall id r, WCode id r ∈ ws -> id ∉ l.*1) as Hout.
    { intros id r Hin ([id' h] & -> & Hl')%list_elem_of_fmap. apply (Hids q qr id' r Hne Hq Hin).
      unfold held. rewrite Hu. eapply (ci_codes _ _ Hinv q qr u id' (mkCode m h None (t_now u))); try done.
      rewrite Hpend. do 2 right. apply list_elem_of_fmap. by exists (id', h). }
    revert Hout Hf. generalize (s_db s). clear. induction ws as [|w ws IH]; intros d Hout Hf; [done|].
    simpl. apply IH; [intros; apply (Hout _ r); set_solver|]. apply write_free; [|done].
    intros id r ->. apply (Hout id r). set_solver. }
  destruct (g q) eqn:Hg; simpl in *; unfold holds_row in *; naive_solver.
Qed.

Lemma won_harmless ws d l :
  Forall (harmless m) ws -> confirmed m d /\ on_file m l d ->
  confirmed m (apply_writes ws d) /\ on_file m l (apply_writes ws d).
Proof.
  intros Hws. revert d. induction Hws as [|w ws Hw Hws IH]; intros d [Hc Hl]; [done|].
  simpl. apply IH. split; [by apply harmless_confirmed|by apply harmless_on_file].
Qed.

(** The locks and the codes a call adds to a transaction. *)
Lemma served_held c t d t' d' u' :
  served c t d t' d' -> t' = Some u' ->
  (forall l, l ∈ t_locks u' -> (exists u, t = Some u /\ l ∈ t_locks u) \/ l ∈ takes c (view d t)) /\
  ((forall u id r, t = Some u -> WCode id r ∈ t_pending u -> LCode id ∈ t_locks u) ->
   forall id r, WCode id r ∈ t_pending u' -> LCode id ∈ t_locks u').
Proof.
  intros [|u Hu|now Hc Hu|Hend|u Hc Hu|now v ws Hu Hq|u v ws Hu Ha Hq] E; simplify_eq/=; split; intros; eauto;
    try (left; by eexists); try set_solver.
  match goal with Hl : _ ∈ _ ++ _ |- _ => apply elem_of_app in Hl as [?|?] end; apply elem_of_app; [eauto|].
  right. by eapply query_code.
Qed.

(** Only one process can hold the enrolment's lock. *)
Lemma row_held_once g s p q pr qr u v :
  confirm_inv g s -> p <> q -> s_procs s !! p = Some pr -> s_procs s !! q = Some qr ->
  p_tx pr = Some u -> p_tx qr = Some v -> LMfa m ∈ t_locks u -> LMfa m ∈ t_locks v -> False.
Proof.
  intros Hinv Hne Hp Hq Hu Hv Hlu Hlv. eapply (ci_locks _ _ Hinv p q pr qr); [done..| |]; unfold held;
    by rewrite ?Hu, ?Hv.
Qed.

(** A commit of a confirmation: nobody had won, and its codes are on file. *)
Lemma commit_cleared g s p pr u l :
  confirm_inv g s -> s_procs s !! p = Some pr -> p_tx pr = Some u -> g p = Cleared l -> pend_ok m (Cleared l) (s_db s) u ->
  respects p g s (apply_writes (t_pending u) (s_db s)) /\
  confirmed m (apply_writes (t_pending u) (s_db s)) /\ on_file m l (apply_writes (t_pending u) (s_db s)) /\
  forall q l', g q <> Won l'.
Proof.
  intros Hinv Hp Hu Hg (Hpend & [Hlk Hun] & Hnd & Hf).
  destruct (confirm_writes_done m (t_now u) l (s_db s) Hun Hnd Hf) as [Hc Hon]. rewrite Hpend.
  split_and!; try done.
  - intros q qr v Hne Hq Hv Ha Hst. destruct (g q) eqn:Hgq; try done;
      exfalso; eapply (row_held_once g s p q pr qr u v); try done; simpl in Hst; unfold holds_row in Hst; naive_solver.
  - intros q l' Hw. destruct (ci_won _ _ Hinv q l' Hw) as [Hc' _]. by eapply confirmed_not.
Qed.

(** Any other commit touches nothing that was won. *)
Lemma commit_other g s p pr u :
  confirm_inv g s -> s_procs s !! p = Some pr -> p_tx pr = Some u -> pend_ok m (g p) (s_db s) u ->
  g p <> Marked -> (forall l, g p <> Cleared l) ->
  respects p g s (apply_writes (t_pending u) (s_db s)) /\
  forall q l, g q = Won l -> confirmed m (apply_writes (t_pending u) (s_db s)) /\
    on_file m l (apply_writes (t_pending u) (s_db s)).
Proof.
  intros Hinv Hp Hu Hst Hm Hc.
  assert (Forall soft (t_pending u) /\ (Forall (harmless m) (t_pending u) \/ unconfirmed m (s_db s))) as [Hs Hh].
  { destruct (g p); simpl in Hst; unfold holds_row in Hst; try done; try (by destruct (Hc l)).
    - rewrite Hst. split; [constructor|by left; constructor].
    - destruct Hst as [-> ?]. split; [constructor|by left; constructor].
    - destruct Hst as [? [_ ?]]. eauto.
    - split; [|by left]. eapply Forall_impl; [done|]. by left. }
  split.
  - apply soft_respects; [done..|]. intros q qr id r Hne Hq Hin Hl.
    eapply (ci_locks _ _ Hinv p q pr qr); try done. unfold held. rewrite Hu. by eapply (ci_codes _ _ Hinv p).
  - intros q l Hq. pose proof (ci_won _ _ Hinv q l Hq) as Hwon. destruct Hh as [Hh|Hun]; [by apply won_harmless|].
    destruct (confirmed_not m (s_db s)); tauto.
Qed.

Lemma ci_call g s p t c k o r t' d' :
  confirm_inv g s -> s_procs s !! p = Some (mkProc t (Call c k)) ->
  serve c o (s_now s) (s_db s) t = (r, t', d') -> blocked p (takes c (view (s_db s) t)) s = false ->
  (forall hh, c <> QDeleteMfa m hh) ->
  confirm_inv (moved g p (after m (g p) c r)) (mkStore d' (s_now s) (<[p := mkProc t' (k r)]> (s_procs s))).
Proof.
  intros Hinv Hp Hs Hb Hd. destruct (ci_stage _ _ Hinv _ _ Hp) as [[Hmay Hk] Hst]. simpl in Hmay, Hk, Hst.
  assert (forall q l, q <> p -> moved g p (after m (g p) c r) q = Won l -> g q = Won l) as Hother
    by (intros q l Hq; unfold moved; by rewrite decide_False).
  assert (moved g p (after m (g p) c r) p = after m (g p) c r) as Hself by (unfold moved; by rewrite decide_True).
  pose proof (serve_served _ _ _ _ _ _ _ _ Hs) as Hsv.
  assert (respects p g s d' /\ stage_ok m (after m (g p) c r) d' t' /\
    (forall q l, moved g p (after m (g p) c r) q = Won l -> confirmed m d' /\ on_file m l d') /\
    (forall q l l', q <> p -> after m (g p) c r = Won l -> g q <> Won l')) as (Hr & Hst' & Hwon & Hone).
  { destruct (stage_serve m _ _ _ _ _ _ _ _ _ Hst Hmay Hd Hs)
      as [(-> & Hok & Hw)|[(-> & -> & Hsame & now & v & ws & Hq & -> & Hws)|(u & -> & Hpend & Hnm & -> & -> & Hend)]].
    - split_and!; [by intros q qr u ? ? ? ?|done| |].
      + intros q l. destruct (decide (q = p)) as [->|Hne]; [rewrite Hself; intros Hl; by eapply ci_won, Hw|].
        intros Hl. by eapply ci_won, Hother.
      + intros q l l' Hne Hl Hl'. apply Hne. eapply ci_one; [done|exact Hl'|by apply Hw].
    - rewrite Hsame in *. split_and!.
      + apply soft_respects; [done|eapply Forall_impl; [done|by left]|].
        intros q qr id row Hne Hqr Hin. eapply (blocked_false p); [done..|]. by eapply query_code.
      + destruct (g p); simpl in *; naive_solver.
      + intros q l Hl. apply won_harmless; [done|]. eapply ci_won; [done|].
        destruct (decide (q = p)) as [->|Hne]; [by rewrite <- Hself|by apply Hother].
      + intros q l l' Hne Hl Hl'. apply Hne. by eapply ci_one.
    - destruct (cleared_or (g p)) as [[l Hg]|Hnc].
      + rewrite Hg in Hpend. destruct (commit_cleared g s p _ u l Hinv Hp eq_refl Hg Hpend) as (Hr & Hc & Hon & Hno).
        split_and!; try done.
        * destruct Hend as [->|(l' & _ & ->)]; done.
        * intros q l' Hl. destruct (decide (q = p)) as [->|Hne]; [|by destruct (Hno q l'); apply Hother].
          rewrite Hself in Hl. destruct Hend as [E|(l0 & Hg0 & E)]; rewrite E in Hl; [done|]. split; [done|]. congruence.
      + destruct Hend as [Hout|(l & Hg & _)]; [|by destruct (Hnc l)].
        destruct (commit_other g s p _ u Hinv Hp eq_refl Hpend Hnm Hnc) as [Hr Hw].
        rewrite Hout in *. split_and!; try done. intros q l Hl. apply (Hw q).
        apply Hother; [|done]. intros ->. by rewrite Hself in Hl. }
  eapply ci_replace; try done.
  - intros q qr l Hne Hqr Hl. unfold held in Hl. simpl in Hl. destruct t' as [u'|] eqn:Ht'; [|set_solver].
    destruct (proj1 (served_held _ _ _ _ _ u' Hsv eq_refl) l Hl) as [(u & -> & Hlu)|Hlt].
    + intros Hl2. eapply (ci_locks _ _ Hinv p q); eauto.
    + by eapply (blocked_false p).
  - intros u id row Hu. simpl in Hu. apply (proj2 (served_held _ _ _ _ _ u Hsv Hu)).
    intros u0 id0 r0 -> Hin. by eapply (ci_codes _ _ Hinv p).
Qed.

Definition deletes (e : event) : Prop := let '(Ev _ c _) := e in exists hh, c = QDeleteMfa m hh.

Lemma ci_step g s mv :
  confirm_inv g s -> Forall (fun e => ~ deletes e) (step mv s).1 -> exists g', confirm_inv g' (step mv s).2.
Proof.
  intros Hinv Hd. destruct mv as [p o|p|d].
  - destruct (s_procs s !! p) as [[t [a|c k]]|] eqn:Hp; [by exists g; simpl; rewrite Hp| |by exists g; simpl; rewrite Hp].
    destruct (step_run p o s t c k Hp) as [E|(r & t' & d' & Hs & Hb & E)]; rewrite E in *; [by exists g|].
    eexists. eapply ci_call; try done. intros hh ->. simpl in Hd. apply Forall_cons_1 in Hd as [Hd _]. apply Hd. by exists hh.
  - exists g. split; simpl; intros *; rewrite ?lookup_delete_Some.
    + intros [_ Hq]. by apply (ci_stage _ _ Hinv).
    + intros Hne [_ H1] [_ H2]. by eapply (ci_locks _ _ Hinv).
    + intros [_ Hq]. by eapply (ci_codes _ _ Hinv).
    + apply (ci_won _ _ Hinv).
    + apply (ci_one _ _ Hinv).
  - exists g. by destruct Hinv.
Qed.

Lemma ci_start d now (ps : gmap nat (prog A)) :
  (forall p c, ps !! p = Some c -> guards m (Q p) Out c) -> confirm_inv (fun _ => Out) (start d now ps).
Proof.
  intros Hps. split; simpl; try done; intros *; rewrite ?lookup_fmap_Some.
  - intros (c & <- & Hc). split; [by apply Hps|done].
  - intros _ (c & <- & Hc). set_solver.
  - by intros (c & <- & Hc).
Qed.

(** Every run without a deletion of [m]'s enrolment. *)
Lemma confirm_run d now (ps : gmap nat (prog A)) ms :
  (forall p c, ps !! p = Some c -> guards m (Q p) Out c) ->
  Forall (fun e => ~ deletes e) (run ms (start d now ps)).1 ->
  exists g, confirm_inv g (run ms (start d now ps)).2.
Proof.
  intros Hps. apply (run_invariant (fun es s => Forall (fun e => ~ deletes e) es -> exists g, confirm_inv g s)) with (es := []).
  - intros es s mv IH [Hes Hes']%Forall_app. destruct (IH Hes) as [g Hg]. by eapply ci_step.
  - intros _. eexists. by apply ci_start.
Qed.
End machine.

(** Two confirmations that both answered with codes are one. *)
Lemma confirm_pair `{UuidLib, Postgres, TotpLib, SecretCipher, PasswordHasher}
    (ps : gmap nat (P (list string))) d now ms m p q hh hh' code code' :
  (forall i c, ps !! i = Some c -> guarded m c) ->
  ps !! p = Some (ConfirmEnrollment m hh code) -> ps !! q = Some (ConfirmEnrollment m hh' code') ->
  Forall (fun e => ~ deletes m e) (run ms (start d now ps)).1 ->
  forall t t' raws raws', s_procs (run ms (start d now ps)).2 !! p = Some (mkProc t (Ret (Ok raws))) ->
  s_procs (run ms (start d now ps)).2 !! q = Some (mkProc t' (Ret (Ok raws'))) ->
  q = p /\ confirmed m (s_db (run ms (start d now ps)).2) /\
  exists l, length raws = recoveryCodeCount /\ Forall2 hashed raws l /\ on_file m l (s_db (run ms (start d now ps)).2).
Proof.
  intros Hps Hp Hq Hdel t t' raws raws' Hep Heq.
  destruct (confirm_run m (fun i r st => i = p \/ i = q -> shown r st) d now ps ms) as [g Hinv]; [|done|].
  - intros i c Hi. destruct (decide (i = p \/ i = q)) as [Hpq|Hne].
    + eapply (guards_mono _ shown); [done|]. destruct Hpq as [->| ->].
      * assert (Some c = Some _) as [= ->] by (exact (eq_trans (eq_sym Hi) Hp)). apply ConfirmEnrollment_shows.
      * assert (Some c = Some _) as [= ->] by (exact (eq_trans (eq_sym Hi) Hq)). apply ConfirmEnrollment_shows.
    + eapply guards_mono; [|by apply (Hps i c Hi Out)]. naive_solver.
  - destruct (ci_stage _ _ _ _ Hinv _ _ Hep) as [Hsp _], (ci_stage _ _ _ _ Hinv _ _ Heq) as [Hsq _].
    simpl in Hsp, Hsq.
    destruct (Hsp (or_introl eq_refl) raws eq_refl) as (Hlen & l & Hgp & Hl).
    destruct (Hsq (or_intror eq_refl) raws' eq_refl) as (_ & l' & Hgq & _).
    destruct (ci_won _ _ _ _ Hinv p l Hgp) as [Hc Hon].
    split; [by eapply (ci_one _ _ _ _ Hinv)|]. split; [done|]. by exists l.
Qed.

(** C4. Take any run of programs that follow the confirmation protocol ([guarded]; the
    MFA operations [BeginEnrollment], [ConfirmEnrollment], [VerifyLoginCode] and
    [Disenroll] do, by the lemmas above), however their calls interleave, fail or lose
    their replies, in which no statement deletes [m]'s enrolment: two [ConfirmEnrollment] calls never both answer with recovery
    codes; and once one has, the enrolment is confirmed and [m]'s codes on file are
    exactly the ten it answered with, each hashed under its salt. *)
Theorem confirm_single_winner `{UuidLib, Postgres, TotpLib, SecretCipher, PasswordHasher}
    (ps : gmap nat (P (list string))) (d : DB) (now : Z) (ms : list move) (m : Uuid) (p : nat)
    (hh : Uuid) (code : string) :
  (forall i c, ps !! i = Some c -> guarded m c) ->
  ps !! p = Some (ConfirmEnrollment m hh code) ->
  let '(tr, s) := run ms (start d now ps) in
  (forall i hh r, ~ Ev i (QDeleteMfa m hh) r ∈ tr) ->
  forall t raws, s_procs s !! p = Some (mkProc t (Ret (Ok raws))) ->
  confirmed m (s_db s) /\
  (exists l, length l = recoveryCodeCount /\ Forall2 hashed raws l /\ NoDup l.*1 /\
     forall id h, code_of m (s_db s) id = Some h <-> (id, h) ∈ l) /\
  forall q hh' code' t' raws', ps !! q = Some (ConfirmEnrollment m hh' code') ->
    s_procs s !! q = Some (mkProc t' (Ret (Ok raws'))) -> q = p.
Proof.
  intros Hps Hp. destruct (run ms (start d now ps)) as [tr s] eqn:Hrun. intros Hdel t raws Hend.
  assert (Forall (fun e => ~ deletes m e) tr) as Hd.
  { apply Forall_forall. intros [i c r] Hin [hh' ->]. by eapply Hdel. }
  pose proof (fun q hh' code' => confirm_pair ps d now ms m p q hh hh' code code' Hps Hp) as Hpair.
  rewrite Hrun in Hpair. simpl in Hpair.
  destruct (Hpair p hh code Hp Hd t t raws raws Hend Hend) as (_ & Hc & l & Hlen & Hl & Hnd & Hon).
  split; [done|]. split.
  - exists l. split_and!; try done. by rewrite <- (Forall2_length _ _ _ Hl).
  - intros q hh' code' t' raws' Hq Hendq. by destruct (Hpair q hh' code' Hq Hd t t' raws raws' Hend Hendq).
Qed.

(** ** Witness: two confirmations race, one is refused *)

Module ConfirmWitness.
Import HexUuid MembersWitness MfaWitness.

Definition unconfirmed_db : DB :=
  mkDB (households two_owners) (members two_owners)
    {[ uid 1 := mkMfa (uid 0) "secret" None None 0 0 ]} {[ uid 5 := mkCode (uid 1) "OLD" None 0 ]} ∅.
Definition confirmations : gmap nat (P (list string)) :=
  {[ 1%nat := ConfirmEnrollment (uid 1) (uid 0) "100"; 2%nat := ConfirmEnrollment (uid 1) (uid 0) "100" ]}.
Definition at_code (k : nat) : oracle := mkOracle Fine (uid k) demo_bytes.
Definition times (n : nat) (mv : move) : list move := repeat mv n.

(** Both have read the enrolment; the first takes the row lock, the second waits
    for it until the first has committed. *)
Definition race : list move :=
  times 23 (Run 2 (at_code 0)) ++ times 24 (Run 1 (at_code 0)) ++ times 3 (Run 2 (at_code 0)) ++
  times 2 (Run 1 (at_code 0)) ++ (seq 6 10 ≫= fun k => times 2 (Run 1 (at_code k))) ++
  times 2 (Run 1 (at_code 0)) ++ times 2 (Run 2 (at_code 0)).

Definition outcome (i : nat) : option (result identity_error (list string)) :=
  match s_procs (run race (start unconfirmed_db demo_now confirmations)).2 !! i with
  | Some (mkProc None (Ret r)) => Some r
  | _ => None
  end.

Example race_outcomes :
  (is_ok <$> outcome 1) = Some true /\ outcome 2 = Some (Err ErrMFAAlreadyEnrolled).
Proof. vm_compute. done. Qed.

Lemma outcome_end i raws :
  outcome i = Some (Ok raws) ->
  s_procs (run race (start unconfirmed_db demo_now confirmations)).2 !! i = Some (mkProc None (Ret (Ok raws))).
Proof. unfold outcome. destruct (s_procs _ !! i) as [[[t|] [r|c k]]|]; naive_solver. Qed.

Definition erases (c : call) : bool := match c with QDeleteMfa _ _ => true | _ => false end.

Lemma confirm_single_winner_witness :
  let s := (run race (start unconfirmed_db demo_now confirmations)).2 in
  confirmed (uid 1) (s_db s) /\
  (exists raws l, outcome 1 = Some (Ok raws) /\ length l = recoveryCodeCount /\ Forall2 hashed raws l /\
     forall id h, code_of (uid 1) (s_db s) id = Some h <-> (id, h) ∈ l).
Proof.
  intros s. destruct (outcome 1) as [[raws|e]|] eqn:E;
    [|pose proof (proj1 race_outcomes) as E'; rewrite E in E'; discriminate..].
  pose proof (confirm_single_winner confirmations unconfirmed_db demo_now race (uid 1) 1 (uid 0) "100") as T.
  assert (no_call erases (run race (start unconfirmed_db demo_now confirmations)).1 = true) as Hno
    by (vm_compute; reflexivity).
  pose proof (outcome_end 1 raws E) as Hend. subst s.
  destruct (run race (start unconfirmed_db demo_now confirmations)) as [tr s].
  destruct T with (t := @None tx) (raws := raws) as (Hc & (l & Hlen & Hl & _ & Hon) & _).
  - intros i c. unfold confirmations. rewrite lookup_insert_Some, lookup_singleton_Some.
    intros [[_ <-]|[_ [_ <-]]]; apply ConfirmEnrollment_guarded.
  - reflexivity.
  - intros i hh r Hin. by pose proof (no_call_elem _ _ _ _ _ Hno Hin).
  - exact Hend.
  - split; [exact Hc|]. exists raws, l. exact (conj eq_refl (conj Hlen (conj Hl Hon))).
Defined.
End ConfirmWitness.
