(* ===== verification/CryptoSpec.v ===== *)
(** What package crypto promises: a PHC string verifies exactly the passwords that
    derive its key, at any cost and with any hasher; a ciphertext decrypts exactly
    when it was encrypted under the key. The identity services' hasher and cipher
    interfaces are built from it, and a password set through the credential
    repository logs its member in. *)

From S2P Require Import Prelude GoStrings GoEncoding Uuids IdentityDB IdentityRun.
From S2P Require Members MembersSpec Mfa.
From S2P Require Import Crypto.
Local Open Scope Z_scope.

Section phc.
Context `{CryptoLib}.

(** ** The PHC string *)

(** Text that a [%d] verb before it does not absorb, and that stays in its part. *)
Definition ignorable (j : bytes) : Prop :=
  ("$"%char ∉ j) /\ match j with [] => True | c :: _ => is_digit c = false end.

Lemma digits_no_dollar ds : forallb is_digit ds = true -> "$"%char ∉ ds.
Proof.
  rewrite forallb_forall. intros Hd Hin. apply list_elem_of_In, Hd in Hin. by vm_compute in Hin.
Qed.

Lemma numeral_no_dollar n : 0 <= n -> "$"%char ∉ FormatUint n.
Proof. intros. by apply digits_no_dollar, FormatUint_digits. Qed.

(** [phc] with text after the version and after the costs. *)
Definition phc_parts (p : Params) (salt hash : list Z) (j2 j3 : bytes) : list bytes :=
  [ []; bytes_of "argon2id"; bytes_of "v=" ++ FormatUint argon2_Version ++ j2;
    bytes_of "m=" ++ FormatUint (Memory p) ++ bytes_of ",t=" ++ FormatUint (Time p)
      ++ bytes_of ",p=" ++ FormatUint (Threads p) ++ j3;
    base64_encode salt; base64_encode hash ].

Lemma phc_join p salt hash : phc p salt hash = join_bytes "$" (phc_parts p salt hash [] []).
Proof.
  unfold phc, phc_parts, join_bytes. rewrite !app_nil_r.
  change (bytes_of "$argon2id$v=") with ("$"%char :: bytes_of "argon2id" ++ "$"%char :: bytes_of "v=").
  change (bytes_of "$m=") with ("$"%char :: bytes_of "m="). change (bytes_of "$") with ["$"%char].
  cbn [app]. by rewrite <- !app_assoc.
Qed.

Lemma phc_split p salt hash j2 j3 :
  params_ok p -> Forall is_byte salt -> Forall is_byte hash -> ignorable j2 -> ignorable j3 ->
  split_bytes "$" (join_bytes "$" (phc_parts p salt hash j2 j3)) = phc_parts p salt hash j2 j3.
Proof.
  intros (? & ? & ?) Hs Hh [Hj2 _] [Hj3 _]. apply split_join.
  assert (forall s, forallb (fun c => negb (Ascii.eqb c "$")) (bytes_of s) = true -> "$"%char ∉ bytes_of s) as Hlit.
  { intros s. rewrite forallb_forall. intros Hf Hin. by apply list_elem_of_In, Hf in Hin. }
  rewrite !Forall_cons, !not_elem_of_app. split_and!;
    first [apply Forall_nil_2|apply not_elem_of_nil|done|by apply base64_no_dollar|apply numeral_no_dollar; unfold argon2_Version; lia|by apply Hlit].
Qed.

Lemma parse_version j2 : ignorable j2 ->
  sscanf (literal "v=" ++ [Verb ToInt]) (bytes_of "v=" ++ FormatUint argon2_Version ++ j2) = Some [argon2_Version].
Proof.
  intros [_ Hj]. unfold literal. rewrite sscanf_literal. cbn [sscanf].
  by rewrite scan_FormatUint by (done || reflexivity).
Qed.

Lemma parse_costs p j3 : params_ok p -> ignorable j3 ->
  sscanf (literal "m=" ++ Verb (ToUint 32) :: literal ",t=" ++ Verb (ToUint 32)
          :: literal ",p=" ++ [Verb (ToUint 8)])
    (bytes_of "m=" ++ FormatUint (Memory p) ++ bytes_of ",t=" ++ FormatUint (Time p)
      ++ bytes_of ",p=" ++ FormatUint (Threads p) ++ j3) = Some [Memory p; Time p; Threads p].
Proof.
  intros (Ht & Hm & Hp) [_ Hj]. unfold literal, two64. rewrite sscanf_literal. cbn [sscanf].
  rewrite scan_FormatUint by (done || (unfold two64; lia) || (cbn [in_range]; lia)).
  rewrite sscanf_literal. cbn [sscanf].
  rewrite scan_FormatUint by (done || (unfold two64; lia) || (cbn [in_range]; lia)).
  rewrite sscanf_literal. cbn [sscanf].
  by rewrite scan_FormatUint by (done || (unfold two64; lia) || (cbn [in_range]; lia)).
Qed.

(** Parsing ignores what follows the version and the costs. *)
Lemma parsePHC_parts p salt hash j2 j3 :
  params_ok p -> Forall is_byte salt -> Forall is_byte hash -> ignorable j2 -> ignorable j3 ->
  parsePHC (string_of (join_bytes "$" (phc_parts p salt hash j2 j3))) = Ok (salt, hash, p).
Proof.
  intros Hp Hs Hh Hj2 Hj3. unfold parsePHC. rewrite bytes_of_string_of, phc_split by done.
  cbn [phc_parts]. rewrite !bool_decide_true by done. cbn [andb negb].
  rewrite parse_version, Z.eqb_refl, parse_costs, !base64_roundtrip by done. by destruct p.
Qed.

Lemma ignorable_nil : ignorable [].
Proof. split; [apply not_elem_of_nil|done]. Qed.

Lemma parsePHC_phc p salt hash :
  params_ok p -> Forall is_byte salt -> Forall is_byte hash ->
  parsePHC (string_of (phc p salt hash)) = Ok (salt, hash, p).
Proof. intros. rewrite phc_join. apply parsePHC_parts; auto using ignorable_nil. Qed.

Lemma Hash_spec (h : Params) (salt : list Z) (password : string) :
  params_ok h -> 1 <= Time h -> 1 <= Threads h -> Forall is_byte salt ->
  exists encoded, Hash h (Some salt) password = Ok encoded /\
    forall h' password', Verify h' password' encoded =
      Ok (bool_decide (IDKey password' salt (Time h) (Memory h) (Threads h) argonKeyLen =
                       IDKey password salt (Time h) (Memory h) (Threads h) argonKeyLen)).
Proof.
  intros Hok Ht Hp Hs. unfold Hash.
  destruct (IDKey_defined password salt (Time h) (Memory h) (Threads h) argonKeyLen Ht Hp) as (k & -> & Hkb & Hl);
    [done|]. eexists. split; [done|]. intros h' pw. unfold Verify.
  rewrite parsePHC_phc, Hl, Z.eqb_refl by done. cbn [negb].
  destruct (IDKey_defined pw salt (Time h) (Memory h) (Threads h) argonKeyLen Ht Hp) as (k' & -> & _); [done|].
  f_equal. apply bool_decide_ext. split; [by intros ->|by intros [= ->]].
Qed.

(** For a hasher with costs in range and at least one pass and one thread,
    hashing with a salt gives a PHC string. Verifying it, with any hasher, whatever
    that hasher's own costs, answers [true] for exactly the passwords that derive
    the same key under the recorded salt and costs (the original one among them)
    and [false] for the others; it never errors. *)
Theorem Hash_Verify (h : Params) (salt : list Z) (password : string) :
  params_ok h -> 1 <= Time h -> 1 <= Threads h -> Forall is_byte salt ->
  exists encoded, Hash h (Some salt) password = Ok encoded /\
    Verify h password encoded = Ok true /\
    forall h' password', Verify h' password' encoded =
      Ok (bool_decide (IDKey password' salt (Time h) (Memory h) (Threads h) argonKeyLen =
                       IDKey password salt (Time h) (Memory h) (Threads h) argonKeyLen)).
Proof.
  intros Hok Ht Hp Hs. destruct (Hash_spec h salt password Hok Ht Hp Hs) as (encoded & He & Hv).
  exists encoded. split_and!; [done| |done]. by rewrite Hv, bool_decide_true.
Qed.

(** What the package says of its test hasher: a cheaply hashed fixture verifies through the
    ordinary [Verify]. *)
Lemma fixtures_verify (salt : list Z) (password : string) : Forall is_byte salt ->
  exists encoded, Hash cryptotest_Hasher (Some salt) password = Ok encoded /\ DefaultVerify password encoded = Ok true.
Proof.
  intros Hs. destruct (Hash_spec cryptotest_Hasher salt password) as (encoded & He & Hv); try done.
  exists encoded. split; [done|]. unfold DefaultVerify. by rewrite Hv, bool_decide_true.
Qed.

(** ** AES-256-GCM *)

Lemma chr_bytes (nonce : list Z) : Forall is_byte nonce -> map byte_val (map chr nonce) = nonce.
Proof.
  intros Hn. rewrite map_map. induction Hn as [|z nonce Hz Hn IH]; [done|]. simpl. by rewrite byte_val_chr, IH.
Qed.

(** C39. Decryption succeeds on exactly the byte strings that encryption of that
    plaintext makes under some nonce of the cipher's size; everything else, too
    short, tampered with, or sealed under another key, is [ErrMalformedCiphertext]. *)
Theorem Decrypt_iff (key ciphertext plaintext : string) :
  (Decrypt key ciphertext = Ok plaintext <->
   exists nonce, Forall is_byte nonce /\ length nonce = nonceSize /\
     Encrypt key (Some nonce) plaintext = Ok ciphertext) /\
  (is_ok (Decrypt key ciphertext) = false -> Decrypt key ciphertext = Err ErrMalformedCiphertext).
Proof.
  unfold Decrypt, Encrypt. split.
  - split.
    + destruct (Nat.ltb_spec (length (bytes_of ciphertext)) nonceSize) as [|Hl]; [done|].
      destruct (open_ _ _ _) as [pt|] eqn:Ho; [|done]. intros [= ->].
      eexists. split_and!; [| |apply open_iff in Ho; rewrite <- Ho].
      * apply Forall_map, Forall_true. intros c. apply byte_val_range.
      * rewrite length_map, length_take. lia.
      * f_equal. apply bytes_of_inj. rewrite bytes_of_app, !bytes_of_string_of, map_map.
        rewrite (map_ext _ id) by (intros; apply chr_byte_val). by rewrite map_id, take_drop.
    + intros (nonce & Hb & Hn & [= <-]). rewrite bytes_of_app, bytes_of_string_of.
      rewrite length_app, length_map, Hn, (proj2 (Nat.ltb_ge _ _)) by lia.
      rewrite take_app_length', drop_app_length', chr_bytes, string_of_bytes_of by (rewrite ?length_map; done).
      by rewrite (proj2 (open_iff _ _ _ _) eq_refl).
  - repeat case_match; done.
Qed.
End phc.

(** ** The identity services' interfaces *)

Section interfaces.
Context `{CryptoLib}.

(** A panic unwinds the service's call; it is an error of the interface here. *)
#[export] Instance argon2_hasher (h : Params) : Members.PasswordHasher := {|
  Members.Hash salt password :=
    match Hash h (Some salt) password with Ok e => Some e | Err _ => None end;
  Members.Verify password encoded :=
    match Verify h password encoded with Ok b => Ok b | Err _ => Err tt end
|}.

#[export] Instance aes_cipher (key : string) : Mfa.SecretCipher := {|
  Mfa.Encrypt nonce plaintext :=
    match Encrypt key (Some nonce) plaintext with Ok c => Ok c | Err _ => Err tt end;
  Mfa.Decrypt ciphertext :=
    match Decrypt key ciphertext with Ok p => Ok p | Err _ => Err tt end
|}.

Context `{UuidLib, Postgres}.

Lemma alone_SetCredential id email hash os now d r :
  MembersSpec.calm os -> members d !! id = Some r -> email_taken d id email = false ->
  alone (Members.SetCredential id email hash) os now d None = (Ok tt, apply_writes [WCredential id email hash now] d).
Proof.
  intros Hos Hr Ht. unfold Members.SetCredential. cbn [pbind alone serve exec]. rewrite (Hos 0%nat). run_query.
  rewrite bool_decide_true by (rewrite Hr; eauto). by rewrite Ht.
Qed.

(** C18. Setting an active member's credential to the argon2id hash of a password,
    with an email nobody else has, lets that email log in as that member with
    exactly the passwords that derive the same key, whatever the costs of the
    hasher the login runs with; every other password is [ErrInvalidCredentials]. *)
Theorem password_login (h h' : Params) (salt : list Z) (a : Members.Authenticator) (id : Uuid)
    (email password : string) (os os' : nat -> oracle) (now now' : Z) (d : DB) (r : member_row) :
  params_ok h -> 1 <= Time h -> 1 <= Threads h -> Forall is_byte salt ->
  MembersSpec.calm os -> MembersSpec.calm os' ->
  members d !! id = Some r -> m_active r = true -> email_taken d id email = false ->
  exists encoded d', Hash h (Some salt) password = Ok encoded /\
    alone (Members.SetCredential id email encoded) os now d None = (Ok tt, d') /\
    forall password',
      let derive pw := IDKey pw salt (Time h) (Memory h) (Threads h) argonKeyLen in
      alone (Members.Login (H0 := argon2_hasher h') a email password') os' now' d' None =
        (if decide (derive password' = derive password) then Ok id else Err Members.ErrInvalidCredentials, d').
Proof.
  intros Hok Ht Hp Hs Hos Hos' Hr Ha Hfree.
  destruct (Hash_spec h salt password Hok Ht Hp Hs) as (encoded & He & Hv).
  eexists encoded, _. split_and!; [done|by eapply alone_SetCredential|]. intros pw derive.
  assert (members (apply_writes [WCredential id email encoded now] d) = alter (fun r => mkMember (m_household r)
    (m_name r) (m_role r) (Some email) (Some encoded) (m_active r) (m_created r) now) id (members d)) as Hm
    by reflexivity.
  destruct (MembersSpec.alone_Login (H1 := argon2_hasher h') a email pw os' now'
    (apply_writes [WCredential id email encoded now] d) Hos') as [[Hno _]|(id' & r' & e' & Hc & ->)].
  - exfalso. eapply (Hno id). split_and!; [by rewrite Hm, lookup_alter_eq, Hr|simpl; done..].
  - destruct Hc as (Hid & Hmail & _ & Hh). rewrite Hm in Hid.
    destruct (decide (id' = id)) as [->|Hne].
    + rewrite lookup_alter_eq, Hr in Hid. injection Hid as <-. injection Hh as <-.
      cbn [Members.Verify argon2_hasher]. rewrite Hv. fold (derive pw) (derive password).
      by case_decide; [rewrite bool_decide_true|rewrite bool_decide_false].
    + rewrite lookup_alter_ne in Hid by done. unfold email_taken in Hfree.
      apply bool_decide_eq_false in Hfree. destruct Hfree. by exists id', r'.
Qed.
End interfaces.

(** ** Witnesses *)

Module CryptoWitness.
Import HexUuid.
#[local] Existing Instance MembersSpec.MembersWitness.demo_pg.

(** A key is the password, the salt and zeros, cut to length; a sealed text is the
    key, the nonce and the text. *)
Definition demo_key (pw : string) (salt : list Z) (t m p n : Z) : option (list Z) :=
  if (1 <=? t) && (1 <=? p)
  then Some (take (Z.to_nat n) (map (fun z => z mod 256) (map byte_val (bytes_of pw) ++ salt) ++ replicate (Z.to_nat n) 0))
  else None.

Definition demo_prefix (key : string) (nonce : list Z) : bytes := bytes_of key ++ map chr nonce.
Definition demo_open (key : string) (nonce : list Z) (c : string) : option string :=
  let b := bytes_of c in
  let n := length (demo_prefix key nonce) in
  if decide (take n b = demo_prefix key nonce) then Some (string_of (drop n b)) else None.

#[export] Program Instance demo_crypto : CryptoLib := {|
  IDKey := demo_key;
  nonceSize := 12;
  seal key nonce pt := string_of (demo_prefix key nonce ++ bytes_of pt);
  open_ := demo_open
|}.
Next Obligation.
  intros pw salt t m p n Ht Hp Hn. unfold demo_key.
  rewrite (proj2 (Z.leb_le 1 t)), (proj2 (Z.leb_le 1 p)) by done. eexists. split_and!; [done| |].
  - apply Forall_take, Forall_app. split.
    + apply Forall_map, Forall_true. intros z. unfold is_byte. apply Z.mod_pos_bound. lia.
    + apply Forall_replicate. unfold is_byte. lia.
  - rewrite length_take, length_app, length_replicate. lia.
Qed.
Next Obligation.
  intros key nonce c pt. cbv beta. unfold demo_open. split.
  - case_decide as Ht; [|done]. intros [= <-]. apply bytes_of_inj. rewrite !bytes_of_string_of. rewrite <- Ht at 1. by rewrite take_drop.
  - intros ->. rewrite bytes_of_string_of, take_app_length, drop_app_length, string_of_bytes_of. by rewrite decide_True.
Qed.

Definition cheap : Params := cryptotest_Hasher.
Definition demo_salt : list Z := [1; 2; 3; 4; 5; 6; 7; 8; 9; 10; 11; 12; 13; 14; 15; 16].

Lemma cheap_ok : params_ok cheap.
Proof. by repeat split. Qed.
Lemma salt_ok : Forall is_byte demo_salt.
Proof. repeat constructor; done. Qed.

(** Hashed at one cost, verified by a hasher of another. *)
Lemma Hash_Verify_witness : exists encoded, Hash cheap (Some demo_salt) "secret" = Ok encoded /\
  Verify DefaultParams "secret" encoded = Ok true /\ Verify DefaultParams "wrong" encoded = Ok false.
Proof.
  destruct (Hash_Verify cheap demo_salt "secret" cheap_ok ltac:(done) ltac:(done) salt_ok) as (e & He & _ & Hv).
  exists e. split_and!; [done| |].
  - rewrite Hv. reflexivity.
  - rewrite Hv. vm_compute. reflexivity.
Defined.

Lemma Decrypt_iff_witness : exists c, Encrypt "k" (Some (take 12 demo_salt)) "token" = Ok c /\
  Decrypt "k" c = Ok "token"%string /\ Decrypt "other" c = Err ErrMalformedCiphertext.
Proof.
  exists (string_of (map chr (take 12 demo_salt)) +:+ seal "k" (take 12 demo_salt) "token"). split_and!.
  - reflexivity.
  - apply (proj1 (Decrypt_iff _ _ _)). exists (take 12 demo_salt). split_and!; [|reflexivity..].
    apply Forall_take, salt_ok.
  - apply (proj2 (Decrypt_iff _ _ "")). vm_compute. reflexivity.
Defined.

(** The password of a member is set at one cost and checked at another. *)
Lemma password_login_witness : exists d',
  alone (Members.Login (H0 := argon2_hasher DefaultParams) (Members.mkAuth "dummy") "ann@home" "secret")
    (fun _ => MembersSpec.MembersWitness.ok) 6 d' None = (Ok (MembersSpec.MembersWitness.uid 1), d') /\
  alone (Members.Login (H0 := argon2_hasher DefaultParams) (Members.mkAuth "dummy") "ann@home" "wrong")
    (fun _ => MembersSpec.MembersWitness.ok) 6 d' None = (Err Members.ErrInvalidCredentials, d').
Proof.
  destruct (password_login cheap DefaultParams demo_salt (Members.mkAuth "dummy") (MembersSpec.MembersWitness.uid 1)
    "ann@home" "secret" (fun _ => MembersSpec.MembersWitness.ok) (fun _ => MembersSpec.MembersWitness.ok) 5 6
    MembersSpec.MembersWitness.two_owners (MembersSpec.MembersWitness.owner_row "ann") cheap_ok ltac:(done)
    ltac:(done) salt_ok MembersSpec.MembersWitness.calm_ok MembersSpec.MembersWitness.calm_ok)
    as (e & d' & _ & _ & Hl); [reflexivity|reflexivity|vm_compute; reflexivity|].
  exists d'. split.
  - rewrite Hl, decide_True; reflexivity.
  - rewrite Hl, decide_False; [reflexivity|]. vm_compute. discriminate.
Defined.
End CryptoWitness.
