(* ===== verification/WebAuthn.v ===== *)
(** Passkeys: src/identity/app/webauthn.go and webauthn_user_handle.go on top of
    src/identity/adapter/webauthn_postgres.go.

    The ceremonies themselves are [github.com/go-webauthn/webauthn], an interface
    here; so are HMAC-SHA256 and the byte form of a UUID. *)

From S2P Require Import Prelude GoStrings Uuids IdentityDB IdentityRun Members GoRunes.
Local Open Scope Z_scope.

(** ** Nicknames and counters *)

Definition defaultCredentialNickname : string := "Passkey".
Definition maxCredentialNicknameLen : nat := 64.

Definition normalizeNickname (nickname : string) : string :=
  let nickname := TrimSpace nickname in
  if bool_decide (nickname = "") then defaultCredentialNickname
  else if (maxCredentialNicknameLen <? length (runes nickname))%nat
  then of_runes (take maxCredentialNicknameLen (runes nickname))
  else nickname.

(** On [uint32] counters. *)
Definition signCountSuspicious (newCount storedCount : Z) : bool :=
  negb (newCount =? 0) && (newCount <? storedCount).

(** ** Third-party and standard-library parts *)

Class UuidBytes `{UuidLib} := {
  uuid_nil : Uuid;
  uuid_bytes : Uuid -> string;
  uuid_from_bytes : string -> option Uuid;
  uuid_from_to : forall u, uuid_from_bytes (uuid_bytes u) = Some u;
  uuid_to_from : forall s u, uuid_from_bytes s = Some u -> uuid_bytes u = s;
  uuid_bytes_length : forall u, String.length (uuid_bytes u) = 16%nat
}.

Class Hmac := { hmac_sha256 : string -> string -> string }.

(** A credential in the library's shape: the fields the code reads and sets, and all its
    others, which the code never names ([R]: the attestation type and object, the flags,
    backup eligibility among them, and the authenticator's attachment and clone
    warning). *)
Record LibCredential (R : Type) := mkLib {
  lc_id : string;
  lc_public : string;
  lc_count : Z;
  lc_aaguid : string;
  lc_transports : list string;
  lc_rest : R
}.
Arguments mkLib {R}. Arguments lc_id {R}. Arguments lc_public {R}. Arguments lc_count {R}.
Arguments lc_aaguid {R}. Arguments lc_transports {R}. Arguments lc_rest {R}.

(** What [webauthn.User] reports. *)
Record LibUser (R : Type) := mkUser { lu_id : string; lu_name : string; lu_credentials : list (LibCredential R) }.
Arguments mkUser {R}. Arguments lu_id {R}. Arguments lu_name {R}. Arguments lu_credentials {R}.

(** The library. [wa_resolves] is [ValidatePasskeyLogin] up to its call of the
    handler with the response's user handle, [wa_valid] its verdict on the user the
    handler returned. [rest_zero]: the other fields of a credential in a composite
    literal that does not set them. *)
Class WebAuthnLib := {
  Session : Type;
  Creation : Type;
  Attestation : Type;
  AssertionOptions : Type;
  Assertion : Type;
  CredentialRest : Type;
  rest_zero : CredentialRest;
  wa_begin_registration : list Z -> LibUser CredentialRest -> list string -> option (Creation * Session);
  wa_create_credential : LibUser CredentialRest -> Session -> Attestation -> option (LibCredential CredentialRest);
  wa_begin_login : list Z -> option (AssertionOptions * Session);
  wa_resolves : Session -> Assertion -> bool;
  wa_valid : LibUser CredentialRest -> Session -> Assertion -> bool;
  wa_user_handle : Assertion -> string;
  wa_raw_id : Assertion -> string;
  wa_counter : Assertion -> Z
}.

(** ** User handles *)

Section handles.
Context `{UuidBytes, Hmac}.

Record WebAuthnUserHandleDeriver := mkDeriver { dv_key : string }.

Definition NewWebAuthnUserHandleDeriver (key : string) : option WebAuthnUserHandleDeriver :=
  if bool_decide (key = "") then None else Some (mkDeriver key).

Definition NewWebAuthnUserHandleDeriverFromSecret (secret purpose : string) : option WebAuthnUserHandleDeriver :=
  if bool_decide (secret = "") then None
  else if bool_decide (purpose = "") then None
  else NewWebAuthnUserHandleDeriver (hmac_sha256 secret purpose).

Definition Derive (d : WebAuthnUserHandleDeriver) (m : Uuid) : string := hmac_sha256 (dv_key d) (uuid_bytes m).
End handles.

(** ** The repository *)

Section repository.
Context `{UuidLib}.
Local Open Scope nest_scope.

Record WebAuthnCredential := mkWebAuthn {
  wc_id : Uuid;
  wc_member : Uuid;
  wc_household : Uuid;
  wc_credential : string;
  wc_public : string;
  wc_count : Z;
  wc_transports : list string;
  wc_aaguid : option Uuid;
  wc_nickname : string;
  wc_handle : string;
  wc_created : Z;
  wc_used : option Z
}.

(** One scanned row; [member] is the member the query was for, or the row's own. *)
Definition scanCred (member : Uuid) (kv : Uuid * cred_row) : option WebAuthnCredential :=
  let '(id, r) := kv in
  id ← uuid_parse (uuid_string id);
  hh ← uuid_parse (uuid_string (k_household r));
  Some (mkWebAuthn id member hh (k_cred r) (k_public r) (k_count r) (k_transports r) (k_aaguid r)
    (k_nickname r) (k_handle r) (k_created r) (k_used r)).

Fixpoint scanCreds (member : Uuid) (rows : list (Uuid * cred_row)) : option (list WebAuthnCredential) :=
  match rows with
  | [] => Some []
  | row :: rows => c ← scanCred member row; cs ← scanCreds member rows; Some (c :: cs)
  end.

Definition ListByMember (hh m : Uuid) : P (list WebAuthnCredential) :=
  ask! r := QListCreds m hh in
  match r with
  | Ok rows => match scanCreds m rows with Some cs => ret cs | None => fail EInternal end
  | Err _ => fail EInternal
  end.

Definition mapWebAuthnCredentialViolation (e : call_error) : option identity_error :=
  if isConstraintViolation e foreignKeyViolation webauthnCredentialHouseholdFK then Some ErrHouseholdNotFound
  else if isConstraintViolation e foreignKeyViolation webauthnCredentialMemberFK then Some ErrMemberNotFound
  else if isConstraintViolation e uniqueViolation webauthnCredentialIDUnique then Some ErrWebAuthnCredentialExists
  else None.

Definition CreateCredential (hh : Uuid) (c : WebAuthnCredential) : P unit :=
  ask! r := QInsertCred (wc_id c) hh (wc_member c) (wc_credential c) (wc_public c) (wc_count c)
              (wc_transports c) (wc_aaguid c) (wc_nickname c) (wc_handle c) in
  match r with
  | Ok _ => ret tt
  | Err e => fail (default EInternal (mapWebAuthnCredentialViolation e))
  end.

Definition RenameCredential (hh m id : Uuid) (nickname : string) : P unit :=
  ask! r := QRenameCred id m hh nickname in
  match r with
  | Err _ => fail EInternal
  | Ok affected => if affected =? 0 then fail ErrWebAuthnCredentialNotFound else ret tt
  end.

Definition DeleteCredential (hh m id : Uuid) : P unit :=
  ask! r := QDeleteCred id m hh in
  match r with
  | Err _ => fail EInternal
  | Ok affected => if affected =? 0 then fail ErrWebAuthnCredentialNotFound else ret tt
  end.

(** The rows of a handle, in order: [acc] are the credentials so far, of member
    [owner] when there are any. A row of another member is an error. *)
Fixpoint collect (owner : option Uuid) (acc : list WebAuthnCredential) (rows : list (Uuid * cred_row)) :
    result identity_error (option Uuid * list WebAuthnCredential) :=
  match rows with
  | [] => Ok (owner, acc)
  | row :: rows =>
    match uuid_parse (uuid_string (k_member row.2)) with
    | None => Err EInternal
    | Some m =>
      match scanCred m row with
      | None => Err EInternal
      | Some c =>
        if match owner with Some o => negb (bool_decide (m = o)) | None => false end then Err EInternal
        else collect (Some m) (acc ++ [c]) rows
      end
    end
  end.

Definition FindByUserHandle (handle : string) : P (Uuid * list WebAuthnCredential) :=
  ask! r := QFindByHandle handle in
  match r with
  | Err _ => fail EInternal
  | Ok rows =>
    match collect None [] rows with
    | Err e => fail e
    | Ok (Some m, cs) => ret (m, cs)
    | Ok (None, _) => fail ErrMemberNotFound
    end
  end.

Definition UpdateAfterAssertion (cred : string) (signCount usedAt : Z) : P unit :=
  ask! r := QUpdateAssertion cred signCount usedAt in
  match r with
  | Err _ => fail EInternal
  | Ok affected =>
    if 0 <? affected then ret tt
    else
      ask! r := QCredExists cred in
      match r with
      | Err _ => fail EInternal
      | Ok exists_ => if exists_ then ret tt else fail ErrWebAuthnCredentialNotFound
      end
  end.
End repository.

(** ** The service *)

Section service.
Context `{UuidBytes, Hmac, WebAuthnLib}.
Local Open Scope nest_scope.

Definition aaguidToUUID (raw : string) : option Uuid :=
  if negb (String.length raw =? 16)%nat then None
  else match uuid_from_bytes raw with
  | None => None
  | Some id => if bool_decide (id = uuid_nil) then None else Some id
  end.

Definition toWebAuthnCredential (c : WebAuthnCredential) : LibCredential CredentialRest :=
  mkLib (wc_credential c) (wc_public c) (wc_count c)
    match wc_aaguid c with Some u => uuid_bytes u | None => "" end (wc_transports c) rest_zero.

Definition newUser (s : WebAuthnUserHandleDeriver) (m : Uuid) (displayName : string)
    (existing : list WebAuthnCredential) : LibUser CredentialRest :=
  mkUser (Derive s m) displayName (toWebAuthnCredential <$> existing).

Definition BeginRegistration (s : WebAuthnUserHandleDeriver) (hh m : Uuid) (displayName : string) :
    P (Creation * Session) :=
  get! existing := ListByMember hh m in
  let user := newUser s m displayName existing in
  ask! entropy := EEntropy in
  match wa_begin_registration entropy user (lc_id <$> lu_credentials user) with
  | Some r => ret r
  | None => fail EInternal
  end.

Definition FinishRegistration (s : WebAuthnUserHandleDeriver) (m hh : Uuid) (displayName nickname : string)
    (session : Session) (parsed : Attestation) : P unit :=
  get! existing := ListByMember hh m in
  let user := newUser s m displayName existing in
  match wa_create_credential user session parsed with
  | None => fail ErrWebAuthnVerificationFailed
  | Some cred =>
    ask! id := EFresh in
    CreateCredential hh (mkWebAuthn id m hh (lc_id cred) (lc_public cred) (lc_count cred) (lc_transports cred)
      (aaguidToUUID (lc_aaguid cred)) (normalizeNickname nickname) (lu_id user) 0 None)
  end.

Definition Rename (hh m id : Uuid) (nickname : string) : P unit :=
  RenameCredential hh m id (normalizeNickname nickname).

Definition Revoke (hh m id : Uuid) : P unit := DeleteCredential hh m id.

Definition ListDevices (hh m : Uuid) : P (list WebAuthnCredential) := ListByMember hh m.

Definition BeginLogin : P (AssertionOptions * Session) :=
  ask! entropy := EEntropy in
  match wa_begin_login entropy with Some r => ret r | None => fail EInternal end.

(** The warnings [applyAssertionResult] logs. *)
Inductive warning := CredentialMissing | SignCountDecreased.

Definition stored_count (credentials : list WebAuthnCredential) (rawID : string) : option Z :=
  wc_count <$> List.find (fun c => bool_decide (wc_credential c = rawID)) credentials.

Definition applyAssertionResult (credentials : list WebAuthnCredential) (parsed : Assertion) : P (list warning) :=
  let newCount := wa_counter parsed in
  let stored := stored_count credentials (wa_raw_id parsed) in
  ask! now := ENow in
  get! _ := UpdateAfterAssertion (wa_raw_id parsed) newCount now in
  ret (match stored with None => [CredentialMissing] | Some _ => [] end ++
       if signCountSuspicious newCount (default 0 stored) then [SignCountDecreased] else []).

(** The member the assertion authenticates, with the warnings logged. *)
Definition FinishLogin (s : WebAuthnUserHandleDeriver) (session : Session) (parsed : Assertion) :
    P (Uuid * list warning) :=
  if negb (wa_resolves session parsed) then fail ErrWebAuthnVerificationFailed
  else
    attempt! found := FindByUserHandle (wa_user_handle parsed) in
    match found with
    | Err e => if bool_decide (e = ErrMemberNotFound) then fail ErrWebAuthnVerificationFailed else fail e
    | Ok (m, creds) =>
      if negb (wa_valid (newUser s m "" creds) session parsed) then fail ErrWebAuthnVerificationFailed
      else
        get! warnings := applyAssertionResult creds parsed in
        ret (m, warnings)
    end.
End service.
