(* ===== verification/WebAuthnSpec.v ===== *)
(** What the passkey operations promise: bounded nicknames, a user handle that
    never authenticates the wrong member, the round trip of a registered credential,
    and signature counters that never go back. *)

From S2P Require Import Prelude GoStrings Uuids IdentityDB IdentityRun Members Discipline MembersSpec GoRunes WebAuthn.
Local Open Scope Z_scope.

(** ** Nicknames *)

(** A stored nickname is never blank and never longer than sixty-four runes:
    blank input becomes the default, any other input is trimmed and, when longer,
    cut to exactly its first sixty-four runes, never inside one. *)
Theorem normalizeNickname_bounds (s : string) :
  let n := normalizeNickname s in
  n <> ""%string /\ (length (runes n) <= maxCredentialNicknameLen)%nat /\
  (TrimSpace s = ""%string -> n = defaultCredentialNickname) /\
  (TrimSpace s <> ""%string -> runes n = take maxCredentialNicknameLen (runes (TrimSpace s))) /\
  (TrimSpace s <> ""%string -> (length (runes (TrimSpace s)) <= maxCredentialNicknameLen)%nat -> n = TrimSpace s).
Proof.
  intros n. subst n. unfold normalizeNickname. case_bool_decide as He.
  { split_and!; try done. vm_compute. lia. }
  destruct (_ <? _)%nat eqn:Hl.
  - apply Nat.ltb_lt in Hl.
    assert (Forall one_rune (take maxCredentialNicknameLen (runes (TrimSpace s)))) as Hone
      by (apply Forall_take, runes_with_one).
    assert (runes (of_runes (take maxCredentialNicknameLen (runes (TrimSpace s)))) =
      take maxCredentialNicknameLen (runes (TrimSpace s))) as Er by by apply runes_of_runes.
    split_and!; try done; [|rewrite Er, length_take; lia|lia].
    intros E. rewrite E in Er. change (runes "") with (@nil bytes) in Er.
    apply (f_equal length) in Er. rewrite length_take in Er. change (length (@nil bytes)) with 0%nat in Er. unfold maxCredentialNicknameLen in *. lia.
  - apply Nat.ltb_ge in Hl. split_and!; try done. intros _. by rewrite take_ge.
Qed.

(** ** The operations keep the discipline *)

Section disciplines.
Context `{UuidLib, Postgres}.

Lemma ListByMember_disciplined hh m : disciplined (ListByMember hh m).
Proof. unfold ListByMember. walk. Qed.
Lemma CreateCredential_disciplined hh c : disciplined (CreateCredential hh c).
Proof. unfold CreateCredential. walk. Qed.
Lemma RenameCredential_disciplined hh m id n : disciplined (RenameCredential hh m id n).
Proof. unfold RenameCredential. walk. Qed.
Lemma DeleteCredential_disciplined hh m id : disciplined (DeleteCredential hh m id).
Proof. unfold DeleteCredential. walk. Qed.
Lemma FindByUserHandle_disciplined handle : disciplined (FindByUserHandle handle).
Proof. unfold FindByUserHandle. walk. Qed.
Lemma UpdateAfterAssertion_disciplined cred count used : disciplined (UpdateAfterAssertion cred count used).
Proof. unfold UpdateAfterAssertion. walk. Qed.
End disciplines.

#[export] Hint Resolve ListByMember_disciplined CreateCredential_disciplined RenameCredential_disciplined
  DeleteCredential_disciplined FindByUserHandle_disciplined UpdateAfterAssertion_disciplined : nest.

Section ceremonies.
Context `{UuidBytes, Hmac, WebAuthnLib, Postgres}.

Lemma FinishRegistration_disciplined s m hh name nick session parsed :
  disciplined (FinishRegistration s m hh name nick session parsed).
Proof.
  unfold FinishRegistration. apply disciplined_bind; [auto with nest|]. intros [cs|e]; [|done].
  destruct (wa_create_credential _ _ _); [|done]. split; [done|]. intros id. apply CreateCredential_disciplined.
Qed.

Lemma FinishLogin_disciplined s session parsed : disciplined (FinishLogin s session parsed).
Proof.
  unfold FinishLogin. case_match; [done|]. apply disciplined_bind; [auto with nest|].
  intros [[m cs]|e]; [|by case_match]. case_match; [done|].
  apply disciplined_bind; [|by intros [ws|e]]. split; [done|]. intros now.
  apply disciplined_bind; [apply UpdateAfterAssertion_disciplined|]. by intros [v|e].
Qed.
End ceremonies.

(** ** The user handle *)

Section handle.
Context `{UuidLib, Postgres}.

Lemma scanCred_row m id r :
  scanCred m (id, r) = Some (mkWebAuthn id m (k_household r) (k_cred r) (k_public r) (k_count r) (k_transports r)
    (k_aaguid r) (k_nickname r) (k_handle r) (k_created r) (k_used r)).
Proof. unfold scanCred. by rewrite !uuid_parse_string. Qed.

Definition as_credential (kv : Uuid * cred_row) : WebAuthnCredential :=
  let '(id, r) := kv in
  mkWebAuthn id (k_member r) (k_household r) (k_cred r) (k_public r) (k_count r) (k_transports r)
    (k_aaguid r) (k_nickname r) (k_handle r) (k_created r) (k_used r).

Lemma collect_owner m acc rows :
  (Forall (fun kv => k_member kv.2 = m) rows /\ collect (Some m) acc rows = Ok (Some m, acc ++ (as_credential <$> rows))) \/
  (Exists (fun kv => k_member kv.2 <> m) rows /\ collect (Some m) acc rows = Err EInternal).
Proof.
  revert acc. induction rows as [|[id r] rows IH]; intros acc; cbn [collect snd].
  { left. by rewrite app_nil_r. }
  rewrite uuid_parse_string, scanCred_row. case_bool_decide as Hm; simpl.
  - destruct (IH (acc ++ [as_credential (id, r)])) as [[Hf E]|[He E]].
    + left. split; [by constructor|]. subst m. simpl in E. rewrite E. by rewrite <- app_assoc.
    + right. split; [by right|]. subst m. done.
  - right. split; [by left|done].
Qed.

Lemma collect_rows rows :
  match rows with
  | [] => collect None [] rows = Ok (None, [])
  | (_, r) :: _ =>
    (Forall (fun kv => k_member kv.2 = k_member r) rows /\
     collect None [] rows = Ok (Some (k_member r), as_credential <$> rows)) \/
    (Exists (fun kv => k_member kv.2 <> k_member r) rows /\ collect None [] rows = Err EInternal)
  end.
Proof.
  destruct rows as [|[id r] rows]; [done|]. cbn [collect snd]. rewrite uuid_parse_string, scanCred_row. simpl.
  destruct (collect_owner (k_member r) [as_credential (id, r)] rows) as [[Hf E]|[He E]]; simpl in E; rewrite E.
  - left. split; [by constructor|done].
  - right. split; [by right|done].
Qed.
End handle.

(** The credential rows that carry a handle. *)
Definition handle_rows `{UuidLib} (d : DB) (handle : string) : list (Uuid * cred_row) :=
  ordered k_created (filter (fun kv => k_handle kv.2 = handle) (map_to_list (creds d))).

(** [FindByUserHandle], run alone without failures: no row carries the handle,
    [ErrMemberNotFound]; every row that does belongs to one member, that member and
    its credentials, oldest first; two members share the handle, an internal error
    and nobody is named. The database is not touched. *)
Theorem FindByUserHandle_outcome `{UuidLib, Postgres} (handle : string) (os : nat -> oracle) (now : Z) (d : DB) :
  calm os ->
  let out := alone (FindByUserHandle handle) os now d None in
  let carries id r := creds d !! id = Some r /\ k_handle r = handle in
  out.2 = d /\
  match out.1 with
  | Ok (m, cs) => (exists id r, carries id r) /\ (forall id r, carries id r -> k_member r = m) /\
      cs = as_credential <$> handle_rows d handle
  | Err ErrMemberNotFound => forall id r, ~ carries id r
  | Err e => e = EInternal /\ exists id1 r1 id2 r2, carries id1 r1 /\ carries id2 r2 /\ k_member r1 <> k_member r2
  end.
Proof.
  intros Hos out carries. subst out. unfold FindByUserHandle. cbn [alone serve exec]. rewrite (Hos 0%nat). run_query.
  change (apply_writes [] d) with d. fold (handle_rows d handle). cbv iota beta zeta.
  assert (forall id r, (id, r) ∈ handle_rows d handle <-> carries id r) as Hrows.
  { intros id r. unfold handle_rows, ordered. rewrite merge_sort_Permutation, list_elem_of_filter, elem_of_map_to_list.
    simpl. unfold carries. tauto. }
  pose proof (collect_rows (handle_rows d handle)) as Hc.
  destruct (handle_rows d handle) as [|[id r] rows] eqn:Hh.
  - rewrite Hc. simpl. split; [done|]. intros id r Hid%Hrows. by apply not_elem_of_nil in Hid.
  - assert (carries id r) as Hr by (apply Hrows; left).
    destruct Hc as [[Hf ->]|[He ->]]; simpl.
    + split; [done|]. split_and!; [eauto| |done]. intros id' r' Hid'%Hrows. rewrite Forall_forall in Hf.
      apply (Hf (id', r') Hid').
    + split; [done|]. split; [done|]. apply Exists_exists in He as ([id' r'] & Hin%Hrows & Hne). simpl in Hne.
      exists id', r', id, r. done.
Qed.

(** ** Registration *)

Section registration.
Context `{UuidBytes, Hmac, WebAuthnLib, Postgres}.

(** A member's credential rows, as [ListByMember] reads them. *)
Definition member_rows (d : DB) (m hh : Uuid) : list (Uuid * cred_row) :=
  ordered k_created (filter (fun kv => k_member kv.2 = m /\ k_household kv.2 = hh) (map_to_list (creds d))).

Lemma scanCreds_rows m rows :
  Forall (fun kv => k_member kv.2 = m) rows -> scanCreds m rows = Some (as_credential <$> rows).
Proof.
  induction 1 as [|[id r] rows Hm _ IH]; [done|]. cbn [scanCreds]. rewrite scanCred_row, IH. simpl in *. by subst.
Qed.

Lemma member_rows_all d m hh : Forall (fun kv => k_member kv.2 = m) (member_rows d m hh).
Proof.
  apply Forall_forall. intros kv. unfold member_rows, ordered.
  rewrite merge_sort_Permutation, list_elem_of_filter. naive_solver.
Qed.

(** The AAGUID the store keeps: sixteen bytes that are not all zero, or none. *)
Definition known_aaguid (raw : string) : string :=
  match aaguidToUUID raw with Some u => uuid_bytes u | None => "" end.

Lemma known_aaguid_spec raw :
  known_aaguid raw = raw \/ known_aaguid raw = ""%string.
Proof.
  unfold known_aaguid, aaguidToUUID. case_match eqn:Hm; [left|by right].
  destruct (negb _); [done|]. destruct (uuid_from_bytes raw) as [id|] eqn:Hf; [|done].
  case_bool_decide; [done|]. simplify_eq. by apply uuid_to_from.
Qed.
End registration.

(** C38. A passkey [FinishRegistration] reports as registered is on file as far as the
    table has columns for it: the verified credential's id, key, counter and transports,
    its AAGUID when the authenticator reported a model, the member's derived user handle
    and the normalised nickname, in one new row of a member of that household, with a
    credential id no other row has; nothing else changed. Converting the row back for the
    next ceremony gives the library those five fields and its zero values for all the
    others (flags, attestation, attachment), so the same credential only if the ceremony
    left them at zero. *)
Theorem registration_roundtrip `{UuidBytes, Hmac, WebAuthnLib, Postgres} (s : WebAuthnUserHandleDeriver)
    (m hh : Uuid) (displayName nickname : string) (session : Session) (parsed : Attestation)
    (os : nat -> oracle) (now : Z) (d d' : DB) :
  calm os ->
  alone (FinishRegistration s m hh displayName nickname session parsed) os now d None = (Ok tt, d') ->
  exists cred id row,
    wa_create_credential (newUser s m displayName (as_credential <$> member_rows d m hh)) session parsed = Some cred /\
    d' = set_creds (<[id := row]> (creds d)) d /\
    creds d !! id = None /\ belongs d m hh = true /\
    (forall id' r', creds d !! id' = Some r' -> k_cred r' <> k_cred row) /\
    (let back := toWebAuthnCredential (as_credential (id, row)) in
     back = mkLib (lc_id cred) (lc_public cred) (lc_count cred) (known_aaguid (lc_aaguid cred)) (lc_transports cred) rest_zero /\
     (back = cred <-> known_aaguid (lc_aaguid cred) = lc_aaguid cred /\ lc_rest cred = rest_zero)) /\
    k_member row = m /\ k_household row = hh /\ k_handle row = Derive s m /\ k_nickname row = normalizeNickname nickname.
Proof.
  intros Hos. unfold FinishRegistration, ListByMember, and_then. cbn [pbind alone serve exec].
  rewrite (Hos 0%nat). run_query. change (apply_writes [] d) with d. fold (member_rows d m hh). cbv iota beta zeta.
  rewrite scanCreds_rows by apply member_rows_all. cbn [pbind ret].
  destruct (wa_create_credential _ _ _) as [cred|] eqn:Hc; [|done]. cbn [alone serve].
  unfold CreateCredential. cbn [alone serve exec]. rewrite (Hos 2%nat). run_query.
  cbn [wc_id wc_member wc_credential wc_public wc_count wc_transports wc_aaguid wc_nickname wc_handle].
  set (id := o_id (os 1%nat)). unfold insert_row. cbn [List.find fst].
  destruct (bool_decide (is_Some (creds d !! id))) eqn:E1; [done|].
  destruct (bool_decide (is_Some (cred_row_of d (lc_id cred)))) eqn:E2; [by cbn; destruct (mapWebAuthnCredentialViolation _)|].
  destruct (negb (bool_decide (is_Some (households d !! hh)))) eqn:E3; [by cbn; destruct (mapWebAuthnCredentialViolation _)|].
  destruct (negb (belongs d m hh)) eqn:E4; [by cbn; destruct (mapWebAuthnCredentialViolation _)|].
  intros E. injection E as <-. apply bool_decide_eq_false, eq_None_not_Some in E1.
  apply bool_decide_eq_false, eq_None_not_Some in E2. apply negb_false_iff in E4.
  eexists cred, id, _. split; [done|]. split; [simpl; unfold insert_new; by rewrite E1|].
  split; [exact E1|]. split; [exact E4|]. split; cycle 1.
  { split; [|done]. split; [done|]. destruct cred as [i p c a ts rest].
    change (toWebAuthnCredential _) with (mkLib i p c (known_aaguid a) ts rest_zero).
    cbn [lc_aaguid lc_rest]. split; [by intros [= Ha <-]|]. by intros [-> ->]. }
  intros id' r' Hid'. simpl. intros Heq.
  unfold cred_row_of in E2. apply head_None in E2.
  assert ((id', r') ∈ filter (fun kv => k_cred kv.2 = lc_id cred) (map_to_list (creds d))) as Hin
    by (apply list_elem_of_filter; by rewrite elem_of_map_to_list).
  rewrite E2 in Hin. by apply not_elem_of_nil in Hin.
Qed.

(** ** Login *)



(** ** What a passkey login reads *)

Section blind.
Context `{UuidLib, Postgres}.

(** Every call [p] may make satisfies [f]. *)
Fixpoint only {A} (f : call -> bool) (p : prog A) : Prop :=
  match p with
  | Ret _ => True
  | Call c k => f c = true /\ forall r, only f (k r)
  end.

Lemma only_bind {A B} f (p : prog A) (k : A -> prog B) :
  only f p -> (forall a, only f (k a)) -> only f (pbind p k).
Proof. intros Hp Hk. induction p as [a|c k' IH]; simpl in *; [apply Hk|]. naive_solver. Qed.

(** The calls of a passkey login. *)
Definition passkey_call (c : call) : bool :=
  match c with QFindByHandle _ | QUpdateAssertion _ _ _ | QCredExists _ | ENow => true | _ => false end.

Lemma serve_members c o now d ms :
  passkey_call c = true ->
  serve c o now (set_members ms d) None =
    (let '(r, t, d') := serve c o now d None in (r, t, set_members ms d')).
Proof.
  intros Hc. destruct c; try done; cbn [serve exec]; destruct (o_fault o); try done; run_query;
    change (cred_row_of (set_members ms d) cred) with (cred_row_of d cred);
    destruct (cred_row_of d cred) as [[id r]|]; try done; unfold one_row; repeat case_match; simplify_eq; try done.
Qed.

Lemma alone_members {A} (p : prog A) os now d ms :
  only passkey_call p ->
  alone p os now (set_members ms d) None = (fst (alone p os now d None), set_members ms (snd (alone p os now d None))).
Proof.
  revert os d. induction p as [a|c k IH]; intros os d Hp; [done|]. destruct Hp as [Hc Hk].
  cbn [alone]. rewrite serve_members by done.
  destruct (serve c (os 0%nat) now d None) as [[r t] d'] eqn:E.
  assert (t = None) as ->; [|by apply IH].
  destruct c; try done; try (by simpl in E; simplify_eq); exact (exec_auto _ _ _ _ _ _ _ E).
Qed.
End blind.

(** A passkey login does not see deactivation. Whatever the member table holds,
    the members' active flags included, [FinishLogin] answers the same and makes the
    same change to the credential rows: a deactivated member's passkey still logs
    in, where the migrations' package documentation says login reads the flag. *)
Theorem FinishLogin_ignores_deactivation `{UuidBytes, Hmac, WebAuthnLib, Postgres} (s : WebAuthnUserHandleDeriver)
    (session : Session) (parsed : Assertion) (os : nat -> oracle) (now : Z) (d : DB) (ms : gmap Uuid member_row) :
  alone (FinishLogin s session parsed) os now (set_members ms d) None =
    (fst (alone (FinishLogin s session parsed) os now d None),
     set_members ms (snd (alone (FinishLogin s session parsed) os now d None))).
Proof.
  apply alone_members. unfold FinishLogin. case_match; [done|]. apply only_bind.
  { split; [done|]. intros [rows|e]; [|done]. by repeat case_match. }
  intros [[m cs]|e]; [|by case_match]. case_match; [done|].
  apply only_bind; [|by intros [ws|e]]. split; [done|]. intros at_time.
  apply only_bind; [|by intros [v|e]].
  split; [done|]. intros [v|e]; [|done]. case_match; [done|].
  split; [done|]. intros [[]|e]; done.
Qed.

(** ** Counters never go back *)

Section counters.
Context `{UuidLib, Postgres}.
Variables (id : Uuid) (r0 : cred_row).

(** [r] is [r0] at least as recently used, with at least its counter on a tie. *)
Definition later (r : cred_row) : Prop :=
  k_cred r = k_cred r0 /\ k_member r = k_member r0 /\
  match k_used r0 with
  | None => True
  | Some t0 => exists t, k_used r = Some t /\ (t0 < t \/ (t0 = t /\ k_count r0 <= k_count r))
  end.

Definition stays_later (_ : list event) (d : DB) : Prop := forall r, creds d !! id = Some r -> later r.

Definition registers_id (c : call) : Prop :=
  match c with QInsertCred id' _ _ _ _ _ _ _ _ _ => id' = id | _ => False end.

Definition cred_safe (w : write) : Prop :=
  match w with WCred id' _ => id' <> id | WCredUsed _ _ _ => False | _ => True end.

Lemma later_safe tr d w : stays_later tr d -> cred_safe w -> stays_later tr (apply_write w d).
Proof.
  intros Hd Hw r Hr. destruct w as [| | | | | | | | | | | | |id' r'|id' n|id'|]; simpl in *; try done; try (by apply Hd).
  - unfold insert_new in Hr. case_match; [by apply Hd|]. rewrite lookup_insert_ne in Hr by done. by apply Hd.
  - destruct (decide (id' = id)) as [->|Hne]; [|rewrite lookup_alter_ne in Hr by done; by apply Hd].
    rewrite lookup_alter_eq in Hr. apply fmap_Some in Hr as (r1 & Hr1 & ->). apply Hd in Hr1. done.
  - apply lookup_delete_Some in Hr as [_ Hr]. by apply Hd.
Qed.

Lemma later_writes tr d ws : stays_later tr d -> Forall cred_safe ws -> stays_later tr (apply_writes ws d).
Proof.
  intros Hd Hws. revert d Hd. induction Hws as [|w ws Hw _ IH]; intros d Hd; simpl; [done|].
  apply IH. by apply later_safe with (tr := tr).
Qed.

Lemma query_cred_safe c now d v ws :
  query c now d = Ok (v, ws) -> ~ registers_id c -> (forall k n u, c <> QUpdateAssertion k n u) ->
  Forall cred_safe ws.
Proof.
  intros Hq Hb Hu.
  destruct c; simpl in Hq, Hb; try (by destruct (Hu cred count used)); repeat case_match; simplify_eq;
    try (apply insert_row_writes in Hq; subst; constructor; [done|constructor]);
    try (apply one_row_writes in Hq as [->| ->]; by repeat constructor);
    by repeat constructor.
Qed.

Lemma cred_row_of_lookup d cred id' r : cred_row_of d cred = Some (id', r) -> creds d !! id' = Some r.
Proof.
  unfold cred_row_of. intros Hh. apply head_Some in Hh as [rows Hh].
  assert ((id', r) ∈ filter (fun kv => k_cred kv.2 = cred) (map_to_list (creds d))) as Hin by (rewrite Hh; left).
  apply list_elem_of_filter in Hin as [_ Hin]. by apply elem_of_map_to_list.
Qed.

Lemma assertion_later tr d cred count used now v ws :
  stays_later tr d -> query (QUpdateAssertion cred count used) now d = Ok (v, ws) ->
  stays_later tr (apply_writes ws d).
Proof.
  intros Hd Hq. cbn [query] in Hq. unfold sql_update_assertion in Hq.
  destruct (cred_row_of d cred) as [[id' r]|] eqn:Hc; [|by simplify_eq].
  apply cred_row_of_lookup in Hc. unfold one_row in Hq. case_match eqn:Hg; [|by simplify_eq].
  simplify_eq. intros r1. simpl. destruct (decide (id' = id)) as [->|Hne];
    [|rewrite lookup_alter_ne by done; apply Hd].
  rewrite lookup_alter_eq, Hc. simpl. intros [= <-]. destruct (Hd _ Hc) as (Hk & Hm & Hl).
  split_and!; [done..|]. simpl. destruct (k_used r0) as [t0|]; [|done].
  destruct Hl as (t & Ht & Hor). rewrite Ht in Hg. exists used. split; [done|].
  apply orb_true_iff in Hg as [Hg|Hg]; to_prop; lia.
Qed.

Lemma later_preserved : preserved registers_id (fun _ => cred_safe) stays_later.
Proof.
  split; try done.
  - intros tr d w. apply later_safe.
  - intros ph c now d us v ws Hph Hal Hb _ Hq. eapply query_cred_safe; [done..|]. intros k n u ->. done.
  - intros tr d p c o now r t' d' Hc Hb Hg E.
    pose proof (serve_served _ _ _ _ _ _ _ _ E) as Hs.
    inversion Hs as [|u Hu|now' Hcb Hu|Hend|u Hcc Hu|now' v ws Hu Hq|u v ws Hu Ha Hq]; subst; try done.
    destruct (match c with QUpdateAssertion _ _ _ => true | _ => false end) eqn:Hup.
    + destruct c; try done. by eapply (assertion_later tr).
    + apply later_writes with (tr := tr); [done|]. eapply query_cred_safe; [done..|]. intros k n u ->. done.
Qed.
End counters.

(** C16. The clone-detection state of a passkey never goes back: in any run of
    disciplined programs, however assertions on the same credential race, fail or
    lose their replies, its row at the end (unless revoked, and as long as no new
    registration reuses the row id) belongs to the same credential and member, was
    used no earlier than at the start, and at the same instant carries no smaller
    counter. *)
Theorem assertion_monotone `{UuidLib, Postgres} {A} (ps : gmap nat (prog A)) (d : DB) (now : Z) (ms : list move)
    (id : Uuid) (r0 : cred_row) :
  (forall p c, ps !! p = Some c -> disciplined c) ->
  creds d !! id = Some r0 ->
  let '(tr, s) := run ms (start d now ps) in
  (forall i hh m cred public count transports aaguid nickname handle r,
     ~ Ev i (QInsertCred id hh m cred public count transports aaguid nickname handle) r ∈ tr) ->
  forall r, creds (s_db s) !! id = Some r -> later r0 r.
Proof.
  intros Hps Hid. destruct (run ms (start d now ps)) as [tr s] eqn:Hrun. intros Hno.
  pose proof (disciplined_run _ _ _ d now ps ms (later_preserved id r0) Hps) as Hinv. rewrite Hrun in Hinv.
  apply Hinv.
  - intros r Hr. rewrite Hid in Hr. simplify_eq. split_and!; [done..|].
    destruct (k_used r) as [t|]; [|done]. exists t. split; [done|lia].
  - intros i c r Hin Hb. destruct c; try done. simpl in Hb. subst. by eapply Hno.
Qed.

(** ** Witnesses *)

Module WebAuthnWitness.
Import HexUuid MembersWitness.

#[export] Program Instance demo_bytes_of : UuidBytes := {|
  uuid_nil := uid 0;
  uuid_bytes := fun u => string_of (replicate 15 (byte 0) ++ [digit u]);
  uuid_from_bytes := fun s => List.find (fun u => bool_decide (s = string_of (replicate 15 (byte 0) ++ [digit u]))) digits
|}.
Next Obligation. intros [[[] []] [[] []]]; vm_compute; reflexivity. Qed.
Next Obligation. intros s u [_ Hs]%find_some. by apply bool_decide_eq_true in Hs. Qed.
Next Obligation. intros [[[] []] [[] []]]; vm_compute; reflexivity. Qed.
#[export] Instance demo_hmac : Hmac := {| hmac_sha256 := fun k m => k +:+ m |}.

(** A synced passkey: its one other field says that it may be backed up. *)
Definition demo_lib_cred : LibCredential bool := mkLib "cred" "key" 4 "" ["usb"] true.
#[export] Instance demo_webauthn : WebAuthnLib := {|
  Session := unit; Creation := unit; Attestation := unit; AssertionOptions := unit; Assertion := Z;
  CredentialRest := bool; rest_zero := false;
  wa_begin_registration := fun _ _ _ => Some (tt, tt);
  wa_create_credential := fun _ _ _ => Some demo_lib_cred;
  wa_begin_login := fun _ => Some (tt, tt);
  wa_resolves := fun _ _ => true;
  wa_valid := fun _ _ _ => true;
  wa_user_handle := fun _ => "handle";
  wa_raw_id := fun _ => "cred";
  wa_counter := fun n => n
|}.

Definition demo_session : @Session demo_webauthn := tt.
Definition demo_attestation : @Attestation demo_webauthn := tt.

Definition passkey : cred_row :=
  mkCred (uid 0) (uid 1) "cred" "key" 4 ["usb"] None "Passkey" "handle" 0 (Some 2).
Definition passkey_db : DB :=
  mkDB (households two_owners) (members two_owners) ∅ ∅ {[ uid 7 := passkey ]}.

Lemma FindByUserHandle_outcome_witness :
  (alone (FindByUserHandle "handle") (fun _ => ok) 5 passkey_db None).2 = passkey_db.
Proof. apply (FindByUserHandle_outcome "handle" (fun _ => ok) 5 passkey_db calm_ok). Defined.

Example FindByUserHandle_finds :
  match (alone (FindByUserHandle "handle") (fun _ => ok) 5 passkey_db None).1 with
  | Ok (m, cs) => bool_decide (m = uid 1) && bool_decide (wc_nickname <$> cs = ["Passkey"])
  | Err _ => false
  end = true.
Proof. vm_compute. reflexivity. Qed.

Lemma ok_pair {E D} (p : result E unit * D) : is_ok p.1 = true -> p = (Ok tt, p.2).
Proof. by destruct p as [[[]|] d]. Qed.

(** The row is there, and the flag is not. *)
Lemma registration_roundtrip_witness :
  exists cred id row,
    (alone (FinishRegistration (mkDeriver "k") (uid 1) (uid 0) "ann" "  " demo_session demo_attestation) (fun _ => ok) 5 two_owners None).2 =
      set_creds (<[id := row]> (creds two_owners)) two_owners /\
    toWebAuthnCredential (as_credential (id, row)) =
      mkLib (lc_id cred) (lc_public cred) (lc_count cred) (known_aaguid (lc_aaguid cred)) (lc_transports cred) false /\
    lc_rest cred = true.
Proof.
  destruct (registration_roundtrip (mkDeriver "k") (uid 1) (uid 0) "ann" "  " demo_session demo_attestation (fun _ => ok) 5 two_owners
    (alone (FinishRegistration (mkDeriver "k") (uid 1) (uid 0) "ann" "  " demo_session demo_attestation) (fun _ => ok) 5 two_owners None).2
    calm_ok (ok_pair _ (eq_refl true <: is_ok (alone (FinishRegistration (mkDeriver "k") (uid 1) (uid 0) "ann" "  "
      demo_session demo_attestation) (fun _ => ok) 5 two_owners None).1 = true)))
    as (cred & id & row & Hc & E & _ & _ & _ & [T _] & _).
  exists cred, id, row. split; [exact E|]. split; [exact T|]. by injection Hc as <-.
Defined.




Definition assertions : gmap nat (P unit) :=
  {[ 1%nat := UpdateAfterAssertion "cred" 6 9; 2%nat := UpdateAfterAssertion "cred" 5 8 ]}.

Definition is_insert (c : call) : bool :=
  match c with QInsertCred _ _ _ _ _ _ _ _ _ _ => true | _ => false end.

Lemma assertion_monotone_witness :
  exists r, creds (s_db (run [Run 1 ok; Run 2 ok; Run 2 ok] (start passkey_db 5 assertions)).2) !! uid 7 = Some r /\
  later passkey r.
Proof.
  assert (bool_decide (is_Some (creds (s_db (run [Run 1 ok; Run 2 ok; Run 2 ok] (start passkey_db 5 assertions)).2)
    !! uid 7)) = true) as Hsome by (vm_compute; reflexivity).
  apply bool_decide_eq_true in Hsome as [r Hr]. exists r. split; [done|]. revert Hr.
  pose proof (assertion_monotone assertions passkey_db 5 [Run 1 ok; Run 2 ok; Run 2 ok] (uid 7) passkey) as T.
  assert (no_call is_insert (run [Run 1 ok; Run 2 ok; Run 2 ok] (start passkey_db 5 assertions)).1 = true) as Hno
    by (vm_compute; reflexivity).
  destruct (run [Run 1 ok; Run 2 ok; Run 2 ok] (start passkey_db 5 assertions)) as [tr s].
  apply T; [|reflexivity|].
  - intros p c. unfold assertions. rewrite lookup_insert_Some, lookup_singleton_Some.
    intros [[<- <-]|[_ [<- <-]]]; apply UpdateAfterAssertion_disciplined.
  - intros i hh m cred public count transports aaguid nickname handle r' Hin.
    by pose proof (no_call_elem _ _ _ _ _ Hno Hin).
Defined.

(** The older assertion lost the race and reported no error. *)
Example older_assertion_ignored :
  (fun r => (k_count r, k_used r)) <$>
    creds (s_db (run [Run 1 ok; Run 2 ok; Run 2 ok] (start passkey_db 5 assertions)).2) !! uid 7 = Some (6, Some 9).
Proof. vm_compute. reflexivity. Qed.
End WebAuthnWitness.
