(* ===== verification/Ports.v ===== *)
(** The repository ports of the identity domain (src/identity/domain/mfa.go and
    webauthn.go): the operations the services are written against, with the contract
    their comments give, and the Postgres adapters as implementations. Each operation
    of a port is atomic: one function of the tables says what it answers and leaves,
    and whatever call fails or is lost on the way, the tables are as they were or as
    that function leaves them. *)

From S2P Require Import Prelude GoStrings Uuids IdentityDB IdentityRun Members Discipline MembersSpec Mfa MfaSpec WebAuthn WebAuthnSpec.
Local Open Scope Z_scope.

(** ** Atomic programs *)

Section atomic.
Context `{UuidLib, Postgres}.
Implicit Types (os : nat -> oracle).

(** [p], run alone from [d] inside the transaction [t] if any, does [spec], or fails with an
    internal error having done all of it or nothing; without faults it does [spec]. *)
Definition atomic {A} (p : P A) os (now : Z) (d : DB) (t : option tx) (spec : result identity_error A * DB) : Prop :=
  let out := alone p os now d t in
  (out = spec \/ out = (Err EInternal, d) \/ out = (Err EInternal, spec.2)) /\ (calm os -> out = spec).

Lemma atomic_done {A} (r : result identity_error A) os now d t : atomic (Ret r) os now d t (r, d).
Proof. split; [by left|done]. Qed.

Lemma atomic_internal {A} (p : P A) os now d t spec :
  alone p os now d t = (Err EInternal, d) -> ~ calm os -> atomic p os now d t spec.
Proof. intros E Hc. split; [by right; left|done]. Qed.

Lemma atomic_lost {A} (p : P A) os now d t spec :
  alone p os now d t = (Err EInternal, spec.2) -> ~ calm os -> atomic p os now d t spec.
Proof. intros E Hc. split; [by right; right|done]. Qed.

(** The rest of a program after its first call. *)
Lemma atomic_next {A} (p p' : P A) os os' now d t t' spec :
  alone p os now d t = alone p' os' now d t' -> (calm os -> calm os') -> atomic p' os' now d t' spec ->
  atomic p os now d t spec.
Proof. unfold atomic. intros -> Hc [H1 H2]. split; [done|]. auto. Qed.

Lemma calm_shift os : calm os -> calm (fun n => os (S n)).
Proof. intros Hc n. apply Hc. Qed.

Lemma calm_at os n f : o_fault (os n) = f -> f <> Fine -> ~ calm os.
Proof. intros Hf Hne Hc. by rewrite Hc in Hf. Qed.

Lemma atomic_fresh {A} (k : Uuid -> P A) os now d t spec :
  atomic (k (o_id (os 0%nat))) (fun n => os (S n)) now d t spec -> atomic (Call EFresh k) os now d t spec.
Proof. by apply atomic_next; [|apply calm_shift]. Qed.

(** A transaction is as atomic as its body. *)
Lemma atomic_tx {A} (body : P A) os now d spec :
  atomic body (fun n => os (S n)) now d (Some (mkTx now [] [] false)) spec -> atomic (in_tx body) os now d None spec.
Proof.
  intros Hb. destruct (o_fault (os 0%nat)) eqn:Hf.
  - eapply atomic_next; [|apply calm_shift|exact Hb].
    unfold in_tx. cbn [alone serve]. rewrite Hf. cbn [begin_tx].
    destruct (alone_bind body (fun r => Call QRollback (fun _ => Ret r)) (fun n => os (S n)) now d
      (Some (mkTx now [] [] false))) as (os' & t' & _ & ->).
    cbn [alone serve]. by destruct (alone body _ _ _ _).
  - apply atomic_internal; [|by eapply calm_at]. unfold in_tx. cbn [alone serve]. by rewrite Hf.
  - apply atomic_internal; [|by eapply calm_at]. unfold in_tx. cbn [alone serve]. by rewrite Hf.
Qed.

Lemma atomic_commit os now d u :
  t_aborted u = false -> atomic commit os now d (Some u) (Ok tt, apply_writes (t_pending u) d).
Proof.
  intros Ha. destruct (o_fault (os 0%nat)) eqn:Hf.
  - split; [left|intros _]; unfold commit; cbn [alone serve commit_tx]; by rewrite Ha, Hf.
  - apply atomic_internal; [|by eapply calm_at]. unfold commit. cbn [alone serve commit_tx]. by rewrite Ha, Hf.
  - apply atomic_lost; [|by eapply calm_at]. unfold commit. cbn [alone serve commit_tx]. by rewrite Ha, Hf.
Qed.
End atomic.

(** The last statement outside a transaction; [t] computes its reply. *)
Tactic Notation "last_call" constr(os) "by" tactic3(t) :=
  let Hf := fresh "Hf" in let Hc := fresh "Hc" in
  unfold atomic; cbn [alone serve exec]; destruct (o_fault (os 0%nat)) eqn:Hf; run_query; t; cbn;
  (split; [auto|intros Hc; first [done | by rewrite Hc in Hf]]).

(** One statement inside the transaction: a fault ends it, and [Fine] goes on with the
    rest of the environment; [t] computes its reply. *)
Tactic Notation "tx_call" constr(os) "by" tactic3(t) :=
  let Hf := fresh "Hf" in
  destruct (o_fault (os 0%nat)) eqn:Hf;
  [ eapply atomic_next; [cbn [alone serve exec t_aborted]; rewrite Hf; run_query; t; reflexivity|apply calm_shift|]; clear Hf;
    cbn [view t_now t_pending t_locks app apply_writes foldl]
  | apply atomic_internal; [cbn [alone serve exec t_aborted]; by rewrite Hf|by eapply calm_at]
  | apply atomic_internal; [cbn [alone serve exec t_aborted]; by rewrite Hf|by eapply calm_at] ].
Ltac next_calls os := generalize (fun n : nat => os (S n)); clear os; intros os.

(** ** The MFA repository *)

Section mfa.
Context `{UuidLib, Postgres}.
Implicit Types (os : nat -> oracle).

Record MFARepository := mkMFARepository {
  port_GetEnrollment : Uuid -> P MFAEnrollment;
  port_BeginEnrollment : Uuid -> Uuid -> string -> P unit;
  port_ConfirmEnrollmentWithCodes : Uuid -> Uuid -> list string -> P unit;
  port_DeleteEnrollment : Uuid -> Uuid -> P unit;
  port_ListUnusedRecoveryCodes : Uuid -> P (list RecoveryCode);
  port_MarkRecoveryCodeUsed : Uuid -> P unit;
  port_RecordLoginStep : Uuid -> Z -> P unit
}.

Definition postgres_mfa : MFARepository :=
  mkMFARepository GetEnrollment BeginEnrollmentRow ConfirmEnrollmentWithCodes DeleteEnrollment
    ListUnusedRecoveryCodes MarkRecoveryCodeUsed RecordLoginStep.

(** *** The contract, operation by operation *)

Definition get_enrollment_spec (m : Uuid) (d : DB) : result identity_error MFAEnrollment * DB :=
  (match mfa d !! m with
   | Some r => Ok (mkEnrollment m (f_household r) (f_secret r) (f_confirmed r) (f_last_step r))
   | None => Err ErrMFANotEnrolled
   end, d).

(** An unconfirmed enrolment is replaced in place; the row of another household is not touched. *)
Definition begin_enrollment_spec (m hh : Uuid) (secret : string) (now : Z) (d : DB) : result identity_error unit * DB :=
  match mfa d !! m with
  | Some r =>
    if decide (f_household r = hh) then
      match f_confirmed r with
      | Some _ => (Err ErrMFAAlreadyEnrolled, d)
      | None => (Ok tt, set_mfa (<[m := mkMfa hh secret None (f_last_step r) (f_created r) now]> (mfa d)) d)
      end
    else (Err ErrMemberNotFound, d)
  | None =>
    if bool_decide (is_Some (households d !! hh)) && belongs d m hh
    then (Ok tt, set_mfa (<[m := mkMfa hh secret None None now now]> (mfa d)) d)
    else (Err ErrMemberNotFound, d)
  end.

(** The codes of [m] replaced with one fresh row per hash. *)
Definition reissued (m : Uuid) (ids : list Uuid) (hashes : list string) (now : Z) (cs : gmap Uuid code_row) :
    gmap Uuid code_row :=
  foldl (fun cs ih => <[ih.1 := mkCode m ih.2 None now]> cs) (codes_without m cs) (zip ids hashes).

(** Confirmation and codes are one write: both, or neither. *)
Definition confirm_enrollment_spec (hh m : Uuid) (hashes : list string) (ids : list Uuid) (now : Z) (d : DB) :
    result identity_error unit * DB :=
  match mfa d !! m with
  | Some r =>
    if decide (f_household r = hh) then
      match f_confirmed r with
      | Some _ => (Err ErrMFAAlreadyEnrolled, d)
      | None => (Ok tt, set_codes (reissued m ids hashes now (codes d))
                   (set_mfa (<[m := mkMfa hh (f_secret r) (Some now) (f_last_step r) (f_created r) now]> (mfa d)) d))
      end
    else (Err ErrMFANotEnrolled, d)
  | None => (Err ErrMFANotEnrolled, d)
  end.

(** The codes go with the enrolment. *)
Definition delete_enrollment_spec (hh m : Uuid) (d : DB) : result identity_error unit * DB :=
  match mfa d !! m with
  | Some r =>
    if decide (f_household r = hh)
    then (Ok tt, set_codes (codes_without m (codes d)) (set_mfa (delete m (mfa d)) d))
    else (Err ErrMFANotEnrolled, d)
  | None => (Err ErrMFANotEnrolled, d)
  end.

Definition list_unused_spec (m : Uuid) (d : DB) : result identity_error (list RecoveryCode) * DB :=
  (Ok ((fun kv => mkRecovery kv.1 m (c_hash kv.2) (c_created kv.2)) <$> unused_codes d m), d).

Definition mark_used_spec (id : Uuid) (now : Z) (d : DB) : result identity_error unit * DB :=
  match codes d !! id with
  | Some r =>
    match c_used r with
    | None => (Ok tt, set_codes (<[id := mkCode (c_member r) (c_hash r) (Some now) (c_created r)]> (codes d)) d)
    | Some _ => (Err ErrRecoveryCodeInvalid, d)
    end
  | None => (Err ErrRecoveryCodeInvalid, d)
  end.

Definition record_step_spec (m : Uuid) (step now : Z) (d : DB) : result identity_error unit * DB :=
  match mfa d !! m with
  | Some r =>
    if fresh_step r step
    then (Ok tt, set_mfa (<[m := mkMfa (f_household r) (f_secret r) (f_confirmed r) (Some step) (f_created r) now]> (mfa d)) d)
    else (Err ErrInvalidTOTPCode, d)
  | None => (Err ErrInvalidTOTPCode, d)
  end.

(** *** The Postgres adapter keeps it *)

Lemma alter_as_insert {A} (f : A -> A) (k : Uuid) (x : A) (m : gmap Uuid A) :
  m !! k = Some x -> alter f k m = <[k := f x]> m.
Proof. intros Hk. apply map_eq. intros i. destruct (decide (i = k)) as [->|Hne].
  - by rewrite lookup_alter_eq, lookup_insert_eq, Hk.
  - by rewrite lookup_alter_ne, lookup_insert_ne.
Qed.

Lemma GetEnrollment_atomic m os now d : atomic (GetEnrollment m) os now d None (get_enrollment_spec m d).
Proof.
  unfold GetEnrollment, get_enrollment_spec.
  last_call os by (destruct (mfa d !! m) as [r|]; cbn; rewrite ?uuid_parse_string).
Qed.

Lemma DeleteEnrollment_atomic hh m os now d :
  atomic (DeleteEnrollment hh m) os now d None (delete_enrollment_spec hh m d).
Proof.
  unfold DeleteEnrollment, delete_enrollment_spec. destruct (mfa d !! m) as [r|] eqn:Hm.
  - destruct (decide (f_household r = hh)) as [Hh|Hh];
      last_call os by (rewrite ?Hm, ?(bool_decide_eq_true_2 _ Hh), ?(bool_decide_eq_false_2 _ Hh)).
  - last_call os by (rewrite ?Hm).
Qed.

Lemma ListUnusedRecoveryCodes_atomic m os now d :
  atomic (ListUnusedRecoveryCodes m) os now d None (list_unused_spec m d).
Proof.
  unfold ListUnusedRecoveryCodes, list_unused_spec.
  last_call os by (fold (unused_codes d m); rewrite ?scanCodes_all).
Qed.

Lemma MarkRecoveryCodeUsed_atomic id os now d :
  atomic (MarkRecoveryCodeUsed id) os now d None (mark_used_spec id now d).
Proof.
  unfold MarkRecoveryCodeUsed, mark_used_spec.
  destruct (codes d !! id) as [r|] eqn:Hid; [destruct (c_used r) as [u|] eqn:Hu|];
    last_call os by (rewrite ?Hid, ?Hu; cbn; rewrite ?(alter_as_insert _ _ _ _ Hid)).
Qed.

Lemma RecordLoginStep_atomic m step os now d :
  atomic (RecordLoginStep m step) os now d None (record_step_spec m step now d).
Proof.
  unfold RecordLoginStep, record_step_spec, fresh_step. destruct (mfa d !! m) as [r|] eqn:Hm.
  - destruct (f_last_step r) as [last|] eqn:Hl; [destruct (last <? step) eqn:Hlt|];
      last_call os by (rewrite ?Hm, ?Hl, ?Hlt; cbn; rewrite ?(alter_as_insert _ _ _ _ Hm)).
  - last_call os by (rewrite ?Hm).
Qed.

Lemma atomic_commit_to os now d u d' :
  t_aborted u = false -> apply_writes (t_pending u) d = d' -> atomic commit os now d (Some u) (Ok tt, d').
Proof. intros Hu <-. by apply atomic_commit. Qed.

Lemma same_household (r : mfa_row) (hh : Uuid) :
  bool_decide (uuid_string (f_household r) = uuid_string hh) = bool_decide (f_household r = hh).
Proof. apply bool_decide_ext. split; [apply uuid_string_inj|by intros ->]. Qed.

Lemma beginEnrollmentOnce_atomic m hh secret os now d :
  secret <> ""%string ->
  atomic (beginEnrollmentOnce m hh secret) os now d None (begin_enrollment_spec m hh secret now d).
Proof.
  intros Hsecret. apply atomic_tx. next_calls os. unfold begin_enrollment_spec. tx_call os by idtac. next_calls os.
  destruct (mfa d !! m) as [r|] eqn:Hm; cbn [mbind option_bind].
  - rewrite same_household. destruct (decide (f_household r = hh)) as [Hh|Hh];
      [rewrite (bool_decide_eq_true_2 _ Hh)|rewrite (bool_decide_eq_false_2 _ Hh); apply atomic_done]; cbn [negb].
    destruct (f_confirmed r); [apply atomic_done|].
    tx_call os by (cbn; rewrite (bool_decide_eq_false_2 _ Hsecret)). apply atomic_commit_to; [done|].
    cbn. by rewrite (alter_as_insert _ _ _ _ Hm), <- Hh.
  - assert (bool_decide (is_Some (mfa d !! m)) = false) as Hnone by (rewrite Hm; by apply bool_decide_eq_false_2; intros [? ?]).
    destruct (bool_decide (is_Some (households d !! hh))) eqn:Hhh; [destruct (belongs d m hh) eqn:Hb|]; cbn [andb].
    + tx_call os by (cbn [view t_pending apply_writes foldl]; unfold insert_row; rewrite (bool_decide_eq_false_2 _ Hsecret), Hnone, Hhh, Hb).
      apply atomic_commit_to; [done|]. cbn. unfold insert_new. by rewrite Hm.
    + tx_call os by (cbn [view t_pending apply_writes foldl]; unfold insert_row; rewrite (bool_decide_eq_false_2 _ Hsecret), Hnone, Hhh, Hb). apply atomic_done.
    + tx_call os by (cbn [view t_pending apply_writes foldl]; unfold insert_row; rewrite (bool_decide_eq_false_2 _ Hsecret), Hnone, Hhh). apply atomic_done.
Qed.

(** Alone, the insert never races, and the retry is not taken. *)
Lemma BeginEnrollmentRow_atomic m hh secret os now d :
  secret <> ""%string ->
  atomic (BeginEnrollmentRow m hh secret) os now d None (begin_enrollment_spec m hh secret now d).
Proof.
  intros Hsecret. pose proof (beginEnrollmentOnce_atomic m hh secret os now d Hsecret) as [Hout Hcalm].
  assert ((begin_enrollment_spec m hh secret now d).1 <> Err errMFAEnrollmentRaced) as Hspec
    by (unfold begin_enrollment_spec; by repeat case_match).
  assert ((alone (beginEnrollmentOnce m hh secret) os now d None).1 <> Err errMFAEnrollmentRaced) as Hne
    by (destruct Hout as [->|[->| ->]]; done).
  assert (alone (BeginEnrollmentRow m hh secret) os now d None = alone (beginEnrollmentOnce m hh secret) os now d None) as E.
  { unfold BeginEnrollmentRow.
    destruct (alone_bind (beginEnrollmentOnce m hh secret) (fun r =>
      if bool_decide (r = Err errMFAEnrollmentRaced)
      then pbind (beginEnrollmentOnce m hh secret) (fun r => if bool_decide (r = Err errMFAEnrollmentRaced) then fail EInternal else Ret r)
      else Ret r) os now d None) as (os' & t' & _ & ->).
    rewrite (bool_decide_eq_false_2 _ Hne). cbn [alone]. by destruct (alone (beginEnrollmentOnce _ _ _) _ _ _ _). }
  unfold atomic. by rewrite E.
Qed.

(** The identifiers of the first [k] answers are pairwise different, and no code has one. *)
Definition fresh_ids os (k : nat) (cs : gmap Uuid code_row) : Prop :=
  let ids := (fun i => o_id (os i)) <$> seq 0 k in NoDup ids /\ Forall (fun id => cs !! id = None) ids.

(** The identifiers [n] inserts draw: one in two calls. *)
Definition drawn os (n : nat) : list Uuid := (fun i => o_id (os (2 * i)%nat)) <$> seq 0 n.

Lemma drawn_S os n : drawn os (S n) = o_id (os 0%nat) :: drawn (fun k => os (S (S k))) n.
Proof.
  unfold drawn. cbn [seq fmap list_fmap]. f_equal. rewrite <- fmap_S_seq, <- list_fmap_compose.
  apply list_fmap_ext. intros i x _. cbn. by replace (x + S (x + 0))%nat with (S (x + (x + 0))) by lia.
Qed.

Definition code_writes (m : Uuid) (ids : list Uuid) (hashes : list string) (now : Z) : list write :=
  zip_with (fun id hash => WCode id (mkCode m hash None now)) ids hashes.

Lemma insert_codes_atomic m hashes os now d u :
  t_aborted u = false -> is_Some (mfa (apply_writes (t_pending u) d) !! m) ->
  NoDup (drawn os (length hashes)) ->
  Forall (fun id => codes (apply_writes (t_pending u) d) !! id = None) (drawn os (length hashes)) ->
  atomic (insert_codes m hashes) os now d (Some u)
    (Ok tt, apply_writes (t_pending u ++ code_writes m (drawn os (length hashes)) hashes (t_now u)) d).
Proof.
  revert os u. induction hashes as [|hash hashes IH]; intros os u Ha Hm Hnd Hnone; cbn [insert_codes length] in *.
  { rewrite app_nil_r. by apply atomic_commit. }
  rewrite drawn_S in *. cbn [code_writes zip_with]. apply atomic_fresh.
  apply NoDup_cons in Hnd as [Hne Hnd]. apply Forall_cons in Hnone as [Hnew Hnone].
  assert (bool_decide (is_Some (codes (apply_writes (t_pending u) d) !! o_id (os 0%nat))) = false) as Hid
    by (apply bool_decide_eq_false_2; rewrite Hnew; by intros [? ?]).
  pose proof (bool_decide_eq_true_2 _ Hm) as Hmb. revert Hne Hnew Hid. generalize (o_id (os 0%nat)). intros id Hne Hnew Hid.
  destruct (o_fault (os 1%nat)) eqn:Hf;
    [|apply atomic_internal; [cbn [alone serve exec]; by rewrite Ha, Hf|intros Hc; by rewrite (Hc 0%nat) in Hf]..].
  eapply atomic_next; [cbn [alone serve exec]; rewrite Ha, Hf; run_query; cbn [view]; unfold insert_row; rewrite Hid, Hmb; reflexivity
    |apply calm_shift|].
  cbn [List.find fst negb]. match goal with |- atomic _ ?os' _ _ (Some ?u') _ => specialize (IH os' u') end.
  cbn [t_pending t_now t_aborted] in IH. rewrite <- app_assoc in IH. apply IH; [done| |exact Hnd|]; rewrite apply_writes_app.
  - done.
  - cbn. unfold insert_new. rewrite Hnew. rewrite Forall_forall in *. intros id' Hid'.
    rewrite lookup_insert_ne; [by apply Hnone|]. by intros ->.
Qed.

(** The calls of a confirmation with [n] codes: begin, three statements, and two for each code. *)
Definition confirm_calls (n : nat) : nat := 4 + 2 * n.

Lemma drawn_fresh n os cs : fresh_ids os (confirm_calls n) cs ->
  let ids := drawn (fun k => os (S (S (S (S k))))) n in
  length ids = n /\ NoDup ids /\ Forall (fun id => cs !! id = None) ids.
Proof.
  intros [Hnd Hnone]. unfold drawn. rewrite length_fmap, length_seq. split; [done|]. split.
  - apply NoDup_fmap_2_strong; [|apply NoDup_seq]. intros i j Hi%elem_of_seq Hj%elem_of_seq E.
    pose proof (proj1 (NoDup_alt _) Hnd (4 + 2 * i)%nat (4 + 2 * j)%nat (o_id (os (4 + 2 * i)%nat))) as Hinj.
    rewrite !list_lookup_fmap, !lookup_seq_lt in Hinj by (unfold confirm_calls; lia). cbn in Hinj. cbn in E.
    rewrite <- E in Hinj. specialize (Hinj eq_refl eq_refl). lia.
  - apply Forall_fmap, Forall_forall. intros i Hi%elem_of_seq. rewrite Forall_fmap, Forall_forall in Hnone.
    apply (Hnone (4 + 2 * i)%nat), elem_of_seq. unfold confirm_calls. lia.
Qed.

Lemma code_writes_codes m ids hashes now d :
  NoDup ids -> Forall (fun id => codes d !! id = None) ids ->
  apply_writes (code_writes m ids hashes now) d =
  set_codes (foldl (fun cs ih => <[ih.1 := mkCode m ih.2 None now]> cs) (codes d) (zip ids hashes)) d.
Proof.
  revert hashes d. induction ids as [|id ids IH]; intros hashes d Hnd Hf; [by destruct d|].
  destruct hashes as [|hash hashes]; [by destruct d|]. apply NoDup_cons in Hnd as [Hid Hnd].
  apply Forall_cons in Hf as [Hnone Hf].
  change (apply_writes (code_writes m (id :: ids) (hash :: hashes) now) d)
    with (apply_writes (code_writes m ids hashes now) (apply_write (WCode id (mkCode m hash None now)) d)).
  rewrite IH.
  - cbn. unfold insert_new. by rewrite Hnone.
  - done.
  - cbn. unfold insert_new. rewrite Hnone. rewrite Forall_forall in *. intros id' Hid'. rewrite lookup_insert_ne; [by apply Hf|].
    by intros ->.
Qed.

Lemma codes_without_none m cs id : cs !! id = None -> codes_without m cs !! id = None.
Proof. intros Hid. unfold codes_without. apply map_lookup_filter_None_2. by left. Qed.

(** With fresh identifiers from the environment. *)
Lemma ConfirmEnrollmentWithCodes_atomic hh m hashes os now d :
  fresh_ids os (confirm_calls (length hashes)) (codes d) ->
  exists ids, length ids = length hashes /\ NoDup ids /\ Forall (fun id => codes d !! id = None) ids /\
    atomic (ConfirmEnrollmentWithCodes hh m hashes) os now d None (confirm_enrollment_spec hh m hashes ids now d).
Proof.
  intros Hfresh. destruct (drawn_fresh (length hashes) _ _ Hfresh) as (Hlen & Hnd & Hnone).
  exists (drawn (fun n => os (S (S (S (S n))))) (length hashes)). split_and!; [done..|].
  unfold ConfirmEnrollmentWithCodes. apply atomic_tx. unfold confirm_enrollment_spec. tx_call (fun n => os (S n)) by idtac.
  destruct (mfa d !! m) as [r|] eqn:Hm; cbn [mbind option_bind]; [|apply atomic_done].
  rewrite same_household. destruct (decide (f_household r = hh)) as [Hh|Hh];
    [rewrite (bool_decide_eq_true_2 _ Hh)|rewrite (bool_decide_eq_false_2 _ Hh); apply atomic_done]; cbn [negb].
  destruct (f_confirmed r); [apply atomic_done|].
  tx_call (fun n => os (S (S n))) by idtac. tx_call (fun n => os (S (S (S n)))) by idtac.
  match goal with |- atomic _ _ _ _ (Some ?u') _ =>
    pose proof (insert_codes_atomic m hashes (fun n => os (S (S (S (S n))))) now d u' eq_refl) as Hins end.
  cbn [t_pending t_now] in Hins. rewrite apply_writes_app in Hins.
  assert (forall ids, Forall (fun id => codes d !! id = None) ids -> Forall (fun id => codes_without m (codes d) !! id = None) ids)
    as Hw by (intros ids Hids; eapply Forall_impl; [exact Hids|]; intros id; by apply codes_without_none).
  rewrite code_writes_codes in Hins by auto. cbn in Hins. rewrite (alter_as_insert _ _ _ _ Hm), Hh in Hins.
  apply Hins; auto. rewrite lookup_insert_eq. by eexists.
Qed.

(** *** The contract *)

(** [calls n] answers are enough for a confirmation with [n] codes. *)
Class MFAContract (repo : MFARepository) (calls : nat -> nat) : Prop := {
  get_enrollment_law m os now d :
    atomic (port_GetEnrollment repo m) os now d None (get_enrollment_spec m d);
  begin_enrollment_law m hh secret os now d : secret <> ""%string ->
    atomic (port_BeginEnrollment repo m hh secret) os now d None (begin_enrollment_spec m hh secret now d);
  confirm_enrollment_law hh m hashes os now d : fresh_ids os (calls (length hashes)) (codes d) ->
    exists ids, length ids = length hashes /\ NoDup ids /\ Forall (fun id => codes d !! id = None) ids /\
      atomic (port_ConfirmEnrollmentWithCodes repo hh m hashes) os now d None
        (confirm_enrollment_spec hh m hashes ids now d);
  delete_enrollment_law hh m os now d :
    atomic (port_DeleteEnrollment repo hh m) os now d None (delete_enrollment_spec hh m d);
  list_unused_law m os now d :
    atomic (port_ListUnusedRecoveryCodes repo m) os now d None (list_unused_spec m d);
  mark_used_law id os now d :
    atomic (port_MarkRecoveryCodeUsed repo id) os now d None (mark_used_spec id now d);
  record_step_law m step os now d :
    atomic (port_RecordLoginStep repo m step) os now d None (record_step_spec m step now d)
}.
End mfa.

(** C26. The Postgres adapter honours the MFA port. Run alone, each of the seven operations is one
    function of the tables: which error it answers on which state, and the rows it leaves.
    Whatever statement, begin or commit fails, or is done and its reply lost, the operation
    answers an internal error and the tables are as before or as that function leaves them,
    never in between: an enrolment is not confirmed without its codes, nor are codes replaced
    without the confirmation. *)
Theorem MFARepository_contract `{UuidLib, Postgres} : MFAContract postgres_mfa confirm_calls.
Proof.
  split; intros.
  - apply GetEnrollment_atomic.
  - by apply BeginEnrollmentRow_atomic.
  - by apply ConfirmEnrollmentWithCodes_atomic.
  - apply DeleteEnrollment_atomic.
  - apply ListUnusedRecoveryCodes_atomic.
  - apply MarkRecoveryCodeUsed_atomic.
  - apply RecordLoginStep_atomic.
Qed.

(** ** The WebAuthn credential repository *)

Section webauthn.
Context `{UuidLib, Postgres}.
Implicit Types (os : nat -> oracle).

Record WebAuthnCredentialRepository := mkCredentialRepository {
  port_ListByMember : Uuid -> Uuid -> P (list WebAuthnCredential);
  port_Create : Uuid -> WebAuthnCredential -> P unit;
  port_Rename : Uuid -> Uuid -> Uuid -> string -> P unit;
  port_Delete : Uuid -> Uuid -> Uuid -> P unit;
  port_FindByUserHandle : string -> P (Uuid * list WebAuthnCredential);
  port_UpdateAfterAssertion : string -> Z -> Z -> P unit
}.

Definition postgres_credentials : WebAuthnCredentialRepository :=
  mkCredentialRepository ListByMember CreateCredential RenameCredential DeleteCredential FindByUserHandle
    UpdateAfterAssertion.

(** *** The contract, operation by operation *)

Definition list_by_member_spec (hh m : Uuid) (d : DB) : result identity_error (list WebAuthnCredential) * DB :=
  (Ok (as_credential <$> member_rows d m hh), d).

(** A clash of row identifiers has no sentinel. *)
Definition create_credential_spec (hh : Uuid) (c : WebAuthnCredential) (now : Z) (d : DB) : result identity_error unit * DB :=
  if decide (is_Some (creds d !! wc_id c)) then (Err EInternal, d)
  else if decide (is_Some (cred_row_of d (wc_credential c))) then (Err ErrWebAuthnCredentialExists, d)
  else if decide (is_Some (households d !! hh)) then
    if belongs d (wc_member c) hh then
      (Ok tt, set_creds (<[wc_id c := mkCred hh (wc_member c) (wc_credential c) (wc_public c) (wc_count c)
                 (wc_transports c) (wc_aaguid c) (wc_nickname c) (wc_handle c) now None]> (creds d)) d)
    else (Err ErrMemberNotFound, d)
  else (Err ErrHouseholdNotFound, d).

(** The row [id], when it is of that member of that household. *)
Definition owned_credential (hh m id : Uuid) (d : DB) : option cred_row :=
  match creds d !! id with
  | Some r => if decide (k_member r = m /\ k_household r = hh) then Some r else None
  | None => None
  end.

Definition rename_credential_spec (hh m id : Uuid) (nickname : string) (d : DB) : result identity_error unit * DB :=
  match owned_credential hh m id d with
  | Some r =>
    (Ok tt, set_creds (<[id := mkCred (k_household r) (k_member r) (k_cred r) (k_public r) (k_count r) (k_transports r)
               (k_aaguid r) nickname (k_handle r) (k_created r) (k_used r)]> (creds d)) d)
  | None => (Err ErrWebAuthnCredentialNotFound, d)
  end.

Definition delete_credential_spec (hh m id : Uuid) (d : DB) : result identity_error unit * DB :=
  match owned_credential hh m id d with
  | Some _ => (Ok tt, set_creds (delete id (creds d)) d)
  | None => (Err ErrWebAuthnCredentialNotFound, d)
  end.

(** Nobody is named for a handle two members share. *)
Definition find_by_handle_spec (handle : string) (d : DB) : result identity_error (Uuid * list WebAuthnCredential) * DB :=
  (match handle_rows d handle with
   | [] => Err ErrMemberNotFound
   | kv :: rows =>
     if decide (Forall (fun kv' => k_member kv'.2 = k_member kv.2) (kv :: rows))
     then Ok (k_member kv.2, as_credential <$> kv :: rows)
     else Err EInternal
   end, d).

(** Later, or as late with no smaller a counter. *)
Definition newer (r : cred_row) (count used : Z) : bool :=
  match k_used r with None => true | Some last => (last <? used) || ((last =? used) && (k_count r <=? count)) end.

(** An assertion older than the one on file succeeds and writes nothing. *)
Definition update_assertion_spec (cred : string) (count used : Z) (d : DB) : result identity_error unit * DB :=
  match cred_row_of d cred with
  | Some (id, r) =>
    if newer r count used
    then (Ok tt, set_creds (<[id := mkCred (k_household r) (k_member r) (k_cred r) (k_public r) count (k_transports r)
                    (k_aaguid r) (k_nickname r) (k_handle r) (k_created r) (Some used)]> (creds d)) d)
    else (Ok tt, d)
  | None => (Err ErrWebAuthnCredentialNotFound, d)
  end.

(** *** The Postgres adapter keeps it *)

Lemma ListByMember_atomic hh m os now d : atomic (ListByMember hh m) os now d None (list_by_member_spec hh m d).
Proof.
  unfold ListByMember, list_by_member_spec.
  last_call os by (fold (member_rows d m hh); rewrite ?(scanCreds_rows m) by apply member_rows_all).
Qed.

Lemma CreateCredential_atomic hh c os now d :
  atomic (CreateCredential hh c) os now d None (create_credential_spec hh c now d).
Proof.
  unfold CreateCredential, create_credential_spec. rewrite !decide_bool_decide.
  destruct (bool_decide (is_Some (creds d !! wc_id c))) eqn:Hid,
    (bool_decide (is_Some (cred_row_of d (wc_credential c)))) eqn:Hcred,
    (bool_decide (is_Some (households d !! hh))) eqn:Hhh, (belongs d (wc_member c) hh) eqn:Hb;
    last_call os by (unfold insert_row; rewrite ?Hid, ?Hcred, ?Hhh, ?Hb; cbn; unfold insert_new;
      try (apply bool_decide_eq_false_1, eq_None_not_Some in Hid; rewrite Hid)).
Qed.

Lemma owned_credential_Some hh m id d :
  match creds d !! id with Some r => bool_decide (k_member r = m /\ k_household r = hh) | None => false end
  = bool_decide (is_Some (owned_credential hh m id d)).
Proof.
  unfold owned_credential. destruct (creds d !! id) as [r|].
  - case_decide as Ho; [rewrite (bool_decide_eq_true_2 _ Ho)|rewrite (bool_decide_eq_false_2 _ Ho)]; done.
  - done.
Qed.

Lemma owned_credential_lookup hh m id d r : owned_credential hh m id d = Some r -> creds d !! id = Some r.
Proof. unfold owned_credential. destruct (creds d !! id); [|done]. case_decide; [|done]. done. Qed.

Lemma RenameCredential_atomic hh m id nickname os now d :
  atomic (RenameCredential hh m id nickname) os now d None (rename_credential_spec hh m id nickname d).
Proof.
  unfold RenameCredential, rename_credential_spec.
  last_call os by (rewrite ?owned_credential_Some; destruct (owned_credential hh m id d) as [r|] eqn:Ho; cbn;
    rewrite ?(alter_as_insert _ _ _ _ (owned_credential_lookup _ _ _ _ _ Ho))).
Qed.

Lemma DeleteCredential_atomic hh m id os now d :
  atomic (DeleteCredential hh m id) os now d None (delete_credential_spec hh m id d).
Proof.
  unfold DeleteCredential, delete_credential_spec.
  last_call os by (rewrite ?owned_credential_Some; destruct (owned_credential hh m id d) as [r|] eqn:Ho; cbn).
Qed.

Lemma FindByUserHandle_atomic handle os now d :
  atomic (FindByUserHandle handle) os now d None (find_by_handle_spec handle d).
Proof.
  unfold FindByUserHandle, find_by_handle_spec. pose proof (collect_rows (handle_rows d handle)) as Hc.
  destruct (handle_rows d handle) as [|[id r] rows] eqn:Hh; cbn [snd].
  - last_call os by (fold (handle_rows d handle); rewrite ?Hh, ?Hc).
  - destruct Hc as [[Hall Hc]|[He Hc]].
    + rewrite decide_True by exact Hall. last_call os by (fold (handle_rows d handle); rewrite ?Hh, ?Hc).
    + rewrite decide_False by (intros Hall; apply Exists_exists in He as (kv & Hin & Hne);
        rewrite Forall_forall in Hall; by apply Hne, Hall).
      last_call os by (fold (handle_rows d handle); rewrite ?Hh, ?Hc).
Qed.

(** Nothing was updated: does the credential exist? *)
Lemma UpdateAfterAssertion_skips cred count used os now d :
  query (QUpdateAssertion cred count used) now d = Ok (0, []) ->
  atomic (UpdateAfterAssertion cred count used) os now d None
    (if bool_decide (is_Some (cred_row_of d cred)) then Ok tt else Err ErrWebAuthnCredentialNotFound, d).
Proof.
  intros Hq. unfold UpdateAfterAssertion, atomic. cbn [alone serve exec].
  destruct (o_fault (os 0%nat)) eqn:Hf0, (o_fault (os 1%nat)) eqn:Hf1; rewrite ?Hq; cbn; rewrite ?Hf1; cbn;
    destruct (bool_decide (is_Some (cred_row_of d cred))); cbn; (split; [by auto|intros Hc]);
    first [done | by rewrite Hc in Hf0 | by rewrite Hc in Hf1].
Qed.

Lemma UpdateAfterAssertion_atomic cred count used os now d :
  atomic (UpdateAfterAssertion cred count used) os now d None (update_assertion_spec cred count used d).
Proof.
  unfold update_assertion_spec, newer. pose proof (UpdateAfterAssertion_skips cred count used os now d) as Hskip.
  revert Hskip. run_query. destruct (cred_row_of d cred) as [[id r]|] eqn:Hr; intros Hskip; [|by apply Hskip].
  destruct (match k_used r with None => true | Some last => _ end) eqn:Hn; [|by apply Hskip].
  unfold UpdateAfterAssertion. pose proof (cred_row_of_lookup _ _ _ _ Hr) as Hid.
  last_call os by (rewrite ?Hr, ?Hn; cbn; rewrite ?(alter_as_insert _ _ _ _ Hid)).
Qed.

(** *** The contract *)

Class CredentialContract (repo : WebAuthnCredentialRepository) : Prop := {
  list_by_member_law hh m os now d :
    atomic (port_ListByMember repo hh m) os now d None (list_by_member_spec hh m d);
  create_credential_law hh c os now d :
    atomic (port_Create repo hh c) os now d None (create_credential_spec hh c now d);
  rename_credential_law hh m id nickname os now d :
    atomic (port_Rename repo hh m id nickname) os now d None (rename_credential_spec hh m id nickname d);
  delete_credential_law hh m id os now d :
    atomic (port_Delete repo hh m id) os now d None (delete_credential_spec hh m id d);
  find_by_handle_law handle os now d :
    atomic (port_FindByUserHandle repo handle) os now d None (find_by_handle_spec handle d);
  update_assertion_law cred count used os now d :
    atomic (port_UpdateAfterAssertion repo cred count used) os now d None (update_assertion_spec cred count used d)
}.
End webauthn.

(** C17. The Postgres adapter honours the passkey port. Run alone, each of the six operations is one
    function of the tables, and under any faults it does that or fails with an internal error,
    having done all of it or nothing: a member of another household sees and changes nothing;
    a credential id is registered once; a handle two members share names nobody; and an
    assertion older than the one on file succeeds without touching the counter. *)
Theorem CredentialRepository_contract `{UuidLib, Postgres} : CredentialContract postgres_credentials.
Proof.
  split; intros.
  - apply ListByMember_atomic.
  - apply CreateCredential_atomic.
  - apply RenameCredential_atomic.
  - apply DeleteCredential_atomic.
  - apply FindByUserHandle_atomic.
  - apply UpdateAfterAssertion_atomic.
Qed.

(** ** A client of the port *)

Section client.
Context `{UuidLib, Postgres} (repo : MFARepository) (calls : nat -> nat) `{!MFAContract repo calls}.
Implicit Types (os : nat -> oracle).

Lemma unused_codes_perm (d : DB) m :
  unused_codes d m ≡ₚ filter (fun kv => c_member kv.2 = m /\ c_used kv.2 = None) (map_to_list (codes d)).
Proof. unfold unused_codes, ordered. apply merge_sort_Permutation. Qed.

Lemma inserted_hashes m ids hashes now (cs : gmap Uuid code_row) :
  length ids = length hashes -> NoDup ids -> Forall (fun id => cs !! id = None) ids ->
  (fun kv : Uuid * code_row => c_hash kv.2) <$>
    filter (fun kv => c_member kv.2 = m /\ c_used kv.2 = None)
      (map_to_list (foldl (fun cs ih => <[ih.1 := mkCode m ih.2 None now]> cs) cs (zip ids hashes)))
  ≡ₚ hashes ++ ((fun kv => c_hash kv.2) <$> filter (fun kv => c_member kv.2 = m /\ c_used kv.2 = None) (map_to_list cs)).
Proof.
  revert hashes cs. induction ids as [|id ids IH]; intros [|hash hashes] cs Hl Hnd Hf; try done.
  apply NoDup_cons in Hnd as [Hid Hnd]. apply Forall_cons in Hf as [Hnone Hf]. injection Hl as Hl.
  cbn [zip zip_with foldl fst snd]. rewrite IH; [|done|done|].
  - rewrite map_to_list_insert by done. rewrite filter_cons_True by done. cbn. by rewrite Permutation_middle.
  - rewrite Forall_forall in *. intros id' Hid'. rewrite lookup_insert_ne; [by apply Hf|]. by intros ->.
Qed.

Lemma none_of_member m (cs : gmap Uuid code_row) :
  filter (fun kv => c_member kv.2 = m /\ c_used kv.2 = None) (map_to_list (codes_without m cs)) = [].
Proof.
  destruct (filter _ _) as [|kv l] eqn:E; [done|]. assert (kv ∈ kv :: l) as Hin by left. rewrite <- E in Hin.
  apply list_elem_of_filter in Hin as [[Hm _] Hin]. destruct kv as [id r]. apply elem_of_map_to_list in Hin.
  unfold codes_without in Hin. apply map_lookup_filter_Some in Hin as [_ Hne]. done.
Qed.

Lemma law {A} (p : P A) os now d spec : calm os -> atomic p os now d None spec -> alone p os now d None = spec.
Proof. intros Hc [_ Hs]. by apply Hs. Qed.

(** The life of an enrolment, over any repository that keeps the contract: begun, it is on file
    unconfirmed; confirmed with codes, it is active with the same secret and the unused codes
    are those codes, each once; it can then neither be begun nor confirmed again; deleted, the
    member is not enrolled and none of the codes is left. *)
Theorem enrollment_lifecycle m hh secret secret' hashes hashes' os now d :
  calm os -> fresh_ids os (calls (length hashes)) (codes d) -> secret <> ""%string -> secret' <> ""%string ->
  mfa d !! m = None -> is_Some (households d !! hh) -> belongs d m hh = true ->
  let d1 := (alone (port_BeginEnrollment repo m hh secret) os now d None).2 in
  let d2 := (alone (port_ConfirmEnrollmentWithCodes repo hh m hashes) os now d1 None).2 in
  let d3 := (alone (port_DeleteEnrollment repo hh m) os now d2 None).2 in
  alone (port_GetEnrollment repo m) os now d1 None = (Ok (mkEnrollment m hh secret None None), d1) /\
  alone (port_GetEnrollment repo m) os now d2 None = (Ok (mkEnrollment m hh secret (Some now) None), d2) /\
  (exists cs, alone (port_ListUnusedRecoveryCodes repo m) os now d2 None = (Ok cs, d2) /\ CodeHash <$> cs ≡ₚ hashes) /\
  alone (port_BeginEnrollment repo m hh secret') os now d2 None = (Err ErrMFAAlreadyEnrolled, d2) /\
  (forall os', calm os' -> fresh_ids os' (calls (length hashes')) (codes d2) ->
    alone (port_ConfirmEnrollmentWithCodes repo hh m hashes') os' now d2 None = (Err ErrMFAAlreadyEnrolled, d2)) /\
  alone (port_GetEnrollment repo m) os now d3 None = (Err ErrMFANotEnrolled, d3) /\
  alone (port_ListUnusedRecoveryCodes repo m) os now d3 None = (Ok [], d3).
Proof.
  intros Hc Hfresh Hs Hs' Hm Hhh Hb.
  rewrite (law _ _ _ _ _ Hc (begin_enrollment_law m hh secret os now d Hs)). unfold begin_enrollment_spec.
  rewrite Hm, (bool_decide_eq_true_2 _ Hhh), Hb. cbn [andb snd]. set (d1 := set_mfa _ d).
  destruct (confirm_enrollment_law hh m hashes os now d1 Hfresh) as (ids & Hlen & Hnd & Hnone & Hconfirm).
  rewrite (law _ _ _ _ _ Hc Hconfirm). unfold confirm_enrollment_spec.
  assert (mfa d1 !! m = Some (mkMfa hh secret None None now now)) as Hm1 by apply lookup_insert_eq.
  rewrite Hm1. cbn [f_household f_confirmed f_secret f_last_step f_created]. rewrite decide_True by done. cbn [snd].
  set (d2 := set_codes _ _). cbv zeta.
  assert (mfa d2 !! m = Some (mkMfa hh secret (Some now) None now now)) as Hm2 by apply lookup_insert_eq.
  rewrite (law _ _ _ _ _ Hc (delete_enrollment_law hh m os now d2)). unfold delete_enrollment_spec.
  rewrite Hm2. cbn [f_household]. rewrite decide_True by done. cbn [snd]. set (d3 := set_codes _ (set_mfa _ d2)).
  rewrite !(law _ _ _ _ _ Hc (get_enrollment_law m os now _)), !(law _ _ _ _ _ Hc (list_unused_law m os now _)).
  unfold get_enrollment_spec, list_unused_spec. rewrite Hm1, Hm2. cbn [f_household f_secret f_confirmed f_last_step].
  assert (mfa d3 !! m = None) as -> by apply lookup_delete_eq.
  split_and!; [done|done| | | |done|].
  - eexists. split; [done|]. rewrite <- list_fmap_compose. cbn. rewrite unused_codes_perm. unfold d2. cbn. unfold reissued.
    rewrite inserted_hashes; [|done|done|].
    + by rewrite none_of_member, app_nil_r.
    + eapply Forall_impl; [exact Hnone|]. intros id. by apply codes_without_none.
  - rewrite (law _ _ _ _ _ Hc (begin_enrollment_law m hh secret' os now d2 Hs')). unfold begin_enrollment_spec.
    rewrite Hm2. cbn [f_household f_confirmed]. by rewrite decide_True.
  - intros os' Hc' Hfresh2. destruct (confirm_enrollment_law hh m hashes' os' now d2 Hfresh2) as (ids' & _ & _ & _ & Hconfirm').
    rewrite (law _ _ _ _ _ Hc' Hconfirm'). unfold confirm_enrollment_spec. rewrite Hm2. cbn [f_household f_confirmed].
    by rewrite decide_True.
  - assert (unused_codes d3 m = []) as ->; [|done]. apply Permutation_nil_r. rewrite unused_codes_perm. unfold d3.
    cbn [codes set_codes set_mfa]. by rewrite none_of_member.
Qed.
End client.

Module PortsWitness.
Import HexUuid MembersWitness.

(** Sixteen identifiers, one per answer. *)
Definition numbered (n : nat) : oracle := mkOracle Fine (uid n) [].

Definition begun : DB := (alone (BeginEnrollmentRow (uid 1) (uid 0) "secret") numbered 5 two_owners None).2.
Definition confirmed : DB :=
  (alone (ConfirmEnrollmentWithCodes (uid 0) (uid 1) ["AAAA"; "BBBB"]) numbered 5 begun None).2.

Lemma enrollment_lifecycle_witness :
  (exists cs, alone (ListUnusedRecoveryCodes (uid 1)) numbered 5 confirmed None = (Ok cs, confirmed) /\
     CodeHash <$> cs ≡ₚ ["AAAA"; "BBBB"]) /\
  alone (BeginEnrollmentRow (uid 1) (uid 0) "other") numbered 5 confirmed None = (Err ErrMFAAlreadyEnrolled, confirmed).
Proof.
  assert (MFAContract postgres_mfa confirm_calls) as Hrepo.
  { split; intros; [apply GetEnrollment_atomic|by apply BeginEnrollmentRow_atomic|by apply ConfirmEnrollmentWithCodes_atomic
      |apply DeleteEnrollment_atomic|apply ListUnusedRecoveryCodes_atomic|apply MarkRecoveryCodeUsed_atomic|apply RecordLoginStep_atomic]. }
  destruct (enrollment_lifecycle postgres_mfa confirm_calls (uid 1) (uid 0) "secret" "other" ["AAAA"; "BBBB"] [] numbered 5 two_owners)
    as (_ & _ & Hcodes & Hagain & _).
  - done.
  - split; [apply (bool_decide_unpack _); by vm_compute|by repeat constructor].
  - done.
  - done.
  - reflexivity.
  - by eexists.
  - reflexivity.
  - split; [exact Hcodes|exact Hagain].
Defined.

(** The connection lost at the commit: the confirmation is there, with its codes, though the
    caller is told it failed. *)
Example commit_lost :
  let lost := fun n => mkOracle (if (n =? 6)%nat then Lost else Fine) (uid n) [] in
  let '(r, d) := alone (ConfirmEnrollmentWithCodes (uid 0) (uid 1) ["AAAA"]) lost 5 begun None in
  (r, is_ok (alone (MarkRecoveryCodeUsed (uid 4)) numbered 6 d None).1) = (Err EInternal, true).
Proof. vm_compute. reflexivity. Qed.
End PortsWitness.
