(* ===== verification/Wiring.v ===== *)
(** The composition root's side of the identity and media packages: what each
    constructor requires of what it is handed, and that it requires enough. A
    repository is handed an executor ([db.TX]): a pool and a transaction can also begin
    transactions, other executors may not. *)

From S2P Require Import Prelude GoStrings Uuids MediaDomain IdentityDB IdentityRun Members Discipline MembersSpec Mfa MfaSpec WebAuthn WebAuthnSpec Ports.

(** ** Executors *)

(** [Querier]: an executor without [Begin]. *)
Inductive TX := NilTX | Querier | Beginner.

Inductive wiring_panic := NilExecutor | CannotBegin | InvalidBackend.

(** A nil check, and the assertion to [memberTxBeginner] or [mfaTxBeginner]. *)
Definition needs_tx (dbtx : TX) : result wiring_panic TX :=
  match dbtx with NilTX => Err NilExecutor | _ => Ok dbtx end.
Definition needs_begin (dbtx : TX) : result wiring_panic TX :=
  match dbtx with NilTX => Err NilExecutor | Querier => Err CannotBegin | Beginner => Ok dbtx end.

Definition NewHouseholdRepository : TX -> result wiring_panic TX := needs_tx.
Definition NewMemberRepository : TX -> result wiring_panic TX := needs_begin.
Definition NewCredentialRepository : TX -> result wiring_panic TX := needs_tx.
Definition NewMFARepository : TX -> result wiring_panic TX := needs_begin.
Definition NewWebAuthnCredentialRepository : TX -> result wiring_panic TX := needs_tx.

(** The executor, and the backend [Create] stamps on every row. *)
Definition NewPhotoRepository (dbtx : TX) (backend : StorageBackend) : result wiring_panic (TX * StorageBackend) :=
  match dbtx with
  | NilTX => Err NilExecutor
  | _ => if negb (backend_valid backend) then Err InvalidBackend else Ok (dbtx, backend)
  end.

(** ** Services *)

Section services.
Context `{UuidLib, Postgres}.

Record MFAService := mkMFAService {
  ms_repo : MFARepository; ms_cipher : SecretCipher; ms_totp : TotpLib; ms_hasher : PasswordHasher
}.

(** The first dependency that is missing is the one reported; [logger]: there is one. *)
Definition NewMFAService (repo : option MFARepository) (cipher : option SecretCipher) (totp : option TotpLib)
    (hasher : option PasswordHasher) (logger : bool) : result string MFAService :=
  match repo, cipher, totp, hasher with
  | None, _, _, _ => Err "identity: NewMFAService requires a non-nil MFARepository"%string
  | _, None, _, _ => Err "identity: NewMFAService requires a non-nil cipher"%string
  | _, _, None, _ => Err "identity: NewMFAService requires a non-nil totp provider"%string
  | _, _, _, None => Err "identity: NewMFAService requires a non-nil password hasher"%string
  | Some r, Some c, Some t, Some h =>
    if negb logger then Err "identity: NewMFAService requires a non-nil logger"%string
    else Ok (mkMFAService r c t h)
  end.

Record WebAuthnService `{!UuidBytes} := mkWebAuthnService {
  ws_repo : WebAuthnCredentialRepository; ws_wa : WebAuthnLib; ws_handles : WebAuthnUserHandleDeriver
}.

Definition NewWebAuthnService `{!UuidBytes} (repo : option WebAuthnCredentialRepository) (wa : option WebAuthnLib)
    (handles : option WebAuthnUserHandleDeriver) (logger : bool) : result string WebAuthnService :=
  match repo, wa, handles with
  | None, _, _ => Err "identity: NewWebAuthnService requires a non-nil WebAuthnCredentialRepository"%string
  | _, None, _ => Err "identity: NewWebAuthnService requires a non-nil *webauthn.WebAuthn"%string
  | _, _, None => Err "identity: NewWebAuthnService requires a non-nil WebAuthnUserHandleDeriver"%string
  | Some r, Some w, Some h =>
    if negb logger then Err "identity: NewWebAuthnService requires a non-nil logger"%string
    else Ok {| ws_repo := r; ws_wa := w; ws_handles := h |}
  end.
End services.

(** ** The requirements are the right ones *)

Section executors.
Context `{UuidLib, Postgres}.

Definition begins (c : call) : bool := match c with QBegin => true | _ => false end.
Definition runs_on (dbtx : TX) {A} (p : prog A) : Prop :=
  match dbtx with NilTX => False | Querier => only (fun c => negb (begins c)) p | Beginner => True end.

Lemma runs_on_tx dbtx tx {A} (p : prog A) : needs_tx dbtx = Ok tx -> only (fun c => negb (begins c)) p -> runs_on tx p.
Proof. destruct dbtx; intros [= <-]; done. Qed.
Lemma runs_on_begin dbtx tx {A} (p : prog A) : needs_begin dbtx = Ok tx -> runs_on tx p.
Proof. destruct dbtx; intros E; try done. by injection E as <-. Qed.

(** A single statement and its decision. *)
Ltac plain := repeat first [progress intros | split | progress cbn [only negb begins pbind] | case_match; try done | done].

(** Every operation of a repository runs on any executor its constructor accepted: no
    operation of the three that take any executor begins a transaction. *)
Lemma executors_suffice dbtx tx :
  (NewHouseholdRepository dbtx = Ok tx -> forall h id,
     runs_on tx (CreateHousehold h) /\ runs_on tx (GetHousehold id)) /\
  (NewCredentialRepository dbtx = Ok tx -> forall email id hash,
     runs_on tx (FindByEmail email) /\ runs_on tx (SetCredential id email hash)) /\
  (NewWebAuthnCredentialRepository dbtx = Ok tx -> forall hh m id c nickname handle cred count used,
     runs_on tx (port_ListByMember postgres_credentials hh m) /\ runs_on tx (port_Create postgres_credentials hh c) /\
     runs_on tx (port_Rename postgres_credentials hh m id nickname) /\ runs_on tx (port_Delete postgres_credentials hh m id) /\
     runs_on tx (port_FindByUserHandle postgres_credentials handle) /\
     runs_on tx (port_UpdateAfterAssertion postgres_credentials cred count used)) /\
  (NewMFARepository dbtx = Ok tx -> forall A (p : prog A), runs_on tx p) /\
  (NewMemberRepository dbtx = Ok tx -> forall A (p : prog A), runs_on tx p).
Proof.
  split_and!; intros Hn; intros; try (by eapply runs_on_begin); split_and?; (eapply runs_on_tx; [exact Hn|]).
  all: unfold CreateHousehold, GetHousehold, FindByEmail, SetCredential, postgres_credentials, port_ListByMember, port_Create,
    port_Rename, port_Delete, port_FindByUserHandle, port_UpdateAfterAssertion, ListByMember, CreateCredential,
    RenameCredential, DeleteCredential, FindByUserHandle, UpdateAfterAssertion; plain.
Qed.

(** And the other two need what they ask for. *)
Lemma begin_needed m hh secret : ~ runs_on Querier (port_BeginEnrollment postgres_mfa m hh secret) /\
  forall active, ~ runs_on Querier (SetMemberActive hh m active).
Proof. split; [|intros active]; intros [Hb _]; discriminate Hb. Qed.
End executors.

(** A service is there exactly when everything it needs is. *)
Lemma NewMFAService_complete `{UuidLib, Postgres} repo cipher totp hasher logger :
  is_ok (NewMFAService repo cipher totp hasher logger) = true <->
  is_Some repo /\ is_Some cipher /\ is_Some totp /\ is_Some hasher /\ logger = true.
Proof.
  unfold is_Some, NewMFAService. destruct repo, cipher, totp, hasher, logger; cbn; split; try done;
    try (intros; by destruct_and?; repeat match goal with H : exists _, None = Some _ |- _ => destruct H end).
  intros _. split_and!; by eexists.
Qed.
