(* ===== verification/SchemaKeys.v ===== *)
(** The unique keys of the identity members, display names within a household and
    email addresses, stay unique under concurrency: a statement checks a key against
    what its own transaction sees, and only the key's lock, held to the end of the
    transaction, keeps another from taking it meanwhile. Both keys share one proof,
    over the class of keys [MemberKey]. *)

From S2P Require Import Prelude GoStrings Uuids IdentityDB IdentityRun Members Discipline MembersSpec.
Local Open Scope Z_scope.

Section effects.
Context `{UuidLib, Postgres}.
Implicit Types (d : DB) (w : write).

(** What a write does to the row of one member. *)
Definition effect (w : write) (i : Uuid) (o : option member_row) : option member_row :=
  match w with
  | WMember id r => if decide (id = i) then match o with Some _ => o | None => Some r end else o
  | WProfile hh id name role now =>
    if decide (id = i) then (fun r => if decide (m_household r = hh)
      then mkMember (m_household r) name role (m_email r) (m_hash r) (m_active r) (m_created r) now
      else r) <$> o else o
  | WActive hh id active now =>
    if decide (id = i) then (fun r => if decide (m_household r = hh)
      then mkMember (m_household r) (m_name r) (m_role r) (m_email r) (m_hash r) active (m_created r) now
      else r) <$> o else o
  | WCredential id email hash now =>
    if decide (id = i) then (fun r =>
      mkMember (m_household r) (m_name r) (m_role r) (Some email) (Some hash) (m_active r) (m_created r) now)
      <$> o else o
  | _ => o
  end.

Definition effects (ws : list write) (i : Uuid) (o : option member_row) : option member_row :=
  foldl (fun o w => effect w i o) o ws.

Lemma members_alter_lookup (f : member_row -> member_row) id (ms : gmap Uuid member_row) i :
  alter f id ms !! i = if decide (id = i) then f <$> ms !! i else ms !! i.
Proof. case_decide as Hi; [subst; by rewrite lookup_alter_eq|by rewrite lookup_alter_ne]. Qed.

Lemma members_write w d i : members (apply_write w d) !! i = effect w i (members d !! i).
Proof.
  destruct w; try done; simpl; rewrite ?members_alter_lookup; try done.
  unfold insert_new. case_decide as Hi; [subst; destruct (members d !! i) eqn:Hm|].
  - done.
  - by rewrite lookup_insert_eq.
  - case_match; [done|]. by rewrite lookup_insert_ne.
Qed.

Lemma members_writes ws d i : members (apply_writes ws d) !! i = effects ws i (members d !! i).
Proof.
  revert d. induction ws as [|w ws IH]; intros d; [done|]. simpl. by rewrite IH, members_write.
Qed.

Lemma effects_app ws ws' i o : effects (ws ++ ws') i o = effects ws' i (effects ws i o).
Proof. apply foldl_app. Qed.
End effects.

(** ** Keys

    A key of a member row, as the lock that stands for it. *)
Class MemberKey `{UuidLib, Postgres} := {
  key : member_row -> option lock;
  (** A statement that may change a row's key locks the row, and the key it gives it. *)
  covered (L : list lock) (w : write) : Prop :=
    (forall i o, (LMember i ∉ L) -> effect w i o = o) /\
    (forall i o, (effect w i o ≫= key) = (o ≫= key) \/
                 exists k, (effect w i o ≫= key) = Some k /\ k ∈ L);
  unique (d : DB) : Prop := forall i j k,
    (members d !! i ≫= key) = Some k -> (members d !! j ≫= key) = Some k -> i = j;
  query_covered : forall c now d v ws, query c now d = Ok (v, ws) -> Forall (covered (takes c d)) ws;
  query_unique : forall c now d v ws, unique d -> query c now d = Ok (v, ws) -> unique (apply_writes ws d)
}.

Section keys.
Context `{MemberKey}.
Implicit Types (d : DB) (w : write) (L : list lock).

Lemma covered_weaken L L' w : L ⊆ L' -> covered L w -> covered L' w.
Proof.
  intros HL [H1' H2']. split; [intros i o Hi; apply H1'; set_solver|].
  intros i o. destruct (H2' i o) as [|(k & ? & ?)]; [by left|right; exists k; set_solver].
Qed.

Lemma effects_untouched L ws i o : Forall (covered L) ws -> (LMember i ∉ L) -> effects ws i o = o.
Proof.
  intros Hws Hi. revert o. induction Hws as [|w ws [Hw _] _ IH]; intros o; simpl; [done|].
  by rewrite Hw, IH.
Qed.

Lemma effects_key L ws i o : Forall (covered L) ws ->
  (effects ws i o ≫= key) = (o ≫= key) \/ exists k, (effects ws i o ≫= key) = Some k /\ k ∈ L.
Proof.
  intros Hws. revert o. induction Hws as [|w ws [_ Hw] _ IH]; intros o; simpl; [by left|].
  destruct (IH (effect w i o)) as [->|?]; [|by right]. apply Hw.
Qed.

(** Two lists of writes under disjoint locks, each keeping the keys unique, do so
    together. *)
Lemma unique_merge L1 L2 ws1 ws2 d :
  Forall (covered L1) ws1 -> Forall (covered L2) ws2 -> (forall l, l ∈ L1 -> l ∉ L2) ->
  unique (apply_writes ws1 d) -> unique (apply_writes ws2 d) ->
  unique (apply_writes ws2 (apply_writes ws1 d)).
Proof.
  intros Hc1 Hc2 Hdis Hu1 Hu2.
  assert (forall i, LMember i ∈ L2 ->
    members (apply_writes ws2 (apply_writes ws1 d)) !! i = members (apply_writes ws2 d) !! i) as Hin.
  { intros i Hi. rewrite !members_writes. rewrite (effects_untouched L1 ws1); [done..|].
    intros Hi1. by apply (Hdis (LMember i)). }
  assert (forall i, (LMember i ∉ L2) ->
    members (apply_writes ws2 (apply_writes ws1 d)) !! i = members (apply_writes ws1 d) !! i) as Hout.
  { intros i Hi. rewrite (members_writes ws2). by rewrite (effects_untouched L2 ws2). }
  assert (forall i j k, LMember i ∈ L2 -> (LMember j ∉ L2) ->
    (members (apply_writes ws2 d) !! i ≫= key) = Some k ->
    (members (apply_writes ws1 d) !! j ≫= key) = Some k -> i = j) as Hmix.
  { intros i j k Hi Hj Hki Hkj.
    assert ((LMember i ∉ L1)) as Hi1 by (intros Hi1; by apply (Hdis (LMember i))).
    rewrite members_writes in Hkj. rewrite members_writes in Hki.
    destruct (effects_key L1 ws1 j (members d !! j) Hc1) as [E1|(k1 & E1 & Hk1)].
    { apply (Hu2 i j k); rewrite members_writes; [done|].
      rewrite (effects_untouched L2 ws2) by done. by rewrite <- E1. }
    destruct (effects_key L2 ws2 i (members d !! i) Hc2) as [E2|(k2 & E2 & Hk2)].
    { apply (Hu1 i j k); rewrite members_writes; [|done].
      rewrite (effects_untouched L1 ws1) by done. by rewrite <- E2. }
    assert (k1 = k2) as -> by congruence. by destruct (Hdis k2). }
  intros i j k Hi Hj.
  destruct (decide (LMember i ∈ L2)) as [Hi2|Hi2]; [rewrite Hin in Hi by done|rewrite Hout in Hi by done];
  (destruct (decide (LMember j ∈ L2)) as [Hj2|Hj2]; [rewrite Hin in Hj by done|rewrite Hout in Hj by done]).
  - by eapply Hu2.
  - by eapply Hmix.
  - symmetry. by eapply Hmix.
  - by eapply Hu1.
Qed.

(** ** Runs *)

Section runs.
Context {A : Type}.
Implicit Types (s : Store A).

(** An open transaction: its writes are covered by its locks and keep the keys unique
    where it stands. *)
Definition tx_ok (d : DB) (t : tx) : Prop :=
  Forall (covered (t_locks t)) (t_pending t) /\ unique (view d (Some t)).

Record keys_inv (s : Store A) : Prop := {
  ki_db : unique (s_db s);
  ki_tx : forall p pr t, s_procs s !! p = Some pr -> p_tx pr = Some t -> tx_ok (s_db s) t;
  ki_apart : forall p q pr qr l, p <> q -> s_procs s !! p = Some pr -> s_procs s !! q = Some qr ->
    l ∈ held pr -> l ∉ held qr
}.

(** Writes committed under locks nobody else holds leave the others as they were. *)
Lemma tx_ok_commit d ws L t :
  Forall (covered L) ws -> unique (apply_writes ws d) -> (forall l, l ∈ L -> l ∉ t_locks t) ->
  tx_ok d t -> tx_ok (apply_writes ws d) t.
Proof. intros Hws Hu Hdis [Hc Ht]. split; [done|]. by apply (unique_merge L (t_locks t)). Qed.

(** A process that moves to [t'] while the committed state takes [ws] under [L]. *)
Lemma keys_move s p pr0 ws L t' (k : prog A) :
  keys_inv s -> s_procs s !! p = Some pr0 ->
  Forall (covered L) ws -> unique (apply_writes ws (s_db s)) ->
  (forall q qr l, q <> p -> s_procs s !! q = Some qr -> l ∈ L -> l ∉ held qr) ->
  (forall u, t' = Some u -> tx_ok (apply_writes ws (s_db s)) u /\
     forall q qr l, q <> p -> s_procs s !! q = Some qr -> l ∈ t_locks u -> l ∉ held qr) ->
  keys_inv (mkStore (apply_writes ws (s_db s)) (s_now s) (<[p := mkProc t' k]> (s_procs s))).
Proof.
  intros [Hdb Htx Hap] Hp Hws Hu HL Ht'. split; simpl; [done|..].
  - intros q qr u [[<- <-]|[Hne Hq]]%lookup_insert_Some Hqt; [by apply Ht'|].
    eapply tx_ok_commit; [done|done| |by eapply Htx].
    intros l Hl. specialize (HL q qr l ltac:(done) Hq Hl). unfold held in HL. by rewrite Hqt in HL.
  - intros q1 q2 r1 r2 l Hne. rewrite !lookup_insert_Some.
    intros [[<- <-]|[Hn1 Hq1]] [[<- <-]|[Hn2 Hq2]] Hl; [done|..].
    + unfold held in Hl. simpl in Hl. destruct t' as [u|]; [|set_solver].
      destruct (Ht' u eq_refl) as [_ Hl']. by eapply Hl'.
    + unfold held. simpl. destruct t' as [u|]; [|set_solver].
      destruct (Ht' u eq_refl) as [_ Hl']. intros Hlu. by eapply Hl'.
    + exact (Hap q1 q2 r1 r2 l Hne Hq1 Hq2 Hl).
Qed.

Lemma blocked_free p ls s q qr l :
  blocked p ls s = false -> q <> p -> s_procs s !! q = Some qr -> l ∈ ls -> l ∉ held qr.
Proof.
  intros Hb Hne Hq Hl Hh. apply bool_decide_eq_false in Hb. apply Hb. exists q, qr.
  split_and!; [done..|]. apply Exists_exists. eauto.
Qed.

Lemma covered_locks L ws t d : Forall (covered L) ws -> tx_ok d t ->
  unique (apply_writes ws (view d (Some t))) ->
  tx_ok d (mkTx (t_now t) (t_pending t ++ ws) (t_locks t ++ L) false).
Proof.
  intros Hws [Hc _] Hu. split; simpl.
  - apply Forall_app. split; (eapply Forall_impl; [done|]); intros w Hw; eapply covered_weaken, Hw; set_solver.
  - unfold apply_writes in *. by rewrite foldl_app.
Qed.

Lemma keys_step s m : keys_inv s -> keys_inv (step m s).2.
Proof.
  intros Hinv. pose proof Hinv as [Hdb Htx Hap]. destruct m as [p o|p|d].
  - destruct (s_procs s !! p) as [[t [a|c k]]|] eqn:Hp; [by simpl; rewrite Hp| |by simpl; rewrite Hp].
    destruct (step_run p o s t c k Hp) as [->|(r & t' & d' & Hs & Hb & ->)]; [done|]. simpl.
    pose proof (fun u Hu => Htx _ _ u Hp Hu) as Hmine. simpl in Hmine.
    assert (forall u q qr l, t = Some u -> q <> p -> s_procs s !! q = Some qr -> l ∈ t_locks u ->
      l ∉ held qr) as Hlocks.
    { intros u q qr l -> Hne Hq Hl. by apply (Hap p q (mkProc (Some u) (Call c k)) qr l). }
    pose proof (keys_move s p _ [] [] t' (k r) Hinv Hp (Forall_nil_2 _) Hdb) as Hstay.
    change (apply_writes [] (s_db s)) with (s_db s) in Hstay.
    apply serve_served in Hs.
    inversion Hs as [|u Hu|now Hcb Hu|Hend|u Hcc Hu|now v ws Hu Hq|u v ws Hu Ha Hq]; subst; simpl in *.
    + apply Hstay; [set_solver|]. intros u ->. split; [by apply Hmine|]. intros. by eapply Hlocks.
    + apply Hstay; [set_solver|]. intros u0 [= <-]. split; [by destruct (Hmine u eq_refl)|].
      simpl. intros. by eapply Hlocks.
    + apply Hstay; [set_solver|]. intros u0 [= <-]. split; [by split; [constructor|]|]. set_solver.
    + apply Hstay; [set_solver|done].
    + destruct (Hmine u eq_refl) as [Hc Hu]. eapply keys_move; [done..| |done].
      intros q qr l Hne Hq Hl. by eapply Hlocks.
    + eapply keys_move; [done|done|by eapply query_covered|by eapply query_unique| |done].
      intros q qr l Hne Hq' Hl. by eapply blocked_free.
    + apply Hstay; [set_solver|]. intros u0 [= <-]. split.
      * apply covered_locks; [by eapply query_covered|by apply Hmine|].
        eapply query_unique; [|done]. by destruct (Hmine u eq_refl).
      * simpl. intros q qr l Hne Hq' [Hl|Hl]%elem_of_app; [by eapply Hlocks|by eapply blocked_free].
  - split; simpl; [done|..].
    + intros q qr u [_ Hq]%lookup_delete_Some. by eapply Htx.
    + intros q1 q2 r1 r2 l Hne [_ Hq1]%lookup_delete_Some [_ Hq2]%lookup_delete_Some Hl.
      exact (Hap q1 q2 r1 r2 l Hne Hq1 Hq2 Hl).
  - by split.
Qed.

Lemma keys_run d now (ps : gmap nat (prog A)) ms :
  unique d -> unique (s_db (run ms (start d now ps)).2).
Proof.
  intros Hu. refine (ki_db _ (run_invariant (fun _ s => keys_inv s) (fun _ s m => keys_step s m) ms [] _ _)).
  split; simpl; [done|..]; intros *; rewrite !lookup_fmap_Some.
  - by intros (c & <- & _).
  - intros _ (c & <- & _). set_solver.
Qed.
End runs.
End keys.

(** ** The two keys *)

Section instances.
Context `{UuidLib, Postgres}.
Implicit Types (d : DB) (w : write).

(** The member a write may change. *)
Definition touches (w : write) : option Uuid :=
  match w with
  | WMember id _ | WProfile _ id _ _ _ | WActive _ id _ _ | WCredential id _ _ _ => Some id
  | _ => None
  end.

Lemma effect_elsewhere w i o : touches w <> Some i -> effect w i o = o.
Proof. destruct w; try done; simpl; intros Hne; by rewrite decide_False by congruence. Qed.

(** The four statements that write members, with what they have checked. *)
Inductive member_stmt (d : DB) (now : Z) : call -> write -> Prop :=
| ms_insert id hh name role :
    members d !! id = None -> name_taken d hh id name = false ->
    member_stmt d now (QInsertMember id hh name role) (WMember id (mkMember hh name role None None true now now))
| ms_profile id hh name role r :
    members d !! id = Some r -> m_household r = hh -> name_taken d hh id name = false ->
    member_stmt d now (QUpdateProfile id hh name role) (WProfile hh id name role now)
| ms_active id hh active r :
    members d !! id = Some r -> member_stmt d now (QSetActive id hh active) (WActive hh id active now)
| ms_credential id email hash r :
    members d !! id = Some r -> email_taken d id email = false ->
    member_stmt d now (QSetCredential id email hash) (WCredential id email hash now).

Lemma insert_row_Ok {A} checks (a a' : A) w ws :
  insert_row checks a w = Ok (a', ws) -> ws = [w] /\ Forall (fun x => x.1 = false) checks.
Proof.
  unfold insert_row. destruct (List.find fst checks) as [[]|] eqn:Hf; [done|]. intros [= <- <-].
  split; [done|]. apply Forall_forall. intros x Hx. apply (find_none _ _ Hf x). by apply list_elem_of_In.
Qed.

Lemma query_member_stmt c now d v ws : query c now d = Ok (v, ws) ->
  ws = [] \/ exists w, ws = [w] /\ (touches w = None \/ member_stmt d now c w).
Proof.
  destruct c; simpl; try (intros; simplify_eq; by left);
    try (by intros; simplify_eq; right; eauto);
    try (intros [-> _]%insert_row_Ok; right; by eauto).
  - intros [-> Hch]%insert_row_Ok. right. eexists. split; [done|]. right.
    rewrite !Forall_cons in Hch. destruct Hch as (_ & Hid & Hn & _). simpl in Hid, Hn.
    apply bool_decide_eq_false, eq_None_not_Some in Hid. by constructor.
  - destruct (members d !! id) as [r|] eqn:Hr; [|intros; simplify_eq; by left].
    destruct (_ && _) eqn:Hg; [|intros; simplify_eq; by left]. to_prop.
    destruct (negb (role_check role)); [done|]. destruct (name_taken d hh id name) eqn:Hn; [done|].
    intros [= <- <-]. right. eexists. split; [done|]. right. apply bool_decide_eq_true in H1. by econstructor.
  - destruct (members d !! id) as [r|] eqn:Hr; [|intros; simplify_eq; by left].
    unfold one_row. destruct (_ && _); intros; simplify_eq; [|by left].
    right. eexists. split; [done|]. right. by econstructor.
  - case_bool_decide as Hr; [|intros; simplify_eq; by left]. destruct Hr as [r Hr].
    destruct (email_taken d id email) eqn:He; [done|]. intros [= <- <-].
    right. eexists. split; [done|]. right. by econstructor.
  - destruct (bool_decide _ && _); [done|]. intros [= <- <-]. right. eauto.
  - unfold one_row. case_match; intros; simplify_eq; [right; eauto|by left].
  - unfold one_row. case_match; intros; simplify_eq; [right; eauto|by left].
  - unfold one_row. case_match; intros; simplify_eq; [right; eauto|by left].
  - unfold one_row. case_match; intros; simplify_eq; [right; eauto|by left].
  - unfold one_row. case_match; intros; simplify_eq; [right; eauto|by left].
  - destruct (cred_row_of d cred) as [[id r]|]; [|intros; simplify_eq; by left].
    unfold one_row. case_match; intros; simplify_eq; [right; eauto|by left].
Qed.

Lemma member_stmt_locks d now c w id : member_stmt d now c w -> touches w = Some id -> LMember id ∈ takes c d.
Proof.
  intros Hst. destruct Hst as [? ? ? ? Hr|? ? ? ? ? Hr|? ? ? ? Hr|? ? ? ? Hr]; simpl; intros [= ->];
    rewrite ?Hr; simpl; set_solver.
Qed.

Section one_key.
Context (key : member_row -> option lock).

(** What a key needs of the four statements: the key a row gets is locked, and no
    other row has it. *)
Definition guarded_key : Prop := forall d now c w id k,
  member_stmt d now c w -> touches w = Some id ->
  (forall o, (effect w id o ≫= key) = (o ≫= key) \/
             exists k, (effect w id o ≫= key) = Some k /\ k ∈ takes c d) /\
  ((effect w id (members d !! id) ≫= key) = Some k ->
   (members d !! id ≫= key) = Some k \/ forall j, j <> id -> (members d !! j ≫= key) <> Some k).

Lemma guarded_covered c now d v ws :
  guarded_key -> query c now d = Ok (v, ws) ->
  Forall (fun w => (forall i o, (LMember i ∉ takes c d) -> effect w i o = o) /\
    forall i o, (effect w i o ≫= key) = (o ≫= key) \/
                exists k, (effect w i o ≫= key) = Some k /\ k ∈ takes c d) ws.
Proof.
  intros Hk Hq. destruct (query_member_stmt _ _ _ _ _ Hq) as [->|(w & -> & Hw)]; [by constructor|].
  constructor; [|by constructor]. destruct Hw as [Hno|Hst].
  { split; [|left]; intros; by rewrite effect_elsewhere by congruence. }
  split; intros i o.
  - intros Hi. apply effect_elsewhere. intros Ht. apply Hi. by eapply member_stmt_locks.
  - destruct (decide (touches w = Some i)) as [Ht|Ht]; [|left; by rewrite effect_elsewhere].
    apply (Hk d now c w i (LMember i) Hst Ht).
Qed.

Lemma guarded_unique c now d v ws :
  guarded_key ->
  (forall i j k, (members d !! i ≫= key) = Some k -> (members d !! j ≫= key) = Some k -> i = j) ->
  query c now d = Ok (v, ws) ->
  forall i j k, (members (apply_writes ws d) !! i ≫= key) = Some k ->
    (members (apply_writes ws d) !! j ≫= key) = Some k -> i = j.
Proof.
  intros Hk Hu Hq. destruct (query_member_stmt _ _ _ _ _ Hq) as [->|(w & -> & Hw)]; [done|].
  intros i j k. cbn [apply_writes foldl]. rewrite !members_write.
  assert (forall i j, i <> j -> (effect w i (members d !! i) ≫= key) = Some k ->
    (effect w j (members d !! j) ≫= key) = Some k -> touches w = Some i -> False) as Hone.
  { intros a b Hne Ha Hb Ht. destruct Hw as [|Hst]; [congruence|].
    rewrite (effect_elsewhere w b) in Hb by congruence.
    destruct (Hk d now c w a k Hst Ht) as [_ Hfree].
    destruct (Hfree Ha) as [Ha'|Hf]; [|by apply (Hf b)]. by destruct (Hne (Hu a b k Ha' Hb)). }
  intros Hi Hj. destruct (decide (i = j)) as [|Hne]; [done|exfalso].
  destruct (decide (touches w = Some i)) as [Ht|Hti]; [by apply (Hone i j)|].
  destruct (decide (touches w = Some j)) as [Ht|Htj]; [by apply (Hone j i)|].
  rewrite effect_elsewhere in Hi, Hj by done. by destruct (Hne (Hu i j k Hi Hj)).
Qed.
End one_key.

Definition name_key (r : member_row) : option lock := Some (LName (m_household r) (pg_lower (m_name r))).
Definition email_key (r : member_row) : option lock := LEmail ∘ pg_lower <$> m_email r.

Lemma name_free d hh id name : name_taken d hh id name = false ->
  forall j, j <> id -> (members d !! j ≫= name_key) <> Some (LName hh (pg_lower name)).
Proof.
  intros Hn j Hne Hj. apply bool_decide_eq_false in Hn. apply Hn.
  destruct (members d !! j) as [r|] eqn:Hr; [|done]. injection Hj as Hh Hl. by exists j, r.
Qed.

Lemma name_guarded : guarded_key name_key.
Proof.
  intros d now c w id k Hst. destruct Hst as [id' hh name role Hr Hn|id' hh name role r Hr Hh Hn|id' hh active r Hr|
    id' email hash r Hr He]; intros [= ->]; simpl; rewrite ?Hr; simpl; (destruct (decide (id = id)) as [_|?]; [|done]).
  - split; [intros [r|]; [by left|right]; eexists; split; [done|]; set_solver|].
    intros [= <-]. right. by apply name_free.
  - split.
    + intros [r'|]; [|by left]. simpl. case_decide as Hh'; [right|by left].
      eexists. split; [done|]. simpl. rewrite Hh'. set_solver.
    + case_decide; [|by left]. intros [= <-]. right. simpl. rewrite Hh. by apply name_free.
  - split; [intros [r'|]; [|by left]; simpl; case_decide; by left|]. case_decide; by left.
  - split; [intros [r'|]; by left|by left].
Qed.

Lemma email_free d id email : email_taken d id email = false ->
  forall j, j <> id -> (members d !! j ≫= email_key) <> Some (LEmail (pg_lower email)).
Proof.
  intros Hn j Hne Hj. apply bool_decide_eq_false in Hn. apply Hn.
  destruct (members d !! j) as [r|] eqn:Hr; [|done]. exists j, r. split_and!; [done..|].
  unfold email_key in Hj. simpl in Hj. destruct (m_email r); simpl in *; congruence.
Qed.

Lemma email_guarded : guarded_key email_key.
Proof.
  intros d now c w id k Hst. destruct Hst as [id' hh name role Hr Hn|id' hh name role r Hr Hh Hn|id' hh active r Hr|
    id' email hash r Hr He]; intros [= ->]; simpl; rewrite ?Hr; simpl; (destruct (decide (id = id)) as [_|?]; [|done]).
  - split; [intros [r|]; by left|done].
  - split; [intros [r'|]; [|by left]; simpl; case_decide; by left|]. case_decide; by left.
  - split; [intros [r'|]; [|by left]; simpl; case_decide; by left|]. case_decide; by left.
  - split.
    + intros [r'|]; [right|by left]. eexists. split; [done|]. set_solver.
    + intros [= <-]. right. by apply email_free.
Qed.

Definition name_MemberKey : MemberKey :=
  {| key := name_key;
     query_covered := fun c now d v ws => guarded_covered name_key c now d v ws name_guarded;
     query_unique := fun c now d v ws => guarded_unique name_key c now d v ws name_guarded |}.

Definition email_MemberKey : MemberKey :=
  {| key := email_key;
     query_covered := fun c now d v ws => guarded_covered email_key c now d v ws email_guarded;
     query_unique := fun c now d v ws => guarded_unique email_key c now d v ws email_guarded |}.
End instances.
