(* ===== verification/SchemaSpec.v ===== *)
(** The identity tables are well typed in every committed state: roles are domain
    roles, credentials are complete, members, enrollments and passkeys hang on the
    household they name, and names and emails are unique. What the repositories read back therefore always
    decodes to a domain value. *)

From S2P Require Import Prelude GoStrings Uuids IdentityDB IdentityRun Members Discipline MembersSpec SchemaKeys.
Local Open Scope Z_scope.

Section typed.
Context `{UuidLib, Postgres}.
Implicit Types (d : DB) (w : write).

Definition member_ok (d : DB) (r : member_row) : Prop :=
  role_check (m_role r) = true /\ (is_Some (m_email r) <-> is_Some (m_hash r)) /\
  is_Some (households d !! m_household r).

Record typed (d : DB) : Prop := {
  typed_member : forall id r, members d !! id = Some r -> member_ok d r;
  typed_mfa : forall m r, mfa d !! m = Some r -> belongs d m (f_household r) = true;
  typed_cred : forall id r, creds d !! id = Some r -> belongs d (k_member r) (k_household r) = true
}.

(** Households and members are there for good, each in its household. *)
Lemma household_stays w d hh :
  is_Some (households d !! hh) -> is_Some (households (apply_write w d) !! hh).
Proof.
  intros Hh. destruct w; try done. simpl. unfold insert_new. case_match; [done|].
  destruct (decide (id = hh)) as [->|]; [by rewrite lookup_insert_eq|by rewrite lookup_insert_ne].
Qed.

Lemma belongs_alter d m hh (f : member_row -> member_row) id :
  (forall r, m_household (f r) = m_household r) ->
  belongs (set_members (alter f id (members d)) d) m hh = belongs d m hh.
Proof.
  intros Hf. unfold belongs. simpl. destruct (decide (id = m)) as [->|].
  - rewrite lookup_alter_eq. destruct (members d !! m); simpl; by rewrite ?Hf.
  - by rewrite lookup_alter_ne.
Qed.

Definition inserts_member (w : write) : bool := match w with WMember _ _ => true | _ => false end.

Lemma belongs_write w d m hh :
  inserts_member w = false -> belongs (apply_write w d) m hh = belongs d m hh.
Proof.
  destruct w; try done; intros _; apply belongs_alter; intros r; simpl; by try case_decide.
Qed.

Lemma belongs_stays w d m hh : belongs d m hh = true -> belongs (apply_write w d) m hh = true.
Proof.
  destruct (inserts_member w) eqn:Hw; [|by rewrite belongs_write]. destruct w; try done.
  unfold belongs. simpl. unfold insert_new. destruct (members d !! id) eqn:Hid; [done|].
  destruct (decide (id = m)) as [->|]; [by rewrite Hid|by rewrite lookup_insert_ne].
Qed.

(** The writes a transaction may hold. *)
Definition typed_safe (d : DB) (w : write) : Prop :=
  match w with
  | WMember _ _ => False
  | WProfile _ _ _ role _ => role_check role = true
  | WMfa m r => belongs d m (f_household r) = true
  | WCred _ r => belongs d (k_member r) (k_household r) = true
  | _ => True
  end.

Lemma typed_safe_stays d w w' : typed_safe d w -> typed_safe (apply_write w' d) w.
Proof. destruct w; simpl; auto using belongs_stays. Qed.

Lemma belongs_pending d us m hh :
  Forall (typed_safe d) us -> belongs (apply_writes us d) m hh = belongs d m hh.
Proof.
  revert d. induction us as [|u us IH]; intros d Hus; [done|]. apply Forall_cons_1 in Hus as [Hu Hus].
  simpl. rewrite IH; [|eapply Forall_impl; [done|]; intros; by apply typed_safe_stays].
  apply belongs_write. by destruct u.
Qed.

(** A row kept or rewritten without its references changing. *)
Lemma members_alter d (f : member_row -> member_row) id :
  (forall r, members d !! id = Some r -> member_ok d r -> member_ok d (f r)) ->
  (forall r, m_household (f r) = m_household r) ->
  typed d -> typed (set_members (alter f id (members d)) d).
Proof.
  intros Hok Hf [Hm Hmfa Hc]. split.
  - intros id' r Hr. simpl in Hr. apply lookup_alter_Some in Hr as [(-> & r' & Hr & ->)|[_ Hr]].
    + by apply Hok, Hm with id'.
    + by eapply Hm.
  - intros m r Hr. rewrite belongs_alter by done. by apply Hmfa.
  - intros id' r Hr. rewrite belongs_alter by done. by eapply Hc.
Qed.

Lemma typed_mfas d m' cs :
  typed d -> (forall m r, m' !! m = Some r -> belongs d m (f_household r) = true) ->
  typed (mkDB (households d) (members d) m' cs (creds d)).
Proof. by intros [Hm Hmfa Hc] Hm'. Qed.

Lemma typed_creds d c' :
  typed d -> (forall id r, c' !! id = Some r -> belongs d (k_member r) (k_household r) = true) ->
  typed (set_creds c' d).
Proof. by intros [Hm Hmfa Hc] Hc'. Qed.

Lemma insert_new_Some {A} k (x : A) (m : gmap Uuid A) k' y :
  insert_new k x m !! k' = Some y -> (k' = k /\ y = x) \/ m !! k' = Some y.
Proof.
  unfold insert_new. case_match; [auto|]. rewrite lookup_insert_Some. naive_solver.
Qed.

Lemma typed_member_insert d id r : typed d -> member_ok d r -> typed (apply_write (WMember id r) d).
Proof.
  intros [Hm Hmfa Hc] Hr. split; simpl.
  - intros id' r' [[-> ->]|Hr']%insert_new_Some; [done|by eapply Hm].
  - intros m r' Hr'. by apply (belongs_stays (WMember id r)), Hmfa.
  - intros id' r' Hr'. by apply (belongs_stays (WMember id r)), Hc with id'.
Qed.

Lemma typed_write d w : typed d -> typed_safe d w -> typed (apply_write w d).
Proof.
  intros Ht Hs. pose proof Ht as [Hm Hmfa Hc]. destruct w; simpl in Hs |- *; try done.
  - split; simpl; [|done..]. intros id' r' Hr'. destruct (Hm _ _ Hr') as (? & ? & ?).
    split_and!; [done..|]. by apply (household_stays (WHousehold id r)).
  - apply members_alter; [|intros r; by case_decide|done].
    intros r _ (Hr & Hcomp & Hhh). by case_decide.
  - apply members_alter; [|intros r; by case_decide|done].
    intros r _ (Hr & Hcomp & Hhh). by case_decide.
  - apply members_alter; [|done..]. intros r _ (Hr & _ & Hhh). by split_and!.
  - apply typed_mfas; [done|]. intros m' r' [[-> ->]|Hr']%insert_new_Some; [done|by apply Hmfa].
  - apply typed_mfas; [done|]. intros m' r' [(-> & r0 & Hr & ->)|[_ Hr]]%lookup_alter_Some; simpl; by apply Hmfa.
  - apply typed_mfas; [done|]. intros m' r' [(-> & r0 & Hr & ->)|[_ Hr]]%lookup_alter_Some; simpl; by apply Hmfa.
  - apply typed_mfas; [done|]. intros m' r' [_ Hr]%lookup_delete_Some. by apply Hmfa.
  - apply typed_mfas; [done|]. intros m' r' [(-> & r0 & Hr & ->)|[_ Hr]]%lookup_alter_Some; simpl; by apply Hmfa.
  - apply typed_creds; [done|]. intros m' r' [[-> ->]|Hr']%insert_new_Some; [done|by eapply Hc].
  - apply typed_creds; [done|]. intros m' r' [(-> & r0 & Hr & ->)|[_ Hr]]%lookup_alter_Some; simpl; by eapply Hc.
  - apply typed_creds; [done|]. intros m' r' [_ Hr]%lookup_delete_Some. by eapply Hc.
  - apply typed_creds; [done|]. intros m' r' [(-> & r0 & Hr & ->)|[_ Hr]]%lookup_alter_Some; simpl; by eapply Hc.
Qed.

(** What a statement adds to a transaction is safe to commit later. *)
Lemma query_typed_safe d us c now v ws :
  (forall id hh name role, c <> QInsertMember id hh name role) ->
  Forall (typed_safe d) us -> query c now (apply_writes us d) = Ok (v, ws) -> Forall (typed_safe d) ws.
Proof.
  intros Hno Hus. destruct c; simpl; try (intros; simplify_eq; by repeat constructor).
  - intros [-> _]%insert_row_Ok. by repeat constructor.
  - by destruct (Hno id hh name role).
  - unfold sql_update_profile. repeat case_match; try (intros; simplify_eq; by repeat constructor).
    intros [= <- <-]. repeat constructor. simpl. by to_prop.
  - unfold sql_set_active, one_row. repeat case_match; intros; simplify_eq; by repeat constructor.
  - unfold sql_set_credential. repeat case_match; intros; simplify_eq; by repeat constructor.
  - intros [-> Hch]%insert_row_Ok. repeat constructor. simpl.
    rewrite !Forall_cons in Hch. destruct Hch as (_ & _ & _ & Hb & _). simpl in Hb.
    apply negb_false_iff in Hb. by rewrite belongs_pending in Hb.
  - unfold sql_update_mfa_secret. repeat case_match; intros; simplify_eq; by repeat constructor.
  - intros [-> _]%insert_row_Ok. by repeat constructor.
  - unfold sql_delete_mfa, one_row. repeat case_match; intros; simplify_eq; by repeat constructor.
  - unfold sql_mark_used, one_row. repeat case_match; intros; simplify_eq; by repeat constructor.
  - unfold sql_record_step, one_row. repeat case_match; intros; simplify_eq; by repeat constructor.
  - intros [-> Hch]%insert_row_Ok. repeat constructor. simpl.
    rewrite !Forall_cons in Hch. destruct Hch as (_ & _ & _ & Hb & _). simpl in Hb.
    apply negb_false_iff in Hb. by rewrite belongs_pending in Hb.
  - unfold sql_rename_cred, one_row. repeat case_match; intros; simplify_eq; by repeat constructor.
  - unfold sql_delete_cred, one_row. repeat case_match; intros; simplify_eq; by repeat constructor.
  - unfold sql_update_assertion, one_row. repeat case_match; intros; simplify_eq; by repeat constructor.
Qed.

Lemma typed_writes d ws : typed d -> Forall (typed_safe d) ws -> typed (apply_writes ws d).
Proof.
  revert d. induction ws as [|w ws IH]; intros d Ht Hws; [done|]. apply Forall_cons_1 in Hws as [Hw Hws].
  apply IH; [by apply typed_write|]. eapply Forall_impl; [done|]. intros. by apply typed_safe_stays.
Qed.

(** A statement outside a transaction keeps the tables well typed. *)
Lemma query_typed d c now v ws : typed d -> query c now d = Ok (v, ws) -> typed (apply_writes ws d).
Proof.
  intros Ht. destruct (match c with QInsertMember _ _ _ _ => true | _ => false end) eqn:Hc.
  - destruct c; try done. simpl. intros [-> Hch]%insert_row_Ok. apply typed_member_insert; [done|].
    rewrite !Forall_cons in Hch. destruct Hch as (Hr & _ & _ & Hhh & _). simpl in Hr, Hhh.
    apply negb_false_iff in Hr, Hhh. apply bool_decide_eq_true in Hhh. split_and!; [done|done|done].
  - intros Hq. apply typed_writes; [done|]. apply (query_typed_safe d [] c now v); [|done|done].
    intros id hh name role ->. done.
Qed.

Lemma typed_preserved : preserved (fun _ => False) typed_safe (fun _ => typed).
Proof.
  split.
  - intros tr d w. apply typed_write.
  - apply typed_safe_stays.
  - done.
  - done.
  - intros ph c now d us v ws Hph Hal _. apply query_typed_safe. intros id hh name role ->. done.
  - intros tr d p c o now r t' d' Hc _ Ht E.
    pose proof (serve_served _ _ _ _ _ _ _ _ E) as Hs.
    inversion Hs as [|u Hu|now' Hcb Hu|Hend|u Hcc Hu|now' v ws Hu Hq|u v ws Hu Ha Hq]; subst; try done.
    by eapply query_typed.
Qed.

Lemma scanMember_typed d id r : typed d -> members d !! id = Some r ->
  scanMember (id, r) = Some (mkMem id (m_household r) (m_name r) (m_role r) (m_active r) (m_created r) (m_updated r)).
Proof.
  intros Ht Hr. destruct (typed_member _ Ht _ _ Hr) as (Hrole & _).
  unfold scanMember. rewrite !uuid_parse_string. simpl. unfold ParseRole.
  replace (role_valid (m_role r)) with true; [done|]. symmetry.
  apply bool_decide_eq_true in Hrole. unfold role_valid. rewrite !orb_true_iff, !bool_decide_eq_true.
  set_solver.
Qed.
End typed.

(** ** The unique keys *)

Section unique_keys.
Context `{UuidLib, Postgres}.
Implicit Types (d : DB).

(** One display name per household, whatever its case, and one member per email. *)
Definition keys_unique (d : DB) : Prop :=
  (forall i j ri rj, members d !! i = Some ri -> members d !! j = Some rj ->
     m_household ri = m_household rj -> pg_lower (m_name ri) = pg_lower (m_name rj) -> i = j) /\
  forall email, email_unique d email.

Lemma keys_unique_iff d :
  keys_unique d <-> unique (MemberKey := name_MemberKey) d /\ unique (MemberKey := email_MemberKey) d.
Proof.
  split; intros [Hn He]; split.
  - intros i j k Hi Hj. destruct (members d !! i) as [ri|] eqn:Hri, (members d !! j) as [rj|] eqn:Hrj; try done.
    simpl in *. unfold name_key in *. eapply Hn; [done|done|congruence..].
  - intros i j k Hi Hj. destruct (members d !! i) as [ri|] eqn:Hri, (members d !! j) as [rj|] eqn:Hrj; try done.
    simpl in *. unfold email_key in *.
    destruct (m_email ri) as [ei|] eqn:Hei, (m_email rj) as [ej|] eqn:Hej; try done. simpl in *.
    eapply (He ei); [done|done|by rewrite Hei|]. rewrite Hej. simpl. congruence.
  - intros i j ri rj Hi Hj Hh Hl. apply (Hn i j (LName (m_household ri) (pg_lower (m_name ri)))); rewrite ?Hi, ?Hj; simpl; unfold name_key;
      congruence.
  - intros email i j ri rj Hi Hj Hei Hej. unfold email_is in *.
    destruct (m_email ri) as [ei|] eqn:Ei, (m_email rj) as [ej|] eqn:Ej; try done.
    apply (He i j (LEmail (pg_lower email))); rewrite ?Hi, ?Hj; simpl; unfold email_key; rewrite ?Ei, ?Ej; simpl;
      congruence.
Qed.

Lemma keys_unique_run {A} (ps : gmap nat (prog A)) d now ms :
  keys_unique d -> keys_unique (s_db (run ms (start d now ps)).2).
Proof.
  rewrite !keys_unique_iff. intros [Hn He]. split.
  - exact (keys_run (H1 := name_MemberKey) d now ps ms Hn).
  - exact (keys_run (H1 := email_MemberKey) d now ps ms He).
Qed.
End unique_keys.

(** C11. From a well-typed identity schema, however disciplined programs interleave, fail
    or stop, every committed state is well typed: every member's role is a domain role,
    its email and password hash are both there or both missing, its household exists,
    and every enrollment and every passkey belongs to a member of the household it
    names; no two members of a household share a display name and no two members an
    email, whatever the case; and every member row decodes to the domain member it
    stands for. *)
Theorem schema_well_typed `{UuidLib, Postgres} {A} (ps : gmap nat (prog A)) (d : DB) (now : Z)
    (ms : list move) :
  (forall p c, ps !! p = Some c -> disciplined c) ->
  typed d -> keys_unique d ->
  let d' := s_db (run ms (start d now ps)).2 in
  typed d' /\ keys_unique d' /\
  forall id r, members d' !! id = Some r ->
    scanMember (id, r) =
    Some (mkMem id (m_household r) (m_name r) (m_role r) (m_active r) (m_created r) (m_updated r)).
Proof.
  intros Hps Ht Hu d'. assert (typed d') as Ht'.
  { refine (disciplined_run _ _ _ d now ps ms typed_preserved Hps Ht _). by intros p c r _ []. }
  split_and!; [done|by apply keys_unique_run|]. intros id r. by apply scanMember_typed.
Qed.

Module SchemaWitness.
Import HexUuid MembersWitness.

Definition empty_home : DB := mkDB {[ uid 0 := mkHousehold "home" 0 0 ]} ∅ ∅ ∅ ∅.

(** Two members created at once in one household. *)
Definition joiners : gmap nat (P Member) :=
  {[ 1%nat := CreateMember (Some (mkMem (uid 1) (uid 0) "ann" "owner" true 0 0));
     2%nat := CreateMember (Some (mkMem (uid 2) (uid 0) "bob" "child" true 0 0)) ]}.

Lemma schema_well_typed_witness :
  let d := s_db (run [Run 1 ok; Run 2 ok] (start empty_home 0 joiners)).2 in
  typed d /\ keys_unique d.
Proof.
  assert (forall i (r : member_row), members empty_home !! i <> Some r) as Hnone
    by (intros i r Hr; by destruct (lookup_empty_Some _ _ Hr)).
  assert (forall p c, joiners !! p = Some c -> disciplined c) as Hps.
  { intros p c. unfold joiners. rewrite lookup_insert_Some, lookup_singleton_Some.
    intros [[<- <-]|[_ [<- <-]]]; apply CreateMember_disciplined. }
  edestruct (schema_well_typed joiners empty_home 0 [Run 1 ok; Run 2 ok] Hps) as (Ht & Hu & _);
    [| |exact (conj Ht Hu)].
  - split; intros id r Hr; by destruct (lookup_empty_Some _ _ Hr).
  - split; [intros i j ri rj Hi; by destruct (Hnone i ri)|]. intros email i j ri rj Hi; by destruct (Hnone i ri).
Defined.

Example both_joined :
  size (members (s_db (run [Run 1 ok; Run 2 ok] (start empty_home 0 joiners)).2)) = 2%nat.
Proof. vm_compute. reflexivity. Qed.
End SchemaWitness.
